(* ===== verification/_CoqProject ===== *)
-Q . S2P
Prelude.v
GoStrings.v
GoTime.v
GoErrors.v
Api.v
LeaseConditions.v
Concrete.v
Resources.v
Policy.v
LeaseExpiration.v
Lifetime.v
LeaseWarnings.v
LeaseStatus.v
Sha.v
Programs.v
Threads.v
Clock.v
Metrics.v
Kube.v
World.v
Identity.v
Placement.v
Outage.v
Remote.v
Provider.v
LeaseCommon.v
LeaseProvision.v
LeaseCleanup.v
LeaseReconcile.v
Runtime.v
LeasePaths.v
LeaseSafety.v
LeaseEnsure.v
LeaseBehaviour.v
LeaseProgress.v
ManagerMain.v
TargetController.v
GoText.v
ProviderShare.v
GoDuration.v
WarningKeys.v
CliBuild.v
Cli.v
WebhookNames.v
WebhookAuth.v
TokenCache.v
WebhookActions.v
WebhookServer.v
WebhookSafety.v
WebhookMain.v
WebhookController.v
CliSafety.v
MetricLabels.v
StatusInvariant.v
GoHeap.v
DeepCopy.v
System.v
GoFlag.v
ManagerSetup.v
ManagerStart.v
WebhookStart.v
WebhookServe.v
Convergence.v
Provisioning.v
TargetLife.v
CliTree.v
