(* ===== verification/Prelude.v ===== *)
(** * KubeLease: a verification development

    KubeLease is a Kubernetes operator that hands out temporary environments.
    An [EnvironmentLease] asks for a namespace with a quota, limits and a network
    policy for a limited time, on the control cluster or on a remote cluster
    registered as a [ClusterTarget], within the limits of an
    [EnvironmentLeasePolicy].  A lease expires at its hard TTL, or earlier when it
    is idle; it can be renewed, touched and deleted; and at its end the
    environment, and only that environment, has to go.

    ** The program and the files that model it

    Values and vocabulary:
    - [GoStrings], [GoTime], [GoErrors], [Sha]: what the program uses of the Go
      standard library, and its own error types.  A [time.Duration] is a [Z]
      with 64-bit wrap-around, an instant a [Z] of nanoseconds; errors are values
      with [errors.As] and [apierrors.IsNotFound] as functions on them.
    - [Api]: the resources of api/v1alpha1 and the Kubernetes objects the program
      reads and writes, as records with functional update.

    Pure components, one file each:
    - [LeaseConditions], [LeaseStatus]: internal/lease/conditions.go, status.go.
    - [LeaseExpiration]: internal/lease/expiration.go and activity.go, the
      arithmetic of hard and idle expiration; [Lifetime] proves what it means
      over the whole life of a lease.
    - [LeaseWarnings]: internal/lease/warnings.go and schedule.go.
    - [Policy]: internal/policy/resolve.go.
    - [Resources]: internal/resources, the desired objects and adoption.

    Components that call out are programs over a signature of effects
    ([Programs], [Kube]): Kubernetes API calls per object kind and client, the
    clock, the client provider, the outage tracker and gate, events and metrics.
    - [Identity]: internal/identity, the checks before a deletion.
    - [Placement]: internal/placement/decide.go.
    - [Remote]: internal/remote/resolve.go; [Outage]: outage.go, a state machine
      of windows and semaphores; [Provider]: provider.go, the client cache;
      [ProviderShare]: the same under any number of workers.
    - [LeaseCommon], [LeaseProvision], [LeaseCleanup], [LeaseReconcile]:
      internal/controller/environmentlease_controller.go, in the order of the
      calls: Reconcile resolves the policy, stamps and derives the deadlines, and
      then either provisions (placement, session, namespace, quota, limits,
      network policy, warnings) or cleans up.
    - [TargetController]: internal/controller/clustertarget_controller.go.
    - [Metrics]: the Prometheus collectors of internal/metrics and of the webhook,
      their registration and the bounds promised for their labels.
    - [ManagerMain]: the wiring of cmd/main.go, with the probe of the control
      cluster's identity; [ManagerSetup]: both SetupWithManager, the indexes, watches
      and predicates; [ManagerStart]: cmd/main.go from the command line to the exit
      code, with the slices of TLS options and the array they share.

    The source webhook (internal/sourcewebhook) turns HTTP requests into leases:
    - [GoText]: trimming, lower case, hexadecimal, HMAC.
    - [WebhookNames]: github_identity.go, the lease names of pull requests.
    - [WebhookAuth]: auth.go and github_signature.go, one request at a time;
      [TokenCache]: the token cache of auth.go with its RWMutex, under any number of
      requests.
    - [WebhookActions]: actions.go and github_actions.go.
    - [WebhookServer]: the two endpoints, handler.go and github_handler.go, from a
      request to a response; [WebhookSafety] proves what they can do.
    - [WebhookMain]: cmd/kubelease-webhook and server.go, from flags and environment
      to a server that listens, its configuration, probes and routes; [WebhookStart]:
      the same from the words of the command line; [WebhookServe]: from there to the
      exit, the two goroutines of ListenAndServe, the signal and the shutdown.

    The command line client (internal/cli):
    - [GoDuration]: [time.ParseDuration], bit for bit.
    - [CliBuild]: what create makes of its flags; [Cli]: every command, from its
      arguments to its output and exit code; [CliSafety] proves what they can do.
    - [CliTree]: the tree of commands and flags of root.go and the new...Command
      functions, the kubeconfig, and cmd/kubectl-kubelease.

    Below the values:
    - [GoFlag]: the package flag, statement by statement, with a specification of a
      command line as a sequence of settings; both servers read theirs with it.
    - [GoHeap]: objects, pointers, slices and maps with sharing; [DeepCopy]: the
      generated deep copies of api/v1alpha1 on that heap.  Everywhere else values are
      immutable, which is what independent copies justify.

    Long Go functions are split at their branch points into definitions of a few
    lines that are composed as the source composes them; a function that mutates
    its lease returns the new lease.

    ** How effects are reasoned about

    A program is a tree that says which call comes next for each answer so far.
    [runs p h tr a] is one behaviour: the trace of calls with their answers, the
    newest first, and the result.  Every theorem about a program quantifies over
    all behaviours, so over all answers: failing, stale and contradictory ones,
    and any interleaving with other writers.  [safe] is the weakest precondition
    of a program for a rule that every call must obey in view of the history;
    [guaranteed G tr] says that a trace obeys it.  [World] is one concrete
    handler, a small cluster in memory, on which programs are executed ([Runtime]
    provisions and cleans up an environment in it): the witnesses run there, and
    only the theorems of [Convergence], [Provisioning] and [TargetLife] are about it.
    It has a field index or not, as the cache of the manager and a client do.  [Threads] runs several programs interleaved on one shared
    state, where a call that is not possible blocks; [System], [TokenCache],
    [ProviderShare], [WebhookServe] and [Clock] (the clocks of
    internal/lease/clock.go; the fake one is linearizable) are about such
    interleavings.

    ** What the theorems show

    - Safety of the destructive calls: [LeaseSafety] (a namespace is deleted only
      at the end of its lease's life and after it was proved to be the lease's;
      the lease goes last), [LeasePaths] (provisioning and cleanup never meet in
      one run; the gate is balanced on every path), [TargetController] (sticky
      identity, proved readiness, protected deletion), [Identity].
    - Refinement of an abstract contract: [Policy] ([conforms]), [LeaseExpiration]
      and [Lifetime] ([stamped], [deadlineOf], the step relation [lives]),
      [LeaseStatus] ([status_agree]), [LeaseWarnings] ([due], [event]),
      [Placement] ([eligible], [justified], [decided]), [Outage] ([gate_reachable]).
    - Progress: [LeaseProgress] (a run that neither fails nor asks to be run again
      has left nothing to do, or told why), [NextReconcileAfter] never busy-loops,
      [WarningKeys] (every warning is delivered exactly once), create --wait returns,
      and asks no more once its timeout is over ([CliSafety]).
    - Bounds: the cache of [Provider] stays within its bound, client limits are
      capped, 32-bit lease counts are exact below their width, label values of
      metrics are the documented ones wherever there are such ([MetricLabels]).
    - Types: [StatusInvariant] (leases stay well-formed under every writer: the
      controller, the commands, both endpoints), by programs typed with what a lease
      sent and a lease answered may be.
    - Safety of the webhook: [WebhookSafety] (no write without authentication and
      a valid request, only the writes of the action, success only for
      acknowledged writes), [WebhookAuth] (the signature check accepts exactly the
      HMAC of the body), [WebhookNames] (lease names are valid and keep the number).
    - Safety of the commands: [CliSafety] (a command writes only what it is for, at
      most once; a successful extend is what the controller arrives at).
    - Convergence: [Convergence] (against the reference API server of [World] a lease
      that has ended is gone, with its namespace, within two reconciles more than the
      namespace has finalizers); [Provisioning] (one reconcile of a lease that is valid
      builds or repairs its environment and leaves it Active; the two together are the
      whole life of a lease, from its creation to nothing left); [TargetLife] (targets
      become and stay Ready, are refused after a swap of their cluster, and go when no
      lease refers to them, whether or not the cache has its indexes).
    - Concurrency: [TokenCache] (no data race, no deadlock, and every call is one that
      runs alone), [ProviderShare] (a shared client is always one for the credentials
      its caller has read), [WebhookServe] (the goroutines end, with the exit code that
      the end deserves), [Outage] (slots).
    - Interleaving: [System] (any number of reconciles, commands and requests, call by
      call, with crashes, stale reads and lost answers, keep the store well-formed).
    - The processes: [ManagerStart], [WebhookStart] and [CliTree] (what every command
      line leads to), [ManagerSetup] (which leases each watch wakes), [DeepCopy] (copies share nothing with their original).
    - Composition: [WebhookController] (the leases a started webhook creates are
      leases the controller accepts, for the lifetime of the policy that was
      checked), [ManagerMain] (namespaces stamped by one process pass the ownership
      check of the next), [CliSafety] (extend against the controller's arithmetic).
    - [LeaseEnsure]: what a successful ensure step has established on the cluster.
    - [MetricLabels]: every report fits a declared collector, every request of the
      webhook is counted once, the health gauge follows the Ready condition.
    - [LeaseBehaviour] and parts of [Policy], [Outage], [TargetController] and
      [MetricLabels]: behaviours that differ from what comments promise, stated as
      the code has them.

    ** Parameters

    Code outside the repository is a class of operations with its documented laws
    in a second class: resource quantities ([QuantityAPI]), condition helpers
    ([ConditionsAPI]), label selectors ([SelectorAPI]), controllerutil
    ([ControllerutilAPI], with [OwnerReferenceLaws]), RetryOnConflict ([RetryAPI]), kubeconfig parsing
    ([ClientcmdAPI], [KubeconfigAPI]), cobra ([CobraAPI]), the event handlers of
    controller-runtime ([HandlerAPI]), the deep copies of apimachinery ([MetaAPI]).
    The growth of a slice by append and the flags that zap and controller-runtime
    register are functions ([ManagerStart]).  [Concrete], [Runtime] and the witness sections give
    instances that satisfy the laws.  JSON and YAML ([JSONAPI], [PoliciesAPI],
    [Serializer]) and the parser of quantities ([QuantityParser]) have no laws: the
    theorems hold for every one.  The order in which a Go map is enumerated is a
    function with the law that it lists the map ([WebhookMain], [Provider]).

    ** Bounds and fuel

    The eviction loop of [Provider] runs on the size of the cache as fuel, enough
    because every round deletes an entry ([storeCache_correct] shows that the
    bound is reached).  The wait loop of create takes a number of rounds;
    [runCreate_correct] shows that with a clock that advances with its sleeps one
    round more than the timeout has seconds is enough.  The decimal printers of
    [GoTime], the scanner of [GoDuration] and the block loop of [Sha] run on the
    length of what they print, read or hash.  All other recursion is structural.

    ** What is not modelled

    Logging, scheme registration, JSON encoding and with it the truncation of stored
    instants to whole seconds, help texts and buckets of collectors, HTTP timeouts,
    and the second signal, which ends a process at once.  Of the client the alignment
    of tables and the messages of commands that write.  What controller-runtime does behind the calls
    of the manager is answered arbitrarily. *)

From stdpp Require Export base list gmap strings sorting pretty.
From Stdlib Require Export ZArith Lia.

#[export] Set Default Goal Selector "!".

Open Scope Z_scope.

(** ** Functional record update

    [r <| f := v |>] is [r] with field [f] replaced by [v]: the model of a Go
    assignment [r.f = v].  A record joins in with one [Eta] instance, its
    eta-expansion; the setter of a field is computed from it. *)

Class Eta (R : Type) := eta : R -> R.

Class Setter {R T : Type} (proj : R -> T) := modify : (T -> T) -> R -> R.

Ltac derive_setter :=
  lazymatch goal with
  | |- @Setter ?R ?T ?proj =>
      let e := constr:(_ : Eta R) in
      let e' := eval hnf in e in
      let f := fresh "f" in
      let r := fresh "r" in
      intros f r;
      let body := eval cbv beta in (e' r) in
      lazymatch eval pattern (proj r) in body with
      | ?h _ => let b := eval cbv beta in (h (f (proj r))) in exact b
      end
  end.

#[export] Hint Extern 1 (Setter _) => derive_setter : typeclass_instances.

Notation "r <| proj := v |>" := (modify (proj:=proj) (fun _ => v) r)
  (at level 1, left associativity, proj constr at level 9,
   format "r <| proj := v |>").

(** ** Shared automation *)

(** Split every [match] of the goal, keeping the equations. *)
Ltac case_goal :=
  match goal with
  | |- context [match ?x with _ => _ end] =>
      lazymatch x with
      | context [match _ with _ => _ end] => fail
      | _ => destruct x eqn:?
      end
  end.

(** Split every [match] of a hypothesis, discarding the impossible branches. *)
Ltac case_hyp H :=
  match type of H with
  | context [match ?x with _ => _ end] =>
      lazymatch x with
      | context [match _ with _ => _ end] => fail
      | _ => destruct x eqn:?; try discriminate H
      end
  end.

(** Turn boolean comparisons of [Z] into propositions. *)
Ltac zify_bool :=
  repeat match goal with
  | H : (_ <? _) = true |- _ => apply Z.ltb_lt in H
  | H : (_ <? _) = false |- _ => apply Z.ltb_ge in H
  | H : (_ <=? _) = true |- _ => apply Z.leb_le in H
  | H : (_ <=? _) = false |- _ => apply Z.leb_gt in H
  | H : (_ =? _) = true |- _ => apply Z.eqb_eq in H
  | H : (_ =? _) = false |- _ => apply Z.eqb_neq in H
  | H : negb _ = true |- _ => apply negb_true_iff in H
  | H : negb _ = false |- _ => apply negb_false_iff in H
  | H : (_ && _) = true |- _ => apply andb_true_iff in H as [? ?]
  | H : (_ || _) = false |- _ => apply orb_false_iff in H as [? ?]
  end.

(** Case analysis on the code's conditions, then linear arithmetic. *)
Ltac by_cases := repeat case_goal; zify_bool; simplify_eq/=; try lia; eauto.

(** ** The hint database of the development *)

Create HintDb kubelease discriminated.

(** ** Generic lemmas *)

Lemma bool_eq_iff (b c : bool) : (b = true <-> c = true) -> b = c.
Proof. destruct b, c; naive_solver. Qed.

(** [find] on a list in Go's sense: the first element with the property. *)
Fixpoint find_first {A} (P : A -> bool) (l : list A) : option A :=
  match l with
  | [] => None
  | x :: l' => if P x then Some x else find_first P l'
  end.

Lemma find_first_Some {A} (P : A -> bool) l x :
  find_first P l = Some x -> x ∈ l /\ P x = true.
Proof.
  induction l as [|y l IH]; simpl; [done|].
  destruct (P y) eqn:HP; intros H; simplify_eq.
  - split; [constructor | done].
  - destruct (IH H). split; [by constructor | done].
Qed.

Lemma find_first_None {A} (P : A -> bool) l :
  find_first P l = None <-> Forall (fun x => P x = false) l.
Proof.
  induction l as [|y l IH]; simpl; [split; auto|].
  destruct (P y) eqn:HP; split; intros H; try done.
  - inversion H; congruence.
  - constructor; [done | by apply IH].
  - inversion H; by apply IH.
Qed.
