(* ===== verification/GoStrings.v ===== *)
(** * The Go string functions the program uses

    Go strings are byte strings, modelled as [string] (lists of 8-bit
    characters).  This file models the functions of the packages [strings],
    [strconv] and [fmt] that the sources call: concatenation, [%q] quoting,
    [%d] of integers, [strings.Contains] and the prefix tests. *)

From S2P Require Import Prelude.
From Stdlib Require Import Ascii.

(** [fmt]'s [%d] and [strconv.Itoa]. *)
Definition Itoa (n : Z) : string := pretty n.

(** [strings.HasPrefix]. *)
Fixpoint HasPrefix (s prefix : string) : bool :=
  match prefix, s with
  | EmptyString, _ => true
  | String p prefix', String c s' => Ascii.eqb p c && HasPrefix s' prefix'
  | String _ _, EmptyString => false
  end.

(** [strings.Contains]. *)
Fixpoint Contains (s substr : string) : bool :=
  HasPrefix s substr ||
  match s with
  | EmptyString => false
  | String _ s' => Contains s' substr
  end.

(** One hexadecimal digit, as [strconv] and [encoding/hex] print it. *)
Definition hex_digit (n : N) : ascii :=
  if (n <? 10)%N then ascii_of_N (48 + n) else ascii_of_N (87 + n).

(** One byte of a string as [%q] prints it (ASCII; bytes of a multi-byte rune
    are left as they are). *)
Definition quote_byte (c : ascii) : string :=
  let n := N_of_ascii c in
  if (n =? 34)%N then "\" +:+ String (ascii_of_N 34) ""
  else if (n =? 92)%N then "\\"
  else if (n =? 7)%N then "\a"
  else if (n =? 8)%N then "\b"
  else if (n =? 12)%N then "\f"
  else if (n =? 10)%N then "\n"
  else if (n =? 13)%N then "\r"
  else if (n =? 9)%N then "\t"
  else if (n =? 11)%N then "\v"
  else if (n <? 32)%N || (n =? 127)%N then
    "\x" +:+ String (hex_digit (n / 16)) (String (hex_digit (n mod 16)) "")
  else String c "".

Fixpoint quote_body (s : string) : string :=
  match s with
  | EmptyString => ""
  | String c s' => quote_byte c +:+ quote_body s'
  end.

(** [fmt]'s [%q] of a string. *)
Definition quote (s : string) : string :=
  let dq := String (ascii_of_N 34) "" in dq +:+ quote_body s +:+ dq.

Definition bool_string (b : bool) : string := if b then "true" else "false".

Definition is_empty (s : string) : bool := String.eqb s "".

Lemma is_empty_true s : is_empty s = true <-> s = "".
Proof. apply String.eqb_eq. Qed.

Lemma is_empty_false s : is_empty s = false <-> s <> "".
Proof. apply String.eqb_neq. Qed.

Lemma HasPrefix_app p s : HasPrefix (p +:+ s) p = true.
Proof.
  induction p as [|c p IH]; simpl; [by destruct s|].
  by rewrite Ascii.eqb_refl.
Qed.

Lemma Contains_prefix s sub : HasPrefix s sub = true -> Contains s sub = true.
Proof. destruct s; simpl; intros ->; done. Qed.

Lemma Contains_app_r p s sub : Contains s sub = true -> Contains (p +:+ s) sub = true.
Proof. induction p as [|c p IH]; simpl; [done|]. intros H. rewrite IH by done. apply orb_true_r. Qed.

Lemma Contains_app p s t : Contains (p +:+ s +:+ t) s = true.
Proof. apply Contains_app_r, Contains_prefix, HasPrefix_app. Qed.
