(* ===== verification/GoTime.v ===== *)
(** * Go durations and instants

    [time.Duration] is an [int64] number of nanoseconds, kept as a [Z] with
    its wrap-around written out where an operation can overflow.  An instant
    ([time.Time] in UTC, the only form the program stores) is a [Z] number of
    nanoseconds since the zero [time.Time], 0001-01-01T00:00:00Z.  [Time.Add]
    only saturates when the seconds leave an [int64], 292 billion years away,
    so it is the exact sum here; [Time.Sub] saturates at the bounds of
    [Duration] and does so here. *)

From S2P Require Import Prelude GoStrings.
From Stdlib Require Import Ascii.

Notation duration := Z (only parsing).
Notation time := Z (only parsing).

Definition two63 : Z := 9223372036854775808.
Definition minDuration : duration := - two63.
Definition maxDuration : duration := two63 - 1.

(** The value an [int64] expression keeps of a mathematical result. *)
Definition wrap64 (z : Z) : Z := (z + two63) mod (2 * two63) - two63.

Definition in_i64 (z : Z) : Prop := minDuration <= z <= maxDuration.

Definition Microsecond : duration := 1000.
Definition Millisecond : duration := 1000000.
Definition Second : duration := 1000000000.
Definition Minute : duration := 60 * Second.
Definition Hour : duration := 60 * Minute.

Definition TimeZero : time := 0.
Definition IsZero (t : time) : bool := t =? TimeZero.
Definition Before (t u : time) : bool := t <? u.
Definition After (t u : time) : bool := u <? t.
Definition Add (t : time) (d : duration) : time := t + d.

(** [Time.Sub], saturating. *)
Definition Sub (t u : time) : duration :=
  let d := t - u in
  if d <? minDuration then minDuration
  else if maxDuration <? d then maxDuration
  else d.

(** [-d] on [Duration]. *)
Definition neg64 (d : duration) : duration := wrap64 (- d).

(** A [*metav1.Time] compared with [IsZero]: nil counts as zero. *)
Definition IsZeroPtr (t : option time) : bool :=
  match t with None => true | Some t => IsZero t end.

(** [Duration.Round]. *)
Definition lessThanHalf (x y : Z) : bool := x + x <? y.

Definition Round (d m : duration) : duration :=
  if m <=? 0 then d else
  let r := Z.rem d m in
  if d <? 0 then
    let r := - r in
    if lessThanHalf r m then d + r
    else let d1 := wrap64 (d - m + r) in
         if d1 <? d then d1 else minDuration
  else
    if lessThanHalf r m then d - r
    else let d1 := wrap64 (d + m - r) in
         if d <? d1 then d1 else maxDuration.

(** [Duration.String].  The Go code fills a buffer from its end, so the text
    already written is the accumulator [w]. *)
Definition digit_char (d : Z) : ascii := ascii_of_N (48 + Z.to_N d).

(** [fmtFrac]: the fraction of [v] over [10^prec], without trailing zeros. *)
Fixpoint fmtFrac (w : string) (v : Z) (prec : nat) (print : bool) : string * Z :=
  match prec with
  | O => (if print then "." +:+ w else w, v)
  | S prec' =>
      let digit := v mod 10 in
      let print := print || negb (digit =? 0) in
      fmtFrac (if print then String (digit_char digit) w else w) (v / 10) prec' print
  end.

Definition fmtInt (w : string) (v : Z) : string := Itoa v +:+ w.

(** The micro sign U+00B5 in UTF-8. *)
Definition micro_sign : string :=
  String (ascii_of_N 194) (String (ascii_of_N 181) "").

(** The text of a magnitude. *)
Definition durationBody (u : Z) : string :=
  if u <? Second then
    if u =? 0 then "0s"
    else
      let '(prec, unit) :=
        if u <? Microsecond then (0%nat, "ns")
        else if u <? Millisecond then (3%nat, micro_sign +:+ "s")
        else (6%nat, "ms") in
      let '(w, u) := fmtFrac unit u prec false in
      fmtInt w u
  else
    let '(w, u) := fmtFrac "s" u 9 false in
    let w := fmtInt w (u mod 60) in
    let u := u / 60 in
    if 0 <? u then
      let w := fmtInt ("m" +:+ w) (u mod 60) in
      let u := u / 60 in
      if 0 <? u then fmtInt ("h" +:+ w) u else w
    else w.

Definition DurationString (d : duration) : string :=
  let body := durationBody (Z.abs d) in
  if d <? 0 then "-" +:+ body else body.

(** [t.UTC().Format(time.RFC3339)]: the proleptic Gregorian date of the day
    number (counted from 0000-03-01, so that leap days come last) and the time
    of day. *)
Fixpoint pad (width : nat) (s : string) : string :=
  match width with
  | O => s
  | S w => if (String.length s <? width)%nat then "0" +:+ pad w s else s
  end.

Definition civil (days : Z) : Z * Z * Z :=
  let z := days + 306 in
  let era := z / 146097 in
  let doe := z mod 146097 in
  let yoe := (doe - doe / 1460 + doe / 36524 - doe / 146096) / 365 in
  let doy := doe - (365 * yoe + yoe / 4 - yoe / 100) in
  let mp := (5 * doy + 2) / 153 in
  let d := doy - (153 * mp + 2) / 5 + 1 in
  let m := if mp <? 10 then mp + 3 else mp - 9 in
  (yoe + era * 400 + (if m <=? 2 then 1 else 0), m, d).

Definition FormatRFC3339 (t : time) : string :=
  let secs := t / Second in
  let sod := secs mod 86400 in
  let '(y, m, d) := civil (secs / 86400) in
  pad 4 (Itoa y) +:+ "-" +:+ pad 2 (Itoa m) +:+ "-" +:+ pad 2 (Itoa d) +:+ "T" +:+
  pad 2 (Itoa (sod / 3600)) +:+ ":" +:+ pad 2 (Itoa (sod / 60 mod 60)) +:+ ":" +:+
  pad 2 (Itoa (sod mod 60)) +:+ "Z".

(** ** Facts *)

Lemma wrap64_id z : in_i64 z -> wrap64 z = z.
Proof.
  unfold in_i64, wrap64, minDuration, maxDuration, two63. intros H.
  rewrite Z.mod_small by lia. lia.
Qed.

Lemma wrap64_range z : in_i64 (wrap64 z).
Proof.
  unfold in_i64, wrap64, minDuration, maxDuration, two63.
  pose proof (Z.mod_pos_bound (z + 9223372036854775808) (2 * 9223372036854775808)). lia.
Qed.

Lemma neg64_id d : minDuration < d <= maxDuration -> neg64 d = - d.
Proof.
  intros H. apply wrap64_id. revert H.
  unfold in_i64, minDuration, maxDuration, two63. lia.
Qed.

Lemma Sub_range t u : in_i64 (Sub t u).
Proof. unfold in_i64, Sub, minDuration, maxDuration, two63. by_cases. Qed.

Lemma Sub_exact t u : in_i64 (t - u) -> Sub t u = t - u.
Proof. unfold in_i64, Sub, minDuration, maxDuration, two63. intros. by_cases. Qed.

(** [Sub] never overshoots towards the other sign, and rounds towards zero. *)
Lemma Sub_nonneg_le t u : u <= t -> 0 <= Sub t u <= t - u.
Proof. unfold Sub, minDuration, maxDuration, two63. intros. by_cases. Qed.

Lemma Sub_pos t u : u < t -> 0 < Sub t u.
Proof. unfold Sub, minDuration, maxDuration, two63. intros. by_cases. Qed.

Lemma Sub_nonpos t u : t <= u -> Sub t u <= 0.
Proof. unfold Sub, minDuration, maxDuration, two63. intros. by_cases. Qed.

Example DurationString_ex1 : DurationString (90 * Minute) = "1h30m0s".
Proof. vm_compute. reflexivity. Qed.
Example DurationString_ex2 : DurationString (15 * Minute + 1500 * Millisecond) = "15m1.5s".
Proof. vm_compute. reflexivity. Qed.
Example DurationString_ex3 : DurationString (-1500) = "-1.5" +:+ micro_sign +:+ "s".
Proof. vm_compute. reflexivity. Qed.
Example DurationString_ex4 : DurationString minDuration = "-2562047h47m16.854775808s".
Proof. vm_compute. reflexivity. Qed.
Example FormatRFC3339_epoch : FormatRFC3339 TimeZero = "0001-01-01T00:00:00Z".
Proof. vm_compute. reflexivity. Qed.
Example FormatRFC3339_unix : FormatRFC3339 (62135596800 * Second) = "1970-01-01T00:00:00Z".
Proof. vm_compute. reflexivity. Qed.
Example FormatRFC3339_leap :
  FormatRFC3339 ((62135596800 + 1709214942) * Second) = "2024-02-29T13:55:42Z".
Proof. vm_compute. reflexivity. Qed.
