(* ===== verification/GoErrors.v ===== *)
(** * Go errors

    The error values of the program: [fmt.Errorf] strings and wrappings, the
    status errors the Kubernetes client returns (classified by their reason,
    which is all [apierrors.IsNotFound] and its siblings look at), and the two
    error types the sources declare.  [result] is Go's [(T, error)] pair with
    exactly one of the two set; a plain [error] return is an [option error]. *)

From S2P Require Import Prelude GoStrings.

(** [metav1.StatusReason], as far as the program tells reasons apart. *)
Inductive StatusReason :=
  | ReasonNotFound
  | ReasonAlreadyExists
  | ReasonConflict
  | ReasonOther (r : string).

#[export] Instance StatusReason_eq_dec : EqDecision StatusReason.
Proof. solve_decision. Defined.

Inductive error :=
  | ErrorString (msg : string)                 (** [fmt.Errorf] without [%w] *)
  | ErrorWrap (prefix : string) (inner : error) (** [fmt.Errorf(prefix + ": %w", inner)] *)
  | StatusError (reason : StatusReason) (msg : string) (** from the client *)
  | OwnershipMismatchError (Message : string)  (** internal/identity *)
  | TargetError (Reason Message : string) (inner : option error) (** internal/remote *)
  | ErrTargetDisabled.                         (** internal/remote *)

Inductive result (A : Type) :=
  | Ok (a : A)
  | Err (e : error).
Arguments Ok {A} a.
Arguments Err {A} e.

Declare Scope result_scope.
Delimit Scope result_scope with result.

(** [x <-? r ;; k]: the early return [if err != nil { return ..., err }]. *)
Notation "x <-? r ;; k" :=
  (match r with Ok x => k | Err e => Err e end)
  (at level 100, r at next level, right associativity) : result_scope.

Notation "'_' <-? r ;; k" :=
  (match r with Ok _ => k | Err e => Err e end)
  (at level 100, r at next level, right associativity) : result_scope.

(** [e ?? k]: [if err := e; err != nil { return err }] before [k]. *)
Notation "e ?? k" :=
  (match e with Some err => Some err | None => k end)
  (at level 100, k at level 200, right associativity) : result_scope.

Definition is_ok {A} (r : result A) : bool := match r with Ok _ => true | Err _ => false end.

(** [OwnershipMismatchError.Error], of internal/identity. *)
Definition OwnershipMismatchError_Error (Message : string) : string :=
  if negb (is_empty Message) then Message else "OwnershipMismatch".

(** The [Error] method of every error above. *)
Fixpoint Error (e : error) : string :=
  match e with
  | ErrorString msg => msg
  | ErrorWrap prefix inner => prefix +:+ ": " +:+ Error inner
  | StatusError _ msg => msg
  | OwnershipMismatchError msg => OwnershipMismatchError_Error msg
  | TargetError _ msg inner =>
      if negb (is_empty msg) then msg
      else match inner with Some inner => Error inner | None => "target error" end
  | ErrTargetDisabled => "cluster target is disabled"
  end.

(** [errors.Unwrap]. *)
Definition Unwrap (e : error) : option error :=
  match e with
  | ErrorWrap _ inner => Some inner
  | TargetError _ _ inner => inner
  | _ => None
  end.

(** [errors.As(err, &se)] with [se *StatusError]: the reason of the first
    status error of the chain, which decides [apierrors.IsNotFound] etc. *)
Fixpoint ReasonForError (e : error) : option StatusReason :=
  match e with
  | StatusError r _ => Some r
  | ErrorWrap _ inner => ReasonForError inner
  | TargetError _ _ (Some inner) => ReasonForError inner
  | _ => None
  end.

Definition IsNotFound (e : error) : bool := bool_decide (ReasonForError e = Some ReasonNotFound).
Definition IsAlreadyExists (e : error) : bool := bool_decide (ReasonForError e = Some ReasonAlreadyExists).
Definition IsConflict (e : error) : bool := bool_decide (ReasonForError e = Some ReasonConflict).

(** [errors.As(err, &ome)] with [ome *identity.OwnershipMismatchError]. *)
Fixpoint IsOwnershipMismatch (e : error) : bool :=
  match e with
  | OwnershipMismatchError _ => true
  | ErrorWrap _ inner => IsOwnershipMismatch inner
  | TargetError _ _ (Some inner) => IsOwnershipMismatch inner
  | _ => false
  end.

(** [AsTargetError]: the reason and the message of the first [TargetError]. *)
Fixpoint AsTargetError (e : error) : option (string * string) :=
  match e with
  | TargetError reason msg _ => Some (reason, msg)
  | ErrorWrap _ inner => AsTargetError inner
  | _ => None
  end.

(** [errors.Is(err, ErrTargetDisabled)]. *)
Fixpoint IsTargetDisabled (e : error) : bool :=
  match e with
  | ErrTargetDisabled => true
  | ErrorWrap _ inner => IsTargetDisabled inner
  | TargetError _ _ (Some inner) => IsTargetDisabled inner
  | _ => false
  end.

(** Wrapping changes the text of an error and nothing the program classifies
    errors by. *)
Lemma ErrorWrap_classify p e :
  IsNotFound (ErrorWrap p e) = IsNotFound e /\
  IsConflict (ErrorWrap p e) = IsConflict e /\
  IsOwnershipMismatch (ErrorWrap p e) = IsOwnershipMismatch e /\
  AsTargetError (ErrorWrap p e) = AsTargetError e.
Proof. done. Qed.
