(* ===== verification/Api.v ===== *)
(** * The API types

    The custom resources of api/v1alpha1 and the parts of the Kubernetes
    objects the program reads or writes.  A Go string enum is an [Inductive]
    with a constructor for the unset empty string; a pointer or an optional
    field is an [option]; a nil map and an empty map read alike and are both
    [∅].  Resource quantities come from k8s.io/apimachinery and are a
    parameter ([QuantityAPI]).  [metav1.Condition.LastTransitionTime] is left
    out: no source file reads or writes it. *)

From S2P Require Import Prelude GoStrings GoTime GoErrors.

(** ** Constants of the API group *)

Definition FinalizerName : string := "platform.kubelease.io/finalizer".
Definition LabelManagedBy : string := "app.kubernetes.io/managed-by".
Definition ManagedByValue : string := "kubelease".
Definition LabelLease : string := "kubelease.io/lease".
Definition AnnotationLeaseUID : string := "kubelease.io/lease-uid".
Definition AnnotationControlClusterID : string := "kubelease.io/control-cluster-id".
Definition AnnotationTargetIdentity : string := "kubelease.io/target-identity".
Definition AnnotationForceCleanupAcknowledged : string := "kubelease.io/force-cleanup-acknowledged".
Definition ClusterTargetFinalizer : string := "platform.kubelease.io/cluster-target-protection".
Definition LocalClusterName : string := "local".

Definition ConditionReady : string := "Ready".
Definition ConditionExpiring : string := "Expiring".
Definition ConditionCleanup : string := "Cleanup".
Definition ConditionDegraded : string := "Degraded".
Definition ConditionTargetClusterReady : string := "TargetClusterReady".

Definition ReasonProvisioning : string := "Provisioning".
Definition ReasonEnvironmentReady : string := "EnvironmentReady".
Definition ReasonNamespaceCreationFailed : string := "NamespaceCreationFailed".
Definition ReasonResourceQuotaCreationFailed : string := "ResourceQuotaCreationFailed".
Definition ReasonLimitRangeCreationFailed : string := "LimitRangeCreationFailed".
Definition ReasonNetworkPolicyCreationFailed : string := "NetworkPolicyCreationFailed".
Definition ReasonInvalidConfiguration : string := "InvalidConfiguration".
Definition ReasonPolicyViolation : string := "PolicyViolation".
Definition ReasonPolicyNotFound : string := "PolicyNotFound".
Definition ReasonLeaseExpired : string := "LeaseExpired".
Definition ReasonLeaseExpiring : string := "LeaseExpiring".
Definition ReasonCleanupInProgress : string := "CleanupInProgress".
Definition ReasonCleanupComplete : string := "CleanupComplete".
Definition ReasonCleanupFailed : string := "CleanupFailed".
Definition ReasonRenewalRejected : string := "RenewalRejected".
Definition ReasonNamespaceAdoptRefused : string := "NamespaceAdoptRefused".
Definition ReasonTargetClusterUnavailable : string := "TargetClusterUnavailable".
Definition ReasonTargetNotFound : string := "TargetNotFound".
Definition ReasonTargetDisabled : string := "TargetDisabled".
Definition ReasonRemoteCleanupBlocked : string := "RemoteCleanupBlocked".
Definition ReasonNoMatchingCluster : string := "NoMatchingCluster".
Definition ReasonOwnershipMismatch : string := "OwnershipMismatch".
Definition ReasonTargetIdentityMismatch : string := "TargetIdentityMismatch".

(** The condition type of a healthy [ClusterTarget]. *)
Definition ClusterTargetConditionReady : string := "Ready".

(** ** Enumerations *)

Inductive LeasePhase :=
  | LeasePhaseUnset
  | LeasePhasePending
  | LeasePhaseProvisioning
  | LeasePhaseActive
  | LeasePhaseExpiring
  | LeasePhaseCleaning
  | LeasePhaseExpired
  | LeasePhaseFailed.

Inductive CleanupMode :=
  | CleanupModeUnset
  | CleanupModeRequireRemoteCleanup
  | CleanupModeBestEffort.

Inductive ExpirationReason :=
  | ExpirationReasonUnset
  | ExpirationReasonTTLExpired
  | ExpirationReasonIdleTimeout
  | ExpirationReasonManualExpiration
  | ExpirationReasonSourceClosed.

Inductive ConditionStatus := ConditionTrueStatus | ConditionFalseStatus | ConditionUnknownStatus.

#[export] Instance LeasePhase_eq_dec : EqDecision LeasePhase.
Proof. solve_decision. Defined.
#[export] Instance CleanupMode_eq_dec : EqDecision CleanupMode.
Proof. solve_decision. Defined.
#[export] Instance ExpirationReason_eq_dec : EqDecision ExpirationReason.
Proof. solve_decision. Defined.
#[export] Instance ConditionStatus_eq_dec : EqDecision ConditionStatus.
Proof. solve_decision. Defined.

(** The text of an expiration reason, as it enters messages. *)
Definition ExpirationReasonString (r : ExpirationReason) : string :=
  match r with
  | ExpirationReasonUnset => ""
  | ExpirationReasonTTLExpired => "TTLExpired"
  | ExpirationReasonIdleTimeout => "IdleTimeout"
  | ExpirationReasonManualExpiration => "ManualExpiration"
  | ExpirationReasonSourceClosed => "SourceClosed"
  end.

(** ** Quantities, a parameter

    [resource.Quantity] of k8s.io/apimachinery: a type with [Cmp], which
    returns -1, 0 or 1, and [String].  [DeepCopy] is the identity on values. *)

Class QuantityAPI := {
  Quantity : Type;
  Quantity_Cmp : Quantity -> Quantity -> Z;
  Quantity_String : Quantity -> string
}.

(** Documented behaviour of [Cmp]: it compares numeric values. *)
Class QuantityLaws `{QuantityAPI} := {
  Quantity_value : Quantity -> Z * positive;  (** a numerator and a denominator *)
  Quantity_Cmp_spec : forall a b,
    Quantity_Cmp a b =
    match ((Quantity_value a).1 * Zpos (Quantity_value b).2
           ?= (Quantity_value b).1 * Zpos (Quantity_value a).2) with
    | Lt => -1 | Eq => 0 | Gt => 1
    end
}.

Notation labels := (gmap string string) (only parsing).

(** [m[key]] of a Go map of strings: absent keys read as the empty string. *)
Definition get (m : labels) (key : string) : string := default "" (m !! key).

(** ** Object metadata and conditions *)

(** [metav1.OwnerReference], as [SetControllerReference] writes it. *)
Record OwnerReference := mkOwnerReference {
  or_Kind : string;
  or_Name : string;
  or_UID : string;
  or_Controller : bool
}.
#[export] Instance eta_OwnerReference : Eta OwnerReference :=
  fun r => mkOwnerReference r.(or_Kind) r.(or_Name) r.(or_UID) r.(or_Controller).

(** [metav1.ObjectMeta]. *)
Record ObjectMeta := mkObjectMeta {
  m_Name : string;
  m_GenerateName : string;
  m_Namespace : string;
  m_UID : string;
  m_ResourceVersion : string;
  m_Generation : Z;
  m_CreationTimestamp : time;
  m_DeletionTimestamp : option time;
  m_Labels : labels;
  m_Annotations : labels;
  m_OwnerReferences : list OwnerReference;
  m_Finalizers : list string
}.
#[export] Instance eta_ObjectMeta : Eta ObjectMeta :=
  fun r => mkObjectMeta r.(m_Name) r.(m_GenerateName) r.(m_Namespace) r.(m_UID) r.(m_ResourceVersion) r.(m_Generation) r.(m_CreationTimestamp) r.(m_DeletionTimestamp) r.(m_Labels) r.(m_Annotations) r.(m_OwnerReferences) r.(m_Finalizers).

(** The zero [ObjectMeta], from which composite literals start. *)
Definition emptyMeta : ObjectMeta :=
  mkObjectMeta "" "" "" "" "" 0 TimeZero None ∅ ∅ [] [].

(** [metav1.Condition]. *)
Record Condition := mkCondition {
  c_Type : string;
  c_Status : ConditionStatus;
  c_ObservedGeneration : Z;
  c_Reason : string;
  c_Message : string
}.
#[export] Instance eta_Condition : Eta Condition :=
  fun r => mkCondition r.(c_Type) r.(c_Status) r.(c_ObservedGeneration) r.(c_Reason) r.(c_Message).

(** ** Label selectors (data only; their meaning is a parameter of placement) *)

(** [metav1.LabelSelectorRequirement]. *)
Record LabelSelectorRequirement := mkLabelSelectorRequirement {
  lsr_Key : string;
  lsr_Operator : string;
  lsr_Values : list string
}.
#[export] Instance eta_LabelSelectorRequirement : Eta LabelSelectorRequirement :=
  fun r => mkLabelSelectorRequirement r.(lsr_Key) r.(lsr_Operator) r.(lsr_Values).

(** [metav1.LabelSelector]. *)
Record LabelSelector := mkLabelSelector {
  ls_MatchLabels : labels;
  ls_MatchExpressions : list LabelSelectorRequirement
}.
#[export] Instance eta_LabelSelector : Eta LabelSelector :=
  fun r => mkLabelSelector r.(ls_MatchLabels) r.(ls_MatchExpressions).

(** ** EnvironmentLease: specification *)

(** [PlacementSpec]. *)
Record PlacementSpec := mkPlacementSpec {
  pl_Selector : option LabelSelector
}.
#[export] Instance eta_PlacementSpec : Eta PlacementSpec :=
  fun r => mkPlacementSpec r.(pl_Selector).

(** [OwnerSpec]. *)
Record OwnerSpec := mkOwnerSpec {
  ow_Name : string;
  ow_Team : string
}.
#[export] Instance eta_OwnerSpec : Eta OwnerSpec :=
  fun r => mkOwnerSpec r.(ow_Name) r.(ow_Team).

(** [NamespaceSpec]. *)
Record NamespaceSpec := mkNamespaceSpec {
  nsp_GenerateName : string;
  nsp_Name : string;
  nsp_Labels : labels;
  nsp_Annotations : labels
}.
#[export] Instance eta_NamespaceSpec : Eta NamespaceSpec :=
  fun r => mkNamespaceSpec r.(nsp_GenerateName) r.(nsp_Name) r.(nsp_Labels) r.(nsp_Annotations).

(** [NetworkPolicySpec] of the lease. *)
Record NetworkPolicySpec := mkNetworkPolicySpec {
  np_DefaultDeny : bool
}.
#[export] Instance eta_NetworkPolicySpec : Eta NetworkPolicySpec :=
  fun r => mkNetworkPolicySpec r.(np_DefaultDeny).

Section Spec.
Context `{QuantityAPI}.

Notation ResourceList := (gmap string Quantity).

(** [QuotaSpec]. *)
Record QuotaSpec := mkQuotaSpec {
  q_Requests : gmap string Quantity;
  q_Limits : gmap string Quantity
}.
#[export] Instance eta_QuotaSpec : Eta QuotaSpec :=
  fun r => mkQuotaSpec r.(q_Requests) r.(q_Limits).

(** [LimitsSpec]. *)
Record LimitsSpec := mkLimitsSpec {
  l_Default : gmap string Quantity;
  l_DefaultRequest : gmap string Quantity;
  l_Max : gmap string Quantity;
  l_Min : gmap string Quantity
}.
#[export] Instance eta_LimitsSpec : Eta LimitsSpec :=
  fun r => mkLimitsSpec r.(l_Default) r.(l_DefaultRequest) r.(l_Max) r.(l_Min).

(** [EnvironmentLeaseSpec].  [spec_CleanupPolicy] is the optional [CleanupPolicy]
    struct, which has the one field [Mode]; references are the names they hold. *)
Record EnvironmentLeaseSpec := mkEnvironmentLeaseSpec {
  spec_PolicyRef : option string;
  spec_ClusterRef : option string;
  spec_Placement : option PlacementSpec;
  spec_CleanupPolicy : option CleanupMode;
  spec_TTL : option duration;
  spec_MaxTTL : option duration;
  spec_IdleTTL : option duration;
  spec_Renewable : option bool;
  spec_Warnings : list duration;
  spec_Owner : OwnerSpec;
  spec_Namespace : NamespaceSpec;
  spec_Quota : option QuotaSpec;
  spec_Limits : option LimitsSpec;
  spec_NetworkPolicy : option NetworkPolicySpec
}.
#[export] Instance eta_EnvironmentLeaseSpec : Eta EnvironmentLeaseSpec :=
  fun r => mkEnvironmentLeaseSpec r.(spec_PolicyRef) r.(spec_ClusterRef) r.(spec_Placement) r.(spec_CleanupPolicy) r.(spec_TTL) r.(spec_MaxTTL) r.(spec_IdleTTL) r.(spec_Renewable) r.(spec_Warnings) r.(spec_Owner) r.(spec_Namespace) r.(spec_Quota) r.(spec_Limits) r.(spec_NetworkPolicy).

(** [EnvironmentLeaseSpec.EffectiveCleanupMode]. *)
Definition EffectiveCleanupMode (s : EnvironmentLeaseSpec) : CleanupMode :=
  match s.(spec_CleanupPolicy) with
  | None => CleanupModeRequireRemoteCleanup
  | Some CleanupModeUnset => CleanupModeRequireRemoteCleanup
  | Some mode => mode
  end.

(** [EnvironmentLeaseSpec.IsRenewable]. *)
Definition IsRenewable (s : EnvironmentLeaseSpec) : bool :=
  match s.(spec_Renewable) with None => true | Some b => b end.

(** [EnvironmentLeaseSpec.RequestedTTL]. *)
Definition RequestedTTL (s : EnvironmentLeaseSpec) : duration :=
  match s.(spec_TTL) with None => 0 | Some d => d end.

End Spec.

(** ** EnvironmentLease: status *)

(** [ClusterStatus]. *)
Record ClusterStatus := mkClusterStatus {
  cs_Name : string;
  cs_TargetUID : string;
  cs_RemoteIdentity : string
}.
#[export] Instance eta_ClusterStatus : Eta ClusterStatus :=
  fun r => mkClusterStatus r.(cs_Name) r.(cs_TargetUID) r.(cs_RemoteIdentity).

(** [EffectiveLeaseSpec]. *)
Record EffectiveLeaseSpec := mkEffectiveLeaseSpec {
  eff_PolicyName : string;
  eff_TTL : duration;
  eff_MaxTTL : duration;
  eff_IdleTTL : option duration;
  eff_Renewable : bool;
  eff_DefaultDeny : bool
}.
#[export] Instance eta_EffectiveLeaseSpec : Eta EffectiveLeaseSpec :=
  fun r => mkEffectiveLeaseSpec r.(eff_PolicyName) r.(eff_TTL) r.(eff_MaxTTL) r.(eff_IdleTTL) r.(eff_Renewable) r.(eff_DefaultDeny).

(** [EnvironmentLeaseStatus]. *)
Record EnvironmentLeaseStatus := mkEnvironmentLeaseStatus {
  st_Phase : LeasePhase;
  st_Namespace : string;
  st_Cluster : option ClusterStatus;
  st_CreatedAt : option time;
  st_ExpiresAt : option time;
  st_MaximumExpiresAt : option time;
  st_LastActivityAt : option time;
  st_IdleExpiresAt : option time;
  st_EffectiveExpiresAt : option time;
  st_ExpirationReason : ExpirationReason;
  st_WarningsDelivered : list string;
  st_Effective : option EffectiveLeaseSpec;
  st_ObservedGeneration : Z;
  st_Conditions : list Condition
}.
#[export] Instance eta_EnvironmentLeaseStatus : Eta EnvironmentLeaseStatus :=
  fun r => mkEnvironmentLeaseStatus r.(st_Phase) r.(st_Namespace) r.(st_Cluster) r.(st_CreatedAt) r.(st_ExpiresAt) r.(st_MaximumExpiresAt) r.(st_LastActivityAt) r.(st_IdleExpiresAt) r.(st_EffectiveExpiresAt) r.(st_ExpirationReason) r.(st_WarningsDelivered) r.(st_Effective) r.(st_ObservedGeneration) r.(st_Conditions).

(** The zero status of a new lease. *)
Definition emptyStatus : EnvironmentLeaseStatus :=
  mkEnvironmentLeaseStatus LeasePhaseUnset "" None None None None None None None
    ExpirationReasonUnset [] None 0 [].

(** ** ClusterTarget *)

(** [SecretKeySelector]. *)
Record SecretKeySelector := mkSecretKeySelector {
  sk_Name : string;
  sk_Namespace : string;
  sk_Key : string
}.
#[export] Instance eta_SecretKeySelector : Eta SecretKeySelector :=
  fun r => mkSecretKeySelector r.(sk_Name) r.(sk_Namespace) r.(sk_Key).

(** [ClusterTargetSpec]; [ts_SecretRef] is [Credentials.SecretRef]. *)
Record ClusterTargetSpec := mkClusterTargetSpec {
  ts_SecretRef : SecretKeySelector;
  ts_Labels : labels;
  ts_MaxActiveLeases : option Z;
  ts_ClientQPS : option Z;
  ts_ClientBurst : option Z;
  ts_Enabled : option bool
}.
#[export] Instance eta_ClusterTargetSpec : Eta ClusterTargetSpec :=
  fun r => mkClusterTargetSpec r.(ts_SecretRef) r.(ts_Labels) r.(ts_MaxActiveLeases) r.(ts_ClientQPS) r.(ts_ClientBurst) r.(ts_Enabled).

(** [ClusterCapacityStatus]. *)
Record ClusterCapacityStatus := mkClusterCapacityStatus {
  cap_ActiveLeases : Z;
  cap_MaxLeases : option Z
}.
#[export] Instance eta_ClusterCapacityStatus : Eta ClusterCapacityStatus :=
  fun r => mkClusterCapacityStatus r.(cap_ActiveLeases) r.(cap_MaxLeases).

(** [ClusterTargetStatus]. *)
Record ClusterTargetStatus := mkClusterTargetStatus {
  tst_KubernetesVersion : string;
  tst_RemoteIdentity : string;
  tst_Capacity : option ClusterCapacityStatus;
  tst_ObservedGeneration : Z;
  tst_Conditions : list Condition
}.
#[export] Instance eta_ClusterTargetStatus : Eta ClusterTargetStatus :=
  fun r => mkClusterTargetStatus r.(tst_KubernetesVersion) r.(tst_RemoteIdentity) r.(tst_Capacity) r.(tst_ObservedGeneration) r.(tst_Conditions).

(** [ClusterTarget]. *)
Record ClusterTarget := mkClusterTarget {
  ct_Meta : ObjectMeta;
  ct_Spec : ClusterTargetSpec;
  ct_Status : ClusterTargetStatus
}.
#[export] Instance eta_ClusterTarget : Eta ClusterTarget :=
  fun r => mkClusterTarget r.(ct_Meta) r.(ct_Spec) r.(ct_Status).

(** [ClusterTargetSpec.IsEnabled]. *)
Definition IsEnabled (s : ClusterTargetSpec) : bool :=
  match s.(ts_Enabled) with None => true | Some b => b end.

(** [ClusterTarget.SchedulingLabels]: [spec.labels] first, then the metadata
    labels written over them. *)
Definition SchedulingLabels (t : ClusterTarget) : labels :=
  t.(ct_Meta).(m_Labels) ∪ t.(ct_Spec).(ts_Labels).

(** ** Objects of the core API the program manages *)

(** [corev1.Namespace]: only its metadata is used. *)
Record Namespace := mkNamespace {
  ns_Meta : ObjectMeta
}.
#[export] Instance eta_Namespace : Eta Namespace :=
  fun r => mkNamespace r.(ns_Meta).

(** [corev1.Secret]. *)
Record Secret := mkSecret {
  sec_Meta : ObjectMeta;
  sec_Data : gmap string string
}.
#[export] Instance eta_Secret : Eta Secret :=
  fun r => mkSecret r.(sec_Meta) r.(sec_Data).

(** [networkingv1.NetworkPolicySpec]; the rules, which the program never reads,
    are kept in their serialized form. *)
Record NetworkPolicyRules := mkNetworkPolicyRules {
  npr_PodSelector : LabelSelector;
  npr_PolicyTypes : list string;
  npr_Ingress : list string;
  npr_Egress : list string
}.
#[export] Instance eta_NetworkPolicyRules : Eta NetworkPolicyRules :=
  fun r => mkNetworkPolicyRules r.(npr_PodSelector) r.(npr_PolicyTypes) r.(npr_Ingress) r.(npr_Egress).

(** [networkingv1.NetworkPolicy]. *)
Record NetworkPolicy := mkNetworkPolicy {
  npo_Meta : ObjectMeta;
  npo_Spec : NetworkPolicyRules
}.
#[export] Instance eta_NetworkPolicy : Eta NetworkPolicy :=
  fun r => mkNetworkPolicy r.(npo_Meta) r.(npo_Spec).

Section Objects.
Context `{QuantityAPI}.

(** [corev1.ResourceQuota]; [rq_Hard] is [Spec.Hard]. *)
Record ResourceQuota := mkResourceQuota {
  rq_Meta : ObjectMeta;
  rq_Hard : gmap string Quantity
}.
#[export] Instance eta_ResourceQuota : Eta ResourceQuota :=
  fun r => mkResourceQuota r.(rq_Meta) r.(rq_Hard).

(** [corev1.LimitRangeItem]. *)
Record LimitRangeItem := mkLimitRangeItem {
  lri_Type : string;
  lri_Default : gmap string Quantity;
  lri_DefaultRequest : gmap string Quantity;
  lri_Max : gmap string Quantity;
  lri_Min : gmap string Quantity
}.
#[export] Instance eta_LimitRangeItem : Eta LimitRangeItem :=
  fun r => mkLimitRangeItem r.(lri_Type) r.(lri_Default) r.(lri_DefaultRequest) r.(lri_Max) r.(lri_Min).

(** [corev1.LimitRange]; [lr_Limits] is [Spec.Limits]. *)
Record LimitRange := mkLimitRange {
  lr_Meta : ObjectMeta;
  lr_Limits : list LimitRangeItem
}.
#[export] Instance eta_LimitRange : Eta LimitRange :=
  fun r => mkLimitRange r.(lr_Meta) r.(lr_Limits).

(** [EnvironmentLease]. *)
Record EnvironmentLease := mkEnvironmentLease {
  lease_Meta : ObjectMeta;
  lease_Spec : EnvironmentLeaseSpec;
  lease_Status : EnvironmentLeaseStatus
}.
#[export] Instance eta_EnvironmentLease : Eta EnvironmentLease :=
  fun r => mkEnvironmentLease r.(lease_Meta) r.(lease_Spec) r.(lease_Status).

End Objects.

(** ** EnvironmentLeasePolicy *)

(** [DurationPolicy]. *)
Record DurationPolicy := mkDurationPolicy {
  dp_Default : option duration;
  dp_Maximum : option duration;
  dp_Minimum : option duration
}.
#[export] Instance eta_DurationPolicy : Eta DurationPolicy :=
  fun r => mkDurationPolicy r.(dp_Default) r.(dp_Maximum) r.(dp_Minimum).

(** [BoolPolicy]. *)
Record BoolPolicy := mkBoolPolicy {
  bp_Default : option bool;
  bp_Force : option bool
}.
#[export] Instance eta_BoolPolicy : Eta BoolPolicy :=
  fun r => mkBoolPolicy r.(bp_Default) r.(bp_Force).

(** [NetworkPolicyPolicy]. *)
Record NetworkPolicyPolicy := mkNetworkPolicyPolicy {
  npp_DefaultDenyRequired : bool;
  npp_DefaultDenyDefault : option bool
}.
#[export] Instance eta_NetworkPolicyPolicy : Eta NetworkPolicyPolicy :=
  fun r => mkNetworkPolicyPolicy r.(npp_DefaultDenyRequired) r.(npp_DefaultDenyDefault).

Section Policy.
Context `{QuantityAPI}.

(** [QuotaPolicy]. *)
Record QuotaPolicy := mkQuotaPolicy {
  qp_MaxCPU : option Quantity;
  qp_MaxMemory : option Quantity
}.
#[export] Instance eta_QuotaPolicy : Eta QuotaPolicy :=
  fun r => mkQuotaPolicy r.(qp_MaxCPU) r.(qp_MaxMemory).

(** [EnvironmentLeasePolicySpec]. *)
Record EnvironmentLeasePolicySpec := mkEnvironmentLeasePolicySpec {
  pol_TTL : option DurationPolicy;
  pol_MaxTTL : option DurationPolicy;
  pol_IdleTTL : option DurationPolicy;
  pol_Renewable : option BoolPolicy;
  pol_Quota : option QuotaPolicy;
  pol_NetworkPolicy : option NetworkPolicyPolicy;
  pol_Placement : option PlacementSpec
}.
#[export] Instance eta_EnvironmentLeasePolicySpec : Eta EnvironmentLeasePolicySpec :=
  fun r => mkEnvironmentLeasePolicySpec r.(pol_TTL) r.(pol_MaxTTL) r.(pol_IdleTTL) r.(pol_Renewable) r.(pol_Quota) r.(pol_NetworkPolicy) r.(pol_Placement).

(** [EnvironmentLeasePolicy]. *)
Record EnvironmentLeasePolicy := mkEnvironmentLeasePolicy {
  policy_Meta : ObjectMeta;
  policy_Spec : EnvironmentLeasePolicySpec
}.
#[export] Instance eta_EnvironmentLeasePolicy : Eta EnvironmentLeasePolicy :=
  fun r => mkEnvironmentLeasePolicy r.(policy_Meta) r.(policy_Spec).

End Policy.

(** Shorthands for the promoted fields [obj.Name], [obj.UID], ... *)
Notation lease_Name l := (l.(lease_Meta).(m_Name)).
Notation lease_UID l := (l.(lease_Meta).(m_UID)).

(** [leaseObj.Status.f = v]. *)
Notation "l <|@ f := v |>" :=
  (modify (proj:=lease_Status) (fun st => modify (proj:=f) (fun _ => v) st) l)
  (at level 1, left associativity, f constr at level 9,
   format "l <|@ f := v |>").

Lemma get_insert_eq (m : labels) k v : get (<[k := v]> m) k = v.
Proof. unfold get. by rewrite lookup_insert_eq. Qed.

Lemma get_insert_ne (m : labels) k k' v : k <> k' -> get (<[k := v]> m) k' = get m k'.
Proof. intros. unfold get. by rewrite lookup_insert_ne. Qed.

Lemma SchedulingLabels_metadata_wins t k v :
  t.(ct_Meta).(m_Labels) !! k = Some v -> SchedulingLabels t !! k = Some v.
Proof. intros H. unfold SchedulingLabels. by apply lookup_union_Some_l. Qed.
