(* ===== verification/LeaseConditions.v ===== *)
(** * Status conditions and phases (internal/lease/conditions.go)

    [meta.SetStatusCondition] and [meta.IsStatusConditionTrue] of
    k8s.io/apimachinery are a parameter with their documented behaviour as
    laws; the [Mark*] functions of the program are written over them. *)

From S2P Require Import Prelude GoStrings GoTime GoErrors Api.

(** The condition of a type in a condition list ([meta.FindStatusCondition]). *)
Definition find_condition (cs : list Condition) (t : string) : option Condition :=
  find_first (fun c => String.eqb c.(c_Type) t) cs.

Class ConditionsAPI := {
  SetStatusCondition : list Condition -> Condition -> list Condition;
  IsStatusConditionTrue : list Condition -> string -> bool
}.

(** "SetStatusCondition sets the corresponding condition in conditions to
    newCondition": it overwrites the condition of that type or appends it, and
    touches no other; "IsStatusConditionTrue returns true when the
    conditionType is present and set to ConditionTrue". *)
Class ConditionsLaws `{ConditionsAPI} := {
  SetStatusCondition_same : forall cs c,
    find_condition (SetStatusCondition cs c) c.(c_Type) = Some c;
  SetStatusCondition_other : forall cs c t,
    t <> c.(c_Type) -> find_condition (SetStatusCondition cs c) t = find_condition cs t;
  SetStatusCondition_nodup : forall cs c,
    NoDup (map c_Type cs) -> NoDup (map c_Type (SetStatusCondition cs c));
  IsStatusConditionTrue_spec : forall cs t,
    IsStatusConditionTrue cs t = true <->
    exists c, find_condition cs t = Some c /\ c.(c_Status) = ConditionTrueStatus
}.

Section Conditions.
Context `{QuantityAPI} `{ConditionsAPI}.

Definition SetCondition (leaseObj : EnvironmentLease) (condType : string)
    (status : ConditionStatus) (reason message : string) : EnvironmentLease :=
  leaseObj <|@ st_Conditions :=
    SetStatusCondition leaseObj.(lease_Status).(st_Conditions)
      (mkCondition condType status leaseObj.(lease_Meta).(m_Generation) reason message) |>.

Definition MarkProvisioning (leaseObj : EnvironmentLease) (message : string) : EnvironmentLease :=
  let l := leaseObj <|@ st_Phase := LeasePhaseProvisioning |> in
  let l := SetCondition l ConditionReady ConditionFalseStatus ReasonProvisioning message in
  let l := SetCondition l ConditionExpiring ConditionFalseStatus ReasonProvisioning "Not yet active" in
  let l := SetCondition l ConditionCleanup ConditionFalseStatus ReasonProvisioning "Not cleaning" in
  SetCondition l ConditionDegraded ConditionFalseStatus ReasonProvisioning "Provisioning".

Definition MarkReady (leaseObj : EnvironmentLease) (expiring : bool) : EnvironmentLease :=
  let l :=
    if expiring then
      let l := leaseObj <|@ st_Phase := LeasePhaseExpiring |> in
      SetCondition l ConditionExpiring ConditionTrueStatus
        ReasonLeaseExpiring "Lease is approaching expiration"
    else
      let l := leaseObj <|@ st_Phase := LeasePhaseActive |> in
      SetCondition l ConditionExpiring ConditionFalseStatus
        ReasonEnvironmentReady "Lease is not in warning window" in
  let l := SetCondition l ConditionReady ConditionTrueStatus
    ReasonEnvironmentReady "Environment successfully provisioned" in
  let l := SetCondition l ConditionCleanup ConditionFalseStatus
    ReasonEnvironmentReady "Not cleaning" in
  SetCondition l ConditionDegraded ConditionFalseStatus ReasonEnvironmentReady "Healthy".

Definition MarkPending (leaseObj : EnvironmentLease) (reason message : string) : EnvironmentLease :=
  let l := leaseObj <|@ st_Phase := LeasePhasePending |> in
  let l := SetCondition l ConditionReady ConditionFalseStatus reason message in
  let l := SetCondition l ConditionTargetClusterReady ConditionFalseStatus reason message in
  SetCondition l ConditionDegraded ConditionFalseStatus reason message.

Definition MarkFailed (leaseObj : EnvironmentLease) (reason message : string) : EnvironmentLease :=
  let l := leaseObj <|@ st_Phase := LeasePhaseFailed |> in
  let l := SetCondition l ConditionReady ConditionFalseStatus reason message in
  SetCondition l ConditionDegraded ConditionTrueStatus reason message.

Definition MarkExpired (leaseObj : EnvironmentLease) (reason : ExpirationReason) : EnvironmentLease :=
  let reason :=
    if decide (reason = ExpirationReasonUnset) then ExpirationReasonTTLExpired else reason in
  let l := leaseObj <|@ st_ExpirationReason := reason |> in
  let l := l <|@ st_Phase := LeasePhaseExpiring |> in
  let msg := "Lease expired (" +:+ ExpirationReasonString reason +:+ ")" in
  let l := SetCondition l ConditionReady ConditionFalseStatus ReasonLeaseExpired msg in
  SetCondition l ConditionExpiring ConditionTrueStatus ReasonLeaseExpired msg.

Definition MarkCleaning (leaseObj : EnvironmentLease) (message : string) : EnvironmentLease :=
  let l := leaseObj <|@ st_Phase := LeasePhaseCleaning |> in
  let l := SetCondition l ConditionCleanup ConditionFalseStatus ReasonCleanupInProgress message in
  SetCondition l ConditionReady ConditionFalseStatus ReasonCleanupInProgress message.

Definition MarkCleanupComplete (leaseObj : EnvironmentLease) : EnvironmentLease :=
  let l := leaseObj <|@ st_Phase := LeasePhaseExpired |> in
  let l := SetCondition l ConditionCleanup ConditionTrueStatus
    ReasonCleanupComplete "Managed environment cleaned up" in
  let l := SetCondition l ConditionExpiring ConditionFalseStatus ReasonCleanupComplete "Expired" in
  SetCondition l ConditionDegraded ConditionFalseStatus ReasonCleanupComplete "Cleanup finished".

Definition MarkCleanupFailed (leaseObj : EnvironmentLease) (message : string) : EnvironmentLease :=
  let l := leaseObj <|@ st_Phase := LeasePhaseCleaning |> in
  let l := SetCondition l ConditionCleanup ConditionFalseStatus ReasonCleanupFailed message in
  SetCondition l ConditionDegraded ConditionTrueStatus ReasonCleanupFailed message.

(** Named [ConditionTrue] in the source. *)
Definition ConditionTrue (leaseObj : EnvironmentLease) (condType : string) : bool :=
  IsStatusConditionTrue leaseObj.(lease_Status).(st_Conditions) condType.

(** ** Lemmas *)

(** What a condition of a lease says: its status and reason. *)
Definition condition_of (l : EnvironmentLease) (t : string) : option (ConditionStatus * string) :=
  c ← find_condition l.(lease_Status).(st_Conditions) t; Some (c.(c_Status), c.(c_Reason)).

Context `{!ConditionsLaws}.

Lemma condition_of_SetCondition l t s r m t' :
  condition_of (SetCondition l t s r m) t' =
  if decide (t' = t) then Some (s, r) else condition_of l t'.
Proof.
  unfold condition_of, SetCondition; simpl. case_decide as Ht; [subst t'|].
  - by rewrite SetStatusCondition_same.
  - by rewrite SetStatusCondition_other.
Qed.

Lemma condition_of_phase l p t : condition_of (l <|@ st_Phase := p |>) t = condition_of l t.
Proof. done. Qed.

Lemma condition_of_reason l p t : condition_of (l <|@ st_ExpirationReason := p |>) t = condition_of l t.
Proof. done. Qed.

Lemma ConditionTrue_iff l t :
  ConditionTrue l t = true <-> exists r, condition_of l t = Some (ConditionTrueStatus, r).
Proof.
  unfold ConditionTrue, condition_of. rewrite IsStatusConditionTrue_spec. split.
  - intros (c & -> & Hs). exists c.(c_Reason). simpl. by rewrite Hs.
  - intros (r & Hr). destruct (find_condition _ t) as [c|]; simplify_eq/=. eauto.
Qed.

(** Setting conditions changes nothing but the condition list. *)
Lemma SetCondition_meta l t s r m : (SetCondition l t s r m).(lease_Meta) = l.(lease_Meta).
Proof. done. Qed.

Lemma SetCondition_spec l t s r m : (SetCondition l t s r m).(lease_Spec) = l.(lease_Spec).
Proof. done. Qed.

End Conditions.

#[export] Hint Rewrite @condition_of_SetCondition @condition_of_phase @condition_of_reason
  using (try typeclasses eauto) : conditions.

(** Compute a condition of a lease the [Mark*] functions built. *)
Ltac eval_condition :=
  repeat (rewrite condition_of_SetCondition || rewrite condition_of_phase
          || rewrite condition_of_reason);
  repeat (rewrite decide_True by reflexivity || rewrite decide_False by discriminate).
