(* ===== verification/Concrete.v ===== *)
(** * Concrete instances of the parameters

    The interfaces the development is proved against ([QuantityAPI],
    [ConditionsAPI]) at concrete functions that satisfy their laws, used to
    evaluate the definitions on inputs.  They are plain definitions, not
    registered instances: no theorem outside the witnesses depends on them. *)

From S2P Require Import Prelude GoStrings GoTime GoErrors Api LeaseConditions.

(** Quantities as integer numbers of milli-units. *)
Definition milliQuantity : QuantityAPI := {|
  Quantity := Z;
  Quantity_Cmp a b := match a ?= b with Lt => -1 | Eq => 0 | Gt => 1 end;
  Quantity_String q := Itoa q +:+ "m"
|}.

Lemma milliQuantity_laws : @QuantityLaws milliQuantity.
Proof.
  refine (@Build_QuantityLaws milliQuantity (fun q : Z => (q, 1%positive)) _).
  intros a b. cbn. by rewrite !Z.mul_1_r.
Defined.

(** Conditions as the association list they are: overwrite in place or append. *)
Fixpoint setCondition (cs : list Condition) (c : Condition) : list Condition :=
  match cs with
  | [] => [c]
  | d :: cs => if String.eqb d.(c_Type) c.(c_Type) then c :: cs else d :: setCondition cs c
  end.

Definition listConditions : ConditionsAPI := {|
  SetStatusCondition := setCondition;
  IsStatusConditionTrue cs t :=
    match find_condition cs t with
    | Some c => bool_decide (c.(c_Status) = ConditionTrueStatus)
    | None => false
    end
|}.

Lemma setCondition_types cs c t :
  t ∈ map c_Type (setCondition cs c) -> t = c.(c_Type) \/ t ∈ map c_Type cs.
Proof.
  induction cs as [|d cs IH]; simpl.
  - intros [->|[]%not_elem_of_nil]%elem_of_cons. by left.
  - destruct (String.eqb _ _) eqn:E; simpl; rewrite !elem_of_cons.
    + naive_solver.
    + intros [->|Ht]; [tauto|]. destruct (IH Ht); tauto.
Qed.

Lemma listConditions_laws : @ConditionsLaws listConditions.
Proof.
  split.
  - intros cs c. simpl. unfold find_condition.
    induction cs as [|d cs IH]; simpl; [by rewrite String.eqb_refl|].
    destruct (String.eqb d.(c_Type) c.(c_Type)) eqn:E; simpl; [by rewrite String.eqb_refl|].
    by rewrite E.
  - intros cs c t Ht. simpl. unfold find_condition.
    assert (Hc : String.eqb c.(c_Type) t = false) by (apply String.eqb_neq; congruence).
    induction cs as [|d cs IH]; simpl; [by rewrite Hc|].
    destruct (String.eqb d.(c_Type) c.(c_Type)) eqn:E; simpl.
    + apply String.eqb_eq in E. by rewrite Hc, E, Hc.
    + by rewrite IH.
  - intros cs c. simpl. induction cs as [|d cs IH]; simpl; [intros; apply NoDup_singleton|].
    intros [Hd Hcs]%NoDup_cons. destruct (String.eqb _ _) eqn:E; simpl; apply NoDup_cons.
    + apply String.eqb_eq in E. by rewrite <- E.
    + split; [|by apply IH]. intros [Heq|]%setCondition_types; [|done].
      by apply String.eqb_neq in E.
  - intros cs t. simpl. destruct (find_condition cs t) as [c|]; [|naive_solver].
    rewrite bool_decide_eq_true. naive_solver.
Defined.

Section Sample.
Context `{QuantityAPI}.

(** The specification with every optional field unset, and the empty lease. *)
Definition emptySpec : EnvironmentLeaseSpec :=
  mkEnvironmentLeaseSpec None None None None None None None None []
    (mkOwnerSpec "" "") (mkNamespaceSpec "preview-" "" ∅ ∅) None None None.

Definition sampleLease : EnvironmentLease :=
  mkEnvironmentLease (emptyMeta <| m_Name := "demo" |> <| m_UID := "uid-1" |>) emptySpec emptyStatus.

End Sample.
