(* ===== verification/Resources.v ===== *)
(** * Desired objects and ownership (internal/resources)

    The managed labels, the protected namespaces, adoption, and the builders
    of the objects a lease provisions.  Builders that return a nil pointer
    return [None]. *)

From S2P Require Import Prelude GoStrings GoTime GoErrors Api.

(** ** labels.go *)

Definition ManagedLabels (leaseName : string) : labels :=
  <[LabelLease := leaseName]> {[LabelManagedBy := ManagedByValue]}.

(** Two loops over the maps: [extra] first, then [base] over it. *)
Definition MergeLabels (base extra : labels) : labels := base ∪ extra.

Definition IsManagedByKubeLease (ls : labels) (leaseName : string) : bool :=
  String.eqb (get ls LabelManagedBy) ManagedByValue && String.eqb (get ls LabelLease) leaseName.

(** ** namespace.go *)

Definition ProtectedNamespaces : list string :=
  ["default"; "kube-system"; "kube-public"; "kube-node-lease"].

Definition IsProtectedNamespace (name : string) : bool :=
  existsb (String.eqb name) ProtectedNamespaces.

Definition ValidateNamespaceSpec (spec : NamespaceSpec) : option error :=
  if negb (is_empty spec.(nsp_Name)) then
    if IsProtectedNamespace spec.(nsp_Name)
    then Some (ErrorString ("cannot manage protected namespace " +:+ quote spec.(nsp_Name)))
    else None
  else if is_empty spec.(nsp_GenerateName)
  then Some (ErrorString "namespace.name or namespace.generateName must be set")
  else None.

Definition OwnedByLease (ns : option Namespace) (leaseName leaseUID : string) : bool :=
  match ns with
  | None => false
  | Some ns =>
      if negb (IsManagedByKubeLease ns.(ns_Meta).(m_Labels) leaseName) then false
      else if is_empty leaseUID then true
      else String.eqb (get ns.(ns_Meta).(m_Annotations) AnnotationLeaseUID) leaseUID
  end.

Definition CanAdoptNamespace (ns : option Namespace) (leaseName leaseUID : string) : bool :=
  match ns with
  | None => false
  | Some n =>
      let ls := n.(ns_Meta).(m_Labels) in
      let managed := String.eqb (get ls LabelManagedBy) ManagedByValue in
      let other := get ls LabelLease in
      let otherUID := get n.(ns_Meta).(m_Annotations) AnnotationLeaseUID in
      if IsProtectedNamespace n.(ns_Meta).(m_Name) then false
      else if OwnedByLease ns leaseName leaseUID then true
      else if managed && negb (is_empty other) && negb (String.eqb other leaseName) then false
      else if managed && negb (is_empty otherUID) && negb (String.eqb otherUID leaseUID) then false
      else negb managed || String.eqb other leaseName
  end.

Section Builders.
Context `{QuantityAPI}.

Notation ResourceList := (gmap string Quantity).

(** The annotations stamped on a managed Namespace over the user's own. *)
Definition stampAnnotations (base : labels) (uid controlClusterID remoteIdentity : string) : labels :=
  let out := <[AnnotationLeaseUID := uid]> base in
  let out := if negb (is_empty controlClusterID)
             then <[AnnotationControlClusterID := controlClusterID]> out else out in
  if negb (is_empty remoteIdentity)
  then <[AnnotationTargetIdentity := remoteIdentity]> out else out.

(** [leaseObj.Status.Cluster.RemoteIdentity], empty when there is no cluster. *)
Definition statusRemoteIdentity (leaseObj : EnvironmentLease) : string :=
  match leaseObj.(lease_Status).(st_Cluster) with
  | Some c => c.(cs_RemoteIdentity)
  | None => ""
  end.

Definition DesiredNamespace (leaseObj : EnvironmentLease)
    (name controlClusterID remoteIdentity : string) : result Namespace :=
  if is_empty name then Err (ErrorString "namespace name must not be empty")
  else if IsProtectedNamespace name
  then Err (ErrorString ("cannot manage protected namespace " +:+ quote name))
  else
    let nsSpec := leaseObj.(lease_Spec).(spec_Namespace) in
    let remoteIdentity :=
      if is_empty remoteIdentity then statusRemoteIdentity leaseObj else remoteIdentity in
    Ok (mkNamespace
      (emptyMeta
        <| m_Name := name |>
        <| m_Labels := MergeLabels (ManagedLabels (lease_Name leaseObj)) nsSpec.(nsp_Labels) |>
        <| m_Annotations := stampAnnotations nsSpec.(nsp_Annotations) (lease_UID leaseObj)
                              controlClusterID remoteIdentity |>)).

(** ** resourcequota.go *)

Definition ResourceQuotaName : string := "kubelease-quota".

Definition quotaHard (q : QuotaSpec) : ResourceList :=
  kmap (String.append "limits.") q.(q_Limits) ∪ kmap (String.append "requests.") q.(q_Requests).

Definition DesiredResourceQuota (lease : EnvironmentLease) (namespace : string) : option ResourceQuota :=
  match lease.(lease_Spec).(spec_Quota) with
  | None => None
  | Some q =>
      let hard := quotaHard q in
      if bool_decide (size hard = 0%nat) then None
      else Some (mkResourceQuota
        (emptyMeta <| m_Name := ResourceQuotaName |> <| m_Namespace := namespace |>
                   <| m_Labels := ManagedLabels (lease_Name lease) |>)
        hard)
  end.

Definition ResourceListsEqual (a b : ResourceList) : bool :=
  if bool_decide (size a <> size b) then false
  else forallb (fun '(k, av) =>
         match b !! k with
         | None => false
         | Some bv => Quantity_Cmp av bv =? 0
         end) (map_to_list a).

(** ** limitrange.go *)

Definition LimitRangeName : string := "kubelease-limits".

Definition copyResourceList (l : ResourceList) : ResourceList := l.

Definition DesiredLimitRange (lease : EnvironmentLease) (namespace : string) : option LimitRange :=
  match lease.(lease_Spec).(spec_Limits) with
  | None => None
  | Some l =>
      let item := mkLimitRangeItem "Container"
        (copyResourceList l.(l_Default)) (copyResourceList l.(l_DefaultRequest))
        (copyResourceList l.(l_Max)) (copyResourceList l.(l_Min)) in
      if bool_decide (size item.(lri_Default) = 0%nat) && bool_decide (size item.(lri_DefaultRequest) = 0%nat)
         && bool_decide (size item.(lri_Max) = 0%nat) && bool_decide (size item.(lri_Min) = 0%nat)
      then None
      else Some (mkLimitRange
        (emptyMeta <| m_Name := LimitRangeName |> <| m_Namespace := namespace |>
                   <| m_Labels := ManagedLabels (lease_Name lease) |>)
        [item])
  end.

(** ** networkpolicy.go *)

Definition NetworkPolicyName : string := "kubelease-default-deny".

Definition DesiredNetworkPolicy (lease : EnvironmentLease) (namespace : string) : option NetworkPolicy :=
  match lease.(lease_Spec).(spec_NetworkPolicy) with
  | Some np =>
      if np.(np_DefaultDeny) then
        Some (mkNetworkPolicy
          (emptyMeta <| m_Name := NetworkPolicyName |> <| m_Namespace := namespace |>
                     <| m_Labels := ManagedLabels (lease_Name lease) |>)
          (mkNetworkPolicyRules (mkLabelSelector ∅ []) ["Ingress"; "Egress"] [] []))
      else None
  | None => None
  end.

End Builders.

(** ** Lemmas *)

Lemma ManagedLabels_managedBy n : ManagedLabels n !! LabelManagedBy = Some ManagedByValue.
Proof. unfold ManagedLabels. by rewrite lookup_insert_ne, lookup_singleton_eq by done. Qed.

Lemma ManagedLabels_lease n : ManagedLabels n !! LabelLease = Some n.
Proof. unfold ManagedLabels. by rewrite lookup_insert_eq. Qed.

Lemma MergeLabels_base base extra k v :
  base !! k = Some v -> MergeLabels base extra !! k = Some v.
Proof. intros. unfold MergeLabels. by apply lookup_union_Some_l. Qed.

Lemma MergeLabels_extra base extra k :
  base !! k = None -> MergeLabels base extra !! k = extra !! k.
Proof. intros. unfold MergeLabels. by apply lookup_union_r. Qed.

(** User labels never displace the management labels. *)
Lemma merged_managed n extra :
  IsManagedByKubeLease (MergeLabels (ManagedLabels n) extra) n = true.
Proof.
  unfold IsManagedByKubeLease, get.
  rewrite (MergeLabels_base _ _ _ _ (ManagedLabels_managedBy n)).
  rewrite (MergeLabels_base _ _ _ _ (ManagedLabels_lease n)). simpl.
  by rewrite String.eqb_refl.
Qed.

Lemma IsManagedByKubeLease_spec ls n :
  IsManagedByKubeLease ls n = true <->
  get ls LabelManagedBy = ManagedByValue /\ get ls LabelLease = n.
Proof. unfold IsManagedByKubeLease. by rewrite andb_true_iff, !String.eqb_eq. Qed.

Lemma IsProtectedNamespace_spec name :
  IsProtectedNamespace name = true <-> name ∈ ProtectedNamespaces.
Proof.
  unfold IsProtectedNamespace. rewrite existsb_exists, list_elem_of_In. split.
  - intros (x & Hx & ->%String.eqb_eq). done.
  - intros Hx. exists name. split; [done | apply String.eqb_refl].
Qed.

Section BuilderLemmas.
Context `{QuantityAPI}.

Lemma stamp_uid base uid cc ri : get (stampAnnotations base uid cc ri) AnnotationLeaseUID = uid.
Proof.
  unfold stampAnnotations.
  repeat case_goal; rewrite ?get_insert_ne by done; apply get_insert_eq.
Qed.

Lemma stamp_control base uid cc ri :
  cc <> "" -> get (stampAnnotations base uid cc ri) AnnotationControlClusterID = cc.
Proof.
  intros Hcc%is_empty_false. unfold stampAnnotations. rewrite Hcc. simpl.
  case_goal; rewrite ?get_insert_ne by done; apply get_insert_eq.
Qed.

Lemma stamp_target base uid cc ri :
  ri <> "" -> get (stampAnnotations base uid cc ri) AnnotationTargetIdentity = ri.
Proof.
  intros Hri%is_empty_false. unfold stampAnnotations. rewrite Hri. simpl. apply get_insert_eq.
Qed.

Lemma quotaHard_requests q k :
  quotaHard q !! ("requests." +:+ k) = q.(q_Requests) !! k.
Proof.
  unfold quotaHard. rewrite lookup_union_r.
  - by rewrite lookup_kmap by apply _.
  - apply lookup_kmap_None; [apply _|]. intros i [=].
Qed.

Lemma quotaHard_limits q k :
  quotaHard q !! ("limits." +:+ k) = q.(q_Limits) !! k.
Proof.
  unfold quotaHard. rewrite lookup_union_l.
  - by rewrite lookup_kmap by apply _.
  - apply lookup_kmap_None; [apply _|]. intros i [=].
Qed.

End BuilderLemmas.
