(* ===== verification/Policy.v ===== *)
(** * Policy resolution (internal/policy/resolve.go)

    Merging a lease specification with an optional policy: defaults for the
    omitted fields, rejection of the values that violate a hard limit. *)

From S2P Require Import Prelude GoStrings GoTime GoErrors Api Concrete.

Section PolicyDefs.
Context `{QuantityAPI}.

(** [Resolved]. *)
Record Resolved := mkResolved {
  r_PolicyName : string;
  r_TTL : duration;
  r_MaxTTL : duration;
  r_IdleTTL : duration;
  r_Renewable : bool;
  r_Quota : option QuotaSpec;
  r_NetworkPolicy : option NetworkPolicySpec;
  r_DefaultDeny : bool
}.

(** [Resolved.ToEffectiveStatus]. *)
Definition ToEffectiveStatus (r : Resolved) : EffectiveLeaseSpec :=
  mkEffectiveLeaseSpec r.(r_PolicyName) r.(r_TTL) r.(r_MaxTTL)
    (if 0 <? r.(r_IdleTTL) then Some r.(r_IdleTTL) else None)
    r.(r_Renewable) r.(r_DefaultDeny).

Definition checkDurationPolicy (name : string) (d : option DurationPolicy) : option error :=
  match d with
  | None => None
  | Some d =>
      let over (low : option duration) :=
        match low, d.(dp_Maximum) with
        | Some x, Some mx => if mx <? x then Some (x, mx) else None
        | _, _ => None
        end in
      match over d.(dp_Default) with
      | Some (x, mx) =>
          Some (ErrorString ("policy " +:+ name +:+ ".default " +:+ DurationString x +:+ " exceeds "
                             +:+ name +:+ ".maximum " +:+ DurationString mx))
      | None =>
          match over d.(dp_Minimum) with
          | Some (x, mx) =>
              Some (ErrorString ("policy " +:+ name +:+ ".minimum " +:+ DurationString x +:+ " exceeds "
                                 +:+ name +:+ ".maximum " +:+ DurationString mx))
          | None => None
          end
      end
  end.

Definition validatePolicySpec (pol : EnvironmentLeasePolicySpec) : option error :=
  (checkDurationPolicy "ttl" pol.(pol_TTL) ??
   checkDurationPolicy "maxTTL" pol.(pol_MaxTTL) ??
   checkDurationPolicy "idleTTL" pol.(pol_IdleTTL))%result.

Definition durationPolicy (pol : option EnvironmentLeasePolicySpec) (field : string)
    : option DurationPolicy :=
  pol ← pol;
  if String.eqb field "ttl" then pol.(pol_TTL)
  else if String.eqb field "maxTTL" then pol.(pol_MaxTTL)
  else if String.eqb field "idleTTL" then pol.(pol_IdleTTL)
  else None.

Definition boolPolicy (pol : option EnvironmentLeasePolicySpec) : option BoolPolicy :=
  pol ← pol; pol.(pol_Renewable).

Definition quotaPolicy (pol : option EnvironmentLeasePolicySpec) : option QuotaPolicy :=
  pol ← pol; pol.(pol_Quota).

Definition networkPolicy (pol : option EnvironmentLeasePolicySpec) : option NetworkPolicyPolicy :=
  pol ← pol; pol.(pol_NetworkPolicy).

(** The bounds of the policy on a chosen duration. *)
Definition boundDuration (name : string) (d : duration) (pol : option DurationPolicy)
    : result duration :=
  if d <=? 0 then
    Err (ErrorString (name +:+ " must be greater than zero, got " +:+ DurationString d))
  else
    match pol with
    | None => Ok d
    | Some p =>
        match p.(dp_Minimum) with
        | Some mn =>
            if d <? mn then
              Err (ErrorString (name +:+ " " +:+ DurationString d +:+ " is below policy minimum "
                                +:+ DurationString mn))
            else Ok d
        | None => Ok d
        end
    end.

Definition boundMaximum (name : string) (d : duration) (pol : option DurationPolicy)
    : result duration :=
  match pol with
  | Some p =>
      match p.(dp_Maximum) with
      | Some mx =>
          if mx <? d then
            Err (ErrorString (name +:+ " " +:+ DurationString d +:+ " exceeds policy maximum "
                              +:+ DurationString mx))
          else Ok d
      | None => Ok d
      end
  | None => Ok d
  end.

Definition resolveDuration (name : string) (leaseVal : option duration)
    (pol : option DurationPolicy) (required : bool) : result duration :=
  let bounded d := (d <-? boundDuration name d pol ;; boundMaximum name d pol)%result in
  match leaseVal, pol ≫= dp_Default with
  | Some d, _ => bounded d
  | None, Some d => bounded d
  | None, None =>
      if required then
        Err (ErrorString (name +:+ " is required (set spec." +:+ name
                          +:+ " or reference a policy with " +:+ name +:+ ".default)"))
      else Ok 0
  end.

Definition resolveBool (leaseVal : option bool) (pol : option BoolPolicy) : result bool :=
  let v := match leaseVal, pol ≫= bp_Default with
           | Some b, _ => b
           | None, Some b => b
           | None, None => true
           end in
  match pol ≫= bp_Force with
  | Some f =>
      if negb (Bool.eqb v f) then
        Err (ErrorString ("renewable=" +:+ bool_string v +:+ " violates policy force=" +:+ bool_string f))
      else Ok v
  | None => Ok v
  end.

(** One entry of a resource list against its ceiling. *)
Definition checkCeiling (list : gmap string Quantity) (kind res field : string)
    (ceiling : option Quantity) : option error :=
  match ceiling, list !! res with
  | Some mx, Some q =>
      if 0 <? Quantity_Cmp q mx then
        Some (ErrorString ("quota." +:+ kind +:+ "." +:+ res +:+ " " +:+ Quantity_String q
                           +:+ " exceeds policy " +:+ field +:+ " " +:+ Quantity_String mx))
      else None
  | _, _ => None
  end.

Definition checkQuotaList (pol : QuotaPolicy) (list : gmap string Quantity) (kind : string)
    : option error :=
  (checkCeiling list kind "cpu" "maxCPU" pol.(qp_MaxCPU) ??
   checkCeiling list kind "memory" "maxMemory" pol.(qp_MaxMemory))%result.

Definition validateQuota (quota : option QuotaSpec) (pol : option QuotaPolicy) : option error :=
  match pol, quota with
  | Some pol, Some quota =>
      (checkQuotaList pol quota.(q_Requests) "requests" ??
       checkQuotaList pol quota.(q_Limits) "limits")%result
  | _, _ => None
  end.

Definition resolveNetworkPolicy (leaseNP : option NetworkPolicySpec)
    (pol : option NetworkPolicyPolicy) : result (option NetworkPolicySpec * bool) :=
  let '(defaultDeny, explicitFalse) :=
    match leaseNP with
    | Some np => (np.(np_DefaultDeny), negb np.(np_DefaultDeny))
    | None =>
        match pol ≫= npp_DefaultDenyDefault with
        | Some b => (b, false)
        | None => (false, false)
        end
    end in
  let required := match pol with Some p => p.(npp_DefaultDenyRequired) | None => false end in
  if required && explicitFalse then
    Err (ErrorString "networkPolicy.defaultDeny=false violates policy defaultDenyRequired")
  else
    let defaultDeny := if required then true else defaultDeny in
    if negb defaultDeny then Ok (leaseNP, false)
    else Ok (Some (mkNetworkPolicySpec true), true).

(** The maxTTL policy, or [ttl.maximum] standing in for it when there is none. *)
Definition maxTTLPolicyOf (polSpec : option EnvironmentLeasePolicySpec) : option DurationPolicy :=
  match durationPolicy polSpec "maxTTL" with
  | Some p => Some p
  | None =>
      match durationPolicy polSpec "ttl" ≫= dp_Maximum with
      | Some mx => Some (mkDurationPolicy (Some mx) (Some mx) None)
      | None => None
      end
  end.

(** The final check of [maxTTL] against [ttl.maximum]. *)
Definition checkTTLCeiling (spec : EnvironmentLeaseSpec) (polSpec : option EnvironmentLeasePolicySpec)
    (maxTTL : duration) : option error :=
  match durationPolicy polSpec "ttl" ≫= dp_Maximum with
  | Some mx =>
      if (mx <? maxTTL) && bool_decide (is_Some spec.(spec_MaxTTL)) then
        Some (ErrorString ("maxTTL " +:+ DurationString maxTTL +:+ " exceeds policy ttl.maximum "
                           +:+ DurationString mx))
      else None
  | None => None
  end.

Definition Resolve (spec : EnvironmentLeaseSpec) (policy : option EnvironmentLeasePolicy)
    : result Resolved :=
  let polSpec := policy_Spec <$> policy in
  let policyName := match policy with Some p => p.(policy_Meta).(m_Name) | None => "" end in
  match polSpec ≫= validatePolicySpec with
  | Some err => Err err
  | None =>
      (ttl <-? resolveDuration "ttl" spec.(spec_TTL) (durationPolicy polSpec "ttl") true ;;
       maxTTL <-? resolveDuration "maxTTL" spec.(spec_MaxTTL) (maxTTLPolicyOf polSpec) false ;;
       let maxTTL := if maxTTL =? 0 then ttl else maxTTL in
       if maxTTL <? ttl then
         Err (ErrorString ("maxTTL (" +:+ DurationString maxTTL +:+ ") must be >= ttl ("
                           +:+ DurationString ttl +:+ ")"))
       else
         match checkTTLCeiling spec polSpec maxTTL with
         | Some err => Err err
         | None =>
             idleTTL <-? resolveDuration "idleTTL" spec.(spec_IdleTTL)
                           (durationPolicy polSpec "idleTTL") false ;;
             renewable <-? resolveBool spec.(spec_Renewable) (boolPolicy polSpec) ;;
             match validateQuota spec.(spec_Quota) (quotaPolicy polSpec) with
             | Some err => Err err
             | None =>
                 np <-? resolveNetworkPolicy spec.(spec_NetworkPolicy) (networkPolicy polSpec) ;;
                 Ok (mkResolved policyName ttl maxTTL idleTTL renewable spec.(spec_Quota) np.1 np.2)
             end
         end)%result
  end.

End PolicyDefs.

(** ** What resolution promises

    [conforms] states, without the order in which the code checks things, when
    a resolved lease respects its own fields and the policy. *)

Section PolicySpec.
Context `{QuantityAPI}.

(** The value a duration field stands for: the lease's, else the default. *)
Definition requested {A} (leaseVal policyDefault : option A) : option A :=
  match leaseVal with Some _ => leaseVal | None => policyDefault end.

Definition within (pol : option DurationPolicy) (d : duration) : Prop :=
  0 < d /\
  (forall mn, pol ≫= dp_Minimum = Some mn -> mn <= d) /\
  (forall mx, pol ≫= dp_Maximum = Some mx -> d <= mx).

Definition duration_resolves (leaseVal : option duration) (pol : option DurationPolicy)
    (required : bool) (d : duration) : Prop :=
  match requested leaseVal (pol ≫= dp_Default) with
  | Some v => d = v /\ within pol v
  | None => required = false /\ d = 0
  end.

Definition valid_bounds (pol : option DurationPolicy) : Prop :=
  forall mx, pol ≫= dp_Maximum = Some mx ->
    (forall d, pol ≫= dp_Default = Some d -> d <= mx) /\
    (forall mn, pol ≫= dp_Minimum = Some mn -> mn <= mx).

Definition valid_policy (pol : option EnvironmentLeasePolicySpec) : Prop :=
  forall p, pol = Some p ->
    valid_bounds p.(pol_TTL) /\ valid_bounds p.(pol_MaxTTL) /\ valid_bounds p.(pol_IdleTTL).

Definition under_ceiling (list : gmap string Quantity) (res : string) (ceiling : option Quantity) : Prop :=
  forall q mx, list !! res = Some q -> ceiling = Some mx -> Quantity_Cmp q mx <= 0.

Definition quota_allowed (quota : option QuotaSpec) (pol : option QuotaPolicy) : Prop :=
  forall q p, quota = Some q -> pol = Some p ->
    forall list, list = q.(q_Requests) \/ list = q.(q_Limits) ->
      under_ceiling list "cpu" p.(qp_MaxCPU) /\ under_ceiling list "memory" p.(qp_MaxMemory).

(** Default-deny is on when the lease asks for it, when the lease is silent and
    the policy defaults it, or when the policy requires it; a lease that turns
    it off against the policy has no resolution. *)
Definition network_resolves (leaseNP : option NetworkPolicySpec) (pol : option NetworkPolicyPolicy)
    (np : option NetworkPolicySpec) (deny : bool) : Prop :=
  let required := default false (npp_DefaultDenyRequired <$> pol) in
  let asked := requested (np_DefaultDeny <$> leaseNP) (pol ≫= npp_DefaultDenyDefault) in
  (required = true -> np_DefaultDeny <$> leaseNP <> Some false) /\
  deny = required || default false asked /\
  np = (if deny then Some (mkNetworkPolicySpec true) else leaseNP).

Record conforms (spec : EnvironmentLeaseSpec) (policy : option EnvironmentLeasePolicy)
    (r : Resolved) : Prop := {
  conf_policy : valid_policy (policy_Spec <$> policy);
  conf_name : r.(r_PolicyName) = default "" ((fun p => p.(policy_Meta).(m_Name)) <$> policy);
  conf_ttl : duration_resolves spec.(spec_TTL) (durationPolicy (policy_Spec <$> policy) "ttl") true r.(r_TTL);
  conf_maxTTL : exists m,
    duration_resolves spec.(spec_MaxTTL) (maxTTLPolicyOf (policy_Spec <$> policy)) false m /\
    r.(r_MaxTTL) = (if m =? 0 then r.(r_TTL) else m);
  conf_order : r.(r_TTL) <= r.(r_MaxTTL);
  conf_ceiling : is_Some spec.(spec_MaxTTL) -> forall mx,
    durationPolicy (policy_Spec <$> policy) "ttl" ≫= dp_Maximum = Some mx -> r.(r_MaxTTL) <= mx;
  conf_idle : duration_resolves spec.(spec_IdleTTL) (durationPolicy (policy_Spec <$> policy) "idleTTL") false r.(r_IdleTTL);
  conf_renewable : r.(r_Renewable) =
    default true (requested spec.(spec_Renewable) (boolPolicy (policy_Spec <$> policy) ≫= bp_Default));
  conf_force : forall f, boolPolicy (policy_Spec <$> policy) ≫= bp_Force = Some f -> r.(r_Renewable) = f;
  conf_quota : r.(r_Quota) = spec.(spec_Quota) /\
    quota_allowed spec.(spec_Quota) (quotaPolicy (policy_Spec <$> policy));
  conf_network : network_resolves spec.(spec_NetworkPolicy) (networkPolicy (policy_Spec <$> policy))
    r.(r_NetworkPolicy) r.(r_DefaultDeny)
}.

(** ** Lemmas: each check decides its clause *)

Lemma bounded_Ok name d pol x :
  (d <-? boundDuration name d pol ;; boundMaximum name d pol)%result = Ok x <->
  x = d /\ within pol d.
Proof.
  unfold boundDuration, boundMaximum, within.
  destruct pol as [[df mx mn]|]; simpl; [destruct mx as [mx|], mn as [mn|]; simpl|];
    repeat case_goal; zify_bool; split; intros Hx;
    first
      [ (* rejected by the code *)
        destruct Hx as (_ & ? & Hmn & Hmx);
        try specialize (Hmn _ eq_refl); try specialize (Hmx _ eq_refl); lia
      | done
      | (* accepted by the code *)
        injection Hx as <-; repeat split; try lia; intros ? [=]; subst; lia
      | destruct Hx as [-> _]; reflexivity ].
Qed.

Lemma resolveDuration_Ok name v pol req d :
  resolveDuration name v pol req = Ok d <-> duration_resolves v pol req d.
Proof.
  unfold resolveDuration, duration_resolves, requested.
  destruct v as [v|]; [apply bounded_Ok|].
  destruct (pol ≫= dp_Default) as [v|]; [apply bounded_Ok|].
  destruct req; naive_solver.
Qed.

Lemma checkDurationPolicy_None name pol :
  checkDurationPolicy name pol = None <-> valid_bounds pol.
Proof.
  unfold checkDurationPolicy, valid_bounds.
  destruct pol as [[df mx mn]|]; simpl; [|split; [done | done]].
  destruct mx as [mx|]; simpl; [|destruct df, mn; split; done].
  destruct df as [df|], mn as [mn|]; simpl; repeat case_goal; zify_bool; split; try done;
    intros Hx; try (intros ? [= <-]; split; intros ? [= <-]; lia);
    destruct (Hx _ eq_refl) as [Hd Hm];
    try specialize (Hd _ eq_refl); try specialize (Hm _ eq_refl); lia.
Qed.

Lemma validatePolicySpec_None pol :
  pol ≫= validatePolicySpec = None <-> valid_policy pol.
Proof.
  unfold valid_policy. destruct pol as [p|]; simpl; [|split; [done | done]].
  transitivity (valid_bounds p.(pol_TTL) /\ valid_bounds p.(pol_MaxTTL) /\ valid_bounds p.(pol_IdleTTL));
    [|split; [intros ? ? [= <-]; done | intros Hv; by apply Hv]].
  unfold validatePolicySpec.
  rewrite <- (checkDurationPolicy_None "ttl"), <- (checkDurationPolicy_None "maxTTL" p.(pol_MaxTTL)),
    <- (checkDurationPolicy_None "idleTTL" p.(pol_IdleTTL)).
  destruct (checkDurationPolicy "ttl" _), (checkDurationPolicy "maxTTL" _); naive_solver.
Qed.

Lemma resolveBool_Ok v pol b :
  resolveBool v pol = Ok b <->
  b = default true (requested v (pol ≫= bp_Default)) /\
  (forall f, pol ≫= bp_Force = Some f -> b = f).
Proof.
  unfold resolveBool, requested.
  set (w := match v, pol ≫= bp_Default with Some b, _ => b | None, Some b => b | None, None => true end).
  assert (Hw : w = default true (match v with Some _ => v | None => pol ≫= bp_Default end))
    by (subst w; destruct v, (pol ≫= bp_Default); done).
  rewrite <- Hw. destruct (pol ≫= bp_Force) as [f|]; [|naive_solver].
  destruct (Bool.eqb w f) eqn:E; simpl.
  - apply Bool.eqb_prop in E. naive_solver.
  - apply Bool.eqb_false_iff in E. naive_solver.
Qed.

Lemma checkCeiling_None list kind res field c :
  checkCeiling list kind res field c = None <-> under_ceiling list res c.
Proof.
  unfold checkCeiling, under_ceiling.
  destruct c as [mx|]; [|naive_solver]. destruct (list !! res) as [q|]; [|naive_solver].
  destruct (0 <? Quantity_Cmp q mx) eqn:E; zify_bool; split; try done.
  - intros Hx. specialize (Hx _ _ eq_refl eq_refl). lia.
  - intros _ ? ? [= <-] [= <-]. done.
Qed.

Lemma checkQuotaList_None p list kind :
  checkQuotaList p list kind = None <->
  under_ceiling list "cpu" p.(qp_MaxCPU) /\ under_ceiling list "memory" p.(qp_MaxMemory).
Proof.
  unfold checkQuotaList.
  rewrite <- (checkCeiling_None list kind "cpu" "maxCPU"),
    <- (checkCeiling_None list kind "memory" "maxMemory").
  destruct (checkCeiling list kind "cpu" "maxCPU" _); naive_solver.
Qed.

Lemma validateQuota_None q p : validateQuota q p = None <-> quota_allowed q p.
Proof.
  unfold validateQuota, quota_allowed. destruct p as [p|]; [|naive_solver].
  destruct q as [q|]; [|naive_solver].
  destruct (checkQuotaList p q.(q_Requests) "requests") eqn:H1;
    [|destruct (checkQuotaList p q.(q_Limits) "limits") eqn:H2].
  - split; [done|]. intros Hx. specialize (Hx _ _ eq_refl eq_refl _ (or_introl eq_refl)).
    apply (checkQuotaList_None _ _ "requests") in Hx. congruence.
  - split; [done|]. intros Hx. specialize (Hx _ _ eq_refl eq_refl _ (or_intror eq_refl)).
    apply (checkQuotaList_None _ _ "limits") in Hx. congruence.
  - apply checkQuotaList_None in H1, H2.
    split; [|done]. intros _ ? ? [= <-] [= <-] l [-> | ->]; done.
Qed.

Lemma resolveNetworkPolicy_Ok leaseNP pol np deny :
  resolveNetworkPolicy leaseNP pol = Ok (np, deny) <-> network_resolves leaseNP pol np deny.
Proof.
  unfold resolveNetworkPolicy, network_resolves, requested.
  destruct leaseNP as [[[]]|], pol as [[[] [[]|]]|]; simpl; split; intros Hx;
    try (injection Hx as <- <-; repeat split; intros; discriminate || done);
    try discriminate Hx;
    destruct Hx as (Hreq & -> & ->); try done; destruct (Hreq eq_refl); done.
Qed.
(** The final check of [Resolve], as the clause [conf_ceiling] reads it. *)
Lemma checkTTLCeiling_None spec polSpec m :
  checkTTLCeiling spec polSpec m = None <->
  (is_Some spec.(spec_MaxTTL) -> forall mx, durationPolicy polSpec "ttl" ≫= dp_Maximum = Some mx -> m <= mx).
Proof.
  unfold checkTTLCeiling. destruct (durationPolicy polSpec "ttl" ≫= dp_Maximum) as [mx|]; [|naive_solver].
  case_bool_decide as Hs; rewrite ?andb_true_r, ?andb_false_r; [|naive_solver].
  destruct (mx <? m) eqn:E; zify_bool; split; try done.
  - intros Hx. specialize (Hx Hs _ eq_refl). lia.
  - intros _ _ ? [= <-]. done.
Qed.

(** The checks in the order of the code, against the clauses of [conforms]. *)
Lemma Resolve_Ok (spec : EnvironmentLeaseSpec) (policy : option EnvironmentLeasePolicy)
    (r : Resolved) :
  Resolve spec policy = Ok r <-> conforms spec policy r.
Proof.
  unfold Resolve. split.
  - intros HR.
    destruct ((policy_Spec <$> policy) ≫= validatePolicySpec) as [|] eqn:Hv; [done|].
    apply validatePolicySpec_None in Hv.
    destruct (resolveDuration "ttl" _ _ _) as [ttl|] eqn:Httl; [|done].
    destruct (resolveDuration "maxTTL" _ _ _) as [m|] eqn:Hm; [|done].
    destruct ((if m =? 0 then ttl else m) <? ttl) eqn:Ho; [done|]. apply Z.ltb_ge in Ho.
    destruct (checkTTLCeiling _ _ _) eqn:Hc; [done|].
    destruct (resolveDuration "idleTTL" _ _ _) as [idle|] eqn:Hi; [|done].
    destruct (resolveBool _ _) as [ren|] eqn:Hb; [|done].
    destruct (validateQuota _ _) eqn:Hq; [done|].
    destruct (resolveNetworkPolicy _ _) as [[np deny]|] eqn:Hn; [|done].
    injection HR as <-.
    rewrite resolveDuration_Ok in Httl, Hm, Hi. rewrite checkTTLCeiling_None in Hc.
    rewrite resolveBool_Ok in Hb. rewrite validateQuota_None in Hq.
    rewrite resolveNetworkPolicy_Ok in Hn. destruct Hb as [Hb1 Hb2].
    split; simpl; eauto. by destruct policy.
  - intros [Hv Hname Httl (m & Hm & Hmax) Horder Hc Hi Hb Hf [Hq1 Hq2] Hn].
    rewrite (proj2 (validatePolicySpec_None _) Hv).
    rewrite (proj2 (resolveDuration_Ok _ _ _ _ _) Httl).
    rewrite (proj2 (resolveDuration_Ok _ _ _ _ _) Hm). rewrite <- Hmax.
    rewrite (proj2 (Z.ltb_ge _ _) Horder).
    rewrite (proj2 (checkTTLCeiling_None _ _ _) Hc).
    rewrite (proj2 (resolveDuration_Ok _ _ _ _ _) Hi).
    rewrite (proj2 (resolveBool_Ok _ _ _) (conj Hb Hf)).
    rewrite (proj2 (validateQuota_None _ _) Hq2).
    rewrite (proj2 (resolveNetworkPolicy_Ok _ _ _ _) Hn).
    destruct r, policy; simpl in *; congruence.
Qed.

(** A resolved lifetime is one [EnsureTimestamps] accepts. *)
Lemma resolved_lifetime spec policy r : Resolve spec policy = Ok r -> 0 < r.(r_TTL) <= r.(r_MaxTTL).
Proof.
  intros [_ _ Httl _ Horder _ _ _ _ _ _]%Resolve_Ok. split; [|done].
  unfold duration_resolves in Httl. destruct (requested _ _); [destruct Httl as [-> [? _]]; done|by destruct Httl].
Qed.

(** Claim C2.  [Resolve] implements its contract exactly: it succeeds with [r]
    if and only if the policy's own bounds are consistent and [r] conforms to
    the lease and the policy.  In particular a value the lease sets is used
    unchanged or the lease is rejected, never clamped; an omitted value is the
    policy default; and every resolved value is inside the policy's limits. *)
Theorem Resolve_correct (spec : EnvironmentLeaseSpec) (policy : option EnvironmentLeasePolicy)
    (r : Resolved) :
  Resolve spec policy = Ok r <-> conforms spec policy r.
Proof. apply Resolve_Ok. Qed.

(** The convenience default for maxTTL is not bounded as its comment
    says: when a policy has both [ttl.maximum] and a larger [maxTTL.default],
    a lease that omits maxTTL resolves to a lifetime cap above [ttl.maximum],
    while the same value written in the lease is rejected. *)
Theorem Resolve_maxTTL_default_escapes_ceiling (ttl mx df : duration) (meta : ObjectMeta)
    (spec : EnvironmentLeaseSpec) :
  0 < ttl <= mx -> mx < df ->
  spec.(spec_TTL) = Some ttl -> spec.(spec_MaxTTL) = None -> spec.(spec_IdleTTL) = None ->
  let pol := mkEnvironmentLeasePolicy meta
    (mkEnvironmentLeasePolicySpec
      (Some (mkDurationPolicy None (Some mx) None)) (Some (mkDurationPolicy (Some df) None None))
      None None None None None) in
  (exists r, Resolve spec (Some pol) = Ok r /\ r.(r_MaxTTL) = df) /\
  is_ok (Resolve (spec <| spec_MaxTTL := Some df |>) (Some pol)) = false.
Proof.
  intros Httl Hdf Ht Hm Hi pol. split.
  - unfold Resolve, pol. simpl. rewrite Ht, Hm, Hi. unfold resolveDuration; simpl.
    unfold boundDuration, boundMaximum; simpl.
    rewrite (proj2 (Z.leb_gt ttl 0)) by lia. rewrite (proj2 (Z.ltb_ge mx ttl)) by lia.
    rewrite (proj2 (Z.leb_gt df 0)) by lia. rewrite (proj2 (Z.eqb_neq df 0)) by lia.
    rewrite (proj2 (Z.ltb_ge df ttl)) by lia.
    unfold checkTTLCeiling. rewrite Hm. simpl. rewrite andb_false_r.
    unfold resolveBool, resolveNetworkPolicy; simpl.
    destruct (spec_NetworkPolicy spec) as [[[]]|]; simpl; eauto.
  - destruct (Resolve (spec <| spec_MaxTTL := Some df |>) (Some pol)) as [r|] eqn:HR; [|done].
    apply Resolve_Ok in HR. destruct HR as [_ _ _ (m & Hmm & Hmax) _ Hc].
    specialize (Hc (ltac:(by eexists)) mx eq_refl).
    unfold duration_resolves, requested in Hmm. simpl in Hmm.
    destruct Hmm as [-> Hw]. rewrite Hmax in Hc.
    rewrite (proj2 (Z.eqb_neq df 0)) in Hc by (destruct Hw; lia). lia.
Qed.

(** [renewable.force] rejects rather than applies: a lease that leaves
    [renewable] out under a policy that forces it to false without a default
    is refused, whatever else it asks for. *)
Theorem Resolve_force_rejects_unset (spec : EnvironmentLeaseSpec) (pol : EnvironmentLeasePolicy) :
  spec.(spec_Renewable) = None ->
  pol.(policy_Spec).(pol_Renewable) = Some (mkBoolPolicy None (Some false)) ->
  is_ok (Resolve spec (Some pol)) = false.
Proof.
  intros Hs Hp. destruct (Resolve spec (Some pol)) as [r|] eqn:HR; [|done].
  apply Resolve_Ok in HR. destruct HR as [_ _ _ _ _ _ _ Hb Hf _ _].
  unfold boolPolicy in *. simpl in *. rewrite Hs, Hp in Hb. rewrite Hp in Hf. simpl in *.
  rewrite (Hf _ eq_refl) in Hb. done.
Qed.

End PolicySpec.

(** A policy with [ttl.maximum] 8h and [maxTTL.default] 24h, and a 4h lease. *)
Lemma Resolve_maxTTL_default_escapes_ceiling_witness :
  let Q := milliQuantity in
  let spec := (@emptySpec Q) <| spec_TTL := Some (4 * Hour) |> in
  let pol := mkEnvironmentLeasePolicy emptyMeta
    (mkEnvironmentLeasePolicySpec
      (Some (mkDurationPolicy None (Some (8 * Hour)) None))
      (Some (mkDurationPolicy (Some (24 * Hour)) None None)) None None None None None) in
  (exists r, Resolve spec (Some pol) = Ok r /\ r.(r_MaxTTL) = 24 * Hour) /\
  is_ok (Resolve (spec <| spec_MaxTTL := Some (24 * Hour) |>) (Some pol)) = false.
Proof.
  intros Q spec pol.
  apply (Resolve_maxTTL_default_escapes_ceiling (4 * Hour) (8 * Hour) (24 * Hour) emptyMeta spec);
    vm_compute; try reflexivity; split; congruence.
Defined.

(** A lease that is silent on [renewable] under a policy that forces false. *)
Lemma Resolve_force_rejects_unset_witness :
  let Q := milliQuantity in
  let spec := (@emptySpec Q) <| spec_TTL := Some Hour |> in
  let pol := mkEnvironmentLeasePolicy emptyMeta
    (mkEnvironmentLeasePolicySpec None None None (Some (mkBoolPolicy None (Some false))) None None None) in
  is_ok (Resolve spec None) = true /\ is_ok (Resolve spec (Some pol)) = false.
Proof.
  intros Q spec pol. split; [vm_compute; reflexivity|].
  apply (Resolve_force_rejects_unset spec pol); reflexivity.
Defined.
