(* ===== verification/LeaseExpiration.v ===== *)
(** * Lease lifetimes (internal/lease/expiration.go and activity.go)

    Hard and idle expiration: the timestamps of a lease, the effective
    deadline derived from them, heartbeats and extension.  Functions that
    mutate the lease return the new lease; a failing function returns its
    error and leaves to the caller what it had already written, as the Go
    code does. *)

From S2P Require Import Prelude GoStrings GoTime GoErrors Api Concrete Resources Policy.

Section Expiration.
Context `{QuantityAPI}.

(** ** expiration.go: validation *)

(** The loop of [ValidateWarnings], with the set of durations seen so far. *)
Fixpoint validateWarnings (seen : gset Z) (warnings : list duration) : option error :=
  match warnings with
  | [] => None
  | w :: ws =>
      if w <=? 0 then
        Some (ErrorString ("warning duration must be greater than zero, got " +:+ DurationString w))
      else if decide (w ∈ seen) then
        Some (ErrorString ("duplicate warning duration " +:+ DurationString w))
      else validateWarnings ({[w]} ∪ seen) ws
  end.

Definition ValidateWarnings (warnings : list duration) : option error :=
  validateWarnings ∅ warnings.

Definition ValidateTTL (ttl : duration) : option error :=
  if ttl <=? 0
  then Some (ErrorString ("duration must be greater than zero, got " +:+ DurationString ttl))
  else None.

(** [spec.ClusterRef != nil && spec.ClusterRef.Name != ""]. *)
Definition hasClusterRef (spec : EnvironmentLeaseSpec) : bool :=
  match spec.(spec_ClusterRef) with Some n => negb (is_empty n) | None => false end.

Definition ValidateSpec (leaseObj : EnvironmentLease) : option error :=
  let spec := leaseObj.(lease_Spec) in
  (ValidateWarnings spec.(spec_Warnings) ??
   ValidateNamespaceSpec spec.(spec_Namespace) ??
   (if negb (is_empty leaseObj.(lease_Status).(st_Namespace))
       && IsProtectedNamespace leaseObj.(lease_Status).(st_Namespace)
    then Some (ErrorString ("cannot manage protected namespace "
                            +:+ quote leaseObj.(lease_Status).(st_Namespace)))
    else None) ??
   (if hasClusterRef spec && bool_decide (is_Some spec.(spec_Placement))
    then Some (ErrorString "clusterRef and placement are mutually exclusive")
    else None))%result.

(** ** expiration.go: timestamps *)

(** [t.Equal(&u)] on [*metav1.Time]. *)
Definition timeIs (t : option time) (u : time) : bool :=
  match t with Some t => t =? u | None => false end.

(** The result of a successful [EnsureTimestamps]: the lease, [changed] and
    [renewalRejected]. *)
Record Timestamps := mkTimestamps {
  ts_lease : EnvironmentLease;
  ts_changed : bool;
  ts_renewalRejected : bool
}.

Definition EnsureTimestamps (leaseObj : EnvironmentLease) (ttl maxTTL : duration)
    (renewable : bool) (now : time) : result Timestamps :=
  if ttl <=? 0 then Err (ErrorString "ttl must be greater than zero")
  else if maxTTL <=? 0 then Err (ErrorString "maxTTL must be greater than zero")
  else if maxTTL <? ttl then
    Err (ErrorString ("maxTTL (" +:+ DurationString maxTTL +:+ ") must be >= ttl ("
                      +:+ DurationString ttl +:+ ")"))
  else
    let '(l, createdAt, changed) :=
      match leaseObj.(lease_Status).(st_CreatedAt) with
      | Some c => (leaseObj, c, false)
      | None =>
          let created :=
            if IsZero leaseObj.(lease_Meta).(m_CreationTimestamp) then now
            else leaseObj.(lease_Meta).(m_CreationTimestamp) in
          (leaseObj <|@ st_CreatedAt := Some created |>, created, true)
      end in
    let maxExp := Add createdAt maxTTL in
    let '(l, changed) :=
      if timeIs l.(lease_Status).(st_MaximumExpiresAt) maxExp then (l, changed)
      else (l <|@ st_MaximumExpiresAt := Some maxExp |>, true) in
    let desired := Add createdAt ttl in
    let '(desired, renewalRejected) :=
      match l.(lease_Status).(st_ExpiresAt) with
      | Some e => if negb renewable && After desired e then (e, true) else (desired, false)
      | None => (desired, false)
      end in
    let '(l, changed) :=
      if timeIs l.(lease_Status).(st_ExpiresAt) desired then (l, changed)
      else (l <|@ st_ExpiresAt := Some desired |>, true) in
    Ok (mkTimestamps l changed renewalRejected).

(** ** activity.go *)

Record ExpirationWindow := mkExpirationWindow {
  w_HardExpiresAt : time;
  w_IdleExpiresAt : option time;
  w_EffectiveExpiresAt : time
}.

Definition ComputeExpirationWindow (hardExpiresAt lastActivityAt : time) (idleTTL : duration)
    : ExpirationWindow :=
  let hard := hardExpiresAt in
  if idleTTL <=? 0 then mkExpirationWindow hard None hard
  else
    let idle := Add lastActivityAt idleTTL in
    let idle := if After idle hard then hard else idle in
    mkExpirationWindow hard (Some idle) (if Before idle hard then idle else hard).

Definition ResolveExpirationReason (now hardExpiresAt : time) (idleExpiresAt : option time)
    : ExpirationReason :=
  let hardReason :=
    if negb (Before now hardExpiresAt) then ExpirationReasonTTLExpired
    else ExpirationReasonUnset in
  match idleExpiresAt with
  | Some idle =>
      if negb (Before now idle) && Before idle hardExpiresAt
      then ExpirationReasonIdleTimeout else hardReason
  | None => hardReason
  end.

(** [ExpiresAt], capped by [MaximumExpiresAt] when that is set. *)
Definition cappedHard (expiresAt : time) (maximumExpiresAt : option time) : time :=
  match maximumExpiresAt with
  | Some m => if After expiresAt m then m else expiresAt
  | None => expiresAt
  end.

Definition SyncExpirationStatus (leaseObj : EnvironmentLease) (idleTTL : duration) (now : time)
    : EnvironmentLease :=
  match leaseObj.(lease_Status).(st_CreatedAt), leaseObj.(lease_Status).(st_ExpiresAt) with
  | Some createdAt, Some expiresAt =>
      let lastActivityAt := default createdAt leaseObj.(lease_Status).(st_LastActivityAt) in
      let l := leaseObj <|@ st_LastActivityAt := Some lastActivityAt |> in
      let hard := cappedHard expiresAt l.(lease_Status).(st_MaximumExpiresAt) in
      let win := ComputeExpirationWindow hard lastActivityAt idleTTL in
      let l := l <|@ st_IdleExpiresAt := win.(w_IdleExpiresAt) |> in
      let l := l <|@ st_EffectiveExpiresAt := Some win.(w_EffectiveExpiresAt) |> in
      match l.(lease_Status).(st_ExpirationReason) with
      | ExpirationReasonManualExpiration | ExpirationReasonSourceClosed => l
      | _ =>
          if Before now win.(w_EffectiveExpiresAt)
          then l <|@ st_ExpirationReason := ExpirationReasonUnset |>
          else l <|@ st_ExpirationReason :=
                 ResolveExpirationReason now win.(w_HardExpiresAt) win.(w_IdleExpiresAt) |>
      end
  | _, _ => leaseObj
  end.

Definition RecordActivity (leaseObj : EnvironmentLease) (now : time) (idleTTL : duration)
    : EnvironmentLease * option error :=
  match leaseObj.(lease_Status).(st_CreatedAt), leaseObj.(lease_Status).(st_ExpiresAt) with
  | Some _, Some expiresAt =>
      if idleTTL <=? 0 then
        (leaseObj, Some (ErrorString
           "idleTTL is not configured; touch has no effect without idle expiration"))
      else
        let hard := cappedHard expiresAt leaseObj.(lease_Status).(st_MaximumExpiresAt) in
        if negb (Before now hard) then
          (leaseObj, Some (ErrorString ("cannot touch: hard TTL already elapsed at " +:+ FormatRFC3339 hard)))
        else
          let l := SyncExpirationStatus leaseObj idleTTL now in
          let expired :=
            match l.(lease_Status).(st_EffectiveExpiresAt) with
            | Some e => negb (Before now e)
            | None => false
            end in
          if expired then
            let reason := l.(lease_Status).(st_ExpirationReason) in
            let reason := if decide (reason = ExpirationReasonUnset)
                          then ExpirationReasonIdleTimeout else reason in
            (l, Some (ErrorString ("cannot touch: lease already expired ("
                                   +:+ ExpirationReasonString reason +:+ ")")))
          else
            let l := l <|@ st_LastActivityAt := Some now |> in
            (SyncExpirationStatus l idleTTL now, None)
  | _, _ => (leaseObj, Some (ErrorString "lease has not been initialized by the controller yet"))
  end.

Definition EffectiveDeadline (leaseObj : EnvironmentLease) : option time :=
  match leaseObj.(lease_Status).(st_EffectiveExpiresAt) with
  | Some t => Some t
  | None => leaseObj.(lease_Status).(st_ExpiresAt)
  end.

(** ** expiration.go: expiry and extension *)

Definition IsExpired (leaseObj : EnvironmentLease) (now : time) : bool :=
  match EffectiveDeadline leaseObj with
  | None => false
  | Some deadline => negb (Before now deadline)
  end.

(** The result of a successful [ComputeExtendedTTL]: the new TTL and the new
    expiration. *)
Definition ComputeExtendedTTL (createdAt currentExpiresAt maxExpiresAt : time)
    (extendBy : duration) (renewable : bool) : result (duration * time) :=
  if extendBy <=? 0 then Err (ErrorString "extension duration must be greater than zero")
  else if negb renewable then Err (ErrorString "lease is not renewable")
  else
    let newExpires := Add currentExpiresAt extendBy in
    let newExpires := if After newExpires maxExpiresAt then maxExpiresAt else newExpires in
    if negb (After newExpires currentExpiresAt) then
      Err (ErrorString ("extension would exceed maximum lifetime (max expires at "
                        +:+ FormatRFC3339 maxExpiresAt +:+ ")"))
    else Ok (Sub newExpires createdAt, newExpires).

End Expiration.

(** ** The abstract lifetime

    What the timestamps mean: a lease created at [c] may live until its hard
    expiration, and with an idle window only until its last activity plus that
    window. *)

Section Lifetime.
Context `{QuantityAPI}.

(** [ValidateWarnings] accepts the positive warnings without repetition. *)
Lemma validateWarnings_None seen ws :
  validateWarnings seen ws = None <-> Forall (fun w => 0 < w /\ w ∉ seen) ws /\ NoDup ws.
Proof.
  revert seen. induction ws as [|w ws IH]; intros seen; simpl; [repeat constructor|].
  rewrite Forall_cons, NoDup_cons. destruct (w <=? 0) eqn:Hw; zify_bool; [split; [done|lia]|].
  case_decide; [split; [done|tauto]|]. rewrite IH, !Forall_forall. setoid_rewrite not_elem_of_union.
  setoid_rewrite not_elem_of_singleton. split; [|naive_solver]. intros [HF Hd].
  split_and!; try done; [|intros Hin; by apply HF in Hin as (_ & Hne & _)]. naive_solver.
Qed.

Lemma ValidateWarnings_None ws : ValidateWarnings ws = None <-> Forall (fun w => 0 < w) ws /\ NoDup ws.
Proof.
  unfold ValidateWarnings. rewrite validateWarnings_None, !Forall_forall. set_solver.
Qed.

(** When the lease window starts. *)
Definition startOf (l : EnvironmentLease) (now : time) : time :=
  default (if IsZero l.(lease_Meta).(m_CreationTimestamp) then now
           else l.(lease_Meta).(m_CreationTimestamp))
    l.(lease_Status).(st_CreatedAt).

(** The hard expiration asked for, which a non-renewable lease may not move later. *)
Definition hardOf (renewable : bool) (previous : option time) (asked : time) : time :=
  match previous with
  | Some e => if negb renewable && (e <? asked) then e else asked
  | None => asked
  end.

(** [effective = min(hard, lastActivity + idleTTL)]; no idle window when it is not positive. *)
Definition deadlineOf (hard lastActivity idleTTL : Z) : time :=
  if idleTTL <=? 0 then hard else Z.min hard (lastActivity + idleTTL).

Lemma ComputeExpirationWindow_effective hard last idle :
  (ComputeExpirationWindow hard last idle).(w_EffectiveExpiresAt) = deadlineOf hard last idle.
Proof.
  unfold ComputeExpirationWindow, deadlineOf, Add, After, Before.
  destruct (idle <=? 0); simpl; [done|]. by_cases.
Qed.

Lemma ComputeExpirationWindow_idle hard last idle :
  (ComputeExpirationWindow hard last idle).(w_IdleExpiresAt) =
  if idle <=? 0 then None else Some (deadlineOf hard last idle).
Proof.
  unfold ComputeExpirationWindow, deadlineOf, Add, After, Before.
  destruct (idle <=? 0) eqn:E; simpl; [done|]. f_equal. by_cases.
Qed.

Lemma cappedHard_min e m : cappedHard e (Some m) = Z.min e m.
Proof. unfold cappedHard, After. by_cases. Qed.

Lemma timeIs_true t u : timeIs t u = true <-> t = Some u.
Proof. destruct t; simpl; rewrite ?Z.eqb_eq; naive_solver. Qed.

(** Writing back a field that already has the value changes nothing. *)
Lemma set_status_id l f :
  f l.(lease_Status) = l.(lease_Status) -> modify (proj:=lease_Status) f l = l.
Proof. intros Hf. destruct l. unfold modify. cbn in *. by rewrite Hf. Qed.

Lemma set_CreatedAt_id l t :
  l.(lease_Status).(st_CreatedAt) = t -> l <|@ st_CreatedAt := t |> = l.
Proof. intros Ht. apply set_status_id. destruct l as [? ? []]. cbn in *. by subst. Qed.

Lemma set_MaximumExpiresAt_id l t :
  l.(lease_Status).(st_MaximumExpiresAt) = t -> l <|@ st_MaximumExpiresAt := t |> = l.
Proof. intros Ht. apply set_status_id. destruct l as [? ? []]. cbn in *. by subst. Qed.

Lemma set_ExpiresAt_id l t :
  l.(lease_Status).(st_ExpiresAt) = t -> l <|@ st_ExpiresAt := t |> = l.
Proof. intros Ht. apply set_status_id. destruct l as [? ? []]. cbn in *. by subst. Qed.

(** The three timestamps a successful [EnsureTimestamps] leaves. *)
Definition stamped (l : EnvironmentLease) (ttl maxTTL : duration) (renewable : bool) (now : time)
    : EnvironmentLease :=
  let c := startOf l now in
  l <|@ st_CreatedAt := Some c |> <|@ st_MaximumExpiresAt := Some (c + maxTTL) |>
    <|@ st_ExpiresAt := Some (hardOf renewable l.(lease_Status).(st_ExpiresAt) (c + ttl)) |>.

Lemma hardOf_le renewable prev asked : hardOf renewable prev asked <= asked.
Proof. unfold hardOf. by_cases. Qed.

(** The conditional writes of [EnsureTimestamps], as unconditional ones. *)
Lemma ensure_max_step l x (ch : bool) :
  (if timeIs l.(lease_Status).(st_MaximumExpiresAt) x then (l, ch)
   else (l <|@ st_MaximumExpiresAt := Some x |>, true)) =
  (l <|@ st_MaximumExpiresAt := Some x |>,
   ch || negb (timeIs l.(lease_Status).(st_MaximumExpiresAt) x)).
Proof.
  destruct (timeIs _ _) eqn:E; simpl; [|by rewrite orb_true_r].
  rewrite orb_false_r. apply timeIs_true in E. by rewrite set_MaximumExpiresAt_id.
Qed.

Lemma ensure_expires_step l x (ch : bool) :
  (if timeIs l.(lease_Status).(st_ExpiresAt) x then (l, ch)
   else (l <|@ st_ExpiresAt := Some x |>, true)) =
  (l <|@ st_ExpiresAt := Some x |>,
   ch || negb (timeIs l.(lease_Status).(st_ExpiresAt) x)).
Proof.
  destruct (timeIs _ _) eqn:E; simpl; [|by rewrite orb_true_r].
  rewrite orb_false_r. apply timeIs_true in E. by rewrite set_ExpiresAt_id.
Qed.

Lemma ensure_created_step l now :
  match l.(lease_Status).(st_CreatedAt) with
  | Some c => (l, c, false)
  | None =>
      let created := if IsZero l.(lease_Meta).(m_CreationTimestamp) then now
                     else l.(lease_Meta).(m_CreationTimestamp) in
      (l <|@ st_CreatedAt := Some created |>, created, true)
  end =
  (l <|@ st_CreatedAt := Some (startOf l now) |>, startOf l now,
   bool_decide (l.(lease_Status).(st_CreatedAt) = None)).
Proof.
  unfold startOf. destruct (st_CreatedAt _) as [c|] eqn:E; simpl; [|done].
  by rewrite set_CreatedAt_id.
Qed.

(** [EnsureTimestamps] on valid durations, in one equation. *)
Lemma EnsureTimestamps_eq l ttl maxTTL renewable now :
  0 < ttl <= maxTTL ->
  let c := startOf l now in
  let prev := l.(lease_Status).(st_ExpiresAt) in
  EnsureTimestamps l ttl maxTTL renewable now =
  Ok (mkTimestamps (stamped l ttl maxTTL renewable now)
    (bool_decide (l.(lease_Status).(st_CreatedAt) = None)
     || negb (timeIs l.(lease_Status).(st_MaximumExpiresAt) (c + maxTTL))
     || negb (timeIs prev (hardOf renewable prev (c + ttl))))
    (match prev with Some e => negb renewable && (e <? c + ttl) | None => false end)).
Proof.
  intros Httl c prev. unfold EnsureTimestamps.
  rewrite (proj2 (Z.leb_gt ttl 0)) by lia. rewrite (proj2 (Z.leb_gt maxTTL 0)) by lia.
  rewrite (proj2 (Z.ltb_ge maxTTL ttl)) by lia.
  rewrite ensure_created_step. cbv zeta beta iota.
  rewrite ensure_max_step. cbv zeta beta iota.
  change (st_ExpiresAt (lease_Status (_ <|@ st_MaximumExpiresAt := _ |>))) with prev.
  replace (match prev with
           | Some e => if negb renewable && After (Add (startOf l now) ttl) e
                       then (e, true) else (Add (startOf l now) ttl, false)
           | None => (Add (startOf l now) ttl, false)
           end)
    with (hardOf renewable prev (c + ttl),
          match prev with Some e => negb renewable && (e <? c + ttl) | None => false end)
    by (unfold hardOf, After, Add; fold c; by destruct prev as [e|]; [case_match|]).
  cbv beta iota zeta.
  change (timeIs prev) with (timeIs (st_ExpiresAt (lease_Status
    (l <|@ st_CreatedAt := Some (startOf l now) |>
       <|@ st_MaximumExpiresAt := Some (Add (startOf l now) maxTTL) |>)))).
  rewrite ensure_expires_step. done.
Qed.

(** Stamping is the identity exactly when the timestamps are already there. *)
Lemma stamped_id_iff l ttl maxTTL renewable now :
  let c := startOf l now in
  let prev := l.(lease_Status).(st_ExpiresAt) in
  stamped l ttl maxTTL renewable now = l <->
  l.(lease_Status).(st_CreatedAt) <> None /\
  l.(lease_Status).(st_MaximumExpiresAt) = Some (c + maxTTL) /\
  prev = Some (hardOf renewable prev (c + ttl)).
Proof.
  intros c prev. split.
  - intros Heq. apply (f_equal lease_Status) in Heq.
    pose proof (f_equal st_CreatedAt Heq) as H1.
    pose proof (f_equal st_MaximumExpiresAt Heq) as H2.
    pose proof (f_equal st_ExpiresAt Heq) as H3. cbn in H1, H2, H3.
    subst c prev. rewrite <- H1, <- H2. rewrite <- H3 at 1. done.
  - intros (H1 & H2 & H3). unfold stamped. fold c prev.
    assert (Hc : l.(lease_Status).(st_CreatedAt) = Some c).
    { subst c. unfold startOf. by destruct (st_CreatedAt _). }
    rewrite <- H3, (set_CreatedAt_id l _ Hc), (set_MaximumExpiresAt_id l _ H2).
    by apply set_ExpiresAt_id.
Qed.

(** Claim C33.  [EnsureTimestamps] computes the lifetime of a lease.  On a
    resolved TTL and cap it always succeeds; the creation time is set once,
    from the object's creation timestamp; the maximum is creation + maxTTL;
    the hard expiration is creation + TTL, except that a non-renewable lease
    keeps an earlier one, which is exactly when the renewal is reported as
    rejected.  Nothing else changes, [changed] is reported exactly when the
    lease did change, and the hard expiration never exceeds the maximum. *)
Theorem EnsureTimestamps_correct (l : EnvironmentLease) (ttl maxTTL : duration)
    (renewable : bool) (now : time) :
  0 < ttl <= maxTTL ->
  exists r, EnsureTimestamps l ttl maxTTL renewable now = Ok r /\
    r.(ts_lease) = stamped l ttl maxTTL renewable now /\
    (r.(ts_changed) = true <-> r.(ts_lease) <> l) /\
    (r.(ts_renewalRejected) = true <->
      renewable = false /\
      exists e, l.(lease_Status).(st_ExpiresAt) = Some e /\ e < startOf l now + ttl) /\
    hardOf renewable l.(lease_Status).(st_ExpiresAt) (startOf l now + ttl) <= startOf l now + maxTTL.
Proof.
  intros Httl. pose proof (EnsureTimestamps_eq l ttl maxTTL renewable now Httl) as Heq.
  eexists. split; [exact Heq|]. cbn. split; [done|]. split; [|split].
  - rewrite stamped_id_iff, !orb_true_iff, bool_decide_eq_true, !negb_true_iff.
    rewrite <- !not_true_iff_false, !timeIs_true.
    destruct (decide (st_CreatedAt (lease_Status l) = None)); [tauto|].
    destruct (decide (st_MaximumExpiresAt (lease_Status l) = Some (startOf l now + maxTTL))); tauto.
  - destruct (st_ExpiresAt (lease_Status l)) as [e|]; [|naive_solver].
    rewrite andb_true_iff, negb_true_iff, Z.ltb_lt. naive_solver.
  - pose proof (hardOf_le renewable (st_ExpiresAt (lease_Status l)) (startOf l now + ttl)). lia.
Qed.

End Lifetime.
