(* ===== verification/Lifetime.v ===== *)
(** * The life of a lease

    Properties of the functions of internal/lease/expiration.go and activity.go
    taken together: what the controller's refresh leaves in the status, what a
    heartbeat and an extension can and cannot do, and the invariants of every
    sequence of them. *)

From S2P Require Import Prelude GoStrings GoTime GoErrors Api Concrete Resources Policy LeaseExpiration.

Section Life.
Context `{QuantityAPI}.

Implicit Types (l : EnvironmentLease) (now : time).

(** The hard expiration of an initialised lease: [ExpiresAt] capped by
    [MaximumExpiresAt]. *)
Definition hard_of l : option time :=
  e ← l.(lease_Status).(st_ExpiresAt); Some (cappedHard e l.(lease_Status).(st_MaximumExpiresAt)).

(** The last heartbeat, or the creation. *)
Definition lastActivity_of l : option time :=
  c ← l.(lease_Status).(st_CreatedAt); Some (default c l.(lease_Status).(st_LastActivityAt)).

(** The reasons a lease carries because somebody asked for its end. *)
Definition explicitReason (r : ExpirationReason) : Prop :=
  r = ExpirationReasonManualExpiration \/ r = ExpirationReasonSourceClosed.

#[export] Instance explicitReason_dec r : Decision (explicitReason r).
Proof. unfold explicitReason. apply _. Defined.

(** The reason the window alone gives at [now]. *)
Definition windowReason (hard last idle : Z) now : ExpirationReason :=
  if now <? deadlineOf hard last idle then ExpirationReasonUnset
  else if (0 <? idle) && (last + idle <? hard) then ExpirationReasonIdleTimeout
  else ExpirationReasonTTLExpired.

Lemma ResolveExpirationReason_window hard last idle now :
  let win := ComputeExpirationWindow hard last idle in
  (if Before now win.(w_EffectiveExpiresAt) then ExpirationReasonUnset
   else ResolveExpirationReason now win.(w_HardExpiresAt) win.(w_IdleExpiresAt)) =
  windowReason hard last idle now.
Proof.
  cbv zeta. rewrite ComputeExpirationWindow_effective, ComputeExpirationWindow_idle.
  unfold ComputeExpirationWindow, windowReason, ResolveExpirationReason, deadlineOf, Before.
  destruct (idle <=? 0) eqn:E; simpl; zify_bool.
  - rewrite (proj2 (Z.ltb_ge 0 idle)) by lia. simpl. by destruct (now <? hard).
  - rewrite (proj2 (Z.ltb_lt 0 idle)) by lia. simpl.
    destruct (Z.ltb_spec (last + idle) hard).
    + rewrite Z.min_r by lia. rewrite (proj2 (Z.ltb_lt (last + idle) hard)) by lia.
      by destruct (now <? last + idle).
    + rewrite Z.min_l by lia. rewrite Z.ltb_irrefl, andb_false_r. by destruct (now <? hard).
Qed.

(** The status fields [SyncExpirationStatus] derives, all at once. *)
Lemma SyncExpirationStatus_eq l idle now c e :
  l.(lease_Status).(st_CreatedAt) = Some c ->
  l.(lease_Status).(st_ExpiresAt) = Some e ->
  let last := default c l.(lease_Status).(st_LastActivityAt) in
  let hard := cappedHard e l.(lease_Status).(st_MaximumExpiresAt) in
  SyncExpirationStatus l idle now =
  l <|@ st_LastActivityAt := Some last |>
    <|@ st_IdleExpiresAt := if idle <=? 0 then None else Some (deadlineOf hard last idle) |>
    <|@ st_EffectiveExpiresAt := Some (deadlineOf hard last idle) |>
    <|@ st_ExpirationReason :=
        if decide (explicitReason l.(lease_Status).(st_ExpirationReason))
        then l.(lease_Status).(st_ExpirationReason)
        else windowReason hard last idle now |>.
Proof.
  intros Hc He last hard. unfold SyncExpirationStatus. rewrite Hc, He.
  rewrite <- ResolveExpirationReason_window.
  change (cappedHard e _) with hard. fold last.
  cbv zeta. rewrite <- ComputeExpirationWindow_idle, <- ComputeExpirationWindow_effective.
  destruct l as [m s st]. destruct st. cbn in *. subst.
  destruct st_ExpirationReason; cbn; try by case_match.
Qed.

Lemma EffectiveDeadline_Sync l idle now h a :
  hard_of l = Some h -> lastActivity_of l = Some a ->
  EffectiveDeadline (SyncExpirationStatus l idle now) = Some (deadlineOf h a idle).
Proof.
  unfold hard_of, lastActivity_of. intros Hh Ha.
  destruct (st_ExpiresAt _) as [e|] eqn:He; simplify_eq/=.
  destruct (st_CreatedAt _) as [c|] eqn:Hc; simplify_eq/=.
  by rewrite (SyncExpirationStatus_eq _ _ _ _ _ Hc He).
Qed.

(** The derived expiration fields of an initialised lease.  After
    [SyncExpirationStatus] the deadline the controller acts on is
    min(hard expiration, last activity + idle window), with no idle window when
    that is not positive; the lease counts as expired exactly from that instant
    on; the reason is unset before it and afterwards tells an idle timeout from
    a TTL expiration by which of the two came first, unless an explicit end was
    requested, which is kept; and a second synchronisation changes nothing. *)
Theorem SyncExpirationStatus_correct l idle now h a :
  hard_of l = Some h -> lastActivity_of l = Some a ->
  let l' := SyncExpirationStatus l idle now in
  EffectiveDeadline l' = Some (deadlineOf h a idle) /\
  (IsExpired l' now = true <-> deadlineOf h a idle <= now) /\
  l'.(lease_Status).(st_ExpirationReason) =
    (if decide (explicitReason l.(lease_Status).(st_ExpirationReason))
     then l.(lease_Status).(st_ExpirationReason) else windowReason h a idle now) /\
  hard_of l' = Some h /\ lastActivity_of l' = Some a /\
  SyncExpirationStatus l' idle now = l'.
Proof.
  intros Hh Ha l'. pose proof (EffectiveDeadline_Sync l idle now h a Hh Ha) as Hd. fold l' in Hd.
  split; [done|]. split.
  { unfold IsExpired. rewrite Hd. unfold Before. rewrite negb_true_iff, Z.ltb_ge. done. }
  unfold hard_of, lastActivity_of in Hh, Ha.
  destruct (st_ExpiresAt (lease_Status l)) as [e|] eqn:He; simplify_eq/=.
  destruct (st_CreatedAt (lease_Status l)) as [c|] eqn:Hc; simplify_eq/=.
  assert (Hl' : l' = SyncExpirationStatus l idle now) by done. clearbody l'.
  rewrite (SyncExpirationStatus_eq _ _ _ _ _ Hc He) in Hl'. cbv zeta in Hl'.
  assert (Hc' : st_CreatedAt (lease_Status l') = Some c) by (subst l'; done).
  assert (He' : st_ExpiresAt (lease_Status l') = Some e) by (subst l'; done).
  split; [by subst l'|].
  split; [unfold hard_of; rewrite He'; by subst l'|].
  split; [unfold lastActivity_of; rewrite Hc'; by subst l'|].
  rewrite (SyncExpirationStatus_eq _ _ _ _ _ Hc' He'). subst l'.
  destruct l as [m s st]. destruct st. cbn in *. subst.
  repeat case_decide; try done.
Qed.

(** A heartbeat of an initialised lease, spelled out. *)
Lemma RecordActivity_eq l now idle h a :
  hard_of l = Some h -> lastActivity_of l = Some a -> 0 < idle -> now < deadlineOf h a idle ->
  RecordActivity l now idle =
  (SyncExpirationStatus ((SyncExpirationStatus l idle now) <|@ st_LastActivityAt := Some now |>) idle now,
   None).
Proof.
  intros Hh Ha Hidle Hnow. pose proof (EffectiveDeadline_Sync l idle now h a Hh Ha) as Hd.
  unfold RecordActivity. unfold hard_of, lastActivity_of in Hh, Ha.
  destruct (st_ExpiresAt _) as [e|] eqn:He; simplify_eq/=.
  destruct (st_CreatedAt _) as [c|] eqn:Hc; simplify_eq/=.
  rewrite (proj2 (Z.leb_gt idle 0)) by lia.
  assert (Hlt : now < cappedHard e (st_MaximumExpiresAt (lease_Status l))).
  { revert Hnow. unfold deadlineOf. by_cases. }
  unfold Before at 1. rewrite (proj2 (Z.ltb_lt _ _) Hlt). simpl.
  rewrite (SyncExpirationStatus_eq _ _ _ _ _ Hc He) in Hd |- *. cbv zeta in Hd |- *.
  unfold EffectiveDeadline in Hd. cbn in Hd. simplify_eq. cbn.
  unfold Before. by rewrite (proj2 (Z.ltb_lt _ _) Hnow).
Qed.

(** A heartbeat is accepted exactly while the lease is alive: it
    succeeds if and only if the lease is initialised, an idle window is
    configured and the effective deadline has not passed.  An accepted heartbeat
    at [now] moves the deadline to min(hard, now + idle), which is in the
    future; it never moves it earlier when the last activity is in the past, and
    it touches neither the creation time nor the hard expiration nor the
    maximum, so that activity cannot outlive the hard TTL. *)
Theorem RecordActivity_correct l now idle h a :
  hard_of l = Some h -> lastActivity_of l = Some a ->
  let '(l', err) := RecordActivity l now idle in
  (err = None <-> 0 < idle /\ now < deadlineOf h a idle) /\
  (err = None ->
     EffectiveDeadline l' = Some (Z.min h (now + idle)) /\ IsExpired l' now = false /\
     l'.(lease_Status).(st_LastActivityAt) = Some now /\
     (a <= now -> deadlineOf h a idle <= Z.min h (now + idle))) /\
  l'.(lease_Status).(st_CreatedAt) = l.(lease_Status).(st_CreatedAt) /\
  l'.(lease_Status).(st_ExpiresAt) = l.(lease_Status).(st_ExpiresAt) /\
  l'.(lease_Status).(st_MaximumExpiresAt) = l.(lease_Status).(st_MaximumExpiresAt) /\
  l'.(lease_Spec) = l.(lease_Spec) /\ l'.(lease_Meta) = l.(lease_Meta).
Proof.
  intros Hh Ha.
  assert (Hdl : 0 < idle -> deadlineOf h a idle = Z.min h (a + idle)).
  { intros. unfold deadlineOf. by rewrite (proj2 (Z.leb_gt idle 0)) by lia. }
  destruct (decide (0 < idle /\ now < deadlineOf h a idle)) as [[Hi Hn]|Hno].
  - rewrite (RecordActivity_eq l now idle h a) by done.
    set (l1 := (SyncExpirationStatus l idle now) <|@ st_LastActivityAt := Some now |>).
    unfold hard_of, lastActivity_of in Hh, Ha.
    destruct (st_ExpiresAt _) as [e|] eqn:He; simplify_eq/=.
    destruct (st_CreatedAt _) as [c|] eqn:Hc; simplify_eq/=.
    set (h := cappedHard e _) in *. set (a := default c _) in *.
    assert (Hl1 : l1 = (SyncExpirationStatus l idle now) <|@ st_LastActivityAt := Some now |>) by done.
    rewrite (SyncExpirationStatus_eq _ _ _ _ _ Hc He) in Hl1. clearbody l1. cbv zeta in Hl1.
    assert (Hh1 : hard_of l1 = Some h) by (unfold hard_of; subst l1; cbn; by rewrite He).
    assert (Ha1 : lastActivity_of l1 = Some now) by (unfold lastActivity_of; subst l1; cbn; by rewrite Hc).
    pose proof (EffectiveDeadline_Sync l1 idle now h now Hh1 Ha1) as Hd1.
    assert (Hd1' : deadlineOf h now idle = Z.min h (now + idle))
      by (unfold deadlineOf; by rewrite (proj2 (Z.leb_gt idle 0)) by lia).
    rewrite Hd1' in Hd1. rewrite (Hdl Hi) in *.
    split; [tauto|]. split.
    + intros _. split; [done|]. split; [|split; [|lia]].
      * unfold IsExpired. rewrite Hd1. unfold Before. rewrite negb_false_iff, Z.ltb_lt. lia.
      * assert (Hc1 : st_CreatedAt (lease_Status l1) = Some c) by (by subst l1).
        assert (He1 : st_ExpiresAt (lease_Status l1) = Some e) by (by subst l1).
        rewrite (SyncExpirationStatus_eq _ _ _ _ _ Hc1 He1). by subst l1.
    + assert (Hc1 : st_CreatedAt (lease_Status l1) = Some c) by (by subst l1).
      assert (He1 : st_ExpiresAt (lease_Status l1) = Some e) by (by subst l1).
      rewrite (SyncExpirationStatus_eq _ _ _ _ _ Hc1 He1). by subst l1.
  - pose proof (EffectiveDeadline_Sync l idle now h a Hh Ha) as Hd.
    unfold RecordActivity. unfold hard_of, lastActivity_of in Hh, Ha.
    destruct (st_ExpiresAt (lease_Status l)) as [e|] eqn:He; simplify_eq/=.
    destruct (st_CreatedAt (lease_Status l)) as [c|] eqn:Hc; simplify_eq/=.
    destruct (idle <=? 0) eqn:Hi; [split; [naive_solver lia|naive_solver]|]. zify_bool.
    destruct (negb (Before now _)) eqn:Hb.
    { split; [|naive_solver]. split; [done|]. intros Hbad. exfalso. by apply Hno. }
    rewrite (SyncExpirationStatus_eq _ _ _ _ _ Hc He) in Hd |- *. cbv zeta in Hd |- *.
    unfold EffectiveDeadline in Hd. cbn in Hd. simplify_eq. cbn.
    set (d := deadlineOf _ _ _) in *.
    assert (Hdn : d <= now) by (destruct (Z.le_gt_cases d now); [done|]; exfalso; apply Hno; lia).
    unfold Before. rewrite (proj2 (Z.ltb_ge _ _) Hdn). cbn.
    split; [split; [done|lia]|]. naive_solver.
Qed.

(** ** Extension *)

(** [ComputeExtendedTTL] succeeds exactly for a positive extension of a renewable
    lease with room below its maximum, and returns the distance from the creation to
    the sooner of the extended expiration and the maximum. *)
Lemma ComputeExtendedTTL_Ok (c cur mx : time) (by_ ttl : duration) (renewable : bool) (newExp : time) :
  ComputeExtendedTTL c cur mx by_ renewable = Ok (ttl, newExp) <->
  0 < by_ /\ renewable = true /\ cur < mx /\ newExp = Z.min (cur + by_) mx /\ ttl = Sub newExp c.
Proof.
  assert (Hmin : (if After (Add cur by_) mx then mx else Add cur by_) = Z.min (cur + by_) mx)
    by (unfold After, Add; by_cases).
  unfold ComputeExtendedTTL. cbv zeta. rewrite Hmin. unfold After.
  destruct (by_ <=? 0) eqn:E1; zify_bool; [split; [done|lia]|].
  destruct renewable; simpl; [|split; [done|naive_solver]].
  destruct (cur <? Z.min (cur + by_) mx) eqn:E2; zify_bool; simpl; split;
    try (intros [= <- <-]; split_and!; [lia|done|lia|done|done]); try (intros (?&?&?&->&->); done);
    [done|lia].
Qed.

(** The TTL of a successful extension, set on the lease, makes the controller arrive
    at the extended expiration, if it takes the lease for renewable; if not, it keeps
    the expiration and rejects the renewal. *)
Lemma ComputeExtendedTTL_arrives l (now c cur mx : time) (by_ maxTTL ttl : duration) (newExp : time)
    (asked renewable : bool) :
  l.(lease_Status).(st_CreatedAt) = Some c ->
  l.(lease_Status).(st_ExpiresAt) = Some cur ->
  c < cur -> mx = c + maxTTL -> maxTTL <= maxDuration ->
  ComputeExtendedTTL c cur mx by_ asked = Ok (ttl, newExp) ->
  exists r, EnsureTimestamps l ttl maxTTL renewable now = Ok r /\
    r.(ts_lease).(lease_Status).(st_ExpiresAt) = Some (if renewable then newExp else cur) /\
    r.(ts_lease).(lease_Status).(st_MaximumExpiresAt) = Some mx /\
    r.(ts_renewalRejected) = negb renewable.
Proof.
  intros Hc Hcur Hlt -> Hmax (? & _ & ? & -> & ->)%ComputeExtendedTTL_Ok.
  rewrite Sub_exact by (unfold in_i64, minDuration, maxDuration, two63 in *; lia).
  eexists. split; [apply EnsureTimestamps_eq; lia|].
  assert (Hs : startOf l now = c) by (unfold startOf; by rewrite Hc).
  unfold stamped. rewrite Hs, Hcur. cbn. unfold hardOf.
  replace (c + (Z.min (cur + by_) (c + maxTTL) - c)) with (Z.min (cur + by_) (c + maxTTL)) by lia.
  rewrite (proj2 (Z.ltb_lt cur _)) by lia. by destruct renewable.
Qed.

(** ** Every history of a lease *)

(** One change of a lease's lifetime: the controller stamps it under a policy
    that resolves to [0 < ttl <= maxTTL], or derives its deadline, or somebody
    sends a heartbeat (whether accepted or not); the specification and the
    object's metadata may change in between, but not the creation timestamp. *)
Inductive life_step (renewable : bool) : EnvironmentLease -> EnvironmentLease -> Prop :=
  | life_stamp l ttl maxTTL now r :
      EnsureTimestamps l ttl maxTTL renewable now = Ok r ->
      life_step renewable l r.(ts_lease)
  | life_sync l idle now : life_step renewable l (SyncExpirationStatus l idle now)
  | life_touch l now idle : life_step renewable l (RecordActivity l now idle).1
  | life_edit l m s :
      m.(m_CreationTimestamp) = l.(lease_Meta).(m_CreationTimestamp) ->
      life_step renewable l (mkEnvironmentLease m s l.(lease_Status)).

(** What a step may do to the part of the status that carries the hard limits. *)
Lemma SyncExpirationStatus_frame l idle now :
  let l' := SyncExpirationStatus l idle now in
  l'.(lease_Status).(st_CreatedAt) = l.(lease_Status).(st_CreatedAt) /\
  l'.(lease_Status).(st_ExpiresAt) = l.(lease_Status).(st_ExpiresAt) /\
  l'.(lease_Status).(st_MaximumExpiresAt) = l.(lease_Status).(st_MaximumExpiresAt) /\
  l'.(lease_Meta) = l.(lease_Meta) /\ l'.(lease_Spec) = l.(lease_Spec).
Proof.
  cbv zeta. destruct (st_CreatedAt (lease_Status l)) as [c|] eqn:Hc;
    destruct (st_ExpiresAt (lease_Status l)) as [e|] eqn:He;
    try (rewrite (SyncExpirationStatus_eq _ _ _ _ _ Hc He); by auto);
    unfold SyncExpirationStatus; rewrite Hc, ?He; auto.
Qed.

Lemma RecordActivity_frame l now idle :
  let l' := (RecordActivity l now idle).1 in
  l'.(lease_Status).(st_CreatedAt) = l.(lease_Status).(st_CreatedAt) /\
  l'.(lease_Status).(st_ExpiresAt) = l.(lease_Status).(st_ExpiresAt) /\
  l'.(lease_Status).(st_MaximumExpiresAt) = l.(lease_Status).(st_MaximumExpiresAt) /\
  l'.(lease_Meta) = l.(lease_Meta) /\ l'.(lease_Spec) = l.(lease_Spec).
Proof.
  cbv zeta. destruct (SyncExpirationStatus_frame l idle now) as (H1 & H2 & H3 & H4 & H5).
  destruct (SyncExpirationStatus_frame
    ((SyncExpirationStatus l idle now) <|@ st_LastActivityAt := Some now |>) idle now)
    as (G1 & G2 & G3 & G4 & G5).
  unfold RecordActivity. repeat case_match; simpl; auto.
  all: rewrite ?G1, ?G2, ?G3, ?G4, ?G5; cbn; rewrite ?H1, ?H2, ?H3, ?H4, ?H5; auto.
Qed.

(** The history of a lease from an unstamped one. *)
Inductive lives (renewable : bool) l0 : EnvironmentLease -> Prop :=
  | lives_start : lives renewable l0 l0
  | lives_next l l' : lives renewable l0 l -> life_step renewable l l' -> lives renewable l0 l'.

(** What every lease of a history satisfies, relative to an earlier one. *)
Definition since (renewable : bool) l0 l : Prop :=
  (forall c, l0.(lease_Status).(st_CreatedAt) = Some c -> l.(lease_Status).(st_CreatedAt) = Some c) /\
  (forall e0, l0.(lease_Status).(st_ExpiresAt) = Some e0 ->
     exists e, l.(lease_Status).(st_ExpiresAt) = Some e /\ (renewable = false -> e <= e0)).

Lemma since_trans renewable l0 l1 l2 :
  since renewable l0 l1 -> since renewable l1 l2 -> since renewable l0 l2.
Proof.
  intros [A1 A2] [B1 B2]. split; [auto|]. intros e0 H0.
  destruct (A2 e0 H0) as (e1 & H1 & L1). destruct (B2 e1 H1) as (e2 & H2 & L2).
  exists e2. split; [done|]. intros Hr. specialize (L1 Hr). specialize (L2 Hr). lia.
Qed.

Lemma EnsureTimestamps_Ok_inv l ttl maxTTL renewable now r :
  EnsureTimestamps l ttl maxTTL renewable now = Ok r ->
  0 < ttl <= maxTTL /\ r.(ts_lease) = stamped l ttl maxTTL renewable now.
Proof.
  intros Hr. assert (Ht : 0 < ttl <= maxTTL).
  { revert Hr. unfold EnsureTimestamps. destruct (ttl <=? 0) eqn:?; [done|].
    destruct (maxTTL <=? 0) eqn:?; [done|]. destruct (maxTTL <? ttl) eqn:?; [done|].
    zify_bool. lia. }
  split; [done|]. rewrite EnsureTimestamps_eq in Hr by done. by simplify_eq/=.
Qed.

Lemma life_step_since renewable l l' : life_step renewable l l' -> since renewable l l'.
Proof.
  intros [l1 ttl maxTTL now r Hr|l1 idle now|l1 now idle|l1 m s Hm].
  - apply EnsureTimestamps_Ok_inv in Hr as [Ht ->]. unfold stamped, since; cbn. split.
    + intros c Hc. unfold startOf. by rewrite Hc.
    + intros e0 He. rewrite He. eexists. split; [done|]. intros ->. unfold hardOf. simpl. by_cases.
  - destruct (SyncExpirationStatus_frame l1 idle now) as (H1 & H2 & _).
    unfold since. rewrite H1, H2. split; [done|]. intros e ->. eauto with lia.
  - destruct (RecordActivity_frame l1 now idle) as (H1 & H2 & _).
    unfold since. rewrite H1, H2. split; [done|]. intros e ->. eauto with lia.
  - unfold since; cbn. split; [done|]. intros e ->. eauto with lia.
Qed.

(** The hard expiration stays within the maximum once both are recorded. *)
Definition bounded l : Prop :=
  forall e, l.(lease_Status).(st_ExpiresAt) = Some e ->
    exists m, l.(lease_Status).(st_MaximumExpiresAt) = Some m /\ e <= m.

Lemma life_step_bounded renewable l l' :
  life_step renewable l l' -> bounded l -> bounded l'.
Proof.
  intros [l1 ttl maxTTL now r Hr|l1 idle now|l1 now idle|l1 m s Hm] Hb; [..|done].
  - apply EnsureTimestamps_Ok_inv in Hr as [Ht ->]. intros e. unfold stamped; cbn. intros [= <-].
    eexists. split; [done|]. pose proof (hardOf_le renewable (st_ExpiresAt (lease_Status l1))
      (startOf l1 now + ttl)). lia.
  - destruct (SyncExpirationStatus_frame l1 idle now) as (_ & H2 & H3 & _).
    unfold bounded. by rewrite H2, H3.
  - destruct (RecordActivity_frame l1 now idle) as (_ & H2 & H3 & _).
    unfold bounded. by rewrite H2, H3.
Qed.

(** Claim C11.  Lifetime safety of every history.  Along any sequence of
    controller refreshes, heartbeats (accepted or refused) and edits of the
    specification, from any lease that has no hard expiration yet: the hard
    expiration never exceeds the recorded maximum; from any point of the history
    on the creation time never changes, and a non-renewable lease's hard
    expiration never moves later. *)
Theorem lease_history_safe (renewable : bool) l0 l1 l2 :
  l0.(lease_Status).(st_ExpiresAt) = None ->
  lives renewable l0 l1 -> lives renewable l1 l2 ->
  bounded l2 /\
  (forall c, l1.(lease_Status).(st_CreatedAt) = Some c -> l2.(lease_Status).(st_CreatedAt) = Some c) /\
  (forall e1, renewable = false -> l1.(lease_Status).(st_ExpiresAt) = Some e1 ->
     exists e2, l2.(lease_Status).(st_ExpiresAt) = Some e2 /\ e2 <= e1).
Proof.
  intros H0 H1 H2.
  assert (Hb : bounded l1).
  { clear H2. induction H1 as [|l l' Hl IH Hstep]; [intros e; by rewrite H0|].
    by apply (life_step_bounded _ _ _ Hstep). }
  assert (Hb2 : bounded l2).
  { clear H1. induction H2 as [|l l' Hl IH Hstep]; [done|]. by apply (life_step_bounded _ _ _ Hstep). }
  assert (Hs : since renewable l1 l2).
  { clear H1 Hb Hb2. induction H2 as [|l l' Hl IH Hstep]; [split; eauto with lia|].
    eapply since_trans; [exact IH|by apply life_step_since]. }
  destruct Hs as [Hc He]. split; [done|]. split; [done|].
  intros e1 Hr H3. destruct (He e1 H3) as (e2 & ? & ?). eauto.
Qed.

End Life.

(** ** Witnesses *)

(** A lease created at second 100 that expires at second 3700, at most 7300. *)
Definition liveLease : @EnvironmentLease milliQuantity :=
  (@sampleLease milliQuantity) <|@ st_CreatedAt := Some (100 * Second) |>
    <|@ st_ExpiresAt := Some (3700 * Second) |>
    <|@ st_MaximumExpiresAt := Some (7300 * Second) |>.

Lemma EnsureTimestamps_correct_witness :
  exists r, EnsureTimestamps liveLease Hour (2 * Hour) true (500 * Second) = Ok r /\
    r.(ts_lease) = liveLease.
Proof.
  destruct (@EnsureTimestamps_correct milliQuantity liveLease Hour (2 * Hour) true (500 * Second))
    as (r & Hr & Hl & _); [vm_compute; intuition discriminate|].
  exists r. split; [exact Hr|]. rewrite Hl. vm_compute. reflexivity.
Defined.

Lemma SyncExpirationStatus_correct_witness :
  EffectiveDeadline (SyncExpirationStatus liveLease Minute (500 * Second)) = Some (160 * Second) /\
  IsExpired (SyncExpirationStatus liveLease Minute (500 * Second)) (500 * Second) = true.
Proof.
  destruct (@SyncExpirationStatus_correct milliQuantity liveLease Minute (500 * Second)
    (3700 * Second) (100 * Second) eq_refl eq_refl) as (H1 & H2 & _).
  split; [exact H1 | apply H2; vm_compute; discriminate].
Defined.

Lemma RecordActivity_correct_witness :
  (RecordActivity liveLease (150 * Second) Minute).2 = None.
Proof.
  pose proof (@RecordActivity_correct milliQuantity liveLease (150 * Second) Minute
    (3700 * Second) (100 * Second) eq_refl eq_refl) as Hw.
  destruct (RecordActivity liveLease (150 * Second) Minute) as [l' err].
  destruct Hw as (H1 & _). apply H1. vm_compute. split; reflexivity.
Defined.

Lemma lease_history_safe_witness :
  exists l, @lives milliQuantity false sampleLease l /\ bounded l.
Proof.
  set (l := stamped (@sampleLease milliQuantity) Hour (2 * Hour) false (100 * Second)).
  assert (Hl : @lives milliQuantity false sampleLease l).
  { eapply lives_next; [apply lives_start|].
    exact (@life_stamp milliQuantity false sampleLease Hour (2 * Hour) (100 * Second)
      (mkTimestamps l true false) ltac:(vm_compute; reflexivity)). }
  exists l. split; [exact Hl|].
  exact (proj1 (@lease_history_safe milliQuantity false sampleLease l l eq_refl Hl (lives_start _ _))).
Defined.
