(* ===== verification/LeaseWarnings.v ===== *)
(** * Expiration warnings and scheduling (internal/lease/warnings.go, schedule.go)

    Which warnings are due, which have been delivered, and how long the
    controller may sleep. *)

From S2P Require Import Prelude GoStrings GoTime GoErrors Api Concrete Resources LeaseExpiration.

(** The order [sort.Slice(out, out[i] > out[j])] sorts by. *)
Definition descending (a b : duration) : Prop := b <= a.

#[export] Instance descending_dec a b : Decision (descending a b).
Proof. unfold descending. apply _. Defined.
#[export] Instance descending_total : Total descending.
Proof. intros a b. unfold descending. lia. Qed.
#[export] Instance descending_trans : Transitive descending.
Proof. intros a b c. unfold descending. lia. Qed.

Definition sortDescending (l : list duration) : list duration := merge_sort descending l.

(** ** warnings.go *)

Definition WarningDurations (warnings : list duration) : list duration :=
  sortDescending (filter (fun w => 0 < w) warnings).

Definition CanonicalWarningKey (d : duration) : string := DurationString d.

(** [_, ok := deliveredSet[key]]: the set of the delivered keys. *)
Definition deliveredSet (delivered : list string) : gset string := list_to_set delivered.

(** A warning is delivered when its key is in the set. *)
Definition isDelivered (delivered : list string) (w : duration) : bool :=
  bool_decide (CanonicalWarningKey w ∈ deliveredSet delivered).

(** The loop of [PendingWarnings]. *)
Fixpoint pendingLoop (now expiresAt : time) (delivered : list string) (warnings : list duration)
    : list duration :=
  match warnings with
  | [] => []
  | w :: ws =>
      if isDelivered delivered w then pendingLoop now expiresAt delivered ws
      else
        let threshold := Add expiresAt (neg64 w) in
        if negb (Before now threshold) then w :: pendingLoop now expiresAt delivered ws
        else pendingLoop now expiresAt delivered ws
  end.

Definition PendingWarnings (now expiresAt : time) (warnings : list duration)
    (delivered : list string) : list duration :=
  if negb (Before now expiresAt) then []
  else sortDescending (pendingLoop now expiresAt delivered warnings).

Definition MarkWarningDelivered (delivered : list string) (d : duration) : list string :=
  let key := CanonicalWarningKey d in
  if existsb (String.eqb key) delivered then delivered else delivered ++ [key].

Definition WarningMessage (leaseName : string) (remaining : duration) : string :=
  let remaining := if remaining <? 0 then 0 else remaining in
  "Environment " +:+ leaseName +:+ " will expire in approximately "
  +:+ DurationString (Round remaining Second).

(** ** schedule.go *)

(** The loop of [NextReconcileAfter]: [None] is the early [return 0]. *)
Fixpoint nextLoop (now expiresAt : time) (delivered : list string) (next : time)
    (warnings : list duration) : option time :=
  match warnings with
  | [] => Some next
  | w :: ws =>
      if isDelivered delivered w then nextLoop now expiresAt delivered next ws
      else
        let threshold := Add expiresAt (neg64 w) in
        if Before threshold now then None
        else nextLoop now expiresAt delivered (if Before threshold next then threshold else next) ws
  end.

Definition NextReconcileAfter (now expiresAt : time) (warnings : list duration)
    (delivered : list string) : duration :=
  if negb (Before now expiresAt) then 0
  else
    match nextLoop now expiresAt delivered expiresAt warnings with
    | None => 0
    | Some next => let until := Sub next now in if until <? 0 then 0 else until
    end.

(** ** expiration.go: the warning window *)

(** The loop that finds the largest warning. *)
Definition largestWarning (warnings : list duration) : option duration :=
  match warnings with
  | [] => None
  | w :: ws => Some (fold_left (fun earliest w => if earliest <? w then w else earliest) ws w)
  end.

Definition IsExpiringWindow `{QuantityAPI} (leaseObj : EnvironmentLease) (now : time) : bool :=
  match EffectiveDeadline leaseObj with
  | None => false
  | Some deadline =>
      if IsExpired leaseObj now then false
      else
        match largestWarning (WarningDurations leaseObj.(lease_Spec).(spec_Warnings)) with
        | None => false
        | Some earliest => negb (Before now (Add deadline (neg64 earliest)))
        end
  end.

(** ** What the warnings mean *)

Section Facts.

Implicit Types (now expiresAt : time) (warnings : list duration) (delivered : list string).

(** Durations whose negation does not overflow: all but the least [int64]. *)
Definition negatable (w : duration) : Prop := minDuration < w <= maxDuration.

(** A warning is due when its threshold has been reached. *)
Definition due now expiresAt delivered (w : duration) : Prop :=
  CanonicalWarningKey w ∉ delivered /\ expiresAt - w <= now.

#[export] Instance due_dec now expiresAt delivered w : Decision (due now expiresAt delivered w).
Proof. unfold due. apply _. Defined.

Lemma isDelivered_true delivered w :
  isDelivered delivered w = true <-> CanonicalWarningKey w ∈ delivered.
Proof. unfold isDelivered, deliveredSet. by rewrite bool_decide_eq_true, elem_of_list_to_set. Qed.

Lemma isDelivered_false delivered w :
  isDelivered delivered w = false <-> CanonicalWarningKey w ∉ delivered.
Proof. rewrite <- isDelivered_true. by destruct (isDelivered _ _). Qed.

Lemma threshold_exact expiresAt w : negatable w -> Add expiresAt (neg64 w) = expiresAt - w.
Proof. intros Hw. unfold Add. rewrite neg64_id by exact Hw. lia. Qed.

Lemma pendingLoop_filter now expiresAt delivered warnings :
  Forall negatable warnings ->
  pendingLoop now expiresAt delivered warnings = filter (due now expiresAt delivered) warnings.
Proof.
  induction 1 as [|w ws Hw Hws IH]; [done|]. cbn [pendingLoop]. rewrite threshold_exact by done.
  rewrite IH. unfold Before.
  destruct (isDelivered delivered w) eqn:Hd.
  - apply isDelivered_true in Hd. rewrite filter_cons_False; [done|]. intros [? _]. done.
  - apply isDelivered_false in Hd. destruct (negb _) eqn:Hn; zify_bool.
    + rewrite filter_cons_True; [done|]. by split.
    + rewrite filter_cons_False; [done|]. intros [_ ?]. lia.
Qed.

(** Nothing is pending once the lease has expired. *)
Lemma PendingWarnings_expired now expiresAt warnings delivered :
  expiresAt <= now -> PendingWarnings now expiresAt warnings delivered = [].
Proof. intros Hn. unfold PendingWarnings, Before. by rewrite (proj2 (Z.ltb_ge _ _) Hn). Qed.

(** [PendingWarnings] returns exactly the warnings that are due:
    those configured, not yet delivered, whose threshold [expiresAt - w] has
    been reached; none once the lease has expired.  Each comes as often as it is
    configured, and the list is sorted with the earliest threshold first. *)
Theorem PendingWarnings_correct now expiresAt warnings delivered :
  Forall negatable warnings ->
  let pending := PendingWarnings now expiresAt warnings delivered in
  StronglySorted descending pending /\
  (now < expiresAt -> pending ≡ₚ filter (due now expiresAt delivered) warnings) /\
  (expiresAt <= now -> pending = []).
Proof.
  intros Hw pending. subst pending. unfold PendingWarnings, Before. split; [|split].
  - case_match; [constructor|]. apply (StronglySorted_merge_sort descending).
  - intros Hn. rewrite (proj2 (Z.ltb_lt _ _) Hn). simpl. unfold sortDescending.
    by rewrite merge_sort_Permutation, pendingLoop_filter.
  - by apply PendingWarnings_expired.
Qed.

(** ** Delivery *)

Lemma MarkWarningDelivered_elem delivered d k :
  k ∈ MarkWarningDelivered delivered d <-> k ∈ delivered \/ k = CanonicalWarningKey d.
Proof.
  unfold MarkWarningDelivered. destruct (existsb _ _) eqn:E.
  - apply existsb_exists in E as (x & Hx & Heq). apply String.eqb_eq in Heq as <-.
    apply list_elem_of_In in Hx. naive_solver.
  - rewrite elem_of_app, list_elem_of_singleton. done.
Qed.

Lemma MarkWarningDelivered_NoDup delivered d :
  NoDup delivered -> NoDup (MarkWarningDelivered delivered d).
Proof.
  intros Hn. unfold MarkWarningDelivered. destruct (existsb _ _) eqn:E; [done|].
  apply NoDup_app. split; [done|]. split; [|apply NoDup_singleton].
  intros x Hx ->%list_elem_of_singleton.
  assert (Ht : existsb (String.eqb (CanonicalWarningKey d)) delivered = true).
  { apply existsb_exists. exists (CanonicalWarningKey d). rewrite String.eqb_refl.
    split; [by apply list_elem_of_In | done]. }
  congruence.
Qed.

(** One pass of the controller over the pending warnings, at [now]. *)
Definition deliverPending now expiresAt warnings delivered : list string :=
  fold_left MarkWarningDelivered (PendingWarnings now expiresAt warnings delivered) delivered.

Lemma fold_Mark_elem ws delivered k :
  k ∈ fold_left MarkWarningDelivered ws delivered <->
  k ∈ delivered \/ exists w, w ∈ ws /\ k = CanonicalWarningKey w.
Proof.
  revert delivered. induction ws as [|w ws IH]; intros delivered; simpl.
  - split; [by left|]. intros [?|(w & []%not_elem_of_nil & _)]; done.
  - rewrite IH, MarkWarningDelivered_elem. setoid_rewrite elem_of_cons. naive_solver.
Qed.

Lemma fold_Mark_NoDup ws delivered :
  NoDup delivered -> NoDup (fold_left MarkWarningDelivered ws delivered).
Proof.
  revert delivered. induction ws as [|w ws IH]; intros delivered Hn; simpl; [done|].
  by apply IH, MarkWarningDelivered_NoDup.
Qed.

Lemma PendingWarnings_elem now expiresAt warnings delivered w :
  Forall negatable warnings -> now < expiresAt ->
  w ∈ PendingWarnings now expiresAt warnings delivered <->
  w ∈ warnings /\ due now expiresAt delivered w.
Proof.
  intros Hw Hn. unfold PendingWarnings, Before. rewrite (proj2 (Z.ltb_lt _ _) Hn). simpl.
  unfold sortDescending. rewrite merge_sort_Permutation, pendingLoop_filter by done.
  rewrite list_elem_of_filter. tauto.
Qed.

(** The delivered list after a sequence of passes at arbitrary instants,
    deadlines and configured warnings. *)
Definition deliverAll (passes : list (time * time * list duration)) delivered : list string :=
  fold_left (fun d '(now, expiresAt, ws) => deliverPending now expiresAt ws d) passes delivered.

Lemma deliverAll_mono passes delivered k : k ∈ delivered -> k ∈ deliverAll passes delivered.
Proof.
  revert delivered. induction passes as [|[[n e] ws] ps IH]; intros d Hk; [done|].
  cbn. apply IH. unfold deliverPending. apply fold_Mark_elem. by left.
Qed.

(** A warning is announced at most once.  A warning announced in one
    pass is not pending in any later pass, whatever the times, deadlines and
    warning lists of the passes in between; the status list of delivered keys
    never holds a key twice; and a pass leaves nothing pending at its own
    instant. *)
Theorem warnings_at_most_once now expiresAt warnings delivered passes now' expiresAt' warnings' w :
  Forall negatable warnings -> Forall negatable warnings' -> NoDup delivered ->
  w ∈ PendingWarnings now expiresAt warnings delivered ->
  let after := deliverAll passes (deliverPending now expiresAt warnings delivered) in
  w ∉ PendingWarnings now' expiresAt' warnings' after /\
  NoDup after /\
  PendingWarnings now expiresAt warnings (deliverPending now expiresAt warnings delivered) = [].
Proof.
  intros Hw Hw' Hnd Hin after.
  assert (Hk : CanonicalWarningKey w ∈ after).
  { apply deliverAll_mono. unfold deliverPending. apply fold_Mark_elem. right. by exists w. }
  split; [|split].
  - intros Hp. destruct (Z.lt_ge_cases now' expiresAt') as [Hn|Hn].
    + apply PendingWarnings_elem in Hp as [_ [? _]]; [done|done|done].
    + rewrite PendingWarnings_expired in Hp by done. by apply not_elem_of_nil in Hp.
  - subst after. assert (Hd : NoDup (deliverPending now expiresAt warnings delivered))
      by by apply fold_Mark_NoDup.
    clear Hk. revert Hd. generalize (deliverPending now expiresAt warnings delivered).
    induction passes as [|[[n e] ws] ps IH]; intros d Hd; [done|]. cbn. apply IH.
    by apply fold_Mark_NoDup.
  - destruct (Z.lt_ge_cases now expiresAt) as [Hn|Hn].
    + apply elem_of_nil_inv. intros x Hx. apply PendingWarnings_elem in Hx as (Hx & Hkey & Hdue); [|done..].
      apply Hkey. unfold deliverPending. apply fold_Mark_elem.
      destruct (decide (CanonicalWarningKey x ∈ delivered)); [by left|]. right. exists x.
      split; [|done]. by apply PendingWarnings_elem.
    + by apply PendingWarnings_expired.
Qed.

(** ** Scheduling *)

Lemma nextLoop_None now expiresAt delivered warnings next :
  Forall negatable warnings ->
  nextLoop now expiresAt delivered next warnings = None <->
  exists w, w ∈ warnings /\ CanonicalWarningKey w ∉ delivered /\ expiresAt - w < now.
Proof.
  intros Hw. revert next. induction Hw as [|w ws Hw Hws IH]; intros next; cbn [nextLoop].
  - split; [done|]. intros (w & []%not_elem_of_nil & _).
  - setoid_rewrite elem_of_cons. rewrite threshold_exact by done.
    destruct (isDelivered delivered w) eqn:Hd.
    + apply isDelivered_true in Hd. rewrite IH. naive_solver.
    + apply isDelivered_false in Hd. unfold Before.
      destruct (expiresAt - w <? now) eqn:Hn; zify_bool.
      * split; [|done]. intros _. exists w. auto.
      * rewrite IH. split; [naive_solver|]. intros (x & [->|Hx] & ? & ?); [lia|eauto].
Qed.

(** The instant the loop settles on: the earliest of the start value and the
    undelivered thresholds. *)
Lemma nextLoop_Some now expiresAt delivered warnings next t :
  Forall negatable warnings ->
  nextLoop now expiresAt delivered next warnings = Some t ->
  t <= next /\
  (forall w, w ∈ warnings -> CanonicalWarningKey w ∉ delivered -> now <= expiresAt - w /\ t <= expiresAt - w) /\
  (t = next \/ exists w, w ∈ warnings /\ CanonicalWarningKey w ∉ delivered /\ t = expiresAt - w).
Proof.
  intros Hw. revert next. induction Hw as [|w ws Hw Hws IH]; intros next; cbn [nextLoop].
  - intros [= <-]. split; [lia|]. split; [by intros w []%not_elem_of_nil|by left].
  - setoid_rewrite elem_of_cons. rewrite threshold_exact by done.
    destruct (isDelivered delivered w) eqn:Hd.
    + apply isDelivered_true in Hd. intros (H1 & H2 & H3)%IH. split; [done|]. split; naive_solver.
    + apply isDelivered_false in Hd. unfold Before.
      destruct (expiresAt - w <? now) eqn:Hn; [done|]. zify_bool.
      intros (H1 & H2 & H3)%IH.
      assert (Hm : t <= next /\ t <= expiresAt - w) by (case_match; zify_bool; lia).
      split; [lia|]. split; [intros x [->|Hx] Hk; [lia|auto]|].
      destruct H3 as [->|(x & Hx & Hk & ->)]; [|naive_solver].
      case_match; [right; exists w; auto | by left].
Qed.

(** An event the controller must wake up for: the expiration, or the threshold
    of a warning that has not been delivered. *)
Definition event expiresAt warnings delivered (t : time) : Prop :=
  t = expiresAt \/ exists w, w ∈ warnings /\ CanonicalWarningKey w ∉ delivered /\ t = expiresAt - w.

(** Claim C39.  The controller sleeps exactly until the next event.  The delay
    is never negative; it is zero exactly when an event is already due; and when
    it is positive and the distance fits a [Duration], an event takes place at
    its end and none takes place before. *)
Theorem NextReconcileAfter_correct now expiresAt warnings delivered :
  Forall (fun w => 0 < w <= maxDuration) warnings ->
  expiresAt - now <= maxDuration ->
  let d := NextReconcileAfter now expiresAt warnings delivered in
  0 <= d /\
  (d = 0 <-> exists t, event expiresAt warnings delivered t /\ t <= now) /\
  (0 < d -> event expiresAt warnings delivered (now + d) /\
            forall t, event expiresAt warnings delivered t -> now + d <= t).
Proof.
  intros Hpos Hfit d.
  assert (Hneg : Forall negatable warnings).
  { eapply Forall_impl; [exact Hpos|]. unfold negatable, minDuration, two63. intros w. simpl. lia. }
  subst d. unfold NextReconcileAfter, Before.
  destruct (negb _) eqn:Hn; zify_bool.
  { split; [lia|]. split; [|lia]. split; [|done]. intros _. exists expiresAt. split; [by left|done]. }
  destruct (nextLoop _ _ _ _ _) as [t|] eqn:Hl.
  - apply nextLoop_Some in Hl as (H1 & H2 & H3); [|done].
    assert (Ht : now <= t) by (destruct H3 as [->|(w & Hw & Hk & ->)]; [lia|]; by apply H2).
    rewrite Sub_exact by (unfold in_i64, minDuration, maxDuration, two63 in *; lia).
    rewrite (proj2 (Z.ltb_ge (t - now) 0)) by lia.
    replace (now + (t - now)) with t by lia.
    assert (Hall : forall u, event expiresAt warnings delivered u -> t <= u).
    { intros u [->|(w & Hw & Hk & ->)]; [done|]. by apply H2. }
    split; [lia|]. split; [|done]. split.
    + intros Hz. exists t. split; [done|lia].
    + intros (u & Hu & Hle). specialize (Hall u Hu). lia.
  - apply nextLoop_None in Hl as (w & Hw & Hk & Hlt); [|done].
    split; [lia|]. split; [|lia]. split; [|done]. intros _. exists (expiresAt - w).
    split; [right; eauto|lia].
Qed.

(** The controller always makes progress: after a pass has announced
    the pending warnings of a live lease, the delay it computes at the same
    instant is positive, so it never requeues itself in a busy loop. *)
Theorem NextReconcileAfter_progress now expiresAt warnings delivered :
  Forall negatable warnings -> now < expiresAt ->
  0 < NextReconcileAfter now expiresAt warnings (deliverPending now expiresAt warnings delivered).
Proof.
  intros Hw Hn. set (d := deliverPending now expiresAt warnings delivered).
  assert (Hnone : forall w, w ∈ warnings -> CanonicalWarningKey w ∉ d -> now < expiresAt - w).
  { intros w Hin Hk. apply Z.lt_nge. intros Hle. apply Hk. unfold d, deliverPending.
    apply fold_Mark_elem. destruct (decide (CanonicalWarningKey w ∈ delivered)); [by left|].
    right. exists w. split; [|done]. by apply PendingWarnings_elem. }
  unfold NextReconcileAfter, Before. rewrite (proj2 (Z.ltb_lt _ _) Hn). simpl.
  destruct (nextLoop _ _ _ _ _) as [t|] eqn:Hl.
  - apply nextLoop_Some in Hl as (H1 & H2 & H3); [|done].
    assert (Ht : now < t) by (destruct H3 as [->|(w & Hin & Hk & ->)]; auto).
    pose proof (Sub_pos t now Ht). by rewrite (proj2 (Z.ltb_ge _ _)) by lia.
  - apply nextLoop_None in Hl as (w & Hin & Hk & Hlt); [|done].
    specialize (Hnone w Hin Hk). lia.
Qed.

End Facts.

(** ** The warning window *)

Section Window.
Context `{QuantityAPI}.

Lemma fold_max_ge ws w0 :
  let m := fold_left (fun earliest w => if earliest <? w then w else earliest) ws w0 in
  w0 <= m /\ (forall w, w ∈ ws -> w <= m) /\ (m = w0 \/ m ∈ ws).
Proof.
  revert w0. induction ws as [|w ws IH]; intros w0; simpl.
  - split; [lia|]. split; [by intros w []%not_elem_of_nil|by left].
  - destruct (IH (if w0 <? w then w else w0)) as (H1 & H2 & H3).
    set (m := fold_left _ _ _) in *.
    assert (Hm : w0 <= m /\ w <= m) by (revert H1; case_match; zify_bool; lia).
    split; [lia|]. split; [intros x [->|Hx]%elem_of_cons; [lia|auto]|].
    rewrite elem_of_cons. destruct H3 as [H3|H3]; [|auto]. revert H3. case_match; auto.
Qed.

Lemma largestWarning_spec ws :
  match largestWarning ws with
  | None => ws = []
  | Some m => m ∈ ws /\ forall w, w ∈ ws -> w <= m
  end.
Proof.
  destruct ws as [|w ws]; [done|]. unfold largestWarning.
  destruct (fold_max_ge ws w) as (H1 & H2 & H3). set (m := fold_left _ _ _) in *. clearbody m.
  split; [rewrite elem_of_cons; naive_solver|]. intros x [->|Hx]%elem_of_cons; auto.
Qed.

(** A lease is in its warning window exactly when it is alive and
    the threshold of one of its positive warnings has been reached. *)
Theorem IsExpiringWindow_correct (l : EnvironmentLease) (now : time) :
  Forall (fun w => w <= maxDuration) l.(lease_Spec).(spec_Warnings) ->
  IsExpiringWindow l now = true <->
  exists deadline w, EffectiveDeadline l = Some deadline /\
    w ∈ l.(lease_Spec).(spec_Warnings) /\ 0 < w /\ deadline - w <= now < deadline.
Proof.
  intros Hmax. unfold IsExpiringWindow, IsExpired.
  destruct (EffectiveDeadline l) as [d|]; [|naive_solver]. unfold Before.
  destruct (negb (now <? d)) eqn:Hn; zify_bool; [split; [done|]; naive_solver lia|].
  assert (Hin : forall w, w ∈ WarningDurations l.(lease_Spec).(spec_Warnings) <->
                          0 < w /\ w ∈ l.(lease_Spec).(spec_Warnings)).
  { intros w. unfold WarningDurations, sortDescending.
    by rewrite merge_sort_Permutation, list_elem_of_filter. }
  pose proof (largestWarning_spec (WarningDurations l.(lease_Spec).(spec_Warnings))) as Hl.
  destruct (largestWarning _) as [m|].
  - destruct Hl as [Hm Hge]. apply Hin in Hm as [Hm1 Hm2].
    rewrite Forall_forall in Hmax. specialize (Hmax m Hm2).
    rewrite threshold_exact by (unfold negatable, minDuration, two63; lia).
    rewrite negb_true_iff, Z.ltb_ge. split; [intros; exists d, m; auto|].
    intros (d' & w & [= <-] & Hw & Hpos & Hle & _).
    assert (w <= m) by (apply Hge, Hin; done). lia.
  - split; [done|]. intros (d' & w & _ & Hw & Hpos & _).
    assert (Hbad : w ∈ WarningDurations l.(lease_Spec).(spec_Warnings)) by (by apply Hin).
    rewrite Hl in Hbad. by apply not_elem_of_nil in Hbad.
Qed.

End Window.

(** ** Witnesses *)

(** Two warnings, one hour and ten minutes before a deadline at two hours. *)
Definition sampleWarnings : list duration := [10 * Minute; Hour].

Lemma sampleWarnings_negatable : Forall negatable sampleWarnings.
Proof. repeat constructor; vm_compute; auto; discriminate. Qed.

Lemma PendingWarnings_correct_witness :
  PendingWarnings (115 * Minute) (2 * Hour) sampleWarnings [] ≡ₚ [10 * Minute; Hour].
Proof.
  exact (proj1 (proj2 (PendingWarnings_correct (115 * Minute) (2 * Hour) sampleWarnings []
    sampleWarnings_negatable)) eq_refl).
Defined.

Lemma warnings_at_most_once_witness :
  Hour ∉ PendingWarnings (115 * Minute) (2 * Hour) sampleWarnings
    (deliverPending (70 * Minute) (2 * Hour) sampleWarnings []).
Proof.
  refine (proj1 (warnings_at_most_once (70 * Minute) (2 * Hour) sampleWarnings [] []
    (115 * Minute) (2 * Hour) sampleWarnings Hour
    sampleWarnings_negatable sampleWarnings_negatable NoDup_nil_2 _)).
  replace (PendingWarnings (70 * Minute) (2 * Hour) sampleWarnings []) with [Hour]
    by (vm_compute; reflexivity).
  constructor.
Defined.

Lemma NextReconcileAfter_correct_witness :
  0 <= NextReconcileAfter (70 * Minute) (2 * Hour) sampleWarnings ["1h0m0s"].
Proof.
  refine (proj1 (NextReconcileAfter_correct (70 * Minute) (2 * Hour) sampleWarnings ["1h0m0s"] _ _)).
  - repeat constructor; vm_compute; auto; discriminate.
  - vm_compute. discriminate.
Defined.

Lemma NextReconcileAfter_progress_witness :
  0 < NextReconcileAfter (70 * Minute) (2 * Hour) sampleWarnings
        (deliverPending (70 * Minute) (2 * Hour) sampleWarnings []).
Proof.
  exact (NextReconcileAfter_progress (70 * Minute) (2 * Hour) sampleWarnings []
    sampleWarnings_negatable eq_refl).
Defined.

(** A lease that expires at two hours, with the two warnings. *)
Definition warnedLease : @EnvironmentLease milliQuantity :=
  mkEnvironmentLease emptyMeta
    ((@emptySpec milliQuantity) <| spec_Warnings := sampleWarnings |>)
    (emptyStatus <| st_ExpiresAt := Some (2 * Hour) |>).

Lemma IsExpiringWindow_correct_witness : IsExpiringWindow warnedLease (70 * Minute) = true.
Proof.
  apply (proj2 (@IsExpiringWindow_correct milliQuantity warnedLease (70 * Minute)
    ltac:(repeat constructor; vm_compute; discriminate))).
  exists (2 * Hour), Hour. split; [reflexivity|]. split; [constructor; constructor|].
  vm_compute. intuition discriminate.
Defined.
