(* ===== verification/LeaseStatus.v ===== *)
(** * Status comparison (internal/lease/status.go)

    [StatusEqual] decides whether a status write may be skipped. *)

From S2P Require Import Prelude GoStrings GoTime GoErrors Api LeaseConditions.

Definition clusterStatusEqual (a b : option ClusterStatus) : bool :=
  match a, b with
  | None, None => true
  | Some a, Some b =>
      String.eqb a.(cs_Name) b.(cs_Name) && String.eqb a.(cs_TargetUID) b.(cs_TargetUID)
      && String.eqb a.(cs_RemoteIdentity) b.(cs_RemoteIdentity)
  | _, _ => false
  end.

Definition effectiveEqual (a b : option EffectiveLeaseSpec) : bool :=
  match a, b with
  | None, None => true
  | Some a, Some b =>
      if negb (String.eqb a.(eff_PolicyName) b.(eff_PolicyName))
         || negb (Bool.eqb a.(eff_Renewable) b.(eff_Renewable))
         || negb (Bool.eqb a.(eff_DefaultDeny) b.(eff_DefaultDeny)) then false
      else if negb (a.(eff_TTL) =? b.(eff_TTL)) || negb (a.(eff_MaxTTL) =? b.(eff_MaxTTL)) then false
      else
        match a.(eff_IdleTTL), b.(eff_IdleTTL) with
        | None, None => true
        | Some x, Some y => x =? y
        | _, _ => false
        end
  | _, _ => false
  end.

Definition timePtrEqual (a b : option time) : bool :=
  match a, b with
  | None, None => true
  | Some a, Some b => a =? b
  | _, _ => false
  end.

Fixpoint stringSliceEqual (a b : list string) : bool :=
  match a, b with
  | [], [] => true
  | x :: a, y :: b => String.eqb x y && stringSliceEqual a b
  | _, _ => false
  end.

(** [byType]: the loop that stores the last condition of each type. *)
Definition byTypeLoop (cs : list Condition) (m : gmap string Condition) : gmap string Condition :=
  fold_left (fun m c => <[c.(c_Type) := c]> m) cs m.

Definition byType (cs : list Condition) : gmap string Condition := byTypeLoop cs ∅.

Definition conditionsEqual (a b : list Condition) : bool :=
  if bool_decide (length a <> length b) then false
  else
    let m := byType b in
    forallb (fun ac =>
      match m !! ac.(c_Type) with
      | None => false
      | Some bc =>
          bool_decide (ac.(c_Status) = bc.(c_Status)) && String.eqb ac.(c_Reason) bc.(c_Reason)
          && String.eqb ac.(c_Message) bc.(c_Message)
          && (ac.(c_ObservedGeneration) =? bc.(c_ObservedGeneration))
      end) a.

Definition StatusEqual (a b : EnvironmentLeaseStatus) : bool :=
  if negb (bool_decide (a.(st_Phase) = b.(st_Phase)))
     || negb (String.eqb a.(st_Namespace) b.(st_Namespace))
     || negb (a.(st_ObservedGeneration) =? b.(st_ObservedGeneration)) then false
  else if negb (clusterStatusEqual a.(st_Cluster) b.(st_Cluster)) then false
  else if negb (timePtrEqual a.(st_CreatedAt) b.(st_CreatedAt))
     || negb (timePtrEqual a.(st_ExpiresAt) b.(st_ExpiresAt))
     || negb (timePtrEqual a.(st_MaximumExpiresAt) b.(st_MaximumExpiresAt))
     || negb (timePtrEqual a.(st_LastActivityAt) b.(st_LastActivityAt))
     || negb (timePtrEqual a.(st_IdleExpiresAt) b.(st_IdleExpiresAt))
     || negb (timePtrEqual a.(st_EffectiveExpiresAt) b.(st_EffectiveExpiresAt)) then false
  else if negb (bool_decide (a.(st_ExpirationReason) = b.(st_ExpirationReason))) then false
  else if negb (stringSliceEqual a.(st_WarningsDelivered) b.(st_WarningsDelivered)) then false
  else if negb (effectiveEqual a.(st_Effective) b.(st_Effective)) then false
  else conditionsEqual a.(st_Conditions) b.(st_Conditions).

(** [DeepCopyStatus] rebuilds the status field by field, copying what a pointer
    or a slice refers to; on values it is the record it is given. *)
Definition DeepCopyStatus (s : EnvironmentLeaseStatus) : EnvironmentLeaseStatus :=
  let out := s in
  let copy := fun t : option time => match t with Some t => Some t | None => None end in
  let out := out <| st_CreatedAt := copy s.(st_CreatedAt) |> in
  let out := out <| st_ExpiresAt := copy s.(st_ExpiresAt) |> in
  let out := out <| st_MaximumExpiresAt := copy s.(st_MaximumExpiresAt) |> in
  let out := out <| st_LastActivityAt := copy s.(st_LastActivityAt) |> in
  let out := out <| st_IdleExpiresAt := copy s.(st_IdleExpiresAt) |> in
  let out := out <| st_EffectiveExpiresAt := copy s.(st_EffectiveExpiresAt) |> in
  let out := out <| st_Cluster := match s.(st_Cluster) with Some c => Some c | None => None end |> in
  let out := out <| st_WarningsDelivered := [] ++ s.(st_WarningsDelivered) |> in
  let out := out <| st_Effective :=
    match s.(st_Effective) with
    | Some e => Some (e <| eff_IdleTTL := match e.(eff_IdleTTL) with Some d => Some d | None => None end |>)
    | None => None
    end |> in
  out <| st_Conditions := s.(st_Conditions) |>.

Definition EnsureObservedGeneration `{QuantityAPI} (leaseObj : EnvironmentLease) : EnvironmentLease :=
  leaseObj <|@ st_ObservedGeneration := leaseObj.(lease_Meta).(m_Generation) |>.

Lemma DeepCopyStatus_id s : DeepCopyStatus s = s.
Proof.
  destruct s as [? ? c t1 t2 t3 t4 t5 t6 ? ? e ? ?]. unfold DeepCopyStatus. cbn.
  destruct c, t1, t2, t3, t4, t5, t6, e as [[? ? ? [] ? ?]|]; done.
Qed.

(** ** The relation it decides

    Two statuses agree when they have the same fields and, for the
    conditions, the same set of them in any order. *)

Definition status_agree (a b : EnvironmentLeaseStatus) : Prop :=
  a <| st_Conditions := [] |> = b <| st_Conditions := [] |> /\
  a.(st_Conditions) ≡ₚ b.(st_Conditions).

#[export] Instance status_agree_equivalence : Equivalence status_agree.
Proof.
  split.
  - intros a. done.
  - intros a b [H1 H2]. done.
  - intros a b c [H1 H2] [H3 H4]. split; [congruence | by rewrite H2].
Qed.

Definition distinct_types (cs : list Condition) : Prop := NoDup (map c_Type cs).

Lemma clusterStatusEqual_spec a b : clusterStatusEqual a b = true <-> a = b.
Proof.
  destruct a as [[]|], b as [[]|]; simpl; try done.
  rewrite !andb_true_iff, !String.eqb_eq. naive_solver.
Qed.

Lemma timePtrEqual_spec a b : timePtrEqual a b = true <-> a = b.
Proof. destruct a, b; simpl; rewrite ?Z.eqb_eq; naive_solver. Qed.

Lemma stringSliceEqual_spec a b : stringSliceEqual a b = true <-> a = b.
Proof.
  revert b. induction a as [|x a IH]; intros [|y b]; simpl; try done.
  rewrite andb_true_iff, String.eqb_eq, IH. naive_solver.
Qed.

Lemma effectiveEqual_spec a b : effectiveEqual a b = true <-> a = b.
Proof.
  destruct a as [[n t m i r d]|], b as [[n' t' m' i' r' d']|]; simpl; try done.
  split.
  - intros Hb. repeat case_hyp Hb; zify_bool; subst.
    all: repeat match goal with
         | H : String.eqb _ _ = true |- _ => apply String.eqb_eq in H
         | H : Bool.eqb _ _ = true |- _ => apply Bool.eqb_prop in H
         end; simplify_eq; done.
  - intros [= -> -> -> -> -> ->].
    rewrite String.eqb_refl, !Bool.eqb_reflx, !Z.eqb_refl. simpl.
    destruct i'; [apply Z.eqb_refl | done].
Qed.

(** [byType] of a list with distinct types is its association map. *)
Lemma byType_lookup_gen cs m t c :
  byTypeLoop cs m !! t = Some c ->
  (c ∈ cs /\ c.(c_Type) = t) \/ m !! t = Some c.
Proof.
  revert m. induction cs as [|d cs IH]; intros m; simpl; [by right|].
  intros Hl. destruct (IH _ Hl) as [[Hin Ht]|Hm].
  - left. split; [by constructor | done].
  - destruct (decide (d.(c_Type) = t)) as [Ht|Hne].
    + subst. rewrite lookup_insert_eq in Hm. simplify_eq. left. split; [constructor | done].
    + rewrite lookup_insert_ne in Hm by done. by right.
Qed.

Lemma byType_keep cs m t :
  t ∉ map c_Type cs ->
  byTypeLoop cs m !! t = m !! t.
Proof.
  revert m. induction cs as [|d cs IH]; intros m; simpl; [done|].
  rewrite not_elem_of_cons. intros [Hne Hn].
  rewrite IH by done. by rewrite lookup_insert_ne.
Qed.

Lemma byType_elem cs m c :
  distinct_types cs -> c ∈ cs ->
  byTypeLoop cs m !! c.(c_Type) = Some c.
Proof.
  unfold distinct_types. revert m. induction cs as [|d cs IH]; intros m; simpl.
  - intros _ []%not_elem_of_nil.
  - intros Hnd Hin. apply NoDup_cons in Hnd as [Hd Hnd].
    apply elem_of_cons in Hin as [->|Hin]; [|by apply IH].
    rewrite byType_keep by done. apply lookup_insert_eq.
Qed.

(** Equality of the compared fields, for conditions of one type. *)
Lemma condition_fields_eq (x y : Condition) :
  x.(c_Type) = y.(c_Type) ->
  bool_decide (x.(c_Status) = y.(c_Status)) && String.eqb x.(c_Reason) y.(c_Reason)
    && String.eqb x.(c_Message) y.(c_Message)
    && (x.(c_ObservedGeneration) =? y.(c_ObservedGeneration)) = true <-> x = y.
Proof.
  intros Ht. rewrite !andb_true_iff, bool_decide_eq_true, !String.eqb_eq, Z.eqb_eq.
  destruct x, y; naive_solver.
Qed.

Lemma conditionsEqual_spec a b :
  distinct_types a -> distinct_types b ->
  conditionsEqual a b = true <-> a ≡ₚ b.
Proof.
  intros Ha Hb. unfold conditionsEqual.
  assert (Hmem : forall ac, ac ∈ a ->
    match byType b !! ac.(c_Type) with
    | None => false
    | Some bc =>
        bool_decide (ac.(c_Status) = bc.(c_Status)) && String.eqb ac.(c_Reason) bc.(c_Reason)
        && String.eqb ac.(c_Message) bc.(c_Message)
        && (ac.(c_ObservedGeneration) =? bc.(c_ObservedGeneration))
    end = true <-> ac ∈ b).
  { intros ac _. split.
    - destruct (byType b !! c_Type ac) as [bc|] eqn:Hl; [|done].
      unfold byType in Hl. apply byType_lookup_gen in Hl as [[Hin Ht]|Hl]; [|by rewrite lookup_empty in Hl].
      rewrite condition_fields_eq by done. by intros ->.
    - intros Hin. unfold byType. rewrite byType_elem by done.
      by rewrite condition_fields_eq. }
  case_bool_decide as Hlen.
  - split; [done|]. intros Hp. by rewrite Hp in Hlen.
  - rewrite forallb_forall. split.
    + intros Hall. apply submseteq_length_Permutation; [|lia].
      apply NoDup_submseteq; [by apply (NoDup_fmap_1 c_Type)|].
      intros x Hx. apply Hmem; [done|]. apply Hall. by apply list_elem_of_In.
    + intros Hp x Hx. apply Hmem; [by apply list_elem_of_In|].
      rewrite <- Hp. by apply list_elem_of_In.
Qed.

(** The comparison of the code, field by field. *)
Lemma StatusEqual_agree (a b : EnvironmentLeaseStatus) :
  distinct_types a.(st_Conditions) -> distinct_types b.(st_Conditions) ->
  StatusEqual a b = true <-> status_agree a b.
Proof.
  intros Ha Hb. unfold StatusEqual, status_agree.
  rewrite <- (conditionsEqual_spec _ _ Ha Hb).
  destruct a as [p n c t1 t2 t3 t4 t5 t6 r w e g cs],
           b as [p' n' c' t1' t2' t3' t4' t5' t6' r' w' e' g' cs']; simpl in *.
  split.
  - intros Heq. repeat case_hyp Heq.
    repeat match goal with
    | H : _ || _ = false |- _ => apply orb_false_iff in H as [? ?]
    | H : negb _ = false |- _ => apply negb_false_iff in H
    | H : bool_decide _ = true |- _ => apply bool_decide_eq_true in H
    | H : String.eqb _ _ = true |- _ => apply String.eqb_eq in H
    | H : (_ =? _) = true |- _ => apply Z.eqb_eq in H
    | H : timePtrEqual _ _ = true |- _ => apply timePtrEqual_spec in H
    | H : clusterStatusEqual _ _ = true |- _ => apply clusterStatusEqual_spec in H
    | H : effectiveEqual _ _ = true |- _ => apply effectiveEqual_spec in H
    | H : stringSliceEqual _ _ = true |- _ => apply stringSliceEqual_spec in H
    end.
    subst. split; done.
  - intros [Hf Hc]. simplify_eq/=.
    rewrite !bool_decide_eq_true_2 by done.
    rewrite String.eqb_refl, Z.eqb_refl. simpl.
    rewrite (proj2 (clusterStatusEqual_spec _ _)) by done.
    rewrite !(proj2 (timePtrEqual_spec _ _)) by done. simpl.
    rewrite (proj2 (stringSliceEqual_spec _ _)) by done.
    rewrite (proj2 (effectiveEqual_spec _ _)) by done. done.
Qed.

(** [StatusEqual] decides agreement of two statuses: it answers
    true exactly when every field is the same and the conditions are the same
    up to their order.  A skipped status write therefore never hides a change,
    and a write that would change nothing is always skipped.  (Condition types
    are unique, as [SetStatusCondition] keeps them.) *)
Theorem StatusEqual_correct (a b : EnvironmentLeaseStatus) :
  distinct_types a.(st_Conditions) -> distinct_types b.(st_Conditions) ->
  StatusEqual a b = true <-> status_agree a b.
Proof. apply StatusEqual_agree. Qed.

(** Two statuses that differ in the order of two conditions. *)
Lemma StatusEqual_correct_witness :
  let ready := mkCondition "Ready" ConditionTrueStatus 1 "EnvironmentReady" "ok" in
  let cleanup := mkCondition "Cleanup" ConditionFalseStatus 1 "EnvironmentReady" "no" in
  let a := emptyStatus <| st_Conditions := [ready; cleanup] |> in
  let b := emptyStatus <| st_Conditions := [cleanup; ready] |> in
  StatusEqual a b = true /\ status_agree a b.
Proof.
  intros ready cleanup a b. split; [vm_compute; reflexivity|].
  apply (StatusEqual_correct a b).
  - apply (bool_decide_unpack (NoDup (map c_Type a.(st_Conditions)))). vm_compute. exact I.
  - apply (bool_decide_unpack (NoDup (map c_Type b.(st_Conditions)))). vm_compute. exact I.
  - vm_compute. reflexivity.
Defined.
