(* ===== verification/Sha.v ===== *)
(** * crypto/sha256, crypto/sha1 and encoding/hex

    The two hash functions of the Go standard library the program calls, by
    FIPS 180-4, on lists of bytes: SHA-256 spreads leases over targets and
    fingerprints kubeconfigs, SHA-1 shortens long names. *)

From S2P Require Import Prelude GoStrings.
From Stdlib Require Import Ascii.

(** [[]byte(s)]. *)
Definition bytes_of_string (s : string) : list Z :=
  (fun c => Z.of_N (N_of_ascii c)) <$> String.list_ascii_of_string s.

(** ** 32-bit words *)

Definition w32 (x : Z) : Z := Z.land x 4294967295.
Definition add32 (x y : Z) : Z := w32 (x + y).
Definition rotr (n x : Z) : Z := Z.lor (Z.shiftr x n) (w32 (Z.shiftl x (32 - n))).
Definition rotl (n x : Z) : Z := rotr (32 - n) x.
Definition not32 (x : Z) : Z := Z.lxor x 4294967295.

(** Big-endian conversions. *)
Definition be_word (bs : list Z) : Z := fold_left (fun acc b => Z.shiftl acc 8 + b) bs 0.
Fixpoint be_bytes (n : nat) (x : Z) : list Z :=
  match n with O => [] | S n => Z.land (Z.shiftr x (8 * Z.of_nat n)) 255 :: be_bytes n x end.

(** [l] cut into pieces of [n]; the fuel is the length of [l]. *)
Fixpoint chunks (fuel n : nat) (l : list Z) : list (list Z) :=
  match fuel with
  | O => []
  | S fuel => match l with [] => [] | _ => take n l :: chunks fuel n (drop n l) end
  end.

(** The message with a one bit, zeros and its length in bits. *)
Definition padded (msg : list Z) : list Z :=
  let len := Z.of_nat (length msg) in
  msg ++ [128] ++ replicate (Z.to_nat ((55 - len) mod 64)) 0 ++ be_bytes 8 (8 * len).

Definition blocks (msg : list Z) : list (list Z) :=
  let p := padded msg in (fun b => be_word <$> chunks (length b) 4 b) <$> chunks (length p) 64 p.

(** ** SHA-256 *)

Definition sha256_K : list Z := [
   1116352408; 1899447441; 3049323471; 3921009573; 961987163; 1508970993;
   2453635748; 2870763221; 3624381080; 310598401; 607225278; 1426881987;
   1925078388; 2162078206; 2614888103; 3248222580; 3835390401; 4022224774;
   264347078; 604807628; 770255983; 1249150122; 1555081692; 1996064986;
   2554220882; 2821834349; 2952996808; 3210313671; 3336571891; 3584528711;
   113926993; 338241895; 666307205; 773529912; 1294757372; 1396182291;
   1695183700; 1986661051; 2177026350; 2456956037; 2730485921; 2820302411;
   3259730800; 3345764771; 3516065817; 3600352804; 4094571909; 275423344;
   430227734; 506948616; 659060556; 883997877; 958139571; 1322822218;
   1537002063; 1747873779; 1955562222; 2024104815; 2227730452; 2361852424;
   2428436474; 2756734187; 3204031479; 3329325298].

Definition sha256_H : list Z := [
   1779033703; 3144134277; 1013904242; 2773480762; 1359893119; 2600822924;
   528734635; 1541459225].

(** The message schedule, kept with the latest word first. *)
Fixpoint sha256_schedule (n : nat) (w : list Z) : list Z :=
  match n with
  | O => w
  | S n =>
      let at_ i := nth i w 0 in
      let s0 := Z.lxor (Z.lxor (rotr 7 (at_ 14%nat)) (rotr 18 (at_ 14%nat))) (Z.shiftr (at_ 14%nat) 3) in
      let s1 := Z.lxor (Z.lxor (rotr 17 (at_ 1%nat)) (rotr 19 (at_ 1%nat))) (Z.shiftr (at_ 1%nat) 10) in
      sha256_schedule n (w32 (at_ 15%nat + s0 + at_ 6%nat + s1) :: w)
  end.

Definition sha256_round (st : list Z) (kw : Z * Z) : list Z :=
  match st with
  | [a; b; c; d; e; f; g; h] =>
      let S1 := Z.lxor (Z.lxor (rotr 6 e) (rotr 11 e)) (rotr 25 e) in
      let ch := Z.lxor (Z.land e f) (Z.land (not32 e) g) in
      let t1 := h + S1 + ch + kw.1 + kw.2 in
      let S0 := Z.lxor (Z.lxor (rotr 2 a) (rotr 13 a)) (rotr 22 a) in
      let maj := Z.lxor (Z.lxor (Z.land a b) (Z.land a c)) (Z.land b c) in
      [w32 (t1 + S0 + maj); a; b; c; add32 d t1; e; f; g]
  | _ => st
  end.

Definition sha256_block (st : list Z) (block : list Z) : list Z :=
  let w := rev (sha256_schedule 48 (rev block)) in
  zip_with add32 st (fold_left sha256_round (zip sha256_K w) st).

(** [sha256.Sum256]. *)
Definition Sum256 (msg : list Z) : list Z :=
  mbind (be_bytes 4) (fold_left sha256_block (blocks msg) sha256_H).

(** ** SHA-1 *)

Fixpoint sha1_schedule (n : nat) (w : list Z) : list Z :=
  match n with
  | O => w
  | S n =>
      let at_ i := nth i w 0 in
      sha1_schedule n
        (rotl 1 (Z.lxor (Z.lxor (at_ 2%nat) (at_ 7%nat)) (Z.lxor (at_ 13%nat) (at_ 15%nat))) :: w)
  end.

Definition sha1_round (st : list Z) (tw : nat * Z) : list Z :=
  match st with
  | [a; b; c; d; e] =>
      let '(f, k) :=
        if (tw.1 <? 20)%nat then (Z.lor (Z.land b c) (Z.land (not32 b) d), 1518500249)
        else if (tw.1 <? 40)%nat then (Z.lxor (Z.lxor b c) d, 1859775393)
        else if (tw.1 <? 60)%nat then
          (Z.lor (Z.lor (Z.land b c) (Z.land b d)) (Z.land c d), 2400959708)
        else (Z.lxor (Z.lxor b c) d, 3395469782) in
      [w32 (rotl 5 a + f + e + k + tw.2); a; rotl 30 b; c; d]
  | _ => st
  end.

Definition sha1_block (st : list Z) (block : list Z) : list Z :=
  let w := rev (sha1_schedule 64 (rev block)) in
  zip_with add32 st (fold_left sha1_round (zip (seq 0 80) w) st).

(** [sha1.Sum]. *)
Definition Sum1 (msg : list Z) : list Z :=
  mbind (be_bytes 4) (fold_left sha1_block (blocks msg)
    [1732584193; 4023233417; 2562383102; 271733878; 3285377520]).

(** ** encoding/hex, encoding/binary *)

Definition hex_byte (b : Z) : string :=
  String (hex_digit (Z.to_N (b / 16))) (String (hex_digit (Z.to_N (b mod 16))) "").

(** [hex.EncodeToString]. *)
Definition EncodeToString (bs : list Z) : string :=
  fold_right (fun b s => hex_byte b +:+ s) "" bs.

(** [binary.BigEndian.Uint64] of eight bytes. *)
Definition BigEndianUint64 (bs : list Z) : Z := be_word bs.

Example sha256_abc : EncodeToString (Sum256 (bytes_of_string "abc")) =
  "ba7816bf8f01cfea414140de5dae2223b00361a396177a9cb410ff61f20015ad".
Proof. vm_compute. reflexivity. Qed.

Example sha1_abc : EncodeToString (Sum1 (bytes_of_string "abc")) =
  "a9993e364706816aba3e25717850c26c9cd0d89d".
Proof. vm_compute. reflexivity. Qed.

Example sha256_two_blocks :
  EncodeToString (Sum256 (bytes_of_string "abcdbcdecdefdefgefghfghighijhijkijkljklmklmnlmnomnopnopq")) =
  "248d6a61d20638b8e5c026930c3e6039a33ce45964ff2167f6ecedd419db06c1".
Proof. vm_compute. reflexivity. Qed.

(** A hash is a list of bytes: its hexadecimal form is twice as long. *)
Lemma EncodeToString_length bs : String.length (EncodeToString bs) = (2 * length bs)%nat.
Proof.
  unfold EncodeToString. induction bs as [|b bs IH]; [done|]. cbn [fold_right]. unfold hex_byte at 1.
  change (S (S (String.length (foldr (fun b s => hex_byte b +:+ s) "" bs))) = (2 * S (length bs))%nat).
  rewrite IH. lia.
Qed.

(** The first eight bytes read as a natural number. *)
Lemma be_word_nonneg bs : Forall (fun b => 0 <= b) bs -> 0 <= be_word bs.
Proof.
  unfold be_word. intros Hb. enough (Hen : forall acc, 0 <= acc ->
    0 <= fold_left (fun acc b => Z.shiftl acc 8 + b) bs acc) by (apply Hen; lia).
  induction Hb as [|b bs Hb Hbs IH]; intros acc Hacc; [done|]. simpl. apply IH.
  pose proof (Z.shiftl_nonneg acc 8) as [_ Hs]. specialize (Hs Hacc). lia.
Qed.

Lemma be_bytes_nonneg n x : Forall (fun b => 0 <= b) (be_bytes n x).
Proof.
  induction n as [|n IH]; simpl; constructor; [|done]. apply Z.land_nonneg. right. lia.
Qed.

Lemma Sum256_nonneg msg : Forall (fun b => 0 <= b) (Sum256 msg).
Proof.
  unfold Sum256. generalize (fold_left sha256_block (blocks msg) sha256_H). intros l.
  induction l as [|x l IH]; [constructor|]. rewrite bind_cons. apply Forall_app.
  split; [apply be_bytes_nonneg|done].
Qed.
