(* ===== verification/Programs.v ===== *)
(** * Effectful programs

    The reconcilers and the remote provider call out: to Kubernetes API
    servers, to the clock, to metrics, events and shared state.  Such a function
    is a program over a signature of effects, a tree that says which call is
    made next for each answer so far.  A program is data, so it can be executed
    against a handler, and a property can be proved for every behaviour of what
    it calls: [safe] is the weakest precondition over all answers, and
    [safe_sound] turns it into a statement about the traces of calls. *)

From S2P Require Import Prelude GoStrings GoTime GoErrors.

Section Programs.
Context {E : Type -> Type}.

Inductive prog (A : Type) : Type :=
  | Ret (a : A)
  | Act (X : Type) (e : E X) (k : X -> prog A).
Arguments Ret {A} a.
Arguments Act {A X} e k.

Fixpoint bind {A B} (p : prog A) (f : A -> prog B) : prog B :=
  match p with
  | Ret a => f a
  | Act e k => Act e (fun x => bind (k x) f)
  end.

Definition call {X} (e : E X) : prog X := Act e Ret.

(** One call with its answer; a trace lists the calls made, the latest first. *)
Record event := Ev {
  ev_type : Type;
  ev_eff : E ev_type;
  ev_resp : ev_type
}.
Notation trace := (list event).

(** ** Executions *)

(** [runs p h tr a]: from history [h], [p] can finish with [a] and history [tr]. *)
Inductive runs {A} : prog A -> trace -> trace -> A -> Prop :=
  | runs_ret a h : runs (Ret a) h h a
  | runs_act X (e : E X) k x h tr a :
      runs (k x) (Ev X e x :: h) tr a -> runs (Act e k) h tr a.

(** Execution against a handler of the effects, with a state of its own. *)
Fixpoint exec {St A} (H : forall X, E X -> St -> X * St) (p : prog A) (s : St) (h : trace)
    : A * St * trace :=
  match p with
  | Ret a => (a, s, h)
  | Act e k => let '(x, s) := H _ e s in exec H (k x) s (Ev _ e x :: h)
  end.

Lemma exec_runs {St A} H (p : prog A) (s : St) h a s' tr :
  exec H p s h = (a, s', tr) -> runs p h tr a.
Proof.
  revert s h. induction p as [b|X e k IH]; intros s h; simpl.
  - intros [= -> -> ->]. constructor.
  - destruct (H X e s) as [x s1]. intros Hx. econstructor. by eapply IH.
Qed.

(** ** The weakest precondition over all answers *)

(** A guarantee: what must hold of the history whenever an effect is performed. *)
Notation guarantee := (forall X, trace -> E X -> Prop).

Fixpoint safe {A} (G : guarantee) (p : prog A) (h : trace) (Q : trace -> A -> Prop) : Prop :=
  match p with
  | Ret a => Q h a
  | Act e k => G _ h e /\ forall x, safe G (k x) (Ev _ e x :: h) Q
  end.

Lemma safe_bind {A B} (G : guarantee) (p : prog A) (f : A -> prog B) h Q :
  safe G (bind p f) h Q <-> safe G p h (fun h a => safe G (f a) h Q).
Proof.
  revert h. induction p as [a|X e k IH]; intros h; simpl; [done|].
  split; intros [HG Hk]; (split; [done|]; intros x; by apply IH).
Qed.

Lemma safe_mono {A} (G G' : guarantee) (p : prog A) h (Q Q' : trace -> A -> Prop) :
  (forall X h (e : E X), G X h e -> G' X h e) ->
  (forall h a, Q h a -> Q' h a) ->
  safe G p h Q -> safe G' p h Q'.
Proof.
  intros HG HQ. revert h. induction p as [a|X e k IH]; intros h; simpl; [auto|].
  intros [H1 H2]. split; [auto|]. intros x. by apply IH.
Qed.

Lemma safe_post {A} (G : guarantee) (p : prog A) h (Q Q' : trace -> A -> Prop) :
  safe G p h Q -> (forall h a, Q h a -> Q' h a) -> safe G p h Q'.
Proof. intros Hp HQ. eapply safe_mono; [|exact HQ|exact Hp]. auto. Qed.

Lemma safe_conj {A} (G : guarantee) (p : prog A) h (Q Q' : trace -> A -> Prop) :
  safe G p h Q -> safe G p h Q' -> safe G p h (fun h a => Q h a /\ Q' h a).
Proof.
  revert h. induction p as [a|X e k IH]; intros h; simpl; [auto|].
  intros [H1 H2] [_ H3]. split; [done|]. intros x. by apply IH.
Qed.

(** The history only grows. *)
Lemma safe_extends {A} (G : guarantee) (p : prog A) h (Q : trace -> A -> Prop) :
  safe G p h Q -> safe G p h (fun h' a => Q h' a /\ exists t, h' = t ++ h).
Proof.
  intros Hp. apply safe_conj; [done|]. revert Hp.
  enough (Hen : forall h0, (exists t, h = t ++ h0) -> safe G p h Q ->
    safe G p h (fun h' _ => exists t, h' = t ++ h0)) by (apply Hen; by exists []).
  intros h0. revert h. induction p as [a|X e k IH]; intros h; simpl; [auto|].
  intros [t ->] [H1 H2]. split; [done|]. intros x. apply IH; [|done].
  by exists (Ev X e x :: t).
Qed.

(** Every call of a program is made from an extension of its history. *)
Lemma safe_within {A} (G : guarantee) (p : prog A) h (Q : trace -> A -> Prop) :
  safe G p h Q -> safe (fun X h' e => G X h' e /\ h `suffix_of` h') p h Q.
Proof.
  enough (Hen : forall h0, h0 `suffix_of` h -> safe G p h Q ->
    safe (fun X h' e => G X h' e /\ h0 `suffix_of` h') p h Q) by (intros Hp; by apply Hen).
  intros h0. revert h. induction p as [a|X e k IH]; intros h Hh; simpl; [auto|].
  intros [HG Hk]. split; [done|]. intros x. apply IH; [by apply suffix_cons_r|done].
Qed.

(** Every run extends its history. *)
Lemma safe_any {A} (p : prog A) h : safe (fun _ _ _ => True) p h (fun h' _ => h `suffix_of` h').
Proof.
  enough (Hen : forall h0, h0 `suffix_of` h -> safe (fun _ _ _ => True) p h (fun h' _ => h0 `suffix_of` h'))
    by by apply Hen.
  intros h0. revert h. induction p as [a|X e k IH]; intros h Hh; simpl; [done|].
  split; [done|]. intros x. apply IH. by apply suffix_cons_r.
Qed.

(** Every call of a trace satisfied the guarantee at its point of the history. *)
Fixpoint guaranteed (G : guarantee) (tr : trace) : Prop :=
  match tr with
  | [] => True
  | ev :: h => G _ h ev.(ev_eff) /\ guaranteed G h
  end.

Lemma guaranteed_suffix (G : guarantee) t h : guaranteed G (t ++ h) -> guaranteed G h.
Proof. induction t as [|ev t IH]; simpl; [auto|]. intros [_ ?]. auto. Qed.

Lemma guaranteed_split (G : guarantee) t ev h : guaranteed G (t ++ ev :: h) -> G _ h ev.(ev_eff).
Proof. intros [? _]%guaranteed_suffix. done. Qed.

Lemma safe_sound {A} (G : guarantee) (p : prog A) h tr a (Q : trace -> A -> Prop) :
  guaranteed G h -> safe G p h Q -> runs p h tr a -> guaranteed G tr /\ Q tr a.
Proof.
  intros Hh Hs Hr. revert Hh Hs. induction Hr as [a h|X e k x h tr a Hr IH]; simpl; [auto|].
  intros Hh [HG Hk]. apply IH; [by split | apply Hk].
Qed.

Lemma runs_post {A} (G : guarantee) (p : prog A) tr a (Q : trace -> A -> Prop) :
  runs p [] tr a -> safe G p [] Q -> Q tr a.
Proof. intros Hr Hs. by apply (safe_sound G p [] tr a Q I Hs Hr). Qed.

Lemma runs_guaranteed {A} (G : guarantee) (p : prog A) tr a (Q : trace -> A -> Prop) :
  runs p [] tr a -> safe G p [] Q -> guaranteed G tr.
Proof. intros Hr Hs. by apply (safe_sound G p [] tr a Q I Hs Hr). Qed.

(** Every call a program can make satisfies [P], whatever came before. *)
Fixpoint every {A} (P : forall X, E X -> Prop) (p : prog A) : Prop :=
  match p with
  | Ret _ => True
  | Act e k => P _ e /\ forall x, every P (k x)
  end.

Lemma every_bind {A B} (P : forall X, E X -> Prop) (p : prog A) (f : A -> prog B) :
  every P p -> (forall a, every P (f a)) -> every P (bind p f).
Proof.
  intros Hp Hf. induction p as [a|X e k IH]; simpl; [auto|].
  destruct Hp as [He Hk]. split; [done|]. intros x. by apply IH.
Qed.

Lemma every_call {X} (P : forall X, E X -> Prop) (e : E X) : P X e -> every P (call e).
Proof. by intros; split. Qed.

Lemma every_ret {A} (P : forall X, E X -> Prop) (a : A) : every P (Ret a).
Proof. done. Qed.

Lemma every_safe {A} (P : forall X, E X -> Prop) (G : guarantee) (p : prog A) h Q :
  every P p -> (forall X h (e : E X), P X e -> G X h e) -> (forall h a, Q h a) -> safe G p h Q.
Proof.
  intros Hp HG HQ. revert h. induction p as [a|X e k IH]; intros h; simpl; [auto|].
  destruct Hp as [He Hk]. split; [auto|]. intros x. by apply IH.
Qed.

(** An invariant of the history that every call of a program keeps. *)
Lemma every_inv {A} (P : forall X, E X -> Prop) (G : guarantee) (I : trace -> Prop) (p : prog A) h :
  every P p -> (forall X h (e : E X), I h -> P X e -> G X h e /\ forall x, I (Ev X e x :: h)) ->
  I h -> safe G p h (fun h _ => I h).
Proof.
  intros Hp HI. revert h. induction p as [a|X e k IH]; intros h Hh; simpl; [done|].
  destruct Hp as [He Hk]. destruct (HI X h e Hh He) as [HG Hn]. split; [done|].
  intros x. apply IH; auto.
Qed.


(** A program keeps an invariant of the history, under a guarantee. *)
Definition keeps {A} (G : guarantee) (I : trace -> Prop) (p : prog A) : Prop :=
  forall h, I h -> safe G p h (fun h _ => I h).

Lemma keeps_ret {A} (G : guarantee) I (a : A) : keeps G I (Ret a).
Proof. by intros h. Qed.

Lemma keeps_bind {A B} (G : guarantee) I (p : prog A) (f : A -> prog B) :
  keeps G I p -> (forall a, keeps G I (f a)) -> keeps G I (bind p f).
Proof.
  intros Hp Hf h Hh. rewrite safe_bind. eapply safe_post; [by apply Hp|]. intros h' a Hh'. by apply Hf.
Qed.

(** ** Deferred release *)

(** [release := acquire(); defer release()] around a body. *)
Definition with_release {A} (acquire : prog unit) (release : prog unit) (body : prog A) : prog A :=
  bind acquire (fun _ => bind body (fun a => bind release (fun _ => Ret a))).

(** ** Retrying on conflict *)

(** At most [n] further attempts while the body reports a conflict; [s] is what
    the closure's captured variables hold. *)
Fixpoint retry {S} (n : nat) (f : S -> prog (S * option error)) (s : S)
    : prog (S * option error) :=
  bind (f s) (fun r =>
    match r with
    | (s, Some e) =>
        if IsConflict e
        then match n with O => Ret (s, Some e) | Datatypes.S n => retry n f s end
        else Ret (s, Some e)
    | (s, None) => Ret (s, None)
    end).

(** A loop invariant rule for [retry]. *)
Lemma safe_retry {S} (G : guarantee) (I : trace -> S -> Prop) (Q : trace -> S * option error -> Prop)
    n (f : S -> prog (S * option error)) s h :
  I h s ->
  (forall h s, I h s ->
     safe G (f s) h (fun h r => Q h r /\ (forall e, r.2 = Some e -> IsConflict e = true -> I h r.1))) ->
  safe G (retry n f s) h Q.
Proof.
  intros HI Hf. revert s h HI. induction n as [|n IH]; intros s h HI;
    cbn [retry]; rewrite safe_bind; (eapply safe_post; [by apply Hf|]);
    intros h' [s' [e|]] [HQ HI']; simpl; try done; (destruct (IsConflict e) eqn:He; [|done]);
    [done|apply IH; by eapply HI'].
Qed.

Lemma every_retry {S} (P : forall X, E X -> Prop) n (f : S -> prog (S * option error)) s :
  (forall s, every P (f s)) -> every P (retry n f s).
Proof.
  intros Hf. revert s. induction n as [|n IH]; intros s; cbn [retry]; apply every_bind; auto;
    intros [s' [e|]]; [case_match| |case_match|]; done || apply IH.
Qed.

End Programs.

Arguments prog : clear implicits.
Arguments event : clear implicits.
Arguments Ret {E A} a.
Arguments Act {E A X} e k.
Arguments Ev {E ev_type} ev_eff ev_resp.

Notation trace E := (list (event E)).
Notation guarantee E := (forall X, trace E -> E X -> Prop).

Declare Scope prog_scope.
Delimit Scope prog_scope with prog.

(** Sequencing, and the early return of a failing call. *)
Notation "x <- p ;; k" := (bind p (fun x => k))
  (at level 100, p at next level, right associativity) : prog_scope.
Notation "' x <- p ;; k" := (bind p (fun r => match r with x => k end))
  (at level 100, x strict pattern, p at next level, right associativity) : prog_scope.
Notation "p ;; k" := (bind p (fun _ => k))
  (at level 100, right associativity) : prog_scope.

(** Prove a property of a finished run by the weakest precondition. *)
Ltac by_safe G Hr :=
  match type of Hr with
  | runs _ _ ?tr ?r => pattern tr, r; apply (runs_post G _ _ _ _ Hr)
  end.

(** [if cond { p }]. *)
Definition when {E} (b : bool) (p : prog E unit) : prog E unit := if b then p else Ret tt.

(** [retry.RetryOnConflict(retry.DefaultBackoff, fn)] of k8s.io/client-go is a
    parameter. *)
Class RetryAPI := {
  RetryOnConflict : forall {E : Type -> Type} {S : Type},
    (S -> prog E (S * option error)) -> S -> prog E (S * option error)
}.

(** "RetryOnConflict executes the provided function repeatedly, retrying if the
    server returns a conflicting write", up to the number of steps of the
    backoff, and returns the last error. *)
Class RetryLaws `{RetryAPI} := {
  retry_steps : nat;
  RetryOnConflict_spec : forall E S (f : S -> prog E (S * option error)) s,
    RetryOnConflict f s = retry retry_steps f s
}.

(** The weakest precondition of [RetryOnConflict], by a loop invariant. *)
Lemma safe_RetryOnConflict `{RetryLaws} {E S} (G : guarantee E) (I : trace E -> S -> Prop)
    (Q : trace E -> S * option error -> Prop) (f : S -> prog E (S * option error)) s h :
  I h s ->
  (forall h s, I h s ->
     safe G (f s) h (fun h r => Q h r /\ (forall e, r.2 = Some e -> IsConflict e = true -> I h r.1))) ->
  safe G (RetryOnConflict f s) h Q.
Proof. rewrite RetryOnConflict_spec. apply safe_retry. Qed.

Lemma every_RetryOnConflict `{RetryLaws} {E S} (P : forall X, E X -> Prop)
    (f : S -> prog E (S * option error)) s :
  (forall s, every P (f s)) -> every P (RetryOnConflict f s).
Proof. rewrite RetryOnConflict_spec. apply every_retry. Qed.

(** Prove [every]: follow the program, splitting on its conditions; known
    sub-programs are in the hint database. *)
Create HintDb every discriminated.
#[export] Hint Extern 1 (_ = true) => (reflexivity || assumption) : every.

Ltac every_step :=
  match goal with
  | |- every _ (Ret _) => exact I
  | |- every _ (call _) => apply every_call; first [done | reflexivity]
  | |- every _ (bind _ _) => apply every_bind
  | |- every _ (RetryOnConflict _ _) => apply every_RetryOnConflict
  | |- every _ (when ?b _) => unfold when
  | |- every _ (match ?x with _ => _ end) => destruct x eqn:?
  | |- forall _, every _ _ => intros ?
  | |- every _ _ => solve [eauto 3 with every nocore]
  end.

Ltac every_tac := repeat (cbv zeta; every_step).

(** Solve [h `suffix_of` h'] for a history that has grown call by call. *)
Ltac grown := repeat first [done | apply suffix_cons_r | apply suffix_app_r].

(** Prove [keeps] the same way. *)
Create HintDb keeps discriminated.

Ltac keeps_step :=
  match goal with
  | |- keeps _ _ (Ret _) => apply keeps_ret
  | |- keeps _ _ (bind _ _) => apply keeps_bind
  | |- keeps _ _ (when ?b _) => unfold when
  | |- keeps _ _ (match ?x with _ => _ end) => destruct x eqn:?
  | |- forall _, keeps _ _ _ => intros ?
  | |- keeps _ _ _ => solve [eauto 3 with keeps nocore]
  end.

Ltac keeps_tac := repeat (cbv zeta; keeps_step).
