(* ===== verification/Threads.v ===== *)
(** * Goroutines

    Several programs at work on one shared state, call by call.  What a call may
    answer, and the state after it, is a relation [perform]; a call that cannot
    be performed blocks.  Each thread keeps its label, what is left of its
    program and the trace of its calls.  The library bounds how long threads can
    go on ([acts_bounded]), and executes schedules ([schedule_acts]). *)

From S2P Require Import Prelude Programs.

(** At most [n] more calls, whatever they answer. *)
Fixpoint within {E A} (n : nat) (c : prog E A) : Prop :=
  match c with
  | Ret _ => True
  | Act _ k => match n with O => False | S n => forall x, within n (k x) end
  end.

Lemma within_S {E A} n (c : prog E A) : within n c -> within (S n) c.
Proof. revert n. induction c as [a|X e k IH]; intros n; [done|]. destruct n as [|n]; [done|]. intros H x. apply IH, H. Qed.

Lemma within_bind {E A B} n m (p : prog E A) (f : A -> prog E B) :
  within n p -> (forall a, within m (f a)) -> within (n + m) (bind p f).
Proof.
  intros Hp Hf. revert n Hp. induction p as [a|X e k IH]; intros n Hp; cbn.
  - clear Hp. induction n as [|n IHn]; [apply Hf|]. by apply within_S.
  - destruct n as [|n]; [done|]. intros x. by apply IH.
Qed.

Lemma sum_insert (ns : list nat) i n : ns !! i = Some (S n) -> S (sum_list (<[i := n]> ns)) = sum_list ns.
Proof. revert i. induction ns as [|m ns IH]; intros [|i]; simpl; intros H; simplify_eq; [done|]. rewrite <- (IH _ H). lia. Qed.

Section Threads.
Context {E : Type -> Type} {St O L : Type}.
Variable perform : forall X, E X -> St -> X -> St -> Prop.

Record thread := mkThread {
  th_label : L;
  th_code : prog E O;
  th_trace : trace E
}.

Notation process := (St * list thread)%type.

(** One call of one thread. *)
Inductive act : process -> process -> Prop :=
  | act_thread s ts i c X (e : E X) k tr x s' :
      ts !! i = Some (mkThread c (Act e k) tr) -> perform X e s x s' ->
      act (s, ts) (s', <[i := mkThread c (k x) (Ev e x :: tr)]> ts).

(** The same, from the side of a thread whose program is known. *)
Definition acts (s : St) (th : thread) (s' : St) (th' : thread) : Prop :=
  match th.(th_code) with
  | Ret _ => False
  | Act e k => exists x, perform _ e s x s' /\ th' = mkThread th.(th_label) (k x) (Ev e x :: th.(th_trace))
  end.

Lemma act_inv s ts s' ts' :
  act (s, ts) (s', ts') -> exists i th th', ts !! i = Some th /\ acts s th s' th' /\ ts' = <[i := th']> ts.
Proof.
  intros Ha. inversion Ha as [s0 ts0 i c X e k tr x s1 Hi Hp]; subst. eexists i, _, _. split; [exact Hi|]. split; [|done]. by exists x.
Qed.

Lemma act_intro s ts i th s' th' :
  ts !! i = Some th -> acts s th s' th' -> act (s, ts) (s', <[i := th']> ts).
Proof. destruct th as [c [o|X e k] tr]; [done|]. intros Hi (x & Hp & ->). by apply (act_thread s ts i). Qed.

Definition finished (th : thread) : Prop := exists o, th.(th_code) = Ret o.

(** The call a thread makes next. *)
Definition next (ts : list thread) (i : nat) {X} (e : E X) : Prop :=
  exists c k tr, ts !! i = Some (mkThread c (Act e k) tr).

Lemma unfinished ts : Forall finished ts \/ exists i X (e : E X), next ts i e.
Proof.
  induction ts as [|[c [o|X e k] tr] ts [IH|(i & X' & e' & Hn)]]; [by left|..].
  - left. constructor; [by exists o|done].
  - right. exists (S i), X', e'. exact Hn.
  - right. exists 0%nat, X, e. by exists c, k, tr.
  - right. exists 0%nat, X, e. by exists c, k, tr.
Qed.

Lemma can_act s ts i X (e : E X) x s' :
  next ts i e -> perform X e s x s' -> exists pr', act (s, ts) pr'.
Proof. intros (c & k & tr & Hi) Hp. eexists. by eapply act_thread. Qed.

(** ** Threads come to an end *)

(** What each thread has left. *)
Definition budget (ts : list thread) (ns : list nat) : Prop := Forall2 (fun th n => within n th.(th_code)) ts ns.

Lemma act_budget pr pr' ns :
  act pr pr' -> budget pr.2 ns -> exists ns', budget pr'.2 ns' /\ (S (sum_list ns') <= sum_list ns)%nat.
Proof.
  intros [s ts i c X e k tr x s' Hi Hp] Hns. cbn [fst snd] in *.
  destruct (Forall2_lookup_l _ _ _ _ _ Hns Hi) as (n & Hn & Hw). cbn in Hw. destruct n as [|n]; [done|].
  exists (<[i := n]> ns). split; [apply Forall2_insert; [done|apply Hw]|]. by rewrite (sum_insert _ _ _ Hn).
Qed.

(** No schedule goes on longer than what the threads have left together. *)
Lemma acts_bounded n pr pr' ns : nsteps act n pr pr' -> budget pr.2 ns -> (n <= sum_list ns)%nat.
Proof.
  intros Hn. revert ns. induction Hn as [pr|n pr pr1 pr' Ha _ IH]; intros ns Hns; [lia|].
  destruct (act_budget _ _ _ Ha Hns) as (ns' & Hns' & Hle). specialize (IH _ Hns'). lia.
Qed.

Lemma acts_bounded_each m n pr pr' :
  Forall (fun th => within m th.(th_code)) pr.2 -> nsteps act n pr pr' -> (n <= m * length pr.2)%nat.
Proof.
  intros Hts Hn. eapply (acts_bounded _ _ _ (replicate (length pr.2) m)) in Hn.
  - by rewrite sum_list_replicate, Nat.mul_comm in Hn.
  - apply Forall2_same_length_lookup_2; [by rewrite length_replicate|]. intros i th n' Hi [-> _]%lookup_replicate.
    rewrite Forall_lookup in Hts. by eapply Hts.
Qed.

(** ** Schedules, executed *)

(** One answer a call may have, if it can be performed. *)
Variable attempt : forall X, E X -> St -> option (X * St).

(** Thread [i] makes its next call, if it can. *)
Definition proceed (pr : process) (i : nat) : process :=
  match pr.2 !! i with
  | Some (mkThread c (Act e k) tr) =>
      match attempt _ e pr.1 with
      | Some (x, s) => (s, <[i := mkThread c (k x) (Ev e x :: tr)]> pr.2)
      | None => pr
      end
  | _ => pr
  end.

Hypothesis attempt_perform : forall X (e : E X) s x s', attempt X e s = Some (x, s') -> perform X e s x s'.

Lemma proceed_acts pr i : rtc act pr (proceed pr i).
Proof.
  destruct pr as [s ts]. unfold proceed. cbn. destruct (ts !! i) as [[c [o|X e k] tr]|] eqn:Hi; [done| |done].
  destruct (attempt X e s) as [[x s']|] eqn:Ha; [|done]. apply rtc_once. by eapply act_thread, attempt_perform.
Qed.

End Threads.

Arguments thread : clear implicits.
Arguments mkThread {E O L} th_label th_code th_trace.
