(* ===== verification/Clock.v ===== *)
(** * The clocks (internal/lease/clock.go)

    The interface [Clock], the fixed clock, and the fake clock that tests share
    between goroutines: a field behind a mutex.  The real clock is the effect
    [Now] of Kube.v.

    [fake_clock_linearizable]: however the calls of [Now], [Set] and [Advance]
    interleave, those that have returned have done so as in some order, one after
    the other; in particular no [Advance] is ever lost. *)

From S2P Require Import Prelude GoTime Programs Threads.

(** [Now] of the fixed clock. *)
Record FixedClock := mkFixedClock { fc_T : time }.

Definition FixedNow (c : FixedClock) : time := c.(fc_T).

(** ** FakeClock *)

Inductive cenv : Type -> Type :=
  | Lock : cenv unit
  | Unlock : cenv unit
  | ReadT : cenv time
  | WriteT (t : time) : cenv unit.

Record FakeClock := mkFakeClock { fk_held : bool; fk_t : time }.

Definition NewFakeClock (t : time) : FakeClock := mkFakeClock false t.

Definition perform X (e : cenv X) (s : FakeClock) : X -> FakeClock -> Prop :=
  match e in cenv X return X -> FakeClock -> Prop with
  | Lock => fun _ s' => s.(fk_held) = false /\ s' = mkFakeClock true s.(fk_t)
  | Unlock => fun _ s' => s.(fk_held) = true /\ s' = mkFakeClock false s.(fk_t)
  | ReadT => fun t s' => t = s.(fk_t) /\ s' = s
  | WriteT t => fun _ s' => s' = mkFakeClock s.(fk_held) t
  end.

Inductive clockOp := OpNow | OpSet (t : time) | OpAdvance (d : duration).

(** The methods; what returns nothing returns [None]. *)
Definition FakeNow : prog cenv (option time) :=
  (call Lock ;; t <- call ReadT ;; call Unlock ;; Ret (Some t))%prog.
Definition FakeSet (t : time) : prog cenv (option time) :=
  (call Lock ;; call (WriteT t) ;; call Unlock ;; Ret None)%prog.
Definition FakeAdvance (d : duration) : prog cenv (option time) :=
  (call Lock ;; t <- call ReadT ;; call (WriteT (Add t d)) ;; call Unlock ;; Ret None)%prog.

Definition method (op : clockOp) : prog cenv (option time) :=
  match op with OpNow => FakeNow | OpSet t => FakeSet t | OpAdvance d => FakeAdvance d end.

(** ** What the methods mean, one after the other *)

Definition applyOp (t : time) (op : clockOp) : time :=
  match op with OpNow => t | OpSet t' => t' | OpAdvance d => Add t d end.
Definition answerOp (t : time) (op : clockOp) : option time :=
  match op with OpNow => Some t | _ => None end.
Definition replay (t : time) (ops : list clockOp) : time := fold_left applyOp ops t.

Notation thread := (thread cenv (option time) clockOp) (only parsing).
Notation process := (FakeClock * list thread)%type (only parsing).
Notation act := (act (O:=option time) (L:=clockOp) perform) (only parsing).

Inductive step : process -> process -> Prop :=
  | step_act pr pr' : act pr pr' -> step pr pr'
  | step_start s ts op : step (s, ts) (s, ts ++ [mkThread op (method op) []]).

Definition reaches : process -> process -> Prop := rtc step.

(** ** The invariant *)

(** Inside the critical section: what is left, and the field, when the section
    was entered at [b]. *)
Inductive insideAt (b : time) : clockOp -> prog cenv (option time) -> time -> Prop :=
  | in_now_read : insideAt b OpNow (t <- call ReadT ;; call Unlock ;; Ret (Some t))%prog b
  | in_now : insideAt b OpNow (call Unlock ;; Ret (Some b))%prog b
  | in_set_write t : insideAt b (OpSet t) (call (WriteT t) ;; call Unlock ;; Ret None)%prog b
  | in_set t : insideAt b (OpSet t) (call Unlock ;; Ret None)%prog t
  | in_advance_read d :
      insideAt b (OpAdvance d) (t <- call ReadT ;; call (WriteT (Add t d)) ;; call Unlock ;; Ret None)%prog b
  | in_advance_write d : insideAt b (OpAdvance d) (call (WriteT (Add b d)) ;; call Unlock ;; Ret None)%prog b
  | in_advance d : insideAt b (OpAdvance d) (call Unlock ;; Ret None)%prog (Add b d).

(** A call has returned at its place in the order. *)
Definition placedIn (t0 : time) (order : list (nat * clockOp)) (i : nat) (op : clockOp) (o : option time) : Prop :=
  exists k, order !! k = Some (i, op) /\ o = answerOp (replay t0 (take k order).*2) op.

(** The thread that holds the mutex, if it is held, and the others. *)
Definition threadAt (t0 : time) (order : list (nat * clockOp)) (holder : option nat) (s : FakeClock) (i : nat) (th : thread) : Prop :=
  if decide (holder = Some i) then insideAt (replay t0 order.*2) th.(th_label) th.(th_code) s.(fk_t)
  else th.(th_code) = method th.(th_label) \/ exists o, th.(th_code) = Ret o /\ placedIn t0 order i th.(th_label) o.

Definition clockOk (t0 : time) (s : FakeClock) (ts : list thread) : Prop :=
  exists order holder,
    (forall i th, ts !! i = Some th -> threadAt t0 order holder s i th) /\
    (forall i op, (i, op) ∈ order -> exists th o, ts !! i = Some th /\ th.(th_label) = op /\ th.(th_code) = Ret o) /\
    NoDup order.*1 /\
    match holder with
    | Some i => s.(fk_held) = true /\ (i < length ts)%nat
    | None => s.(fk_held) = false /\ s.(fk_t) = replay t0 order.*2
    end.

Lemma placedIn_mono t0 order order' i op o : order `prefix_of` order' -> placedIn t0 order i op o -> placedIn t0 order' i op o.
Proof.
  intros [more ->] (k & Hk & ->). exists k. pose proof (lookup_lt_Some _ _ _ Hk). split; [by apply lookup_app_l_Some|].
  by rewrite take_app_le by lia.
Qed.

(** What one thread does does not concern the others. *)
Lemma threadAt_others t0 order order' holder holder' s s' j th :
  order `prefix_of` order' -> holder <> Some j -> holder' <> Some j ->
  threadAt t0 order holder s j th -> threadAt t0 order' holder' s' j th.
Proof.
  intros Ho Hh Hh'. unfold threadAt. rewrite !decide_False by done. intros [Hm|(o & Hr & Hp)]; [by left|right].
  exists o. split; [done|]. by eapply placedIn_mono.
Qed.

(** Outside, a call can only wait for the mutex. *)
Lemma clock_outside_acts op tr s s' th' :
  acts perform s (mkThread op (method op) tr) s' th' ->
  s.(fk_held) = false /\ s' = mkFakeClock true s.(fk_t) /\ th'.(th_label) = op /\
  insideAt s.(fk_t) op th'.(th_code) s'.(fk_t).
Proof. destruct op; intros (x & [Hh ->] & ->); (split_and!; [done|done|done|]); constructor. Qed.

(** Inside, it goes on or leaves with its answer. *)
Lemma clock_inside_acts b op c tr s s' th' :
  insideAt b op c s.(fk_t) -> acts perform s (mkThread op c tr) s' th' -> s.(fk_held) = true ->
  th'.(th_label) = op /\
  ((s'.(fk_held) = true /\ insideAt b op th'.(th_code) s'.(fk_t)) \/
   (s'.(fk_held) = false /\ th'.(th_code) = Ret (answerOp b op) /\ s'.(fk_t) = applyOp b op)).
Proof.
  intros Hin Ha Hh. destruct s as [h t]. cbn in *. subst h.
  destruct Hin; destruct Ha as (x & Hp & ->); cbn in Hp; destruct_and?; subst; cbn; (split; [done|]);
    first [by right | left; split; [done|constructor]].
Qed.

Lemma replay_snoc t0 (order : list (nat * clockOp)) i op : replay t0 (order ++ [(i, op)]).*2 = applyOp (replay t0 order.*2) op.
Proof. unfold replay. by rewrite fmap_app, fold_left_app. Qed.

(** A call that has not returned is not in the order. *)
Lemma not_placed (order : list (nat * clockOp)) (ts : list thread) i th :
  (forall j op, (j, op) ∈ order -> exists th o, ts !! j = Some th /\ th.(th_label) = op /\ th.(th_code) = Ret o) ->
  ts !! i = Some th -> (forall o, th.(th_code) <> Ret o) -> i ∉ order.*1.
Proof.
  intros Hd Hi Hn Hin. apply list_elem_of_fmap in Hin as ([j op] & -> & Hin).
  destruct (Hd _ _ Hin) as (th' & o & Hi' & _ & Hr). cbn in *. simplify_eq. by apply (Hn o).
Qed.

Lemma clock_act t0 s ts s' ts' : clockOk t0 s ts -> act (s, ts) (s', ts') -> clockOk t0 s' ts'.
Proof.
  intros (order & holder & Hts & Hdone & Hnd & Hh) (i & th & th' & Hi & Ha & ->)%act_inv.
  pose proof (lookup_lt_Some _ _ _ Hi) as Hlt. pose proof (Hts _ _ Hi) as Hth.
  assert (Hrun : forall o, th.(th_code) <> Ret o) by (intros o Ho; unfold acts in Ha; by rewrite Ho in Ha).
  pose proof (not_placed _ _ _ _ Hdone Hi Hrun) as Hnp.
  assert (Hdone' : forall j op, (j, op) ∈ order -> exists th o, <[i := th']> ts !! j = Some th /\ th.(th_label) = op /\ th.(th_code) = Ret o).
  { intros j op Hin. destruct (decide (i = j)) as [<-|Hij]; [destruct Hnp; apply list_elem_of_fmap; by exists (i, op)|].
    rewrite list_lookup_insert_ne by done. by apply Hdone. }
  assert (Hall : forall order' holder', order `prefix_of` order' -> (forall j, j <> i -> holder <> Some j) ->
    (forall j, j <> i -> holder' <> Some j) -> threadAt t0 order' holder' s' i th' ->
    forall j th, <[i := th']> ts !! j = Some th -> threadAt t0 order' holder' s' j th).
  { intros order' holder' Ho H1 H2 Hnew j thj. rewrite list_lookup_insert. case_decide as Hij.
    - destruct Hij as [-> _]. by intros [= <-].
    - intros Hj. assert (j <> i) by (intros ->; by apply Hij). eapply threadAt_others; [done|by apply H1|by apply H2|by apply Hts]. }
  destruct th as [op c tr]. unfold threadAt in Hth. cbn in Hth. case_decide as Hhold.
  - subst holder. destruct Hh as [Hheld _]. destruct (clock_inside_acts _ _ _ _ _ _ _ Hth Ha Hheld) as [Hl [[Hh' Hin]|(Hh' & Hr & Ht)]].
    + exists order, (Some i). split_and!; [|done|done|done|by rewrite length_insert]. apply Hall; [done|congruence|congruence|].
      unfold threadAt. rewrite decide_True by done. by rewrite Hl.
    + exists (order ++ [(i, op)]), None. split_and!; [| | |done|by rewrite replay_snoc].
      * apply Hall; [by apply prefix_app_r|congruence|done|]. unfold threadAt. rewrite decide_False by done. right.
        eexists. split; [exact Hr|]. exists (length order). rewrite Hl. split; [by rewrite lookup_app_r, Nat.sub_diag by lia|].
        by rewrite take_app_length.
      * intros j op' [Hin|[= -> ->]%list_elem_of_singleton]%elem_of_app; [by apply Hdone'|].
        exists th', (answerOp (replay t0 order.*2) op). by rewrite list_lookup_insert_eq.
      * rewrite fmap_app. apply NoDup_app. split_and!; [done| |apply NoDup_singleton].
        intros j Hj ->%list_elem_of_singleton. done.
  - destruct Hth as [->|(o & -> & _)]; [|done]. destruct (clock_outside_acts _ _ _ _ _ Ha) as (Hheld & -> & Hl & Hin).
    destruct holder as [j|]; [destruct Hh; congruence|]. destruct Hh as [_ Ht].
    exists order, (Some i). split_and!; [|done|done|done|by rewrite length_insert]. apply Hall; [done|done|congruence|].
    unfold threadAt. rewrite decide_True by done. rewrite Hl, <- Ht. done.
Qed.

Lemma clock_reaches t0 s ts : reaches (NewFakeClock t0, []) (s, ts) -> clockOk t0 s ts.
Proof.
  assert (H0 : clockOk t0 (NewFakeClock t0) []).
  { exists [], None. split_and!; [by intros ? ? ?|by intros ? ? ?%elem_of_nil|constructor|done|done]. }
  intros Hr. change (clockOk t0 (s, ts).1 (s, ts).2). revert Hr.
  change (clockOk t0 (NewFakeClock t0, [] : list thread).1 (NewFakeClock t0, [] : list thread).2) in H0. revert H0.
  generalize (NewFakeClock t0, [] : list thread). intros pr0 H0 Hr.
  induction Hr as [pr|pr pr1 pr' Hs _ IH]; [done|]. apply IH. destruct Hs as [[s1 ts1] [s2 ts2] Ha|s1 ts1 op]; [by eapply clock_act|].
  destruct H0 as (order & holder & Hts & Hdone & Hnd & Hh). cbn [fst snd] in *. exists order, holder. split_and!; [| |done|].
  - intros i th [Hi|[Hge Hi]]%lookup_app_Some; [by apply Hts|]. apply list_lookup_singleton_Some in Hi as [Hi <-].
    unfold threadAt. rewrite decide_False; [by left|]. intros ->. destruct Hh. lia.
  - intros i op' Hin. destruct (Hdone _ _ Hin) as (th & o & Hi & Hl). exists th, o. split; [by apply lookup_app_l_Some|done].
  - destruct holder; [|done]. destruct Hh. split; [done|]. rewrite length_app. lia.
Qed.

(** The fake clock is linearizable.  However calls of [Now], [Set] and [Advance]
    interleave, there is an order of those that have returned in which each has
    the answer it has when they are made one after the other; and when no call is
    inside, the clock shows the time they lead to. *)
Theorem fake_clock_linearizable (t0 : time) (s : FakeClock) (ts : list thread) :
  reaches (NewFakeClock t0, []) (s, ts) ->
  exists order,
    NoDup order.*1 /\
    (forall i op, (i, op) ∈ order -> exists th o, ts !! i = Some th /\ th.(th_label) = op /\ th.(th_code) = Ret o) /\
    (forall i op o tr, ts !! i = Some (mkThread op (Ret o) tr) -> placedIn t0 order i op o) /\
    (s.(fk_held) = false -> s.(fk_t) = replay t0 order.*2).
Proof.
  intros (order & holder & Hts & Hdone & Hnd & Hh)%clock_reaches. exists order. split_and!; [done|done| |].
  - intros i op o tr Hi. pose proof (Hts _ _ Hi) as Hth. unfold threadAt in Hth. case_decide; [by inversion Hth|].
    destruct Hth as [Hm|(o' & Hr & Hp)]; [by destruct op|]. cbn in *. by injection Hr as ->.
  - intros Hf. destruct holder; destruct Hh; [congruence|done].
Qed.
