(* ===== verification/Metrics.v ===== *)
(** * The collectors of internal/metrics and of the source webhook

    Every collector the program declares, with its name in Prometheus, its type
    and its labels, and what it is registered under.  [reports] decides whether an
    operation on a collector is one that cannot panic and keeps the promised
    bounds: the collector is declared and of the right type, there is one value
    for every label, and each value is one of those documented for it. *)

From S2P Require Import Prelude GoStrings GoTime.

Inductive CollectorType := Counter | Gauge | Histogram.

#[export] Instance CollectorType_eq_dec : EqDecision CollectorType.
Proof. solve_decision. Defined.

Record Collector := mkCollector {
  col_Name : string;
  col_Type : CollectorType;
  col_Labels : list string
}.

(** Operations on the collectors: the Go variable and the label values. *)
Inductive MetricOp :=
  | MetricInc (name : string) (lbls : list string)
  | MetricSet (name : string) (lbls : list string) (value : Z)
  | MetricObserve (name : string) (lbls : list string) (value : duration).

Definition metricName (m : MetricOp) : string :=
  match m with MetricInc n _ | MetricSet n _ _ | MetricObserve n _ _ => n end.

Definition metricLabels (m : MetricOp) : list string :=
  match m with MetricInc _ ls | MetricSet _ ls _ | MetricObserve _ ls _ => ls end.

(** ** The declarations *)

Definition ProviderWebhook : string := "webhook".
Definition ProviderGitHub : string := "github".
Definition ResultSuccess : string := "success".
Definition ResultFailure : string := "failure".

(** The variables of the package, by name. *)
Definition collectors : list (string * Collector) := [
  ("Leases", mkCollector "kubelease_leases" Gauge ["phase"]);
  ("LeasesCreatedTotal", mkCollector "kubelease_leases_created_total" Counter []);
  ("LeasesExpiredTotal", mkCollector "kubelease_leases_expired_total" Counter []);
  ("RenewalsTotal", mkCollector "kubelease_renewals_total" Counter []);
  ("CleanupFailuresTotal", mkCollector "kubelease_cleanup_failures_total" Counter []);
  ("ProvisionFailuresTotal", mkCollector "kubelease_provision_failures_total" Counter []);
  ("WarningEventsTotal", mkCollector "kubelease_warning_events_total" Counter []);
  ("SourceEventsTotal", mkCollector "kubelease_source_events_total" Counter ["provider"; "action"; "result"]);
  ("SourceErrorsTotal", mkCollector "kubelease_source_errors_total" Counter ["provider"; "action"]);
  ("IdleExpirationsTotal", mkCollector "kubelease_idle_expirations_total" Counter []);
  ("ManualExpirationsTotal", mkCollector "kubelease_manual_expirations_total" Counter []);
  ("PolicyRejectionsTotal", mkCollector "kubelease_policy_rejections_total" Counter []);
  ("ClusterTargets", mkCollector "kubelease_cluster_targets" Gauge ["ready"]);
  ("RemoteOperationsTotal", mkCollector "kubelease_remote_operations_total" Counter ["operation"; "result"]);
  ("ClusterConnectionFailuresTotal", mkCollector "kubelease_cluster_connection_failures_total" Counter []);
  ("ClusterHealth", mkCollector "kubelease_cluster_health" Gauge ["cluster"]);
  ("ClusterOperationsTotal", mkCollector "kubelease_cluster_operations_total" Counter
     ["cluster"; "operation"; "result"]);
  ("ClusterOperationDuration", mkCollector "kubelease_cluster_operation_duration_seconds" Histogram
     ["cluster"; "operation"]);
  ("ClusterAuthFailuresTotal", mkCollector "kubelease_cluster_auth_failures_total" Counter []);
  ("PlacementAttemptsTotal", mkCollector "kubelease_placement_attempts_total" Counter []);
  ("PlacementFailuresTotal", mkCollector "kubelease_placement_failures_total" Counter []) ].

(** What [init] registers, in its order. *)
Definition registered : list string := [
  "Leases"; "LeasesCreatedTotal"; "LeasesExpiredTotal"; "RenewalsTotal"; "CleanupFailuresTotal";
  "ProvisionFailuresTotal"; "WarningEventsTotal"; "SourceEventsTotal"; "SourceErrorsTotal";
  "IdleExpirationsTotal"; "ManualExpirationsTotal"; "PolicyRejectionsTotal"; "ClusterTargets";
  "RemoteOperationsTotal"; "ClusterConnectionFailuresTotal"; "ClusterHealth"; "ClusterOperationsTotal";
  "ClusterOperationDuration"; "ClusterAuthFailuresTotal"; "PlacementAttemptsTotal";
  "PlacementFailuresTotal" ].

(** The collectors of the webhook's handlers, and what its own [init] registers. *)
Definition webhookCollectors : list (string * Collector) := [
  ("webhookRequestsTotal", mkCollector "kubelease_webhook_requests_total" Counter ["action"; "result"]);
  ("webhookRequestDuration", mkCollector "kubelease_webhook_request_duration_seconds" Histogram ["action"]) ].

Definition webhookRegistered : list string := ["webhookRequestsTotal"; "webhookRequestDuration"].

Definition allCollectors : list (string * Collector) := collectors ++ webhookCollectors.

(** ** What the comments promise of the labels *)

(** The values documented for a label of a collector; [None]: any.  The phases
    are those of [LeasePhase]; the operations those of the comment on
    RemoteOperationsTotal. *)
Definition labelValues (name label : string) : option (list string) :=
  if String.eqb name "webhookRequestsTotal" || String.eqb name "webhookRequestDuration" then
    if String.eqb label "result"
    then Some ["ok"; "error"; "invalid"; "unauthorized"; "duplicate"; "policy_violation"] else None
  else if String.eqb label "phase" then
    Some ["Pending"; "Provisioning"; "Active"; "Expiring"; "Cleaning"; "Expired"; "Failed"]
  else if String.eqb label "provider" then Some [ProviderGitHub; ProviderWebhook]
  else if String.eqb label "action" then Some ["create"; "expire"; "touch"]
  else if String.eqb label "result" then Some [ResultSuccess; ResultFailure]
  else if String.eqb label "ready" then Some ["true"; "false"]
  else if String.eqb label "operation" then Some ["create"; "update"; "delete"; "get"]
  else None.

Definition oneOf (value : string) (values : list string) : bool := existsb (String.eqb value) values.

Definition allowed (name label value : string) : bool :=
  match labelValues name label with Some values => oneOf value values | None => true end.

(** One allowed value for every label. *)
Fixpoint labelled (name : string) (labels values : list string) : bool :=
  match labels, values with
  | [], [] => true
  | l :: labels, v :: values => allowed name l v && labelled name labels values
  | _, _ => false
  end.

Fixpoint collectorOf (name : string) (cs : list (string * Collector)) : option Collector :=
  match cs with
  | [] => None
  | (n, col) :: cs => if String.eqb n name then Some col else collectorOf name cs
  end.

Definition metricType (m : MetricOp) : CollectorType :=
  match m with MetricInc _ _ => Counter | MetricSet _ _ _ => Gauge | MetricObserve _ _ _ => Histogram end.

Definition reports (m : MetricOp) : bool :=
  match collectorOf (metricName m) allCollectors with
  | Some col =>
      bool_decide (col.(col_Type) = metricType m) && labelled (metricName m) col.(col_Labels) (metricLabels m)
  | None => false
  end.

(** ** Registration *)

(** Every collector is registered exactly once, under a name of its own: the
    registry refuses none of them. *)
Lemma registration_complete :
  registered = collectors.*1 /\ webhookRegistered = webhookCollectors.*1 /\
  NoDup allCollectors.*1 /\ NoDup (col_Name <$> allCollectors.*2).
Proof. split; [done|]. split; [done|]. split; apply (bool_decide_eq_true_1 _); vm_compute; reflexivity. Qed.

(** What a report that holds the promises looks like. *)
Lemma reports_inv m :
  reports m = true ->
  exists col, collectorOf (metricName m) allCollectors = Some col /\ col.(col_Type) = metricType m /\
    Forall2 (fun l v => allowed (metricName m) l v = true) col.(col_Labels) (metricLabels m).
Proof.
  unfold reports. destruct (collectorOf _ _) as [col|]; [|done]. intros [Ht Hl]%andb_true_iff.
  exists col. split; [done|]. split; [by apply bool_decide_eq_true_1 in Ht|].
  revert Hl. generalize (metricLabels m). induction (col_Labels col) as [|l ls IH]; intros [|v vs]; cbn [labelled];
    try done. intros [? ?]%andb_true_iff. constructor; [done|by apply IH].
Qed.

(** The operations on remote clusters that are counted. *)
Definition counted (op : string) : bool := oneOf op ["create"; "update"; "delete"; "get"].

Definition outcomeLabel (result : string) : bool := oneOf result [ResultSuccess; ResultFailure].

Lemma remote_reports op result :
  counted op = true -> outcomeLabel result = true -> reports (MetricInc "RemoteOperationsTotal" [op; result]) = true.
Proof. unfold counted, outcomeLabel. intros Ho Hr. unfold reports. cbn -[oneOf]. by rewrite Ho, Hr. Qed.

Lemma clusterOp_reports cluster op result :
  counted op = true -> outcomeLabel result = true ->
  reports (MetricInc "ClusterOperationsTotal" [cluster; op; result]) = true.
Proof. unfold counted, outcomeLabel. intros Ho Hr. unfold reports. cbn -[oneOf]. by rewrite Ho, Hr. Qed.

Lemma clusterTime_reports cluster op s :
  counted op = true -> reports (MetricObserve "ClusterOperationDuration" [cluster; op] s) = true.
Proof. unfold counted. intros Ho. unfold reports. cbn -[oneOf]. by rewrite Ho. Qed.
