(* ===== verification/Kube.v ===== *)
(** * What the reconcilers call

    The effects of the controllers, the CLI and the packages under them: the
    Kubernetes API through controller-runtime's [client.Client], the clock, the
    provider of remote clients, the shared outage tracker and gate, events and
    metrics.  The API server's answers are arbitrary in every theorem. *)

From S2P Require Import Prelude GoStrings GoTime GoErrors Api Programs.
From S2P Require Export Metrics.

(** ** Objects by kind *)

Inductive Kind :=
  | KLease | KPolicy | KTarget | KNamespace | KQuota | KLimitRange | KNetworkPolicy | KSecret.

#[export] Instance Kind_eq_dec : EqDecision Kind.
Proof. solve_decision. Defined.

(** A [client.Client]: the hub's, or one the provider built for a remote
    cluster, told apart by a handle. *)
Inductive Client := HubClient | RemoteClient (handle : Z).

#[export] Instance Client_eq_dec : EqDecision Client.
Proof. solve_decision. Defined.

(** [types.NamespacedName]. *)
Record ObjectKey := mkObjectKey { key_Namespace : string; key_Name : string }.

#[export] Instance ObjectKey_eq_dec : EqDecision ObjectKey.
Proof. solve_decision. Defined.

(** The key of a cluster-scoped object. *)
Definition named (name : string) : ObjectKey := mkObjectKey "" name.

(** [rest.Config], as far as the program sets it; the rest of it is what the
    kubeconfig says.  [QPS] is a [float32] that only ever holds small integers. *)
Record RESTConfig := mkRESTConfig {
  rc_Kubeconfig : string;
  rc_Timeout : duration;
  rc_QPS : Z;
  rc_Burst : Z
}.
#[export] Instance eta_RESTConfig : Eta RESTConfig :=
  fun r => mkRESTConfig r.(rc_Kubeconfig) r.(rc_Timeout) r.(rc_QPS) r.(rc_Burst).

Inductive EventType := EventTypeNormal | EventTypeWarning.

Section Kube.
Context `{QuantityAPI}.

Definition Obj (k : Kind) : Type :=
  match k with
  | KLease => EnvironmentLease
  | KPolicy => EnvironmentLeasePolicy
  | KTarget => ClusterTarget
  | KNamespace => Namespace
  | KQuota => ResourceQuota
  | KLimitRange => LimitRange
  | KNetworkPolicy => NetworkPolicy
  | KSecret => Secret
  end.

Definition meta_of (k : Kind) : Obj k -> ObjectMeta :=
  match k with
  | KLease => lease_Meta
  | KPolicy => policy_Meta
  | KTarget => ct_Meta
  | KNamespace => ns_Meta
  | KQuota => rq_Meta
  | KLimitRange => lr_Meta
  | KNetworkPolicy => npo_Meta
  | KSecret => sec_Meta
  end.

(** [client.ObjectKeyFromObject]. *)
Definition ObjectKeyFromMeta (m : ObjectMeta) : ObjectKey := mkObjectKey m.(m_Namespace) m.(m_Name).

Inductive kube : Type -> Type :=
  (** [r.now()] through the injected clock; [time.Now()]; [time.Sleep]. *)
  | Now : kube time
  | WallClock : kube time
  | Sleep (d : duration) : kube unit
  (** [client.Client].  A successful write answers with the object the server
      stored, which the client decodes into the argument; an error leaves the
      argument alone.  A field selector is an index name and a value. *)
  | ClientGet (c : Client) (k : Kind) (key : ObjectKey) : kube (result (Obj k))
  | ClientList (c : Client) (k : Kind) (fields : option (string * string)) : kube (result (list (Obj k)))
  | ClientCreate (c : Client) (k : Kind) (o : Obj k) : kube (result (Obj k))
  | ClientUpdate (c : Client) (k : Kind) (o : Obj k) : kube (result (Obj k))
  | ClientStatusUpdate (c : Client) (k : Kind) (o : Obj k) : kube (result (Obj k))
  | ClientPatch (c : Client) (k : Kind) (patched base : Obj k) : kube (result (Obj k))
  | ClientStatusPatch (c : Client) (k : Kind) (patched base : Obj k) : kube (result (Obj k))
  | ClientDelete (c : Client) (k : Kind) (o : Obj k) : kube (option error)
  (** [remote.Provider], and discovery against a remote API server. *)
  | ProviderClientFor (target : ClusterTarget) : kube (result Client)
  | ProviderRESTConfigFor (target : ClusterTarget) : kube (result RESTConfig)
  | ProviderInvalidate (name : string) : kube unit
  | ServerVersion (cfg : RESTConfig) : kube (result string)
  (** [remote.OutageTracker] and [remote.TargetGate], shared between workers. *)
  | OutageMarkUnavailable (name : string) (now : time) : kube duration
  | OutageRequeueAfter (name : string) (now : time) : kube duration
  | OutageClear (name : string) : kube unit
  | GateAcquire (name : string) : kube unit
  | GateRelease (name : string) : kube unit
  (** Events and metrics. *)
  | RecorderEvent (obj : EnvironmentLease) (t : EventType) (reason message : string) : kube unit
  | Metric (m : MetricOp) : kube unit.

(** [obj, err := c.Get(key)] etc. as programs. *)
Definition cl_Get c k key := call (ClientGet c k key).
Definition cl_List c k fields := call (ClientList c k fields).
Definition cl_Create c k o := call (ClientCreate c k o).
Definition cl_Update c k o := call (ClientUpdate c k o).
Definition cl_StatusUpdate c k o := call (ClientStatusUpdate c k o).
Definition cl_Patch c k patched base := call (ClientPatch c k patched base).
Definition cl_StatusPatch c k patched base := call (ClientStatusPatch c k patched base).
Definition cl_Delete c k o := call (ClientDelete c k o).
Definition inc (name : string) : prog kube unit := call (Metric (MetricInc name [])).

(** The error of a call whose answer is not needed. *)
Definition err_of {A} (r : result A) : option error :=
  match r with Ok _ => None | Err e => Some e end.

(** ** internal/metrics *)

Definition ObserveRemote (operation result : string) : prog kube unit :=
  call (Metric (MetricInc "RemoteOperationsTotal" [operation; result])).

Definition ObserveClusterOp (cluster operation result : string) (seconds : duration) : prog kube unit :=
  let cluster := if is_empty cluster then "local" else cluster in
  (call (Metric (MetricInc "ClusterOperationsTotal" [cluster; operation; result])) ;;
   when (0 <=? seconds)
     (call (Metric (MetricObserve "ClusterOperationDuration" [cluster; operation] seconds))) ;;
   ObserveRemote operation result)%prog.

(** ** What calls do *)

(** What a guarantee usually looks at: writes to a namespace, to a lease, ... *)

(** The answer of a [Get] of an object of kind [k]. *)
Definition getAnswer (k : Kind) (ev : event kube) : option (Client * ObjectKey * result (Obj k)) :=
  match ev.(ev_eff) in kube X return X -> option (Client * ObjectKey * result (Obj k)) with
  | ClientGet c k' key => fun r =>
      match Kind_eq_dec k' k with
      | left Heq => Some (c, key, eq_rect k' (fun k => result (Obj k)) r k Heq)
      | right _ => None
      end
  | _ => fun _ => None
  end ev.(ev_resp).

(** Some [Get] of this history got this answer. *)
Definition answered (k : Kind) (h : trace kube) (c : Client) (key : ObjectKey) (a : result (Obj k)) : Prop :=
  Some (c, key, a) ∈ (getAnswer k <$> h).

Lemma answered_mono k (h h' : trace kube) c key a : h `suffix_of` h' -> answered k h c key a -> answered k h' c key a.
Proof. intros [t ->]. unfold answered. rewrite fmap_app, elem_of_app. tauto. Qed.

(** The answer just received. *)
Lemma answered_here k (h : trace kube) c key a : answered k (Ev (ClientGet c k key) a :: h) c key a.
Proof. unfold answered. destruct k; cbn; left. Qed.

(** A successful [Get] of a namespace in a trace: its client, name and object. *)
Definition gotNamespace (ev : event kube) : option (Client * string * Namespace) :=
  match ev.(ev_eff) in kube X return X -> option (Client * string * Namespace) with
  | ClientGet c k key =>
      match k return result (Obj k) -> option (Client * string * Namespace) with
      | KNamespace => fun r => match r with Ok ns => Some (c, key.(key_Name), ns) | Err _ => None end
      | _ => fun _ => None
      end
  | _ => fun _ => None
  end ev.(ev_resp).

(** A [Get] of a namespace that was answered with "not found". *)
Definition missedNamespace (ev : event kube) : option (Client * string) :=
  match ev.(ev_eff) in kube X return X -> option (Client * string) with
  | ClientGet c k key =>
      match k return result (Obj k) -> option (Client * string) with
      | KNamespace => fun r =>
          match r with
          | Err e => if IsNotFound e then Some (c, key.(key_Name)) else None
          | Ok _ => None
          end
      | _ => fun _ => None
      end
  | _ => fun _ => None
  end ev.(ev_resp).

(** Calls that create or change something in a cluster, as opposed to reading,
    deleting, or touching only this program's own state. *)
Definition provisions {X} (e : kube X) : bool :=
  match e with
  | ClientCreate _ k _ | ClientUpdate _ k _ | ClientPatch _ k _ _ =>
      match k with
      | KNamespace | KQuota | KLimitRange | KNetworkPolicy => true
      | _ => false
      end
  | _ => false
  end.

(** Calls that delete an object. *)
Definition deletes {X} (e : kube X) : bool :=
  match e with ClientDelete _ _ _ => true | _ => false end.

(** Calls that write to an API server. *)
Definition writes {X} (e : kube X) : bool :=
  match e with
  | ClientCreate _ _ _ | ClientUpdate _ _ _ | ClientStatusUpdate _ _ _
  | ClientPatch _ _ _ _ | ClientStatusPatch _ _ _ _ | ClientDelete _ _ _ => true
  | _ => false
  end.

(** A call that the API server answered was carried out: a successful write. *)
Definition acked (ev : event kube) : bool :=
  match ev.(ev_eff) in kube X return X -> bool with
  | ClientCreate _ _ _ | ClientUpdate _ _ _ | ClientStatusUpdate _ _ _
  | ClientPatch _ _ _ _ | ClientStatusPatch _ _ _ _ => fun r => is_ok r
  | ClientDelete _ _ _ => fun r => bool_decide (r = None)
  | _ => fun _ => false
  end ev.(ev_resp).

Lemma suffix_In (h h' : trace kube) (ev : event kube) : h `suffix_of` h' -> ev ∈ h -> ev ∈ h'.
Proof. intros [t ->]. rewrite elem_of_app. by right. Qed.

(** A guarantee that only speaks about writes. *)
Definition aboutWrites (G : guarantee kube) : Prop := forall X h (e : kube X), writes e = false -> G X h e.

Lemma writeless_safe {A} (G : guarantee kube) (p : prog kube A) h Q :
  aboutWrites G -> safe (fun X _ (e : kube X) => writes e = false) p h Q -> safe G p h Q.
Proof. intros HG Hp. eapply safe_mono; [| |exact Hp]; [|done]. intros X h' e. apply HG. Qed.

(** A narrower guarantee inside a wider one, with what held at the start. *)
Lemma guard_within {A} (G G' : guarantee kube) (p : prog kube A) h Q :
  (forall X h' (e : kube X), h `suffix_of` h' -> G X h' e -> G' X h' e) ->
  safe G p h Q -> safe G' p h Q.
Proof.
  intros HG Hp. apply safe_within in Hp. eapply safe_mono; [| |exact Hp]; [|done].
  intros X h' e [? ?]. by apply HG.
Qed.


End Kube.
