(* ===== verification/World.v ===== *)
(** * A reference world

    A concrete handler of the effects, on which programs are executed: API
    servers as maps of objects, a clock that moves only when a program sleeps, a
    provider that knows every target.  A listing by a field index is answered when
    the index is registered ([w_indexes]) and refused otherwise.  It is one of the
    behaviours the theorems quantify over, and the one the witnesses run; only
    [Convergence], [Provisioning] and [TargetLife] are about it. *)

From S2P Require Import Prelude GoStrings GoTime GoErrors Api Concrete Programs Kube.

Section World.
Context `{QuantityAPI}.

(** Objects are kept by the client that sees them and their key. *)
Notation store k := (gmap (Z * string * string) (Obj k)) (only parsing).

Record World := mkWorld {
  w_now : time;
  w_leases : gmap (Z * string * string) EnvironmentLease;
  w_policies : gmap (Z * string * string) EnvironmentLeasePolicy;
  w_targets : gmap (Z * string * string) ClusterTarget;
  w_namespaces : gmap (Z * string * string) Namespace;
  w_quotas : gmap (Z * string * string) ResourceQuota;
  w_limitRanges : gmap (Z * string * string) LimitRange;
  w_networkPolicies : gmap (Z * string * string) NetworkPolicy;
  w_secrets : gmap (Z * string * string) Secret;
  w_indexes : list (string * (EnvironmentLease -> list string))
}.
#[export] Instance eta_World : Eta World :=
  fun r => mkWorld r.(w_now) r.(w_leases) r.(w_policies) r.(w_targets) r.(w_namespaces)
    r.(w_quotas) r.(w_limitRanges) r.(w_networkPolicies) r.(w_secrets) r.(w_indexes).

Definition emptyWorld (now : time) : World := mkWorld now ∅ ∅ ∅ ∅ ∅ ∅ ∅ ∅ [].

Definition objects (k : Kind) : World -> store k :=
  match k with
  | KLease => w_leases
  | KPolicy => w_policies
  | KTarget => w_targets
  | KNamespace => w_namespaces
  | KQuota => w_quotas
  | KLimitRange => w_limitRanges
  | KNetworkPolicy => w_networkPolicies
  | KSecret => w_secrets
  end.

Definition set_objects (k : Kind) : store k -> World -> World :=
  match k with
  | KLease => fun m w => w <| w_leases := m |>
  | KPolicy => fun m w => w <| w_policies := m |>
  | KTarget => fun m w => w <| w_targets := m |>
  | KNamespace => fun m w => w <| w_namespaces := m |>
  | KQuota => fun m w => w <| w_quotas := m |>
  | KLimitRange => fun m w => w <| w_limitRanges := m |>
  | KNetworkPolicy => fun m w => w <| w_networkPolicies := m |>
  | KSecret => fun m w => w <| w_secrets := m |>
  end.

Definition with_meta (k : Kind) : (ObjectMeta -> ObjectMeta) -> Obj k -> Obj k :=
  match k with
  | KLease => modify (proj:=lease_Meta)
  | KPolicy => modify (proj:=policy_Meta)
  | KTarget => modify (proj:=ct_Meta)
  | KNamespace => modify (proj:=ns_Meta)
  | KQuota => modify (proj:=rq_Meta)
  | KLimitRange => modify (proj:=lr_Meta)
  | KNetworkPolicy => modify (proj:=npo_Meta)
  | KSecret => modify (proj:=sec_Meta)
  end.

Definition clientCode (c : Client) : Z := match c with HubClient => -1 | RemoteClient h => h end.
Definition slot (c : Client) (key : ObjectKey) : Z * string * string :=
  (clientCode c, key.(key_Namespace), key.(key_Name)).

Definition notFound : error := StatusError ReasonNotFound "not found".

(** A status update keeps the stored specification and metadata. *)
Definition merge_status (k : Kind) : Obj k -> Obj k -> Obj k :=
  match k with
  | KLease => fun stored new => stored <| lease_Status := new.(lease_Status) |>
  | KTarget => fun stored new => stored <| ct_Status := new.(ct_Status) |>
  | _ => fun stored _ => stored
  end.

(** An ordinary update keeps the stored status. *)
Definition keep_status (k : Kind) : Obj k -> Obj k -> Obj k :=
  match k with
  | KLease => fun stored new => new <| lease_Status := stored.(lease_Status) |>
  | KTarget => fun stored new => new <| ct_Status := stored.(ct_Status) |>
  | _ => fun _ new => new
  end.

(** An object that is being deleted goes away with its last finalizer. *)
Definition store_object (c : Client) (k : Kind) (o : Obj k) (w : World) : World :=
  let key := slot c (ObjectKeyFromMeta (meta_of k o)) in
  match (meta_of k o).(m_DeletionTimestamp), (meta_of k o).(m_Finalizers) with
  | Some _, [] => set_objects k (delete key (objects k w)) w
  | _, _ => set_objects k (<[key := o]> (objects k w)) w
  end.

Definition update_object (f : forall k, Obj k -> Obj k -> Obj k) c k (o : Obj k) (w : World)
    : result (Obj k) * World :=
  match objects k w !! slot c (ObjectKeyFromMeta (meta_of k o)) with
  | None => (Err notFound, w)
  | Some stored => let o := f k stored o in (Ok o, store_object c k o w)
  end.

(** The objects a client sees. *)
Definition visible (c : Client) (k : Kind) (w : World) : list (Obj k) :=
  snd <$> filter (fun kv => kv.1.1.1 = clientCode c) (map_to_list (objects k w)).

(** A query by field is answered by an index of the hub's cache, if there is one
    of that name: the leases whose indexed values hold the one asked for.  Without
    the index it is an error, on which the callers fall back to listing
    everything. *)
Definition by_index (c : Client) (k : Kind) (name v : string) (w : World) : result (list (Obj k)) :=
  match k return result (list (Obj k)) with
  | KLease =>
      match c, find (fun idx => String.eqb idx.1 name) w.(w_indexes) with
      | HubClient, Some (_, f) => Ok (filter (fun l => v ∈ f l) (visible HubClient KLease w))
      | _, _ => Err (ErrorString "no index")
      end
  | _ => Err (ErrorString "no index")
  end.

Definition world_handler : forall X, kube X -> World -> X * World :=
  fun X e w =>
  match e in kube X return X * World with
  | Now => (w.(w_now), w)
  | WallClock => (w.(w_now), w)
  | Sleep d => (tt, w <| w_now := w.(w_now) + d |>)
  | ClientGet c k key =>
      (match objects k w !! slot c key with Some o => Ok o | None => Err notFound end, w)
  | ClientList c k None => (Ok (visible c k w), w)
  | ClientList c k (Some (name, v)) => (by_index c k name v w, w)
  | ClientCreate c k o =>
      let o := if is_empty (meta_of k o).(m_Name)
               then with_meta k (fun m => m <| m_Name := m.(m_GenerateName) +:+ "x7k2p" |>) o else o in
      match objects k w !! slot c (ObjectKeyFromMeta (meta_of k o)) with
      | Some _ => (Err (StatusError ReasonAlreadyExists "already exists"), w)
      | None => (Ok o, store_object c k o w)
      end
  | ClientUpdate c k o => update_object keep_status c k o w
  | ClientStatusUpdate c k o => update_object merge_status c k o w
  | ClientPatch c k o _ => update_object keep_status c k o w
  | ClientStatusPatch c k o _ => update_object merge_status c k o w
  | ClientDelete c k o =>
      let key := slot c (ObjectKeyFromMeta (meta_of k o)) in
      match objects k w !! key with
      | None => (Some notFound, w)
      | Some stored =>
          (None, store_object c k
             (with_meta k (fun m => m <| m_DeletionTimestamp := Some w.(w_now) |>) stored) w)
      end
  | ProviderClientFor t => (Ok (RemoteClient (Z.of_nat (String.length (t.(ct_Meta).(m_Name))))), w)
  | ProviderRESTConfigFor t => (Ok (mkRESTConfig (t.(ct_Meta).(m_Name)) (30 * Second) 20 40), w)
  | ProviderInvalidate _ => (tt, w)
  | ServerVersion _ => (Ok "v1.30.0", w)
  | OutageMarkUnavailable _ _ => (15 * Second, w)
  | OutageRequeueAfter _ _ => (0, w)
  | OutageClear _ => (tt, w)
  | GateAcquire _ => (tt, w)
  | GateRelease _ => (tt, w)
  | RecorderEvent _ _ _ _ => (tt, w)
  | Metric _ => (tt, w)
  end.

(** A finished run in the reference world. *)
Definition in_world {A} (p : prog kube A) (w : World) : A * World * trace kube :=
  exec world_handler p w [].

Lemma in_world_runs {A} (p : prog kube A) (w : World) :
  runs p [] (in_world p w).2 (in_world p w).1.1.
Proof.
  apply (exec_runs world_handler p w [] _ (in_world p w).1.2). unfold in_world.
  destruct (exec world_handler p w []) as [[a s] tr]. reflexivity.
Qed.

Lemma in_world_runs_pair {A B} (p : prog kube (A * B)) (w : World) :
  runs p [] (in_world p w).2 ((in_world p w).1.1.1, (in_world p w).1.1.2).
Proof. rewrite <- surjective_pairing. apply in_world_runs. Qed.

Definition put (c : Client) (k : Kind) (o : Obj k) (w : World) : World := store_object c k o w.

End World.
