(* ===== verification/Identity.v ===== *)
(** * Cluster and namespace identity (internal/identity/identity.go)

    The checks that stand between a lease and the deletion of a namespace. *)

From S2P Require Import Prelude GoStrings GoTime GoErrors Api Concrete Programs Kube World.

Section Identity.
Context `{QuantityAPI}.

Definition ProbeRemoteIdentity (c : Client) : prog kube (result string) :=
  (r <- cl_Get c KNamespace (named "kube-system") ;;
   match r with
   | Err err => Ret (Err (ErrorWrap "probe remote identity (kube-system)" err))
   | Ok ns =>
       if is_empty ns.(ns_Meta).(m_UID) then Ret (Err (ErrorString "kube-system UID is empty"))
       else Ret (Ok ns.(ns_Meta).(m_UID))
   end)%prog.

(** The Go function also refuses a nil namespace, which its callers never pass. *)
Definition VerifyNamespaceOwnership (ns : Namespace) (leaseObj : EnvironmentLease)
    (controlClusterID : string) : option error :=
  let lbls := ns.(ns_Meta).(m_Labels) in
  let anns := ns.(ns_Meta).(m_Annotations) in
  if negb (String.eqb (get lbls LabelManagedBy) ManagedByValue) then
    Some (OwnershipMismatchError "namespace missing kubelease managed-by label")
  else if negb (String.eqb (get lbls LabelLease) (lease_Name leaseObj)) then
    Some (OwnershipMismatchError ("namespace lease label " +:+ quote (get lbls LabelLease)
                                  +:+ " != " +:+ quote (lease_Name leaseObj)))
  else if negb (String.eqb (get anns AnnotationLeaseUID) (lease_UID leaseObj)) then
    Some (OwnershipMismatchError ("namespace lease-uid annotation mismatch (got "
                                  +:+ quote (get anns AnnotationLeaseUID) +:+ ")"))
  else
    ((if negb (is_empty controlClusterID) then
        let got := get anns AnnotationControlClusterID in
        if negb (is_empty got) && negb (String.eqb got controlClusterID) then
          Some (OwnershipMismatchError ("control-cluster-id mismatch: ns=" +:+ quote got
                                        +:+ " expected=" +:+ quote controlClusterID))
        else None
      else None) ??
     match leaseObj.(lease_Status).(st_Cluster) with
     | Some cluster =>
         if negb (is_empty cluster.(cs_RemoteIdentity)) then
           let got := get anns AnnotationTargetIdentity in
           if negb (is_empty got) && negb (String.eqb got cluster.(cs_RemoteIdentity)) then
             Some (OwnershipMismatchError ("target-identity annotation mismatch: ns=" +:+ quote got
                                           +:+ " expected=" +:+ quote cluster.(cs_RemoteIdentity)))
           else None
         else None
     | None => None
     end)%result.

Definition VerifyLiveTargetIdentity (expected live : string) : option error :=
  if is_empty expected || is_empty live then None
  else if negb (String.eqb expected live) then
    Some (OwnershipMismatchError (ReasonTargetIdentityMismatch +:+ ": expected remote identity "
          +:+ quote expected +:+ ", live target is " +:+ quote live))
  else None.

Definition ForceCleanupAcknowledged (leaseObj : EnvironmentLease) : bool :=
  String.eqb (get leaseObj.(lease_Meta).(m_Annotations) AnnotationForceCleanupAcknowledged) "true".

(** ** What ownership means *)

(** A namespace carries another identity than the expected one: both are known
    and they differ. *)
Definition contradicts (recorded expected : string) : Prop :=
  recorded <> "" /\ expected <> "" /\ recorded <> expected.

(** The cluster identity a lease expects its namespace to carry. *)
Definition expectedTarget (l : EnvironmentLease) : string :=
  match l.(lease_Status).(st_Cluster) with Some c => c.(cs_RemoteIdentity) | None => "" end.

(** The namespace is this lease's: it is managed by KubeLease, labelled with the
    lease's name, stamped with the lease's UID, and its identity stamps do not
    contradict the control cluster's and the target's. *)
Record owns (controlClusterID : string) (l : EnvironmentLease) (ns : Namespace) : Prop := {
  owns_managed : get ns.(ns_Meta).(m_Labels) LabelManagedBy = ManagedByValue;
  owns_lease : get ns.(ns_Meta).(m_Labels) LabelLease = lease_Name l;
  owns_uid : get ns.(ns_Meta).(m_Annotations) AnnotationLeaseUID = lease_UID l;
  owns_control : ~ contradicts (get ns.(ns_Meta).(m_Annotations) AnnotationControlClusterID) controlClusterID;
  owns_target : ~ contradicts (get ns.(ns_Meta).(m_Annotations) AnnotationTargetIdentity) (expectedTarget l)
}.

Lemma contradicts_b recorded expected :
  (if negb (is_empty expected)
   then negb (is_empty recorded) && negb (String.eqb recorded expected) else false) = true <->
  contradicts recorded expected.
Proof.
  unfold contradicts. destruct (is_empty expected) eqn:E; simpl.
  - apply is_empty_true in E. naive_solver.
  - apply is_empty_false in E. rewrite andb_true_iff, !negb_true_iff, is_empty_false, String.eqb_neq.
    tauto.
Qed.

Lemma VerifyNamespaceOwnership_iff (ns : Namespace) (l : EnvironmentLease) (ctl : string) :
  VerifyNamespaceOwnership ns l ctl = None <-> owns ctl l ns.
Proof.
  unfold VerifyNamespaceOwnership.
  destruct (String.eqb_spec (get ns.(ns_Meta).(m_Labels) LabelManagedBy) ManagedByValue) as [H1|H1];
    [|split; [done|]; intros []; done]; simpl.
  destruct (String.eqb_spec (get ns.(ns_Meta).(m_Labels) LabelLease) (lease_Name l)) as [H2|H2];
    [|split; [done|]; intros []; done]; simpl.
  destruct (String.eqb_spec (get ns.(ns_Meta).(m_Annotations) AnnotationLeaseUID) (lease_UID l)) as [H3|H3];
    [|split; [done|]; intros []; done]; simpl.
  pose proof (contradicts_b (get ns.(ns_Meta).(m_Annotations) AnnotationControlClusterID) ctl) as Hc.
  pose proof (contradicts_b (get ns.(ns_Meta).(m_Annotations) AnnotationTargetIdentity) (expectedTarget l)) as Ht.
  transitivity (~ contradicts (get ns.(ns_Meta).(m_Annotations) AnnotationControlClusterID) ctl /\
                ~ contradicts (get ns.(ns_Meta).(m_Annotations) AnnotationTargetIdentity) (expectedTarget l));
    [|split; [intros []; by constructor | by intros []]].
  rewrite <- Hc, <- Ht, !not_true_iff_false. unfold expectedTarget.
  destruct (st_Cluster _) as [c|]; cbn; repeat case_match; naive_solver.
Qed.

Lemma VerifyNamespaceOwnership_mismatch (ns : Namespace) (l : EnvironmentLease) (ctl : string) err :
  VerifyNamespaceOwnership ns l ctl = Some err -> IsOwnershipMismatch err = true.
Proof.
  unfold VerifyNamespaceOwnership. repeat case_match; intros; simplify_eq; done.
Qed.

(** The ownership check accepts a namespace exactly when it is the
    lease's own, and every refusal is an [OwnershipMismatchError], the error on
    which the reconcilers stop deleting. *)
Theorem VerifyNamespaceOwnership_correct (ns : Namespace) (l : EnvironmentLease) (ctl : string) :
  (VerifyNamespaceOwnership ns l ctl = None <-> owns ctl l ns) /\
  (forall err, VerifyNamespaceOwnership ns l ctl = Some err -> IsOwnershipMismatch err = true).
Proof. split; [apply VerifyNamespaceOwnership_iff | apply VerifyNamespaceOwnership_mismatch]. Qed.

(** The identity check against the live cluster, and what a probe establishes. *)
Lemma VerifyLiveTargetIdentity_iff (expected live : string) :
  VerifyLiveTargetIdentity expected live <> None <-> contradicts expected live.
Proof.
  unfold VerifyLiveTargetIdentity, contradicts.
  destruct (is_empty expected) eqn:E1; [apply is_empty_true in E1; simpl; naive_solver|].
  destruct (is_empty live) eqn:E2; [apply is_empty_true in E2; simpl; naive_solver|].
  apply is_empty_false in E1, E2. simpl.
  destruct (String.eqb_spec expected live); simpl; naive_solver.
Qed.

Lemma safe_Probe (G : guarantee kube) (c : Client) h (Q : trace kube -> result string -> Prop) :
  G _ h (ClientGet c KNamespace (named "kube-system")) ->
  (forall ns, ns.(ns_Meta).(m_UID) <> "" ->
     Q (Ev (ClientGet c KNamespace (named "kube-system")) (Ok ns) :: h) (Ok ns.(ns_Meta).(m_UID))) ->
  (forall r err, Q (Ev (ClientGet c KNamespace (named "kube-system")) r :: h) (Err err)) ->
  safe G (ProbeRemoteIdentity c) h Q.
Proof.
  intros HG Hok Herr. cbn. split; [done|]. intros [ns|err]; cbn; [|auto].
  destruct (is_empty _) eqn:E; cbn; [auto|]. apply Hok. by apply is_empty_false.
Qed.

(** The identity of a live target.  A probe makes one call, and an
    identity it returns is the non-empty UID the target itself answered for its
    kube-system namespace; comparing it with the identity recorded at
    provisioning fails exactly when both are known and differ. *)
Theorem target_identity_correct (c : Client) (tr : trace kube) (r : result string) (expected : string) :
  runs (ProbeRemoteIdentity c) [] tr r ->
  length tr = 1%nat /\
  forall id, r = Ok id ->
    (exists ns, gotNamespace <$> tr = [Some (c, "kube-system", ns)] /\ ns.(ns_Meta).(m_UID) = id) /\
    id <> "" /\
    (VerifyLiveTargetIdentity expected id <> None <-> expected <> "" /\ expected <> id).
Proof.
  intros Hr. by_safe (fun X (_ : trace kube) (_ : kube X) => True) Hr. apply safe_Probe; [done|..].
  - intros ns Hid. split; [done|]. intros id [= <-]. split; [by exists ns|]. split; [done|].
    rewrite VerifyLiveTargetIdentity_iff. unfold contradicts. tauto.
  - intros r' err. split; [done|]. discriminate.
Qed.

End Identity.

(** ** Witnesses *)

(** A remote cluster with its kube-system namespace. *)
Definition kubeSystem : Namespace :=
  mkNamespace (emptyMeta <| m_Name := "kube-system" |> <| m_UID := "uid-b" |>).

Definition probedWorld : @World milliQuantity :=
  @put milliQuantity (RemoteClient 1) KNamespace kubeSystem (@emptyWorld milliQuantity 0).

Lemma target_identity_correct_witness : VerifyLiveTargetIdentity "uid-a" "uid-b" <> None.
Proof.
  pose proof (@target_identity_correct milliQuantity (RemoteClient 1) _ _ "uid-a"
    (@in_world_runs milliQuantity _ (@ProbeRemoteIdentity milliQuantity (RemoteClient 1)) probedWorld))
    as [_ Hw].
  apply (Hw "uid-b"); [vm_compute; reflexivity | split; discriminate].
Defined.
