(* ===== verification/Placement.v ===== *)
(** * Cluster placement (internal/placement/decide.go)

    Which cluster hosts a lease: an explicit reference, a sticky earlier choice,
    or a deterministic pick among the targets that match the selectors of the
    lease and of its policy.  Label selectors are those of k8s.io/apimachinery, a
    parameter. *)

From S2P Require Import Prelude GoStrings GoTime GoErrors Api LeaseConditions Concrete Sha Programs Kube World.
From Stdlib Require Import Permutation.

Class SelectorAPI := {
  Selector : Type;
  LabelSelectorAsSelector : LabelSelector -> result Selector;
  Matches : Selector -> labels -> bool;
  Empty : Selector -> bool
}.

(** "Empty returns true if this selector does not restrict the selection space." *)
Class SelectorLaws `{SelectorAPI} := {
  Empty_Matches : forall s ls, Empty s = true -> Matches s ls = true
}.

Section Placement.
Context `{QuantityAPI} `{ConditionsAPI} `{SelectorAPI}.

Record Decision := mkDecision {
  ClusterName : string;
  Pending : bool;
  Message : string;
  Reselected : bool
}.
#[export] Instance eta_Decision : Eta Decision :=
  fun r => mkDecision r.(ClusterName) r.(Pending) r.(Message) r.(Reselected).

Definition placed (name : string) : Decision := mkDecision name false "" false.

(** [Options.ActiveLeaseCounts]; [None] is the nil map. *)
Notation counts := (gmap string Z) (only parsing).

Definition StatusClusterNameIndex : string := ".status.cluster.name".

(** The value an [int32] keeps. *)
Definition wrap32 (z : Z) : Z := (z + 2147483648) mod 4294967296 - 2147483648.

Definition refName (ref : option string) : string := default "" ref.

Definition ValidateExclusive (spec : EnvironmentLeaseSpec) : option error :=
  let hasRef := bool_decide (is_Some spec.(spec_ClusterRef)) && negb (is_empty (refName spec.(spec_ClusterRef))) in
  let hasPlacement := bool_decide (is_Some spec.(spec_Placement)) in
  if hasRef && hasPlacement
  then Some (ErrorString "clusterRef and placement are mutually exclusive") else None.

Definition policyPlacement (policy : option EnvironmentLeasePolicy) : option PlacementSpec :=
  match policy with None => None | Some p => p.(policy_Spec).(pol_Placement) end.

Definition selectorFromPlacement (p : option PlacementSpec) : result (option Selector) :=
  match p with
  | None => Ok None
  | Some p =>
      match p.(pl_Selector) with
      | None => Ok None
      | Some s => match LabelSelectorAsSelector s with Ok s => Ok (Some s) | Err e => Err e end
      end
  end.

Definition enforcePolicyOnTarget (target : ClusterTarget) (policySel : option Selector) : option error :=
  match policySel with
  | None => None
  | Some sel =>
      if Empty sel then None
      else if negb (Matches sel (SchedulingLabels target)) then
        Some (ErrorString (ReasonPolicyViolation +:+ ": ClusterTarget "
          +:+ quote (target.(ct_Meta).(m_Name)) +:+ " does not match policy placement selector"))
      else None
  end.

Definition getTarget (hub : Client) (name : string) : prog kube (result ClusterTarget) :=
  (r <- cl_Get hub KTarget (named name) ;;
   Ret match r with
       | Ok t => Ok t
       | Err err => Err (ErrorWrap ("get ClusterTarget " +:+ quote name) err)
       end)%prog.

(** A nil selector does not restrict. *)
Definition selects (sel : option Selector) (ls : labels) : bool :=
  match sel with None => true | Some s => Matches s ls end.

Definition matchesSelectors (target : ClusterTarget) (leaseSel policySel : option Selector) : bool :=
  let ls := SchedulingLabels target in
  if negb (selects leaseSel ls) then false
  else if negb (selects policySel ls) then false
  else true.

Definition targetHealthyEnabled (target : ClusterTarget) : bool :=
  if negb (IsZeroPtr target.(ct_Meta).(m_DeletionTimestamp)) || negb (IsEnabled target.(ct_Spec))
  then false
  else IsStatusConditionTrue target.(ct_Status).(tst_Conditions) ClusterTargetConditionReady.

Definition underSoftCapacity (target : ClusterTarget) (cs : option counts) : bool :=
  match target.(ct_Spec).(ts_MaxActiveLeases) with
  | None => true
  | Some max =>
      let active :=
        match cs with
        | Some cs => default 0 (cs !! target.(ct_Meta).(m_Name))
        | None =>
            match target.(ct_Status).(tst_Capacity) with
            | Some c => c.(cap_ActiveLeases)
            | None => 0
            end
        end in
      active <? max
  end.

(** [candidates[i].Name < candidates[j].Name]; names are unique in a cluster. *)
Definition byName (a b : ClusterTarget) : Prop :=
  String.leb a.(ct_Meta).(m_Name) b.(ct_Meta).(m_Name) = true.

#[export] Instance byName_dec a b : stdpp.base.Decision (byName a b).
Proof. unfold byName. apply _. Defined.

Definition sortByName (l : list ClusterTarget) : list ClusterTarget := merge_sort byName l.

Definition pickStable (leaseObj : EnvironmentLease) (candidates : list ClusterTarget) : string :=
  let key := if is_empty (lease_UID leaseObj) then lease_Name leaseObj else lease_UID leaseObj in
  let sum := Sum256 (bytes_of_string key) in
  let idx := BigEndianUint64 (take 8 sum) mod Z.of_nat (length candidates) in
  match candidates !! Z.to_nat idx with
  | Some t => t.(ct_Meta).(m_Name)
  | None => ""
  end.

(** The counts taken from the capacity each target reports. *)
Definition reportedCounts (items : list ClusterTarget) : counts :=
  fold_left (fun cs t =>
    match t.(ct_Status).(tst_Capacity) with
    | Some c => <[t.(ct_Meta).(m_Name) := c.(cap_ActiveLeases)]> cs
    | None => cs
    end) items ∅.

(** The candidate loop of [selectFromCandidates]. *)
Fixpoint candidatesOf (leaseSel policySel : option Selector) (cs : counts) (items : list ClusterTarget)
    : list ClusterTarget :=
  match items with
  | [] => []
  | t :: items =>
      let rest := candidatesOf leaseSel policySel cs items in
      if negb (targetHealthyEnabled t) then rest
      else if negb (matchesSelectors t leaseSel policySel) then rest
      else if negb (underSoftCapacity t (Some cs)) then rest
      else t :: rest
  end.

(** The choice among the listed targets. *)
Definition chooseFrom (leaseObj : EnvironmentLease) (leaseSel policySel : option Selector)
    (opts : option counts) (items : list ClusterTarget) : Decision :=
  let cs := match opts with Some cs => cs | None => reportedCounts items end in
  let candidates := candidatesOf leaseSel policySel cs items in
  match candidates with
  | [] => mkDecision "" true "no matching Ready ClusterTarget for placement selector" false
  | _ => placed (pickStable leaseObj (sortByName candidates))
  end.

Definition selectFromCandidates (hub : Client) (leaseObj : EnvironmentLease)
    (leaseSel policySel : option Selector) (opts : option counts) : prog kube (result Decision) :=
  (r <- cl_List hub KTarget None ;;
   Ret match r with
       | Err err => Err (ErrorWrap "list ClusterTargets" err)
       | Ok items => Ok (chooseFrom leaseObj leaseSel policySel opts items)
       end)%prog.

(** [needsPlacement]: the lease asks for placement, or its policy has a selector. *)
Definition needsPlacement (leaseObj : EnvironmentLease) (policy : option EnvironmentLeasePolicy) : bool :=
  bool_decide (is_Some leaseObj.(lease_Spec).(spec_Placement)) ||
  match policyPlacement policy with
  | Some p => bool_decide (is_Some p.(pl_Selector))
  | None => false
  end.

(** [leaseObj.Status.Cluster.Name], or the empty string. *)
Definition stickyCluster (leaseObj : EnvironmentLease) : string :=
  match leaseObj.(lease_Status).(st_Cluster) with Some c => c.(cs_Name) | None => "" end.

Definition Decide (hub : Client) (leaseObj : EnvironmentLease)
    (policy : option EnvironmentLeasePolicy) (opts : option counts) : prog kube (result Decision) :=
  match ValidateExclusive leaseObj.(lease_Spec) with
  | Some err => Ret (Err err)
  | None =>
  match selectorFromPlacement (policyPlacement policy) with
  | Err err => Ret (Err (ErrorWrap "policy placement selector" err))
  | Ok policySel =>
  match selectorFromPlacement leaseObj.(lease_Spec).(spec_Placement) with
  | Err err => Ret (Err (ErrorWrap "lease placement selector" err))
  | Ok leaseSel =>
    let needs := needsPlacement leaseObj policy in
    let refname := refName leaseObj.(lease_Spec).(spec_ClusterRef) in
    if negb (is_empty refname) then
      (t <- getTarget hub refname ;;
       Ret match t with
           | Err err => Err err
           | Ok target =>
               match enforcePolicyOnTarget target policySel with
               | Some err => Err err
               | None => Ok (placed refname)
               end
           end)%prog
    else
      let provisioned := negb (is_empty leaseObj.(lease_Status).(st_Namespace)) in
      let sticky := stickyCluster leaseObj in
      if negb (is_empty sticky) && negb (String.eqb sticky LocalClusterName) then
        (t <- getTarget hub sticky ;;
         let good := match t with
                     | Ok target => matchesSelectors target leaseSel policySel && targetHealthyEnabled target
                     | Err _ => false
                     end in
         if good then Ret (Ok (placed sticky))
         else if provisioned then Ret (Ok (placed sticky))
         else if needs then
           r <- selectFromCandidates hub leaseObj leaseSel policySel opts ;;
           Ret match r with
               | Err err => Err err
               | Ok d => Ok (d <| Reselected := true |>)
               end
         else Ret (Ok ((placed LocalClusterName) <| Reselected := true |>)))%prog
      else if String.eqb sticky LocalClusterName && provisioned then Ret (Ok (placed LocalClusterName))
      else if needs then selectFromCandidates hub leaseObj leaseSel policySel opts
      else Ret (Ok (placed LocalClusterName))
  end end end.

(** One lease of the loop of [CountActiveLeases]. *)
Definition countsToward (l : EnvironmentLease) : option string :=
  if negb (IsZeroPtr l.(lease_Meta).(m_DeletionTimestamp)) then None
  else
    match l.(lease_Status).(st_Cluster) with
    | None => None
    | Some c =>
        if is_empty c.(cs_Name) || String.eqb c.(cs_Name) LocalClusterName then None
        else if decide (l.(lease_Status).(st_Phase) = LeasePhaseExpired) then None
        else Some c.(cs_Name)
    end.

Definition countLeases (items : list EnvironmentLease) : counts :=
  fold_left (fun out l =>
    match countsToward l with
    | Some name => <[name := wrap32 (default 0 (out !! name) + 1)]> out
    | None => out
    end) items ∅.

Definition CountActiveLeases (hub : Client) : prog kube (result counts) :=
  (r <- cl_List hub KLease None ;;
   Ret match r with
       | Err err => Err err
       | Ok items => Ok (countLeases items)
       end)%prog.

(** ** What placement promises *)

Implicit Types (l : EnvironmentLease) (t : ClusterTarget).

(** A target a lease may be placed on: live, enabled, Ready, matched by both
    selectors and below its soft capacity. *)
Record eligible (leaseSel policySel : option Selector) (cs : counts) t : Prop := {
  el_live : IsZeroPtr t.(ct_Meta).(m_DeletionTimestamp) = true;
  el_enabled : IsEnabled t.(ct_Spec) = true;
  el_ready : IsStatusConditionTrue t.(ct_Status).(tst_Conditions) ClusterTargetConditionReady = true;
  el_lease : selects leaseSel (SchedulingLabels t) = true;
  el_policy : selects policySel (SchedulingLabels t) = true;
  el_capacity : forall max, t.(ct_Spec).(ts_MaxActiveLeases) = Some max ->
    default 0 (cs !! t.(ct_Meta).(m_Name)) < max
}.

(** The three filters of the candidate loop, as one. *)
Definition eligible_b (leaseSel policySel : option Selector) (cs : counts) t : bool :=
  targetHealthyEnabled t && matchesSelectors t leaseSel policySel && underSoftCapacity t (Some cs).

Lemma eligible_b_iff leaseSel policySel cs t :
  eligible_b leaseSel policySel cs t = true <-> eligible leaseSel policySel cs t.
Proof.
  unfold eligible_b, targetHealthyEnabled, matchesSelectors, underSoftCapacity.
  destruct (IsZeroPtr _) eqn:E1, (IsEnabled _) eqn:E2; simpl;
    try (split; [done|]; intros []; congruence).
  destruct (IsStatusConditionTrue _ _) eqn:E3; simpl; [|split; [done|]; intros []; congruence].
  destruct (selects leaseSel _) eqn:E4; simpl; [|split; [done|]; intros []; congruence].
  destruct (selects policySel _) eqn:E5; simpl; [|split; [done|]; intros []; congruence].
  destruct (ts_MaxActiveLeases _) as [m|] eqn:E6; simpl.
  - rewrite Z.ltb_lt. split; [intros; constructor; try done; naive_solver|].
    intros []. by apply el_capacity0.
  - split; [intros; constructor; try done; naive_solver|done].
Qed.

Lemma candidatesOf_filter leaseSel policySel cs items :
  candidatesOf leaseSel policySel cs items =
  filter (fun t => eligible_b leaseSel policySel cs t = true) items.
Proof.
  induction items as [|t items IH]; [done|]. cbn [candidatesOf]. rewrite IH.
  destruct (eligible_b leaseSel policySel cs t) eqn:E.
  - rewrite filter_cons_True by done. unfold eligible_b in E.
    rewrite !andb_true_iff in E. destruct E as [[-> ->] ->]. done.
  - rewrite filter_cons_False by (rewrite E; done). unfold eligible_b in E.
    destruct (targetHealthyEnabled t); [|done]. destruct (matchesSelectors _ _ _); [|done].
    simpl in *. by rewrite E.
Qed.

Lemma candidatesOf_elem leaseSel policySel cs items t :
  t ∈ candidatesOf leaseSel policySel cs items <-> t ∈ items /\ eligible leaseSel policySel cs t.
Proof. rewrite candidatesOf_filter, list_elem_of_filter, eligible_b_iff. tauto. Qed.

(** The hash picks an index inside the list. *)
Lemma pickStable_elem l candidates :
  candidates <> [] -> exists t, t ∈ candidates /\ t.(ct_Meta).(m_Name) = pickStable l candidates.
Proof.
  intros Hne. unfold pickStable.
  set (n := BigEndianUint64 _). set (len := Z.of_nat (length candidates)).
  assert (Hlen : 0 < len) by (subst len; destruct candidates; simpl; [done|lia]).
  pose proof (Z.mod_pos_bound n len Hlen) as Hb.
  destruct (candidates !! Z.to_nat (n mod len)) as [t|] eqn:Hl.
  - exists t. split; [by eapply list_elem_of_lookup_2|done].
  - apply lookup_ge_None in Hl. subst len. lia.
Qed.

Definition countsFor (opts : option counts) (items : list ClusterTarget) : counts :=
  match opts with Some cs => cs | None => reportedCounts items end.

Lemma chooseFrom_spec l leaseSel policySel opts items :
  let d := chooseFrom l leaseSel policySel opts items in
  let cs := countsFor opts items in
  (d.(Pending) = true /\ d.(ClusterName) = "" /\ forall t, t ∈ items -> ~ eligible leaseSel policySel cs t) \/
  (d.(Pending) = false /\ exists t, t ∈ items /\ eligible leaseSel policySel cs t /\ t.(ct_Meta).(m_Name) = d.(ClusterName)).
Proof.
  cbv zeta. unfold chooseFrom. fold (countsFor opts items).
  destruct (candidatesOf _ _ _ items) as [|t0 ts] eqn:Hc.
  - left. split; [done|]. split; [done|]. intros t Ht He.
    assert (Hin : t ∈ candidatesOf leaseSel policySel (countsFor opts items) items)
      by (by apply candidatesOf_elem).
    rewrite Hc in Hin. by apply not_elem_of_nil in Hin.
  - right. split; [done|]. rewrite <- Hc.
    destruct (pickStable_elem l (sortByName (candidatesOf leaseSel policySel (countsFor opts items) items)))
      as (t & Ht & Hn).
    { rewrite Hc. intros Hnil. pose proof (merge_sort_Permutation byName (t0 :: ts)) as Hp.
      unfold sortByName in Hnil. rewrite Hnil in Hp. by apply Permutation_nil_cons in Hp. }
    unfold sortByName in Ht. rewrite merge_sort_Permutation in Ht.
    apply candidatesOf_elem in Ht as [Ht He]. exists t. done.
Qed.

#[local] Instance byName_total : Total byName.
Proof. intros a b. unfold byName. apply String.leb_total. Qed.

#[local] Instance byName_trans : Transitive byName.
Proof.
  intros a b c. unfold byName, String.leb.
  generalize (m_Name (ct_Meta a)), (m_Name (ct_Meta b)), (m_Name (ct_Meta c)). clear a b c.
  induction s as [|x s IH]; intros [|y s2] [|z s3]; simpl; try done.
  unfold Ascii.compare.
  destruct (N.compare_spec (Ascii.N_of_ascii x) (Ascii.N_of_ascii y)) as [E1|E1|E1]; try done;
    destruct (N.compare_spec (Ascii.N_of_ascii y) (Ascii.N_of_ascii z)) as [E2|E2|E2]; try done;
    destruct (N.compare_spec (Ascii.N_of_ascii x) (Ascii.N_of_ascii z)) as [E3|E3|E3]; try done; try lia.
  apply IH.
Qed.

(** Equal lists up to order, with distinct names, sort to the same list. *)
Lemma sortByName_unique ts ts' :
  NoDup ((fun t => t.(ct_Meta).(m_Name)) <$> ts) -> ts ≡ₚ ts' -> sortByName ts = sortByName ts'.
Proof.
  intros Hnd Hp. apply (StronglySorted_unique_strong byName).
  - intros a b Ha Hb Hab Hba. unfold byName in *. pose proof (String.leb_antisym _ _ Hab Hba) as Heq.
    unfold sortByName in Ha, Hb. rewrite merge_sort_Permutation in Ha, Hb. rewrite <- Hp in Hb.
    apply list_elem_of_lookup in Ha as [i Ha], Hb as [j Hb].
    assert (i = j); [|congruence]. eapply (NoDup_lookup _ i j _ Hnd).
    + by rewrite list_lookup_fmap, Ha.
    + rewrite list_lookup_fmap, Hb. simpl. by rewrite Heq.
  - apply (StronglySorted_merge_sort byName).
  - apply (StronglySorted_merge_sort byName).
  - unfold sortByName. by rewrite !merge_sort_Permutation.
Qed.

(** Selection among candidates.  A lease waits exactly when no listed
    target is eligible; otherwise it is placed on a listed, eligible target.  The
    choice depends on the set of targets only, not on the order in which the API
    server lists them, so a lease is sent to the same cluster on every
    reconcile. *)
Theorem chooseFrom_correct l leaseSel policySel cs (items items' : list ClusterTarget) :
  NoDup ((fun t => t.(ct_Meta).(m_Name)) <$> items) -> items ≡ₚ items' ->
  let d := chooseFrom l leaseSel policySel (Some cs) items in
  (d.(Pending) = true <-> forall t, t ∈ items -> ~ eligible leaseSel policySel cs t) /\
  (d.(Pending) = false -> exists t, t ∈ items /\ eligible leaseSel policySel cs t /\
     t.(ct_Meta).(m_Name) = d.(ClusterName)) /\
  chooseFrom l leaseSel policySel (Some cs) items' = d.
Proof.
  intros Hnd Hp d. pose proof (chooseFrom_spec l leaseSel policySel (Some cs) items) as Hs.
  cbn [countsFor] in Hs. fold d in Hs. split; [|split].
  - split; [intros Hd; destruct Hs as [(_ & _ & ?)|[Hf _]]; [done|congruence]|]. intros Hno. destruct Hs as [[? _]|(_ & t & ? & ? & _)]; [done|].
    exfalso. by eapply Hno.
  - destruct Hs as [[? _]|[_ ?]]; [congruence|done].
  - subst d. unfold chooseFrom. rewrite !candidatesOf_filter.
    set (P := fun t => eligible_b leaseSel policySel cs t = true).
    assert (Hf : filter P items ≡ₚ filter P items') by (by rewrite Hp).
    assert (Hsort : sortByName (filter P items) = sortByName (filter P items')).
    { apply sortByName_unique; [|done]. eapply sublist_NoDup; [exact Hnd|].
      apply fmap_sublist, sublist_filter. }
    destruct (filter P items) as [|a x] eqn:E1, (filter P items') as [|b y] eqn:E2.
    + done.
    + by apply Permutation_nil_cons in Hf.
    + symmetry in Hf. by apply Permutation_nil_cons in Hf.
    + by rewrite Hsort.
Qed.

(** ** Decisions *)

(** The only calls [Decide] makes are reads of the hub. *)
Definition readsHub (hub : Client) X (h : trace kube) (e : kube X) : Prop :=
  match e with ClientGet c _ _ | ClientList c _ _ => c = hub | _ => False end.

(** What the listing of all targets was answered with. *)
Definition targetList (ev : event kube) : option (Client * result (list ClusterTarget)) :=
  match ev.(ev_eff) in kube X return X -> option (Client * result (list ClusterTarget)) with
  | ClientList c k None =>
      match k return result (list (Obj k)) -> option (Client * result (list ClusterTarget)) with
      | KTarget => fun r => Some (c, r)
      | _ => fun _ => None
      end
  | _ => fun _ => None
  end ev.(ev_resp).

Definition targetsListed (tr : trace kube) (hub : Client) (r : result (list ClusterTarget)) : Prop :=
  Some (hub, r) ∈ (targetList <$> tr).

(** The target the hub answered for a name in this run. *)
Definition targetRead (tr : trace kube) (hub : Client) (name : string) (r : result ClusterTarget) : Prop :=
  answered KTarget tr hub (named name) r.

(** The policy allows a target that is named explicitly. *)
Definition policyAllows (policySel : option Selector) t : Prop :=
  forall sel, policySel = Some sel -> Empty sel = true \/ Matches sel (SchedulingLabels t) = true.

(** An earlier choice that may stay: eligible, but for the capacity, which the
    lease itself takes part of. *)
Record suitable (leaseSel policySel : option Selector) t : Prop := {
  su_live : IsZeroPtr t.(ct_Meta).(m_DeletionTimestamp) = true;
  su_enabled : IsEnabled t.(ct_Spec) = true;
  su_ready : IsStatusConditionTrue t.(ct_Status).(tst_Conditions) ClusterTargetConditionReady = true;
  su_lease : selects leaseSel (SchedulingLabels t) = true;
  su_policy : selects policySel (SchedulingLabels t) = true
}.

Lemma suitable_iff leaseSel policySel t :
  matchesSelectors t leaseSel policySel && targetHealthyEnabled t = true <-> suitable leaseSel policySel t.
Proof.
  unfold matchesSelectors, targetHealthyEnabled.
  destruct (selects leaseSel _) eqn:E1, (selects policySel _) eqn:E2, (IsZeroPtr _) eqn:E3, (IsEnabled _) eqn:E4; cbn;
    split; first [done|by intros []; congruence|intros; by constructor].
Qed.

(** Where the lease was before, if that is a remote cluster. *)
Definition movedFrom l : Prop := stickyCluster l <> "" /\ stickyCluster l <> LocalClusterName.

#[export] Instance movedFrom_dec l : stdpp.base.Decision (movedFrom l).
Proof. unfold movedFrom. apply _. Defined.

(** The lease names no cluster, and its namespace ties it to none. *)
Definition unbound l : Prop :=
  refName l.(lease_Spec).(spec_ClusterRef) = "" /\
  (l.(lease_Status).(st_Namespace) = "" \/ stickyCluster l = "").

(** A free lease has no earlier choice that may stay. *)
Definition unsettled hub l (leaseSel policySel : option Selector) (tr : trace kube) : Prop :=
  unbound l /\ (movedFrom l -> exists r, targetRead tr hub (stickyCluster l) r /\ forall t, r = Ok t -> ~ suitable leaseSel policySel t).

(** The decisions there are, each with what it takes. *)
Inductive justified hub l (policy : option EnvironmentLeasePolicy) (leaseSel policySel : option Selector)
    (opts : option counts) (tr : trace kube) : Decision -> Prop :=
  | just_referenced t :
      let ref := refName l.(lease_Spec).(spec_ClusterRef) in
      ref <> "" -> targetRead tr hub ref (Ok t) -> policyAllows policySel t ->
      justified hub l policy leaseSel policySel opts tr (placed ref)
  | just_provisioned :
      refName l.(lease_Spec).(spec_ClusterRef) = "" -> l.(lease_Status).(st_Namespace) <> "" -> stickyCluster l <> "" ->
      justified hub l policy leaseSel policySel opts tr (placed (stickyCluster l))
  | just_kept t :
      unbound l -> movedFrom l -> targetRead tr hub (stickyCluster l) (Ok t) -> suitable leaseSel policySel t ->
      justified hub l policy leaseSel policySel opts tr (placed (stickyCluster l))
  | just_local :
      unsettled hub l leaseSel policySel tr -> needsPlacement l policy = false ->
      justified hub l policy leaseSel policySel opts tr
        ((placed LocalClusterName) <| Reselected := bool_decide (movedFrom l) |>)
  | just_chosen items t :
      let candidates := filter (fun t => eligible_b leaseSel policySel (countsFor opts items) t = true) items in
      unsettled hub l leaseSel policySel tr -> needsPlacement l policy = true -> targetsListed tr hub (Ok items) ->
      t ∈ items -> eligible leaseSel policySel (countsFor opts items) t ->
      t.(ct_Meta).(m_Name) = pickStable l (sortByName candidates) ->
      justified hub l policy leaseSel policySel opts tr
        ((placed t.(ct_Meta).(m_Name)) <| Reselected := bool_decide (movedFrom l) |>)
  | just_waits items :
      unsettled hub l leaseSel policySel tr -> needsPlacement l policy = true -> targetsListed tr hub (Ok items) ->
      (forall t, t ∈ items -> ~ eligible leaseSel policySel (countsFor opts items) t) ->
      justified hub l policy leaseSel policySel opts tr
        (mkDecision "" true "no matching Ready ClusterTarget for placement selector" (bool_decide (movedFrom l))).

(** And the refusals. *)
Inductive placementRefused hub l (policy : option EnvironmentLeasePolicy) (tr : trace kube) : Prop :=
  | ref_both : ValidateExclusive l.(lease_Spec) <> None -> placementRefused hub l policy tr
  | ref_policySelector err :
      selectorFromPlacement (policyPlacement policy) = Err err -> placementRefused hub l policy tr
  | ref_leaseSelector err :
      selectorFromPlacement l.(lease_Spec).(spec_Placement) = Err err -> placementRefused hub l policy tr
  | ref_unread err :
      let ref := refName l.(lease_Spec).(spec_ClusterRef) in
      ref <> "" -> targetRead tr hub ref (Err err) -> placementRefused hub l policy tr
  | ref_forbidden t policySel :
      let ref := refName l.(lease_Spec).(spec_ClusterRef) in
      ref <> "" -> targetRead tr hub ref (Ok t) ->
      selectorFromPlacement (policyPlacement policy) = Ok policySel -> ~ policyAllows policySel t -> placementRefused hub l policy tr
  | ref_unlisted err leaseSel policySel :
      selectorFromPlacement (policyPlacement policy) = Ok policySel ->
      selectorFromPlacement l.(lease_Spec).(spec_Placement) = Ok leaseSel ->
      unsettled hub l leaseSel policySel tr -> needsPlacement l policy = true ->
      targetsListed tr hub (Err err) -> placementRefused hub l policy tr.

(** What a finished [Decide] has established. *)
Definition decided hub l (policy : option EnvironmentLeasePolicy) (opts : option counts)
    (tr : trace kube) (r : result Decision) : Prop :=
  match r with
  | Ok d =>
      ValidateExclusive l.(lease_Spec) = None /\
      exists leaseSel policySel,
        selectorFromPlacement (policyPlacement policy) = Ok policySel /\
        selectorFromPlacement l.(lease_Spec).(spec_Placement) = Ok leaseSel /\
        justified hub l policy leaseSel policySel opts tr d
  | Err _ => placementRefused hub l policy tr
  end.

Lemma enforcePolicyOnTarget_allowed t policySel : enforcePolicyOnTarget t policySel = None <-> policyAllows policySel t.
Proof.
  unfold enforcePolicyOnTarget, policyAllows. destruct policySel as [sel|]; [|done].
  destruct (Empty sel) eqn:He; [split; [|done]; intros _ s [= <-]; by left|].
  destruct (Matches sel _) eqn:Hm; cbn; [split; [|done]; intros _ s [= <-]; by right|].
  split; [done|]. intros Ha. destruct (Ha sel eq_refl); congruence.
Qed.

(** The outcome of the choice, as one of two. *)
Lemma chooseFrom_cases l ls ps opts items :
  let candidates := filter (fun t => eligible_b ls ps (countsFor opts items) t = true) items in
  (chooseFrom l ls ps opts items = mkDecision "" true "no matching Ready ClusterTarget for placement selector" false /\
   forall t, t ∈ items -> ~ eligible ls ps (countsFor opts items) t) \/
  (chooseFrom l ls ps opts items = placed (pickStable l (sortByName candidates)) /\
   exists t, t ∈ items /\ eligible ls ps (countsFor opts items) t /\ t.(ct_Meta).(m_Name) = pickStable l (sortByName candidates)).
Proof.
  cbv zeta. pose proof (chooseFrom_spec l ls ps opts items) as Hs. cbv zeta in Hs.
  assert (E : forall c : list ClusterTarget, c = [] \/ c <> []) by (intros []; [by left|by right]).
  unfold chooseFrom in *. fold (countsFor opts items) in *. rewrite candidatesOf_filter in *.
  set (C := filter _ items) in *. destruct (E C) as [Hc|Hc].
  - left. rewrite Hc in *. destruct Hs as [(_ & _ & Hno)|[Hp _]]; [done|done].
  - right. assert (Hm : forall d : Decision, match C with [] => d | _ :: _ => placed (pickStable l (sortByName C)) end =
      placed (pickStable l (sortByName C))) by (by destruct C).
    rewrite Hm in *. split; [done|]. by destruct Hs as [[Hp _]|[_ Ht]].
Qed.

(** The last part of [Decide]: a choice among all targets. *)
Lemma safe_select hub l policy ls ps opts h :
  selectorFromPlacement (policyPlacement policy) = Ok ps -> selectorFromPlacement l.(lease_Spec).(spec_Placement) = Ok ls ->
  (forall ev, unsettled hub l ls ps (ev :: h)) -> needsPlacement l policy = true ->
  ValidateExclusive l.(lease_Spec) = None ->
  safe (readsHub hub) (selectFromCandidates hub l ls ps opts) h (fun h' r =>
    match r with
    | Ok d => d.(Reselected) = false /\ decided hub l policy opts h' (Ok (d <| Reselected := bool_decide (movedFrom l) |>))
    | Err err => placementRefused hub l policy h'
    end).
Proof.
  intros Hps Hls Hun Hneeds Hx. unfold selectFromCandidates, cl_List. rewrite safe_bind. split; [done|].
  intros [items|err]; cbn [safe].
  2: { eapply ref_unlisted; [exact Hps|exact Hls|apply Hun|done|]. unfold targetsListed. cbn. left. }
  assert (Hlist : targetsListed (Ev (ClientList hub KTarget None) (Ok items) :: h) hub (Ok items)) by (unfold targetsListed; cbn; left).
  destruct (chooseFrom_cases l ls ps opts items) as [[-> Hno]|(-> & t & Ht & He & Hn)];
    (split; [done|]); (split; [done|]); exists ls, ps; (split_and!; [done|done|]).
  - by apply (just_waits _ _ _ _ _ _ _ items).
  - rewrite <- Hn. by eapply just_chosen.
Qed.

(** A choice that keeps [Reselected] as it is, for a lease without a remote one. *)
Lemma safe_select_first hub l policy ls ps opts h :
  selectorFromPlacement (policyPlacement policy) = Ok ps -> selectorFromPlacement l.(lease_Spec).(spec_Placement) = Ok ls ->
  unbound l -> ~ movedFrom l -> needsPlacement l policy = true -> ValidateExclusive l.(lease_Spec) = None ->
  safe (readsHub hub) (selectFromCandidates hub l ls ps opts) h (decided hub l policy opts).
Proof.
  intros Hps Hls Hub Hm Hneeds Hx. eapply safe_post; [by apply safe_select|]. intros h' [d|err]; [|done].
  intros [Hr Hd]. rewrite bool_decide_false in Hd by done. replace d with (d <| Reselected := false |>); [done|].
  by destruct d; cbn in *; subst.
Qed.

(** The earlier choice is given up. *)
Lemma safe_lost hub l policy ls ps opts h :
  selectorFromPlacement (policyPlacement policy) = Ok ps -> selectorFromPlacement l.(lease_Spec).(spec_Placement) = Ok ls ->
  ValidateExclusive l.(lease_Spec) = None -> movedFrom l -> (forall x, unsettled hub l ls ps (x ++ h)) ->
  safe (readsHub hub)
    (if needsPlacement l policy then
       (r <- selectFromCandidates hub l ls ps opts ;;
        Ret match r with Err err => Err err | Ok d => Ok (d <| Reselected := true |>) end)%prog
     else Ret (Ok ((placed LocalClusterName) <| Reselected := true |>))) h (decided hub l policy opts).
Proof.
  intros Hps Hls Hx Hm Hun. assert (Hb : true = bool_decide (movedFrom l)) by (by rewrite bool_decide_true).
  destruct (needsPlacement l policy) eqn:Hneeds.
  - rewrite safe_bind. eapply safe_post; [apply safe_select; try done; intros ev; apply (Hun [ev])|].
    intros h' [d|err]; cbn [safe]; [|done]. rewrite Hb. by intros [_ Hd].
  - split; [done|]. exists ls, ps. rewrite Hb. split_and!; [done|done|]. apply just_local; [apply (Hun [])|done].
Qed.

Lemma Decide_safe hub l policy opts :
  safe (readsHub hub) (Decide hub l policy opts) [] (decided hub l policy opts).
Proof.
  unfold Decide. destruct (ValidateExclusive _) eqn:Hx; [apply ref_both; by rewrite Hx|].
  destruct (selectorFromPlacement (policyPlacement policy)) as [ps|] eqn:Hp; [|by eapply ref_policySelector].
  destruct (selectorFromPlacement (spec_Placement _)) as [ls|] eqn:Hl; [|by eapply ref_leaseSelector].
  assert (HQ : forall h d, justified hub l policy ls ps opts h d -> decided hub l policy opts h (Ok d)).
  { intros h d Hd. split; [done|]. by exists ls, ps. }
  destruct (is_empty (refName _)) eqn:Href; cbn [negb].
  2: { apply is_empty_false in Href. unfold getTarget, cl_Get. rewrite !safe_bind. split; [done|].
       intros [t|err]; cbn; [|eapply ref_unread; [done|apply answered_here]].
       destruct (enforcePolicyOnTarget t ps) eqn:He.
       - eapply ref_forbidden; [done|apply answered_here|done|]. intros Ha%enforcePolicyOnTarget_allowed. congruence.
       - apply enforcePolicyOnTarget_allowed in He. apply HQ. eapply just_referenced; [done|apply answered_here|done]. }
  apply is_empty_true in Href.
  destruct (is_empty (stickyCluster l)) eqn:Hst; cbn [negb andb].
  { apply is_empty_true in Hst. assert (Hm : ~ movedFrom l) by (intros [? _]; done).
    assert (Hub : unbound l) by (split; [done|by right]).
    rewrite (proj2 (String.eqb_neq (stickyCluster l) LocalClusterName)) by (by rewrite Hst). cbn [andb].
    destruct (needsPlacement l policy) eqn:Hneeds; [by apply safe_select_first|]. apply HQ.
    replace (placed LocalClusterName) with ((placed LocalClusterName) <| Reselected := bool_decide (movedFrom l) |>)
      by by rewrite bool_decide_false. by apply just_local. }
  apply is_empty_false in Hst.
  destruct (is_empty (st_Namespace _)) eqn:Hns; cbn [negb].
  2: { apply is_empty_false in Hns.
       assert (Hsticky : forall h, decided hub l policy opts h (Ok (placed (stickyCluster l)))) by (intros h; by apply HQ, just_provisioned).
       destruct (String.eqb_spec (stickyCluster l) LocalClusterName) as [Hloc|Hloc]; cbn [negb andb].
       - rewrite <- Hloc. apply Hsticky.
       - unfold getTarget, cl_Get. rewrite !safe_bind. split; [done|]. intros [t|err]; cbn [safe]; [case_match|]; apply Hsticky. }
  apply is_empty_true in Hns. assert (Hub : unbound l) by (split; [done|by left]).
  destruct (String.eqb_spec (stickyCluster l) LocalClusterName) as [Hloc|Hloc]; cbn [negb andb].
  { assert (Hm : ~ movedFrom l) by (by intros [_ ?]).
    destruct (needsPlacement l policy) eqn:Hneeds; [by apply safe_select_first|]. apply HQ.
    replace (placed LocalClusterName) with ((placed LocalClusterName) <| Reselected := bool_decide (movedFrom l) |>)
      by by rewrite bool_decide_false. by apply just_local. }
  assert (Hm : movedFrom l) by done. unfold getTarget, cl_Get. rewrite !safe_bind. split; [done|].
  intros [t|err]; cbn [safe]; cbv zeta.
  - destruct (matchesSelectors t ls ps && targetHealthyEnabled t) eqn:Hg.
    { apply suitable_iff in Hg. apply HQ. eapply just_kept; [done|done|apply answered_here|done]. }
    apply safe_lost; [done|done|done|done|]. intros x. split; [done|]. intros _. exists (Ok t).
    split; [eapply answered_mono, answered_here; grown|]. intros t' [= <-]. rewrite <- suitable_iff. congruence.
  - apply safe_lost; [done|done|done|done|]. intros x. split; [done|]. intros _. exists (Err err).
    split; [eapply answered_mono, answered_here; grown|done].
Qed.

(** Claim C36.  Where a lease may go, whatever the API server answers.  Placement
    only reads the hub, and a run ends with exactly one of these, by what was
    answered in it.  A lease that names a cluster is placed there if the target was
    read and the policy's selector does not exclude it, and is refused otherwise,
    never placed elsewhere.  A lease whose namespace exists stays on its cluster:
    there is no migration, even when the target has become unhealthy, disabled or
    unreadable.  Any other lease stays on an earlier remote choice exactly if that
    target was read and is live, enabled, Ready and matched by both selectors; if
    not, it goes to the local cluster when neither it nor its policy asks for
    placement, and else to the eligible one of the listed targets that the hash of
    its identity picks among them in the order of their names; it waits only when
    none of the listed targets is eligible.  It is an error only if the lease has
    both a reference and a placement, a selector is malformed, or the targets could
    not be listed.  [Reselected] is set exactly when an earlier remote choice is
    given up. *)
Theorem Decide_correct hub l (policy : option EnvironmentLeasePolicy) opts (tr : trace kube) (r : result Decision) :
  runs (Decide hub l policy opts) [] tr r ->
  guaranteed (readsHub hub) tr /\ decided hub l policy opts tr r.
Proof. intros Hr. exact (safe_sound _ _ [] tr r _ I (Decide_safe hub l policy opts) Hr). Qed.

(** ** Counting *)

Lemma countLeases_lookup_gen (items : list EnvironmentLease) (out : counts) name :
  default 0 (fold_left (fun out l =>
    match countsToward l with
    | Some name => <[name := wrap32 (default 0 (out !! name) + 1)]> out
    | None => out
    end) items out !! name) =
  fold_left (fun n l => if decide (countsToward l = Some name) then wrap32 (n + 1) else n) items
    (default 0 (out !! name)).
Proof.
  revert out. induction items as [|l items IH]; intros out; [done|]. cbn. rewrite IH. f_equal.
  destruct (countsToward l) as [name'|]; [|done].
  destruct (decide (Some name' = Some name)) as [Heq|Hne].
  - injection Heq as ->. by rewrite lookup_insert_eq.
  - rewrite lookup_insert_ne by congruence. done.
Qed.

Lemma wrap32_id z : - 2147483648 <= z < 2147483648 -> wrap32 z = z.
Proof. intros. unfold wrap32. rewrite Z.mod_small by lia. lia. Qed.

(** The soft counts are exact: for fewer than 2^31 leases, a target's
    count is the number of live, unexpired leases whose status names it; leases
    on the local cluster are never counted. *)
Theorem countLeases_correct (items : list EnvironmentLease) name :
  Z.of_nat (length items) < 2147483648 ->
  default 0 (countLeases items !! name) =
    Z.of_nat (length (filter (fun l => countsToward l = Some name) items)) /\
  countLeases items !! LocalClusterName = None.
Proof.
  intros Hlen. split.
  - unfold countLeases. rewrite countLeases_lookup_gen. cbn [lookup].
    rewrite lookup_empty. cbn [default from_option].
    enough (Hen : forall n, 0 <= n -> n + Z.of_nat (length items) < 2147483648 ->
      fold_left (fun n l => if decide (countsToward l = Some name) then wrap32 (n + 1) else n) items n =
      n + Z.of_nat (length (filter (fun l => countsToward l = Some name) items))) by (rewrite Hen; lia).
    clear Hlen. induction items as [|l items IH]; intros n Hn Hlt; [cbn; lia|].
    cbn [length] in Hlt. cbn [fold_left]. destruct (decide (countsToward l = Some name)).
    + rewrite wrap32_id, filter_cons_True by (done || lia). cbn [length]. rewrite IH; lia.
    + rewrite filter_cons_False by done. apply IH; lia.
  - unfold countLeases. assert (Hloc : (∅ : counts) !! LocalClusterName = None) by done. revert Hloc.
    generalize (∅ : counts). clear Hlen. induction items as [|l items IH]; intros out Hloc; [done|].
    cbn. apply IH. destruct (countsToward l) as [n|] eqn:Hc; [|done].
    rewrite lookup_insert_ne; [done|]. intros ->. unfold countsToward in Hc.
    destruct (negb _); [done|]. destruct (st_Cluster _) as [c|]; [|done].
    destruct (_ || _) eqn:E; [done|]. case_decide; [done|]. injection Hc as Hc. by rewrite Hc in E.
Qed.

End Placement.

(** ** Witnesses *)

(** Selectors that compare label sets exactly. *)
Definition exactSelectors : SelectorAPI := {|
  Selector := labels;
  LabelSelectorAsSelector s := Ok s.(ls_MatchLabels);
  Matches sel ls := bool_decide (sel ⊆ ls);
  Empty sel := bool_decide (sel = ∅)
|}.

Lemma exactSelectors_laws : @SelectorLaws exactSelectors.
Proof.
  split. intros s ls. cbn. intros Hs%bool_decide_eq_true. apply bool_decide_eq_true. subst s.
  apply map_empty_subseteq.
Defined.

(** A healthy target with a label. *)
Definition sampleTarget (name : string) : ClusterTarget :=
  mkClusterTarget (emptyMeta <| m_Name := name |>)
    (mkClusterTargetSpec (mkSecretKeySelector "kc" "kubelease" "") {["env" := "preview"]} None None None None)
    (mkClusterTargetStatus "v1.30.0" "" None 0
      [mkCondition ClusterTargetConditionReady ConditionTrueStatus 0 "ClusterReachable" ""]).

Lemma chooseFrom_correct_witness :
  @chooseFrom milliQuantity listConditions exactSelectors sampleLease None None (Some ∅)
    [sampleTarget "b"; sampleTarget "a"] =
  @chooseFrom milliQuantity listConditions exactSelectors sampleLease None None (Some ∅)
    [sampleTarget "a"; sampleTarget "b"].
Proof.
  refine (eq_sym (proj2 (proj2 (@chooseFrom_correct milliQuantity listConditions exactSelectors
    sampleLease None None ∅ [sampleTarget "b"; sampleTarget "a"] [sampleTarget "a"; sampleTarget "b"] _ _)))).
  - cbn. repeat constructor; rewrite ?elem_of_cons, ?elem_of_nil; intuition discriminate.
  - apply perm_swap.
Defined.

(** A lease that asks for placement, in a world with a target for it. *)
Definition placedSomewhere : @EnvironmentLease milliQuantity :=
  sampleLease <| lease_Spec := sampleLease.(lease_Spec) <| spec_Placement := Some (mkPlacementSpec None) |> |>.

Definition targetWorld : @World milliQuantity := @put milliQuantity HubClient KTarget (sampleTarget "a") (@emptyWorld milliQuantity 0).

Definition demoDecide : prog (@kube milliQuantity) (result Decision) :=
  @Decide milliQuantity listConditions exactSelectors HubClient placedSomewhere None None.

Lemma Decide_correct_witness :
  (in_world demoDecide targetWorld).1.1 = Ok (placed "a") /\
  @decided milliQuantity listConditions exactSelectors HubClient placedSomewhere None None
    (in_world demoDecide targetWorld).2 (in_world demoDecide targetWorld).1.1.
Proof.
  split; [vm_compute; reflexivity|].
  exact (proj2 (@Decide_correct milliQuantity listConditions exactSelectors HubClient placedSomewhere None None _ _
    (@in_world_runs milliQuantity _ demoDecide targetWorld))).
Defined.

Lemma countLeases_correct_witness :
  default 0 (@countLeases milliQuantity [sampleLease] !! "edge") = 0.
Proof. exact (proj1 (@countLeases_correct milliQuantity [sampleLease] "edge" eq_refl)). Defined.
