(* ===== verification/Outage.v ===== *)
(** * Shared outage state (internal/remote/outage.go)

    [OutageTracker] keeps one backoff window per target, shared by all leases;
    [TargetGate] is a semaphore per target.  Each method runs under the mutex of
    its object, so it is one atomic step: a function on the object's state.  A
    send on a full channel blocks, which is the [None] of [Acquire]. *)

From S2P Require Import Prelude GoStrings GoTime GoErrors Api.

(** ** OutageTracker *)

Record OutageTracker := mkOutageTracker {
  ot_until : gmap string time;
  ot_minBack : duration;
  ot_maxBack : duration
}.
#[export] Instance eta_OutageTracker : Eta OutageTracker :=
  fun r => mkOutageTracker r.(ot_until) r.(ot_minBack) r.(ot_maxBack).

Definition NewOutageTracker (minBack maxBack : duration) : OutageTracker :=
  let minBack := if minBack <=? 0 then 15 * Second else minBack in
  let maxBack := if maxBack <? minBack then 2 * Minute else maxBack in
  mkOutageTracker ∅ minBack maxBack.

(** A nil tracker is the [None]; the methods accept it. *)
Definition MarkUnavailable (t : option OutageTracker) (targetName : string) (now : time)
    : duration * option OutageTracker :=
  match t with
  | None => (0, None)
  | Some t =>
      if is_empty targetName || String.eqb targetName "local" then (0, Some t)
      else
        let back :=
          match t.(ot_until) !! targetName with
          | Some prev =>
              if After prev now then
                let remaining := Sub prev now in
                let back := wrap64 (remaining * 2) in
                let back := if back <? t.(ot_minBack) then t.(ot_minBack) else back in
                if t.(ot_maxBack) <? back then t.(ot_maxBack) else back
              else t.(ot_minBack)
          | None => t.(ot_minBack)
          end in
        (back, Some (t <| ot_until := <[targetName := Add now back]> t.(ot_until) |>))
  end.

Definition RequeueAfter (t : option OutageTracker) (targetName : string) (now : time) : duration :=
  match t with
  | None => 0
  | Some t =>
      if is_empty targetName then 0
      else
        match t.(ot_until) !! targetName with
        | None => 0
        | Some until => if negb (After until now) then 0 else Sub until now
        end
  end.

Definition Clear (t : option OutageTracker) (targetName : string) : option OutageTracker :=
  match t with
  | None => None
  | Some t => Some (t <| ot_until := delete targetName t.(ot_until) |>)
  end.

(** ** TargetGate *)

(** The channels by target: how many of their [limit] slots are taken. *)
Record TargetGate := mkTargetGate {
  tg_sem : gmap string Z;
  tg_limit : Z
}.
#[export] Instance eta_TargetGate : Eta TargetGate :=
  fun r => mkTargetGate r.(tg_sem) r.(tg_limit).

Definition NewTargetGate (limit : Z) : TargetGate :=
  mkTargetGate ∅ (if limit <=? 0 then 4 else limit).

(** Targets the gate does not limit. *)
Definition ungated (targetName : string) : bool :=
  is_empty targetName || String.eqb targetName "local".

(** [ch <- struct{}{}], after creating the channel when it is missing; [None]
    while the channel is full. *)
Definition Acquire (g : TargetGate) (targetName : string) : option TargetGate :=
  if ungated targetName then Some g
  else
    let taken := default 0 (g.(tg_sem) !! targetName) in
    if taken <? g.(tg_limit) then Some (g <| tg_sem := <[targetName := taken + 1]> g.(tg_sem) |>)
    else None.

(** The function [Acquire] returned, [<-ch]; [None] while the channel is empty. *)
Definition Release (g : TargetGate) (targetName : string) : option TargetGate :=
  if ungated targetName then Some g
  else
    let taken := default 0 (g.(tg_sem) !! targetName) in
    if 0 <? taken then Some (g <| tg_sem := <[targetName := taken - 1]> g.(tg_sem) |>)
    else None.

(** ** The tracker's promises *)

(** Bounds that [NewOutageTracker] establishes when the configured maximum is at
    least the minimum, and that no method changes. *)
Definition tracker_ok (t : OutageTracker) : Prop :=
  0 < t.(ot_minBack) <= t.(ot_maxBack) /\ t.(ot_maxBack) <= maxDuration.

(** The wait a mark returns is within the configured bounds, so it is positive. *)
Lemma MarkUnavailable_bounds (t : OutageTracker) (name : string) (now : time) :
  tracker_ok t -> ungated name = false ->
  t.(ot_minBack) <= (MarkUnavailable (Some t) name now).1 <= t.(ot_maxBack).
Proof.
  intros [Hmin Hmax] Hg. unfold ungated in Hg. unfold MarkUnavailable. rewrite Hg. cbn.
  destruct (ot_until t !! name); [|lia]. case_match; [|lia]. repeat case_match; zify_bool; lia.
Qed.

(** One outage window per target.  Marking a remote target returns a
    backoff between the configured bounds and opens a window of just that
    length: until it has run out every caller is told the time that remains, and
    afterwards, or once the target is cleared, nothing.  Other targets are not
    affected. *)
Theorem MarkUnavailable_window (t : OutageTracker) (name : string) (now : time) :
  tracker_ok t -> ungated name = false ->
  exists back t', MarkUnavailable (Some t) name now = (back, Some t') /\
    t.(ot_minBack) <= back <= t.(ot_maxBack) /\ tracker_ok t' /\
    (forall now', now <= now' ->
       RequeueAfter (Some t') name now' = Z.max 0 (now + back - now')) /\
    (forall now', RequeueAfter (Clear (Some t') name) name now' = 0) /\
    (forall other now', other <> name ->
       RequeueAfter (Some t') other now' = RequeueAfter (Some t) other now').
Proof.
  intros Hok Hg. pose proof (MarkUnavailable_bounds t name now Hok Hg) as Hb. destruct Hok as [Hmin Hmax].
  unfold ungated in Hg. destruct (MarkUnavailable (Some t) name now) as [back t'] eqn:Hm. cbn in Hb.
  unfold MarkUnavailable in Hm. rewrite Hg in Hm. injection Hm as Hback Ht'.
  rewrite Hback in Ht'. clear Hback. exists back, (t <| ot_until := <[name := Add now back]> t.(ot_until) |>).
  apply orb_false_iff in Hg as [He _]. subst t'.
  split; [done|]. split; [done|]. split; [by split|].
  split; [|split].
  - intros now' Hn. unfold RequeueAfter. rewrite He. cbn. rewrite lookup_insert_eq.
    unfold After, Add. destruct (negb _) eqn:E; zify_bool; [lia|].
    rewrite Sub_exact; [lia|]. unfold in_i64, minDuration, maxDuration, two63 in *. lia.
  - intros now'. unfold RequeueAfter. rewrite He. cbn. by rewrite lookup_delete_eq.
  - intros other now' Ho. unfold RequeueAfter. cbn. by rewrite lookup_insert_ne.
Qed.

(** The backoff never grows for a caller that checks before it marks.
    The reconciler only contacts a target whose window has run out
    ([RequeueAfter] = 0), and in that state a failure is always answered with
    the minimum backoff: the doubling towards the maximum needs a second worker
    that marks the target while the first one's window is still open. *)
Theorem checked_mark_is_minimal (t : OutageTracker) (name : string) (now : time) :
  ungated name = false ->
  RequeueAfter (Some t) name now = 0 ->
  (MarkUnavailable (Some t) name now).1 = t.(ot_minBack).
Proof.
  unfold ungated, RequeueAfter, MarkUnavailable. intros Hg. rewrite Hg.
  apply orb_false_iff in Hg as [He _]. rewrite He. cbn.
  destruct (ot_until t !! name) as [u|]; [|done]. destruct (After u now) eqn:E; [|done].
  unfold After in E. zify_bool. cbn. intros Hs. pose proof (Sub_pos u now E). lia.
Qed.

(** ** The gate's promises *)

(** The program around the gate: workers that hold a slot of a target, one entry
    per slot, and the gate. *)
Inductive gate_step : TargetGate * list string -> TargetGate * list string -> Prop :=
  | gate_acquire g g' holders name :
      ungated name = false -> Acquire g name = Some g' ->
      gate_step (g, holders) (g', name :: holders)
  | gate_release g g' holders holders' name :
      ungated name = false -> holders ≡ₚ name :: holders' -> Release g name = Some g' ->
      gate_step (g, holders) (g', holders').

Inductive gate_reachable (limit : Z) : TargetGate * list string -> Prop :=
  | gate_init : gate_reachable limit (NewTargetGate limit, [])
  | gate_next s s' : gate_reachable limit s -> gate_step s s' -> gate_reachable limit s'.

Definition holding (holders : list string) (name : string) : Z :=
  Z.of_nat (length (filter (fun n => n = name) holders)).

(** The channel of a target holds one token per holder, within the limit. *)
Definition gate_inv (limit : Z) (s : TargetGate * list string) : Prop :=
  s.1.(tg_limit) = (if limit <=? 0 then 4 else limit) /\
  forall name, default 0 (s.1.(tg_sem) !! name) = holding s.2 name /\ holding s.2 name <= s.1.(tg_limit).

Lemma holding_cons holders n name :
  holding (n :: holders) name = holding holders name + (if decide (n = name) then 1 else 0).
Proof. unfold holding. rewrite filter_cons. case_decide; cbn [length]; lia. Qed.

Lemma holding_perm holders holders' name : holders ≡ₚ holders' -> holding holders name = holding holders' name.
Proof. unfold holding. by intros ->. Qed.

Lemma gate_inv_init limit : gate_inv limit (NewTargetGate limit, []).
Proof.
  split; [done|]. intros name. cbn. rewrite lookup_empty. unfold holding. cbn. split; [done|].
  case_match; zify_bool; lia.
Qed.

Lemma gate_inv_step limit s s' : gate_inv limit s -> gate_step s s' -> gate_inv limit s'.
Proof.
  intros [Hl Hi] Hs. inversion Hs as [g g' holders name Hu Ha|g g' holders holders' name Hu Hp Hr]; subst.
  - unfold Acquire in Ha. rewrite Hu in Ha. destruct (_ <? _) eqn:E; [|done]. zify_bool. injection Ha as <-.
    split; [done|]. intros n. destruct (Hi n) as [H1 H2], (Hi name) as [H3 _]. cbn in *.
    rewrite holding_cons. destruct (decide (name = n)) as [->|].
    + rewrite lookup_insert_eq. cbn. lia.
    + rewrite lookup_insert_ne by done. lia.
  - unfold Release in Hr. rewrite Hu in Hr. destruct (_ <? _) eqn:E; [|done]. injection Hr as <-.
    split; [done|]. intros n. destruct (Hi n) as [H1 H2], (Hi name) as [H3 _]. cbn in *.
    rewrite (holding_perm _ _ n Hp), holding_cons in H1, H2. rewrite (holding_perm _ _ name Hp), holding_cons in H3.
    destruct (decide (name = n)) as [->|].
    + rewrite lookup_insert_eq. cbn. lia.
    + rewrite lookup_insert_ne by done. lia.
Qed.

(** Claim C40.  The gate is a semaphore per target.  In every reachable state
    at most [limit] workers hold a slot of one remote target; acquiring blocks
    exactly while [limit] slots of that target are held, whatever happens on the
    other targets; and a holder can always release, so a slot is never lost. *)
Theorem gate_correct (limit : Z) (g : TargetGate) (holders : list string) (name : string) :
  gate_reachable limit (g, holders) -> ungated name = false ->
  holding holders name <= (if limit <=? 0 then 4 else limit) /\
  (Acquire g name = None <-> holding holders name = (if limit <=? 0 then 4 else limit)) /\
  (name ∈ holders -> is_Some (Release g name)).
Proof.
  intros Hr Hu.
  assert (Hinv : gate_inv limit (g, holders)).
  { remember (g, holders) as s eqn:Hs. clear Hs. induction Hr as [|s s' Hr IH Hstep];
      [apply gate_inv_init|by eapply gate_inv_step]. }
  destruct Hinv as [Hl Hi]. destruct (Hi name) as [H1 H2]. cbn in *. rewrite <- Hl.
  split; [done|]. split.
  - unfold Acquire. rewrite Hu, H1. destruct (_ <? _) eqn:E; zify_bool; split; intros; (done || lia).
  - intros Hin. unfold Release. rewrite Hu, H1.
    assert (Hpos : 0 < holding holders name).
    { apply list_elem_of_split in Hin as (l1 & l2 & ->). unfold holding.
      rewrite filter_app, length_app, filter_cons_True by done. cbn [length]. lia. }
    rewrite (proj2 (Z.ltb_lt _ _) Hpos). by eexists.
Qed.

(** ** Witnesses *)

Lemma MarkUnavailable_window_witness :
  exists back t', MarkUnavailable (Some (NewOutageTracker 0 0)) "edge" 100 = (back, Some t') /\
    15 * Second <= back.
Proof.
  destruct (MarkUnavailable_window (NewOutageTracker 0 0) "edge" 100) as (b & t' & H1 & H2 & _).
  - vm_compute. intuition discriminate.
  - reflexivity.
  - exists b, t'. split; [exact H1|]. exact (proj1 H2).
Defined.

Lemma checked_mark_is_minimal_witness :
  (MarkUnavailable (Some (NewOutageTracker 0 0)) "edge" 100).1 = 15 * Second.
Proof. exact (checked_mark_is_minimal (NewOutageTracker 0 0) "edge" 100 eq_refl eq_refl). Defined.

Lemma gate_correct_witness :
  is_Some (Release (mkTargetGate {["edge" := 1]} 2) "edge").
Proof.
  refine (proj2 (proj2 (gate_correct 2 (mkTargetGate {["edge" := 1]} 2) ["edge"] "edge" _ eq_refl)) _).
  - eapply gate_next; [apply gate_init|]. apply gate_acquire; reflexivity.
  - constructor.
Defined.
