(* ===== verification/Remote.v ===== *)
(** * Resolving targets (internal/remote/resolve.go)

    From a cluster name to a session: the hub's client for the local cluster, a
    client built by the provider for a [ClusterTarget]. *)

From S2P Require Import Prelude GoStrings GoTime GoErrors Api Concrete Programs Kube World.

Section Remote.
Context `{QuantityAPI}.

Record TargetSession := mkTargetSession {
  ses_Name : string;
  ses_Client : Client;
  ses_Local : bool;
  ses_SetLeaseOwner : bool
}.

(** [local] is the client of the control cluster; [provider] tells whether one
    is configured. *)
Definition ResolveNamedTarget (hub localClient : Client) (provider : bool) (name : string)
    : prog kube (result TargetSession) :=
  if is_empty name || String.eqb name LocalClusterName then
    Ret (Ok (mkTargetSession LocalClusterName localClient true true))
  else
    (r <- cl_Get hub KTarget (named name) ;;
     match r with
     | Err err =>
         if IsNotFound err then
           Ret (Err (TargetError ReasonTargetNotFound
             ("ClusterTarget " +:+ quote name +:+ " not found") (Some err)))
         else
           Ret (Err (TargetError ReasonTargetClusterUnavailable
             ("get ClusterTarget " +:+ quote name +:+ ": " +:+ Error err) (Some err)))
     | Ok target =>
         if negb (IsZeroPtr target.(ct_Meta).(m_DeletionTimestamp)) then
           Ret (Err (TargetError ReasonTargetClusterUnavailable
             ("ClusterTarget " +:+ quote name +:+ " is deleting") None))
         else if negb (IsEnabled target.(ct_Spec)) then
           Ret (Err (TargetError ReasonTargetDisabled
             ("ClusterTarget " +:+ quote name +:+ " is disabled") (Some ErrTargetDisabled)))
         else if negb provider then
           Ret (Err (TargetError ReasonTargetClusterUnavailable
             "remote cluster provider is not configured" None))
         else
           cl <- call (ProviderClientFor target) ;;
           match cl with
           | Err err =>
               let reason := if IsTargetDisabled err then ReasonTargetDisabled
                             else ReasonTargetClusterUnavailable in
               Ret (Err (TargetError reason (Error err) (Some err)))
           | Ok cl => Ret (Ok (mkTargetSession name cl false false))
           end
     end)%prog.

Definition ResolveTarget (hub localClient : Client) (provider : bool) (leaseObj : EnvironmentLease)
    : prog kube (result TargetSession) :=
  let name := match leaseObj.(lease_Spec).(spec_ClusterRef) with Some n => n | None => "" end in
  ResolveNamedTarget hub localClient provider name.

(** ** What a session promises *)

(** A remote session comes from a target the hub answered for, live and enabled,
    and from the provider's client for that target. *)
Definition sessionFor (hub localClient : Client) (name : string) (tr : trace kube) (s : TargetSession) : Prop :=
  if is_empty name || String.eqb name LocalClusterName
  then s = mkTargetSession LocalClusterName localClient true true /\ tr = []
  else
    exists target cl,
      s = mkTargetSession name cl false false /\
      IsZeroPtr target.(ct_Meta).(m_DeletionTimestamp) = true /\ IsEnabled target.(ct_Spec) = true /\
      tr = [Ev (ProviderClientFor target) (Ok cl); Ev (ClientGet hub KTarget (named name)) (Ok target)].

(** An error of target resolution: always a [TargetError], with one of the
    reasons the controller reports; a target is reported missing exactly when the
    hub answered so. *)
Definition targetFailure (hub : Client) (name : string) (tr : trace kube) (err : error) : Prop :=
  exists reason msg inner, err = TargetError reason msg inner /\
    reason ∈ [ReasonTargetNotFound; ReasonTargetDisabled; ReasonTargetClusterUnavailable] /\
    (reason = ReasonTargetNotFound <->
     exists e, getAnswer KTarget <$> tr = [Some (hub, named name, Err e)] /\ IsNotFound e = true).

Lemma targetFailure_other hub name tr reason msg inner :
  reason = ReasonTargetDisabled \/ reason = ReasonTargetClusterUnavailable ->
  (forall e, getAnswer KTarget <$> tr = [Some (hub, named name, Err e)] -> IsNotFound e = false) ->
  targetFailure hub name tr (TargetError reason msg inner).
Proof.
  intros Hr Htr. exists reason, msg, inner. split; [done|].
  split; [rewrite !elem_of_cons; naive_solver|]. split.
  - intros ->. destruct Hr; discriminate.
  - intros (e & He & Hn). rewrite (Htr e He) in Hn. done.
Qed.

(** Only reads reach the hub while a target is resolved. *)
Definition resolvesOnly (hub : Client) X (h : trace kube) (e : kube X) : Prop :=
  match e with ClientGet c KTarget _ => c = hub | ProviderClientFor _ => True | _ => False end.

Lemma ResolveNamedTarget_safe hub lc provider name :
  safe (resolvesOnly hub) (ResolveNamedTarget hub lc provider name) []
    (fun tr r => match r with
                 | Ok s => sessionFor hub lc name tr s
                 | Err err => targetFailure hub name tr err
                 end).
Proof.
  unfold ResolveNamedTarget.
  destruct (is_empty name || String.eqb name LocalClusterName) eqn:Hloc.
  { cbn. unfold sessionFor. by rewrite Hloc. }
  cbn. split; [done|]. intros [t|err]; cbn.
  - destruct (IsZeroPtr _) eqn:Hd; cbn; [|apply targetFailure_other; [auto|discriminate]].
    destruct (IsEnabled _) eqn:He; cbn; [|apply targetFailure_other; [auto|discriminate]].
    destruct provider; cbn; [|apply targetFailure_other; [auto|discriminate]].
    split; [done|]. intros [cl|err]; cbn.
    + unfold sessionFor. rewrite Hloc. by exists t, cl.
    + apply targetFailure_other; [case_match; auto|discriminate].
  - destruct (IsNotFound err) eqn:Hn; cbn.
    + eexists _, _, _. split; [reflexivity|]. split; [constructor|]. split; [|done]. intros _. by exists err.
    + apply targetFailure_other; [auto|]. intros e [= ->]. done.
Qed.

(** Resolution of a cluster name.  It never writes.  The local name
    needs no call and gives the hub's own client, the only session that may set
    owner references; any other session belongs to a [ClusterTarget] the hub
    returned in this run, not being deleted and enabled, through the provider's
    client for that very object.  Every failure is a [TargetError] with a reason
    of its own, [TargetNotFound] exactly for a missing target. *)
Theorem ResolveNamedTarget_correct (hub lc : Client) (provider : bool) (name : string)
    (tr : trace kube) (r : result TargetSession) :
  runs (ResolveNamedTarget hub lc provider name) [] tr r ->
  guaranteed (resolvesOnly hub) tr /\
  match r with
  | Ok s => sessionFor hub lc name tr s
  | Err err => targetFailure hub name tr err
  end.
Proof. intros Hr. exact (safe_sound _ _ [] tr r _ I (ResolveNamedTarget_safe hub lc provider name) Hr). Qed.

End Remote.

(** ** Witness *)

Lemma ResolveNamedTarget_correct_witness :
  @targetFailure milliQuantity HubClient "edge"
    [Ev (@ClientGet milliQuantity HubClient KTarget (named "edge")) (Err notFound)]
    (TargetError ReasonTargetNotFound ("ClusterTarget " +:+ quote "edge" +:+ " not found") (Some notFound)).
Proof.
  exact (proj2 (@ResolveNamedTarget_correct milliQuantity HubClient HubClient true "edge" _ _
    (@in_world_runs milliQuantity _ (@ResolveNamedTarget milliQuantity HubClient HubClient true "edge")
       (@emptyWorld milliQuantity 0)))).
Defined.
