(* ===== verification/Provider.v ===== *)
(** * The caching client provider (internal/remote/provider.go)

    Remote clients are cached per target under a fingerprint of the target and
    its credentials, with a bound on the cache.  The provider's state is shared
    by the workers: each critical section of its mutex is one atomic effect on
    the cache, at an instant [time.Now()].  Ranging over a Go map has no defined
    order: the order is a parameter. *)

From S2P Require Import Prelude GoStrings GoTime GoErrors Api Concrete Sha Programs Kube.

(** [clientcmd.RESTConfigFromKubeConfig] of k8s.io/client-go, a parameter. *)
Class ClientcmdAPI := { RESTConfigFromKubeConfig : string -> result RESTConfig }.

Definition defaultSecretKey : string := "kubeconfig".
Definition defaultMaxCache : Z := 32.

Record cacheEntry := mkCacheEntry {
  ce_fingerprint : string;
  ce_cl : Client;
  ce_cfg : RESTConfig;
  ce_lastUsed : time
}.
#[export] Instance eta_cacheEntry : Eta cacheEntry :=
  fun r => mkCacheEntry r.(ce_fingerprint) r.(ce_cl) r.(ce_cfg) r.(ce_lastUsed).

Notation cache := (gmap string cacheEntry) (only parsing).

(** The effects of the provider: the hub's secrets, the constructor of clients,
    its own cache under the mutex, and metrics. *)
Inductive penv : Type -> Type :=
  | HubGetSecret (key : ObjectKey) : penv (result Secret)
  | NewClient (cfg : RESTConfig) : penv (result Client)
  | Critical (A : Type) (f : time -> cache -> A * cache) : penv A
  | Inc (name : string) : penv unit.
Arguments Critical {A} f.

Section Provider.
Context `{ClientcmdAPI}.

(** [for name, ent := range cache]: some enumeration of the map. *)
Variable range : cache -> list (string * cacheEntry).

(** [opts.MaxCacheEntries], defaulted. *)
Definition NewProviderMaxCache (MaxCacheEntries : Z) : Z :=
  if MaxCacheEntries <=? 0 then defaultMaxCache else MaxCacheEntries.

Definition Invalidate (targetName : string) : prog penv unit :=
  call (Critical (fun _ c => (tt, delete targetName c))).

(** The inner loop of [evictIfNeededLocked], on [oldestName], [oldestTime] and
    [first]: the entry used longest ago. *)
Definition olderOf (acc : string * time * bool) (ent : string * cacheEntry) : string * time * bool :=
  let '(oldestName, oldestTime, first) := acc in
  if first || Before ent.2.(ce_lastUsed) oldestTime
  then (ent.1, ent.2.(ce_lastUsed), false) else acc.

Definition oldest (ents : list (string * cacheEntry)) : string :=
  (fold_left olderOf ents ("", TimeZero, true)).1.1.

(** The eviction loop; the size of the cache is enough fuel. *)
Fixpoint evictLoop (fuel : nat) (maxCache : Z) (c : cache) : cache :=
  match fuel with
  | O => c
  | S fuel =>
      if maxCache <=? Z.of_nat (size c) then
        let oldestName := oldest (range c) in
        if is_empty oldestName then c else evictLoop fuel maxCache (delete oldestName c)
      else c
  end.

Definition evictIfNeededLocked (maxCache : Z) (c : cache) : cache := evictLoop (size c) maxCache c.

(** [SecretKey], exported by the package and inlined in [loadKubeconfig]. *)
Definition SecretKey (ref : SecretKeySelector) : string :=
  if is_empty ref.(sk_Key) then defaultSecretKey else ref.(sk_Key).

Definition loadKubeconfig (target : ClusterTarget) : prog penv (result (Secret * string)) :=
  let ref := target.(ct_Spec).(ts_SecretRef) in
  let where_ := ref.(sk_Namespace) +:+ "/" +:+ ref.(sk_Name) in
  if is_empty ref.(sk_Name) || is_empty ref.(sk_Namespace) then
    Ret (Err (ErrorString "credentials.secretRef.name and namespace are required"))
  else
    let key := SecretKey ref in
    (r <- call (HubGetSecret (mkObjectKey ref.(sk_Namespace) ref.(sk_Name))) ;;
     match r with
     | Err err =>
         if IsNotFound err
         then Ret (Err (ErrorWrap ("credential secret " +:+ where_ +:+ " not found") err))
         else Ret (Err (ErrorWrap ("get credential secret " +:+ where_) err))
     | Ok secret =>
         match secret.(sec_Data) !! key with
         | Some data =>
             if is_empty data
             then Ret (Err (ErrorString ("credential secret " +:+ where_ +:+ " missing key " +:+ quote key)))
             else Ret (Ok (secret, data))
         | None => Ret (Err (ErrorString ("credential secret " +:+ where_ +:+ " missing key " +:+ quote key)))
         end
     end)%prog.

Definition maxQPS : Z := 50.
Definition maxBurst : Z := 100.

Definition ApplyClientLimits (cfg : RESTConfig) (target : option ClusterTarget) : RESTConfig :=
  let qps := 20 in
  let burst := 40 in
  let '(qps, burst) :=
    match target with
    | None => (qps, burst)
    | Some t =>
        (match t.(ct_Spec).(ts_ClientQPS) with
         | Some q => if 0 <? q then q else qps
         | None => qps
         end,
         match t.(ct_Spec).(ts_ClientBurst) with
         | Some b => if 0 <? b then b else burst
         | None => burst
         end)
    end in
  let qps := if maxQPS <? qps then maxQPS else qps in
  let burst := if maxBurst <? burst then maxBurst else burst in
  cfg <| rc_QPS := qps |> <| rc_Burst := burst |>.

Definition RESTConfigFromKubeconfig (data : string) : result RESTConfig :=
  match RESTConfigFromKubeConfig data with
  | Err err => Err err
  | Ok cfg =>
      let cfg := if cfg.(rc_Timeout) =? 0 then cfg <| rc_Timeout := 30 * Second |> else cfg in
      Ok (ApplyClientLimits cfg None)
  end.

Definition fingerprint (target : ClusterTarget) (secret : Secret) (data : string) : string :=
  let sum := Sum256 (bytes_of_string data) in
  target.(ct_Meta).(m_Name) +:+ "|gen=" +:+ Itoa target.(ct_Meta).(m_Generation)
  +:+ "|enabled=" +:+ bool_string (IsEnabled target.(ct_Spec))
  +:+ "|secretRV=" +:+ secret.(sec_Meta).(m_ResourceVersion)
  +:+ "|sha=" +:+ EncodeToString (take 8 sum).

(** The first critical section: a hit refreshes [lastUsed] of the shared entry. *)
Definition lookupCache (name fp : string) (now : time) (c : cache)
    : option (RESTConfig * Client) * cache :=
  match c !! name with
  | Some ent =>
      if String.eqb ent.(ce_fingerprint) fp
      then (Some (ent.(ce_cfg), ent.(ce_cl)), <[name := ent <| ce_lastUsed := now |>]> c)
      else (None, c)
  | None => (None, c)
  end.

(** The second one. *)
Definition storeCache (maxCache : Z) (name fp : string) (cfg : RESTConfig) (cl : Client)
    (now : time) (c : cache) : unit * cache :=
  (tt, <[name := mkCacheEntry fp cl cfg now]> (evictIfNeededLocked maxCache c)).

(** The Go function also refuses a nil target, which its callers never pass. *)
Definition configAndClient (maxCache : Z) (target : ClusterTarget)
    : prog penv (result (RESTConfig * Client)) :=
  let name := target.(ct_Meta).(m_Name) in
  if negb (IsEnabled target.(ct_Spec)) then Ret (Err ErrTargetDisabled)
  else
    (r <- loadKubeconfig target ;;
     match r with
     | Err err => call (Inc "ClusterConnectionFailuresTotal") ;; Ret (Err err)
     | Ok (secret, data) =>
         let fp := fingerprint target secret data in
         hit <- call (Critical (lookupCache name fp)) ;;
         match hit with
         | Some cc => Ret (Ok cc)
         | None =>
             match RESTConfigFromKubeconfig data with
             | Err err =>
                 call (Inc "ClusterConnectionFailuresTotal") ;;
                 call (Inc "ClusterAuthFailuresTotal") ;;
                 Ret (Err (ErrorWrap ("parse kubeconfig for target " +:+ name) err))
             | Ok cfg =>
                 let cfg := ApplyClientLimits cfg (Some target) in
                 cl <- call (NewClient cfg) ;;
                 match cl with
                 | Err err =>
                     call (Inc "ClusterConnectionFailuresTotal") ;;
                     Ret (Err (ErrorWrap ("build remote client for target " +:+ name) err))
                 | Ok cl =>
                     call (Critical (storeCache maxCache name fp cfg cl)) ;;
                     Ret (Ok (cfg, cl))
                 end
             end
         end
     end)%prog.

Definition ClientFor (maxCache : Z) (target : ClusterTarget) : prog penv (result Client) :=
  (r <- configAndClient maxCache target ;;
   Ret match r with Ok (_, cl) => Ok cl | Err err => Err err end)%prog.

Definition RESTConfigFor (maxCache : Z) (target : ClusterTarget) : prog penv (result RESTConfig) :=
  (r <- configAndClient maxCache target ;;
   Ret match r with Ok (cfg, _) => Ok cfg | Err err => Err err end)%prog.

(** ** The client limits *)

(** The limits of a remote client are always sane: whatever the
    target asks for, the client may make between 1 and 50 requests a second in
    bursts of 1 to 100, a request within the caps is honoured, and nothing else
    of the configuration changes. *)
Theorem ApplyClientLimits_bounds (cfg : RESTConfig) (target : option ClusterTarget) :
  let cfg' := ApplyClientLimits cfg target in
  0 < cfg'.(rc_QPS) <= maxQPS /\ 0 < cfg'.(rc_Burst) <= maxBurst /\
  (forall t q, target = Some t -> t.(ct_Spec).(ts_ClientQPS) = Some q -> 0 < q <= maxQPS ->
     cfg'.(rc_QPS) = q) /\
  (forall t b, target = Some t -> t.(ct_Spec).(ts_ClientBurst) = Some b -> 0 < b <= maxBurst ->
     cfg'.(rc_Burst) = b) /\
  cfg'.(rc_Kubeconfig) = cfg.(rc_Kubeconfig) /\ cfg'.(rc_Timeout) = cfg.(rc_Timeout).
Proof.
  unfold ApplyClientLimits, maxQPS, maxBurst. destruct target as [t|]; cbn.
  - split; [repeat case_match; zify_bool; lia|]. split; [repeat case_match; zify_bool; lia|].
    split; [|split; [|done]]; intros t' x [= <-] ->; intros Hx;
      rewrite (proj2 (Z.ltb_lt 0 x)) by lia; (rewrite (proj2 (Z.ltb_ge _ x)) by lia); done.
  - split; [lia|]. split; [lia|]. split; [naive_solver|]. split; [naive_solver|done].
Qed.

(** ** The cache *)

Hypothesis range_spec : forall c, range c ≡ₚ map_to_list c.

(** The scan finds an entry used no later than any other. *)
Lemma olderOf_spec ents (e0 : string * cacheEntry) :
  exists ent, ent ∈ e0 :: ents /\
    fold_left olderOf ents (e0.1, e0.2.(ce_lastUsed), false) = (ent.1, ent.2.(ce_lastUsed), false) /\
    forall e, e ∈ e0 :: ents -> ent.2.(ce_lastUsed) <= e.2.(ce_lastUsed).
Proof.
  revert e0. induction ents as [|e ents IH]; intros e0; cbn.
  - exists e0. split; [constructor|]. split; [done|]. intros e [->|[]%not_elem_of_nil]%elem_of_cons. lia.
  - unfold Before. destruct (ce_lastUsed e.2 <? ce_lastUsed e0.2) eqn:E; zify_bool.
    + destruct (IH e) as (ent & H1 & H2 & H3). exists ent.
      split; [by constructor|]. split; [done|]. intros x [->|Hx]%elem_of_cons; [|by apply H3].
      specialize (H3 e ltac:(constructor)). lia.
    + destruct (IH e0) as (ent & H1 & H2 & H3). exists ent.
      split; [rewrite !elem_of_cons in *; tauto|]. split; [done|].
      intros x Hx. rewrite !elem_of_cons in Hx. destruct Hx as [->|[->|Hx]].
      * apply H3. constructor.
      * specialize (H3 e0 ltac:(constructor)). lia.
      * apply H3. by constructor.
Qed.

Lemma oldest_spec ents :
  ents <> [] ->
  exists ent, ent ∈ ents /\ oldest ents = ent.1 /\
    forall e, e ∈ ents -> ent.2.(ce_lastUsed) <= e.2.(ce_lastUsed).
Proof.
  destruct ents as [|e0 ents]; [done|]. intros _. unfold oldest. cbn [fold_left olderOf orb].
  destruct (olderOf_spec ents e0) as (ent & H1 & H2 & H3). exists ent. split; [done|].
  split; [|done]. by rewrite H2.
Qed.

(** The key the scan returns for a non-empty cache. *)
Lemma oldest_range (c : cache) :
  c <> ∅ -> exists ent, c !! oldest (range c) = Some ent /\
    forall name e, c !! name = Some e -> ent.(ce_lastUsed) <= e.(ce_lastUsed).
Proof.
  intros Hne. destruct (oldest_spec (range c)) as ([n ent] & H1 & H2 & H3).
  { intros Hnil. apply Hne. apply map_to_list_empty_iff.
    apply Permutation_nil_r. by rewrite <- range_spec, Hnil. }
  rewrite range_spec in H1. apply elem_of_map_to_list in H1. exists ent. cbn in *. rewrite H2.
  split; [done|]. intros name e He. apply (H3 (name, e)). rewrite range_spec. by apply elem_of_map_to_list.
Qed.

(** Entries evicted are older than those kept. *)
Definition evicted_oldest (c c' : cache) : Prop :=
  c' ⊆ c /\ forall n e n' e', c !! n = Some e -> c' !! n = None -> c' !! n' = Some e' ->
    e.(ce_lastUsed) <= e'.(ce_lastUsed).

Lemma evictLoop_spec fuel maxCache (c : cache) :
  (size c <= fuel)%nat -> 0 < maxCache -> c !! "" = None ->
  let c' := evictLoop fuel maxCache c in
  Z.of_nat (size c') < maxCache /\ evicted_oldest c c' /\
  (Z.of_nat (size c) < maxCache -> c' = c) /\ (maxCache <= Z.of_nat (size c) -> Z.of_nat (size c') = maxCache - 1).
Proof.
  revert c. induction fuel as [|fuel IH]; intros c Hf Hmax Hemp; cbn [evictLoop].
  { assert (size c = 0)%nat as Hz by lia. rewrite Hz.
    split; [lia|]. split; [split; [done|congruence]|]. split; [done|lia]. }
  destruct (_ <=? _) eqn:E; zify_bool.
  2: { split; [done|]. split; [split; [done|congruence]|]. split; [done|lia]. }
  assert (Hne : c <> ∅) by (intros ->; rewrite map_size_empty in E; lia).
  destruct (oldest_range c Hne) as (ent & Hent & Hold).
  destruct (is_empty (oldest (range c))) eqn:He.
  { apply is_empty_true in He. rewrite He in Hent. congruence. }
  set (c1 := delete (oldest (range c)) c).
  assert (Hsz : size c1 = (size c - 1)%nat).
  { subst c1. rewrite map_size_delete, Hent. lia. }
  destruct (IH c1) as (H1 & [H2 H2'] & H3 & H4); [lia|done|by apply lookup_delete_None; right|].
  split; [done|]. split; [|split; [lia|]].
  - split; [transitivity c1; [done|apply delete_subseteq]|].
    intros n e n' e' Hn Hn1 Hn'. destruct (decide (n = oldest (range c))) as [->|Hno].
    + rewrite Hn in Hent. injection Hent as ->. apply (Hold n').
      eapply lookup_weaken; [exact Hn'|]. transitivity c1; [done|apply delete_subseteq].
    + apply (H2' n e n' e'); [|done|done]. subst c1. by rewrite lookup_delete_ne.
  - intros _. destruct (Z.lt_ge_cases (Z.of_nat (size c1)) maxCache) as [Hlt|Hge].
    + rewrite H3 by done. lia.
    + by apply H4.
Qed.

(** Storing a client.  The eviction loop terminates and leaves room:
    after a store the cache holds the new client for its target and at most
    [maxCache] entries; nothing is evicted while there is room, exactly one
    client when the cache is full, and every evicted client was used no later
    than any client that stays. *)
Theorem storeCache_correct (maxCache : Z) name fp cfg cl (now : time) (c : cache) :
  0 < maxCache -> Z.of_nat (size c) <= maxCache -> c !! "" = None ->
  let c' := (storeCache maxCache name fp cfg cl now c).2 in
  c' !! name = Some (mkCacheEntry fp cl cfg now) /\
  Z.of_nat (size c') <= maxCache /\
  (forall n, c' !! n <> None -> n = name \/ c !! n <> None) /\
  (Z.of_nat (size c) < maxCache -> forall n, n <> name -> c' !! n = c !! n) /\
  (forall n e n' e', n <> name -> n' <> name -> c !! n = Some e -> c' !! n = None -> c' !! n' = Some e' ->
     e.(ce_lastUsed) <= e'.(ce_lastUsed)).
Proof.
  intros Hmax Hsz Hemp. unfold storeCache, evictIfNeededLocked. cbn [snd].
  destruct (evictLoop_spec (size c) maxCache c) as (H1 & [H2 H3] & H4 & _); [lia|done|done|].
  set (c1 := evictLoop _ _ _) in *. split; [apply lookup_insert_eq|]. split; [|split; [|split]].
  - rewrite map_size_insert. case_match; cbn; lia.
  - intros n Hn. destruct (decide (n = name)); [by left|]. right. rewrite lookup_insert_ne in Hn by done.
    destruct (c1 !! n) as [e|] eqn:He; [|done]. by rewrite (lookup_weaken _ _ _ _ He H2).
  - intros Hlt n Hn. rewrite lookup_insert_ne by done. by rewrite H4.
  - intros n e n' e' Hn Hn' Hc Hc1 Hc1'. rewrite lookup_insert_ne in Hc1, Hc1' by done. by eapply H3.
Qed.

(** When a client may be reused.  A disabled target never gets a
    client and costs no call; a cache hit returns the stored client only if the
    fingerprint stored with it is the current one, and then no client is built;
    a miss leaves the cache as it was. *)
Theorem lookupCache_correct (name fp : string) (now : time) (c : cache) target maxCache :
  (IsEnabled target.(ct_Spec) = false -> configAndClient maxCache target = Ret (Err ErrTargetDisabled)) /\
  (forall cfg cl, (lookupCache name fp now c).1 = Some (cfg, cl) <->
     exists used, c !! name = Some (mkCacheEntry fp cl cfg used)) /\
  ((lookupCache name fp now c).1 = None -> (lookupCache name fp now c).2 = c) /\
  size (lookupCache name fp now c).2 = size c.
Proof.
  split; [unfold configAndClient; by intros ->|]. unfold lookupCache.
  destruct (c !! name) as [[fp' cl' cfg' used]|] eqn:Hc; cbn.
  - destruct (String.eqb_spec fp' fp) as [->|Hne]; cbn.
    + split; [intros; split; [intros [= <- <-]; by exists used|intros (u & [= -> -> _]); done]|].
      split; [done|]. rewrite map_size_insert_Some by (by rewrite Hc). done.
    + split; [intros; split; [done|intros (u & [= ? _ _ _]); done]|]. done.
  - split; [intros; split; [done|intros (u & ?); done]|]. done.
Qed.

End Provider.

(** ** Witness *)

(** A client that reads a kubeconfig as its own name. *)
Definition plainClientcmd : ClientcmdAPI :=
  {| RESTConfigFromKubeConfig data := Ok (mkRESTConfig data 0 0 0) |}.

Definition sampleEntry : cacheEntry := mkCacheEntry "fp" (RemoteClient 1) (mkRESTConfig "" 0 20 40) 5.

Lemma storeCache_correct_witness :
  Z.of_nat (size (@storeCache map_to_list 1 "b" "fp2" (mkRESTConfig "" 0 20 40) (RemoteClient 2) 9
    {["a" := sampleEntry]}).2) <= 1.
Proof.
  refine (proj1 (proj2 (@storeCache_correct map_to_list (fun c => reflexivity _) 1 "b" "fp2"
    (mkRESTConfig "" 0 20 40) (RemoteClient 2) 9 {["a" := sampleEntry]} _ _ _)));
    vm_compute; (reflexivity || discriminate).
Defined.
