(* ===== verification/LeaseCommon.v ===== *)
(** * Shared parts of the lease reconciler (internal/controller)

    The reconciler's configuration, its results, the status writer, the
    finalizer, target errors and operation metrics of
    environmentlease_controller.go. *)

From S2P Require Import Prelude GoStrings GoTime GoErrors Api LeaseConditions LeaseStatus.
From S2P Require Import Programs Kube Outage Remote.

(** [controllerutil] of controller-runtime, a parameter. *)
Class ControllerutilAPI `{QuantityAPI} := {
  ContainsFinalizer : list string -> string -> bool;
  AddFinalizer : list string -> string -> list string;
  RemoveFinalizer : list string -> string -> list string;
  SetControllerReference : EnvironmentLease -> ObjectMeta -> result ObjectMeta
}.

(** "ContainsFinalizer checks an Object that the provided finalizer is present",
    "AddFinalizer ... adds the provided finalizer if not present", "RemoveFinalizer
    ... removes the provided finalizer if present", "SetControllerReference sets
    owner as a Controller OwnerReference on controlled". *)
Class ControllerutilLaws `{ControllerutilAPI} := {
  ContainsFinalizer_spec : forall fs f, ContainsFinalizer fs f = true <-> f ∈ fs;
  AddFinalizer_spec : forall fs f g, g ∈ AddFinalizer fs f <-> g ∈ fs \/ g = f;
  RemoveFinalizer_spec : forall fs f g, g ∈ RemoveFinalizer fs f <-> g ∈ fs /\ g <> f;
  SetControllerReference_meta : forall l m m', SetControllerReference l m = Ok m' ->
    exists refs, m' = m <| m_OwnerReferences := refs |>
}.

(** [EnvironmentLeaseReconciler]: its hub client is [HubClient]; the optional
    collaborators are told by whether they are configured. *)
Record EnvironmentLeaseReconciler := mkReconciler {
  rec_ControlClusterID : string;
  rec_Provider : bool;
  rec_Outages : bool;
  rec_Gate : bool;
  rec_Recorder : bool
}.

(** [ctrl.Result]; a reconcile returns it with an error or nil. *)
Record CtrlResult := mkCtrlResult {
  res_Requeue : bool;
  res_RequeueAfter : duration
}.
Definition noResult : CtrlResult := mkCtrlResult false 0.
Definition requeueAfter (d : duration) : CtrlResult := mkCtrlResult false d.

Definition cleanupRequeueAfter : duration := 5 * Second.
Definition targetUnavailableAfter : duration := 30 * Second.
Definition remoteDriftRequeue : duration := 2 * Minute.
Definition indexStatusNamespace : string := ".status.namespace".
Definition indexPolicyRefName : string := ".spec.policyRef.name".
Definition indexClusterRefName : string := ".spec.clusterRef.name".

Definition eventEnvironmentReady : string := "EnvironmentProvisioned".
Definition eventLeaseRenewed : string := "LeaseRenewed".
Definition eventLeaseExpiring : string := "LeaseExpiring".
Definition eventLeaseExpired : string := "LeaseExpired".
Definition eventLeaseIdleExpired : string := "LeaseIdleExpired".
Definition eventSourceClosed : string := "SourceClosed".
Definition eventCleanupStarted : string := "CleanupStarted".
Definition eventCleanupCompleted : string := "CleanupCompleted".
Definition eventCleanupFailed : string := "CleanupFailed".

Section Common.
Context `{QuantityAPI} `{ConditionsAPI} `{!ControllerutilAPI} `{RetryAPI}.
Variable r : EnvironmentLeaseReconciler.

Implicit Types (leaseObj : EnvironmentLease) (sess : TargetSession).

(** [r.now()]. *)
Definition now_ : prog kube time := call Now.

(** The event, when there is a recorder. *)
Definition emit leaseObj (t : EventType) (reason message : string) : prog kube unit :=
  when r.(rec_Recorder) (call (RecorderEvent leaseObj t reason message)).

(** [client.ObjectKeyFromObject(leaseObj)]. *)
Definition leaseKey leaseObj : ObjectKey := ObjectKeyFromMeta leaseObj.(lease_Meta).

(** [seconds] is a count of nanoseconds here; -1 stands for "not measured". *)
Definition observeClusterOp sess (op : string) (err : option error) (seconds : duration)
    : prog kube unit :=
  if sess.(ses_Local) then Ret tt
  else
    let result := match err with Some _ => ResultFailure | None => ResultSuccess end in
    ObserveClusterOp sess.(ses_Name) op result seconds.

Definition observeOp sess (op : string) (err : option error) : prog kube unit :=
  observeClusterOp sess op err (-1).

(** The gate around the operations on a session's target. *)
Definition gated {A} sess (body : prog kube A) : prog kube A :=
  if r.(rec_Gate)
  then with_release (call (GateAcquire sess.(ses_Name))) (call (GateRelease sess.(ses_Name))) body
  else body.

(** One attempt of [patchStatusIfChanged]: the closure writes [leaseObj.Status]. *)
Definition patchStatusAttempt (desired : EnvironmentLeaseStatus) leaseObj
    : prog kube (EnvironmentLease * option error) :=
  (g <- cl_Get HubClient KLease (leaseKey leaseObj) ;;
   match g with
   | Err err => Ret (leaseObj, Some err)
   | Ok latest =>
       let latest := latest <| lease_Status := desired |> in
       u <- cl_StatusUpdate HubClient KLease latest ;;
       match u with
       | Err err => Ret (leaseObj, Some (ErrorWrap ("update status for " +:+ lease_Name leaseObj) err))
       | Ok latest => Ret (leaseObj <| lease_Status := latest.(lease_Status) |>, None)
       end
   end)%prog.

Definition patchStatusIfChanged leaseObj (before : EnvironmentLeaseStatus)
    : prog kube (EnvironmentLease * option error) :=
  let desired := leaseObj.(lease_Status) in
  if StatusEqual before desired then Ret (leaseObj, None)
  else RetryOnConflict (patchStatusAttempt desired) leaseObj.

(** One attempt of [removeLeaseFinalizer]. *)
Definition removeFinalizerAttempt leaseObj : prog kube (unit * option error) :=
  (g <- cl_Get HubClient KLease (leaseKey leaseObj) ;;
   match g with
   | Err err => if IsNotFound err then Ret (tt, None) else Ret (tt, Some err)
   | Ok current =>
       let m := current.(lease_Meta) in
       if negb (ContainsFinalizer m.(m_Finalizers) FinalizerName) then Ret (tt, None)
       else
         let current := current <| lease_Meta :=
           m <| m_Finalizers := RemoveFinalizer m.(m_Finalizers) FinalizerName |> |> in
         u <- cl_Update HubClient KLease current ;;
         Ret (tt, err_of u)
   end)%prog.

Definition removeLeaseFinalizer leaseObj : prog kube (option error) :=
  (e <- RetryOnConflict (fun _ => removeFinalizerAttempt leaseObj) tt ;; Ret e.2)%prog.

(** [handleTargetError], on the lease the caller holds. *)
Definition handleTargetError leaseObj (err : error)
    : prog kube (EnvironmentLease * (CtrlResult * option error)) :=
  let cluster := match leaseObj.(lease_Status).(st_Cluster) with Some c => c.(cs_Name) | None => "" end in
  let '(reason, msg) :=
    match AsTargetError err with
    | Some (reason, msg) => (reason, msg)
    | None => (ReasonTargetClusterUnavailable, Error err)
    end in
  let leaseObj := MarkFailed leaseObj reason msg in
  let leaseObj := SetCondition leaseObj ConditionTargetClusterReady ConditionFalseStatus reason msg in
  (inc "ProvisionFailuresTotal" ;;
   wait <-
     (if r.(rec_Outages) && negb (is_empty cluster) && negb (String.eqb cluster LocalClusterName) then
        t <- now_ ;; call (OutageMarkUnavailable cluster t)
      else Ret targetUnavailableAfter) ;;
   Ret (leaseObj, (requeueAfter wait, None)))%prog.

(** [len(a) != len(b)], then [b[k] != v] for every entry of [a]. *)
Definition mapsEqual (a b : labels) : bool :=
  if bool_decide (size a <> size b) then false
  else forallb (fun '(k, v) => String.eqb (get b k) v) (map_to_list a).

End Common.
