(* ===== verification/LeaseProvision.v ===== *)
(** * Provisioning an environment (internal/controller)

    The active path of the lease reconciler: choosing and opening a session on
    the target cluster, and driving the namespace, quota, limit range and network
    policy of the lease to what its specification asks for. *)

From S2P Require Import Prelude GoStrings GoTime GoErrors Api LeaseConditions LeaseStatus Resources.
From S2P Require Import Policy LeaseExpiration LeaseWarnings Programs Kube Identity Placement Outage Remote LeaseCommon.

Section Provision.
Context `{QuantityAPI} `{ConditionsAPI} `{SelectorAPI} `{!ControllerutilAPI} `{RetryAPI}.
Variable r : EnvironmentLeaseReconciler.

Implicit Types (leaseObj : EnvironmentLease) (sess : TargetSession).

(** ** The target *)

(** The outcome of [resolveTargetSessionForProvision]: a session, a result to
    return at once, or an error. *)
Inductive Provisioning :=
  | ProvisionOn (sess : TargetSession)
  | ProvisionStop (res : CtrlResult)
  | ProvisionFail (err : error).

(** The remote identity of a session that is not local: the target's UID and
    recorded identity, or else a probe. *)
Definition captureIdentity leaseObj sess : prog kube (EnvironmentLease * option error) :=
  let cluster := default (mkClusterStatus "" "" "") leaseObj.(lease_Status).(st_Cluster) in
  (g <- cl_Get HubClient KTarget (named sess.(ses_Name)) ;;
   let cluster :=
     match g with
     | Ok target =>
         let cluster := cluster <| cs_TargetUID := target.(ct_Meta).(m_UID) |> in
         if negb (is_empty target.(ct_Status).(tst_RemoteIdentity))
         then cluster <| cs_RemoteIdentity := target.(ct_Status).(tst_RemoteIdentity) |> else cluster
     | Err _ => cluster
     end in
   let leaseObj := leaseObj <|@ st_Cluster := Some cluster |> in
   if is_empty cluster.(cs_RemoteIdentity) then
     id <- ProbeRemoteIdentity sess.(ses_Client) ;;
     match id with
     | Err idErr => Ret (leaseObj, Some (ErrorWrap "probe remote identity" idErr))
     | Ok id => Ret (leaseObj <|@ st_Cluster := Some (cluster <| cs_RemoteIdentity := id |>) |>, None)
     end
   else Ret (leaseObj, None))%prog.

(** From a placement decision to a session: the shared backoff, then the target. *)
Definition openSession leaseObj (decision : Decision) : prog kube (EnvironmentLease * Provisioning) :=
  let name := decision.(ClusterName) in
  (wait <- (if r.(rec_Outages) then (t <- now_ ;; call (OutageRequeueAfter name t)) else Ret 0) ;;
   if 0 <? wait then
     let leaseObj := SetCondition leaseObj ConditionTargetClusterReady ConditionFalseStatus
       ReasonTargetClusterUnavailable ("target " +:+ name +:+ " in shared outage backoff") in
     Ret (leaseObj, ProvisionStop (requeueAfter wait))
   else
     let clusterStatus :=
       match leaseObj.(lease_Status).(st_Cluster) with
       | Some c =>
           if String.eqb c.(cs_Name) name
           then mkClusterStatus name c.(cs_TargetUID) c.(cs_RemoteIdentity)
           else mkClusterStatus name "" ""
       | None => mkClusterStatus name "" ""
       end in
     let leaseObj := leaseObj <|@ st_Cluster := Some clusterStatus |> in
     s <- ResolveNamedTarget HubClient HubClient r.(rec_Provider) name ;;
     match s with
     | Err err => Ret (leaseObj, ProvisionFail err)
     | Ok sess =>
         if sess.(ses_Local) then Ret (leaseObj, ProvisionOn sess)
         else
           '(leaseObj, err) <- captureIdentity leaseObj sess ;;
           match err with
           | Some err => Ret (leaseObj, ProvisionFail err)
           | None =>
               when r.(rec_Outages) (call (OutageClear sess.(ses_Name))) ;;
               Ret (leaseObj, ProvisionOn sess)
           end
     end)%prog.

Definition resolveTargetSessionForProvision leaseObj (pol : option EnvironmentLeasePolicy)
    : prog kube (EnvironmentLease * Provisioning) :=
  (inc "PlacementAttemptsTotal" ;;
   counts <- CountActiveLeases HubClient ;;
   match counts with
   | Err err => Ret (leaseObj, ProvisionFail err)
   | Ok counts =>
       d <- Decide HubClient leaseObj pol (Some counts) ;;
       match d with
       | Err err =>
           if Contains (Error err) ReasonPolicyViolation then
             let leaseObj := MarkFailed leaseObj ReasonPolicyViolation (Error err) in
             inc "ProvisionFailuresTotal" ;; inc "PolicyRejectionsTotal" ;;
             Ret (leaseObj, ProvisionStop noResult)
           else Ret (leaseObj, ProvisionFail err)
       | Ok decision =>
           if decision.(Pending) then
             inc "PlacementFailuresTotal" ;;
             let leaseObj := MarkPending leaseObj ReasonNoMatchingCluster decision.(Message) in
             let leaseObj := SetCondition leaseObj ConditionTargetClusterReady ConditionFalseStatus
               ReasonNoMatchingCluster decision.(Message) in
             Ret (leaseObj, ProvisionStop (requeueAfter targetUnavailableAfter))
           else openSession leaseObj decision
       end
   end)%prog.

(** ** The namespace *)

Definition managedAnnotations leaseObj (controlClusterID remoteIdentity : string) : labels :=
  stampAnnotations leaseObj.(lease_Spec).(spec_Namespace).(nsp_Annotations) (lease_UID leaseObj)
    controlClusterID remoteIdentity.

(** The metadata [ensureExistingNamespace] wants an adopted namespace to have. *)
Definition adoptedMeta leaseObj (remoteID : string) (m : ObjectMeta) : ObjectMeta :=
  let nsSpec := leaseObj.(lease_Spec).(spec_Namespace) in
  m <| m_Labels := MergeLabels (ManagedLabels (lease_Name leaseObj)) nsSpec.(nsp_Labels) |>
    <| m_Annotations := stampAnnotations (nsSpec.(nsp_Annotations) ∪ m.(m_Annotations))
         (lease_UID leaseObj) r.(rec_ControlClusterID) remoteID |>.

Definition ensureExistingNamespace sess leaseObj (name : string) : prog kube (result (string * bool)) :=
  let remoteID := statusRemoteIdentity leaseObj in
  match DesiredNamespace leaseObj name r.(rec_ControlClusterID) remoteID with
  | Err err => Ret (Err err)
  | Ok desired =>
      (g <- cl_Get sess.(ses_Client) KNamespace (named name) ;;
       match g with
       | Err err =>
           if IsNotFound err then
             c <- cl_Create sess.(ses_Client) KNamespace desired ;;
             match c with
             | Err err => Ret (Err (ErrorWrap ("create namespace " +:+ name) err))
             | Ok _ => Ret (Ok (name, true))
             end
           else Ret (Err (ErrorWrap ("get namespace " +:+ name) err))
       | Ok existing =>
           if negb (IsZeroPtr existing.(ns_Meta).(m_DeletionTimestamp)) then
             Ret (Err (ErrorString ("namespace " +:+ name +:+ " is terminating; waiting")))
           else if negb (CanAdoptNamespace (Some existing) (lease_Name leaseObj) (lease_UID leaseObj)) then
             Ret (Err (ErrorString (ReasonNamespaceAdoptRefused
                                    +:+ ": refusing to adopt namespace " +:+ name)))
           else
             let patched := mkNamespace (adoptedMeta leaseObj remoteID existing.(ns_Meta)) in
             if mapsEqual existing.(ns_Meta).(m_Labels) patched.(ns_Meta).(m_Labels)
                && mapsEqual existing.(ns_Meta).(m_Annotations) patched.(ns_Meta).(m_Annotations)
             then Ret (Ok (name, false))
             else
               p <- cl_Patch sess.(ses_Client) KNamespace patched existing ;;
               match p with
               | Err err => Ret (Err (ErrorWrap ("patch namespace " +:+ name) err))
               | Ok _ => Ret (Ok (name, false))
               end
       end)%prog
  end.

(** The namespace created when only a [generateName] is given. *)
Definition generatedNamespace leaseObj : Namespace :=
  let nsSpec := leaseObj.(lease_Spec).(spec_Namespace) in
  mkNamespace (emptyMeta
    <| m_GenerateName := nsSpec.(nsp_GenerateName) |>
    <| m_Labels := MergeLabels (ManagedLabels (lease_Name leaseObj)) nsSpec.(nsp_Labels) |>
    <| m_Annotations := managedAnnotations leaseObj r.(rec_ControlClusterID)
                          (statusRemoteIdentity leaseObj) |>).

Definition ensureNamespace sess leaseObj : prog kube (result (string * bool)) :=
  let nsSpec := leaseObj.(lease_Spec).(spec_Namespace) in
  if negb (is_empty leaseObj.(lease_Status).(st_Namespace)) then
    ensureExistingNamespace sess leaseObj leaseObj.(lease_Status).(st_Namespace)
  else if negb (is_empty nsSpec.(nsp_Name)) then ensureExistingNamespace sess leaseObj nsSpec.(nsp_Name)
  else
    (c <- cl_Create sess.(ses_Client) KNamespace (generatedNamespace leaseObj) ;;
     match c with
     | Err err => Ret (Err (ErrorWrap ("create namespace with generateName "
                                       +:+ quote nsSpec.(nsp_GenerateName)) err))
     | Ok ns => Ret (Ok (ns.(ns_Meta).(m_Name), true))
     end)%prog.

(** ** The objects inside the namespace *)

(** [if sess.SetLeaseOwner { SetControllerReference(leaseObj, obj) }]. *)
Definition setOwner sess leaseObj (m : ObjectMeta) : result ObjectMeta :=
  if sess.(ses_SetLeaseOwner) then SetControllerReference leaseObj m else Ok m.

Definition ensureResourceQuota sess leaseObj (namespace : string) : prog kube (option error) :=
  let where_ := namespace +:+ "/" +:+ ResourceQuotaName in
  match DesiredResourceQuota leaseObj namespace with
  | None => Ret None
  | Some desired =>
      match setOwner sess leaseObj desired.(rq_Meta) with
      | Err err => Ret (Some (ErrorWrap "set owner reference on ResourceQuota" err))
      | Ok m =>
          let desired := desired <| rq_Meta := m |> in
          (g <- cl_Get sess.(ses_Client) KQuota (ObjectKeyFromMeta desired.(rq_Meta)) ;;
           match g with
           | Err err =>
               if IsNotFound err then
                 c <- cl_Create sess.(ses_Client) KQuota desired ;;
                 match c with
                 | Err err => Ret (Some (ErrorWrap ("create ResourceQuota " +:+ where_) err))
                 | Ok _ => Ret None
                 end
               else Ret (Some (ErrorWrap ("get ResourceQuota " +:+ where_) err))
           | Ok existing =>
               if ResourceListsEqual existing.(rq_Hard) desired.(rq_Hard)
                  && mapsEqual existing.(rq_Meta).(m_Labels) desired.(rq_Meta).(m_Labels)
               then Ret None
               else
                 let m := existing.(rq_Meta) <| m_Labels := desired.(rq_Meta).(m_Labels) |> in
                 match setOwner sess leaseObj m with
                 | Err err => Ret (Some err)
                 | Ok m =>
                     p <- cl_Patch sess.(ses_Client) KQuota (mkResourceQuota m desired.(rq_Hard)) existing ;;
                     match p with
                     | Err err => Ret (Some (ErrorWrap ("patch ResourceQuota " +:+ where_) err))
                     | Ok _ => Ret None
                     end
                 end
           end)%prog
      end
  end.

Definition ensureLimitRange sess leaseObj (namespace : string) : prog kube (option error) :=
  let where_ := namespace +:+ "/" +:+ LimitRangeName in
  match DesiredLimitRange leaseObj namespace with
  | None => Ret None
  | Some desired =>
      match setOwner sess leaseObj desired.(lr_Meta) with
      | Err err => Ret (Some (ErrorWrap "set owner reference on LimitRange" err))
      | Ok m =>
          let desired := desired <| lr_Meta := m |> in
          (g <- cl_Get sess.(ses_Client) KLimitRange (ObjectKeyFromMeta desired.(lr_Meta)) ;;
           match g with
           | Err err =>
               if IsNotFound err then
                 c <- cl_Create sess.(ses_Client) KLimitRange desired ;;
                 match c with
                 | Err err => Ret (Some (ErrorWrap ("create LimitRange " +:+ where_) err))
                 | Ok _ => Ret None
                 end
               else Ret (Some (ErrorWrap ("get LimitRange " +:+ where_) err))
           | Ok existing =>
               let m := existing.(lr_Meta) <| m_Labels := desired.(lr_Meta).(m_Labels) |> in
               match setOwner sess leaseObj m with
               | Err err => Ret (Some err)
               | Ok m =>
                   p <- cl_Patch sess.(ses_Client) KLimitRange (mkLimitRange m desired.(lr_Limits)) existing ;;
                   match p with
                   | Err err => Ret (Some (ErrorWrap ("patch LimitRange " +:+ where_) err))
                   | Ok _ => Ret None
                   end
               end
           end)%prog
      end
  end.

Definition ensureNetworkPolicy sess leaseObj (namespace : string) : prog kube (option error) :=
  let where_ := namespace +:+ "/" +:+ NetworkPolicyName in
  match DesiredNetworkPolicy leaseObj namespace with
  | None => Ret None
  | Some desired =>
      match setOwner sess leaseObj desired.(npo_Meta) with
      | Err err => Ret (Some (ErrorWrap "set owner reference on NetworkPolicy" err))
      | Ok m =>
          let desired := desired <| npo_Meta := m |> in
          (g <- cl_Get sess.(ses_Client) KNetworkPolicy (ObjectKeyFromMeta desired.(npo_Meta)) ;;
           match g with
           | Err err =>
               if IsNotFound err then
                 c <- cl_Create sess.(ses_Client) KNetworkPolicy desired ;;
                 match c with
                 | Err err => Ret (Some (ErrorWrap ("create NetworkPolicy " +:+ where_) err))
                 | Ok _ => Ret None
                 end
               else Ret (Some (ErrorWrap ("get NetworkPolicy " +:+ where_) err))
           | Ok existing =>
               let m := existing.(npo_Meta) <| m_Labels := desired.(npo_Meta).(m_Labels) |> in
               match setOwner sess leaseObj m with
               | Err err => Ret (Some err)
               | Ok m =>
                   p <- cl_Patch sess.(ses_Client) KNetworkPolicy (mkNetworkPolicy m desired.(npo_Spec)) existing ;;
                   match p with
                   | Err err => Ret (Some (ErrorWrap ("patch NetworkPolicy " +:+ where_) err))
                   | Ok _ => Ret None
                   end
               end
           end)%prog
      end
  end.

(** ** Warnings *)

(** The loop of [emitWarnings]. *)
Fixpoint warnLoop leaseObj (deadline : time) (pending : list duration) : prog kube EnvironmentLease :=
  match pending with
  | [] => Ret leaseObj
  | w :: pending =>
      (t <- now_ ;;
       let remaining := Sub deadline t in
       let msg := WarningMessage (lease_Name leaseObj) remaining in
       emit r leaseObj EventTypeWarning eventLeaseExpiring msg ;;
       inc "WarningEventsTotal" ;;
       warnLoop (leaseObj <|@ st_WarningsDelivered :=
                   MarkWarningDelivered leaseObj.(lease_Status).(st_WarningsDelivered) w |>)
                deadline pending)%prog
  end.

Definition emitWarnings leaseObj : prog kube EnvironmentLease :=
  match EffectiveDeadline leaseObj with
  | None => Ret leaseObj
  | Some deadline =>
      (t <- now_ ;;
       let pending := PendingWarnings t deadline
         (WarningDurations leaseObj.(lease_Spec).(spec_Warnings))
         leaseObj.(lease_Status).(st_WarningsDelivered) in
       warnLoop leaseObj deadline pending)%prog
  end.

(** ** The active path *)

(** [Status().Update(leaseObj)], then [Get] into the same object, with the
    effective specification and the cluster written back over what was read. *)
Definition persistAndReload leaseObj (resolved : Resolved) (clusterName what : string)
    : prog kube (EnvironmentLease * option error) :=
  (u <- cl_StatusUpdate HubClient KLease leaseObj ;;
   match u with
   | Err err => Ret (leaseObj, Some (ErrorWrap ("persist status." +:+ what) err))
   | Ok leaseObj =>
       g <- cl_Get HubClient KLease (leaseKey leaseObj) ;;
       match g with
       | Err err => Ret (leaseObj, Some err)
       | Ok leaseObj =>
           let leaseObj := leaseObj <|@ st_Effective := Some (ToEffectiveStatus resolved) |> in
           Ret (leaseObj <|@ st_Cluster := Some (mkClusterStatus clusterName "" "") |>, None)
       end
   end)%prog.

(** A failure to provision: the metric of the operation, the condition, the
    error for the work queue. *)
Definition provisionFailed sess leaseObj (op : string) (reason : string) (err : error)
    : prog kube (EnvironmentLease * (CtrlResult * option error)) :=
  (observeOp sess op (Some err) ;;
   let leaseObj := MarkFailed leaseObj reason (Error err) in
   inc "ProvisionFailuresTotal" ;;
   Ret (leaseObj, (noResult, Some err)))%prog.

(** The three ensure steps in order, up to the first error. *)
Definition ensureObjects sess (working : EnvironmentLease) (nsName : string)
    : prog kube (option (string * error)) :=
  (e <- ensureResourceQuota sess working nsName ;;
   match e with
   | Some err => Ret (Some (ReasonResourceQuotaCreationFailed, err))
   | None =>
       e <- ensureLimitRange sess working nsName ;;
       match e with
       | Some err => Ret (Some (ReasonLimitRangeCreationFailed, err))
       | None =>
           e <- ensureNetworkPolicy sess working nsName ;;
           match e with
           | Some err => Ret (Some (ReasonNetworkPolicyCreationFailed, err))
           | None => Ret None
           end
       end
   end)%prog.

(** The end of [reconcileActive]: warnings, readiness, the first-time event, and
    when to come back. *)
Definition finishActive sess leaseObj (previousPhase : LeasePhase) (wasReady : bool) (nsName : string)
    : prog kube (EnvironmentLease * (CtrlResult * option error)) :=
  (leaseObj <- emitWarnings leaseObj ;;
   t <- now_ ;;
   let expiring := IsExpiringWindow leaseObj t in
   let leaseObj := MarkReady leaseObj expiring in
   let leaseObj := SetCondition leaseObj ConditionTargetClusterReady ConditionTrueStatus
     ReasonEnvironmentReady ("Using cluster " +:+ sess.(ses_Name)) in
   when (negb wasReady && negb (bool_decide (previousPhase = LeasePhaseActive))
         && negb (bool_decide (previousPhase = LeasePhaseExpiring)))
     (inc "LeasesCreatedTotal" ;;
      emit r leaseObj EventTypeNormal eventEnvironmentReady
        ("Environment provisioned in namespace " +:+ nsName +:+ " on cluster " +:+ sess.(ses_Name))) ;;
   match EffectiveDeadline leaseObj with
   | None =>
       if negb sess.(ses_Local) then Ret (leaseObj, (requeueAfter remoteDriftRequeue, None))
       else Ret (leaseObj, (noResult, None))
   | Some deadline =>
       t <- now_ ;;
       let until := NextReconcileAfter t deadline
         (WarningDurations leaseObj.(lease_Spec).(spec_Warnings))
         leaseObj.(lease_Status).(st_WarningsDelivered) in
       let until := if negb sess.(ses_Local) && ((until =? 0) || (remoteDriftRequeue <? until))
                    then remoteDriftRequeue else until in
       Ret (leaseObj, (requeueAfter until, None))
   end)%prog.

(** From the namespace on. *)
Definition provisionNamespace sess leaseObj (previousPhase : LeasePhase) (resolved : Resolved) (wasReady : bool)
    : prog kube (EnvironmentLease * (CtrlResult * option error)) :=
  let leaseObj :=
    if negb wasReady && negb (bool_decide (leaseObj.(lease_Status).(st_Phase) = LeasePhaseFailed))
    then MarkProvisioning leaseObj "Provisioning managed environment" else leaseObj in
  let working :=
    match resolved.(r_NetworkPolicy) with
    | Some np => leaseObj <| lease_Spec := leaseObj.(lease_Spec) <| spec_NetworkPolicy := Some np |> |>
    | None => leaseObj
    end in
  (n <- ensureNamespace sess leaseObj ;;
   match n with
   | Err err => provisionFailed sess leaseObj "create" ReasonNamespaceCreationFailed err
   | Ok (nsName, _) =>
       observeOp sess "create" None ;;
       '(leaseObj, err) <-
         (if negb (String.eqb leaseObj.(lease_Status).(st_Namespace) nsName)
          then persistAndReload (leaseObj <|@ st_Namespace := nsName |>) resolved sess.(ses_Name) "namespace"
          else Ret (leaseObj, None)) ;;
       match err with
       | Some err => Ret (leaseObj, (noResult, Some err))
       | None =>
           e <- ensureObjects sess working nsName ;;
           match e with
           | Some (reason, err) => provisionFailed sess leaseObj "update" reason err
           | None => finishActive sess leaseObj previousPhase wasReady nsName
           end
       end
   end)%prog.

(** [reconcileActive] under the gate, with the session in hand. *)
Definition provisionOn sess leaseObj (previousPhase : LeasePhase) (resolved : Resolved) (wasReady : bool)
    : prog kube (EnvironmentLease * (CtrlResult * option error)) :=
  let leaseObj :=
    match leaseObj.(lease_Status).(st_Cluster) with
    | None => leaseObj <|@ st_Cluster := Some (mkClusterStatus sess.(ses_Name) "" "") |>
    | Some c => leaseObj <|@ st_Cluster := Some (c <| cs_Name := sess.(ses_Name) |>) |>
    end in
  let leaseObj := SetCondition leaseObj ConditionTargetClusterReady ConditionTrueStatus
    ReasonEnvironmentReady ("Using cluster " +:+ sess.(ses_Name)) in
  ('(leaseObj, err) <-
     (if negb (bool_decide (previousPhase = LeasePhaseActive))
         && negb (bool_decide (previousPhase = LeasePhaseExpiring))
         && is_empty leaseObj.(lease_Status).(st_Namespace)
      then persistAndReload leaseObj resolved sess.(ses_Name) "cluster"
      else Ret (leaseObj, None)) ;;
   match err with
   | Some err => Ret (leaseObj, (noResult, Some err))
   | None => provisionNamespace sess leaseObj previousPhase resolved wasReady
   end)%prog.

Definition reconcileActive leaseObj (previousPhase : LeasePhase) (resolved : Resolved)
    (pol : option EnvironmentLeasePolicy) : prog kube (EnvironmentLease * (CtrlResult * option error)) :=
  let wasReady := ConditionTrue leaseObj ConditionReady in
  ('(leaseObj, p) <- resolveTargetSessionForProvision leaseObj pol ;;
   match p with
   | ProvisionStop res => Ret (leaseObj, (res, None))
   | ProvisionFail err => handleTargetError r leaseObj err
   | ProvisionOn sess => gated r sess (provisionOn sess leaseObj previousPhase resolved wasReady)
   end)%prog.

End Provision.
