(* ===== verification/LeaseCleanup.v ===== *)
(** * Cleaning up an environment (internal/controller)

    The expired and the deleted path of the lease reconciler, and
    [cleanupEnvironment], the only code that deletes a namespace. *)

From S2P Require Import Prelude GoStrings GoTime GoErrors Api LeaseConditions LeaseStatus Resources.
From S2P Require Import LeaseExpiration Programs Kube Identity Outage Remote LeaseCommon.

Section Cleanup.
Context `{QuantityAPI} `{ConditionsAPI} `{!ControllerutilAPI} `{RetryAPI}.
Variable r : EnvironmentLeaseReconciler.

Implicit Types (leaseObj : EnvironmentLease) (sess : TargetSession).

(** The cluster a lease is cleaned up on: its reference, its status, or local. *)
Definition cleanupTarget leaseObj : string :=
  match leaseObj.(lease_Spec).(spec_ClusterRef) with
  | Some n =>
      if negb (is_empty n) then n
      else match leaseObj.(lease_Status).(st_Cluster) with
           | Some c => if negb (is_empty c.(cs_Name)) then c.(cs_Name) else LocalClusterName
           | None => LocalClusterName
           end
  | None =>
      match leaseObj.(lease_Status).(st_Cluster) with
      | Some c => if negb (is_empty c.(cs_Name)) then c.(cs_Name) else LocalClusterName
      | None => LocalClusterName
      end
  end.

Definition resolveTargetSession leaseObj : prog kube (result TargetSession) :=
  ResolveNamedTarget HubClient HubClient r.(rec_Provider) (cleanupTarget leaseObj).

(** Whether cleanup is done, or why it could not go on; with the lease. *)
Notation cleanup := (prog kube (EnvironmentLease * result bool)) (only parsing).

Definition bestEffort leaseObj : bool :=
  bool_decide (EffectiveCleanupMode leaseObj.(lease_Spec) = CleanupModeBestEffort).

(** An operation between two readings of the wall clock, reported to the metrics. *)
Definition timedOp {A} sess (op : string) (p : prog kube A) (err : A -> option error) : prog kube A :=
  (start <- call WallClock ;;
   a <- p ;;
   stop <- call WallClock ;;
   observeClusterOp sess op (err a) (Sub stop start) ;;
   Ret a)%prog.

(** The deletion of a namespace that passed every check. *)
Definition deleteNamespace sess leaseObj (nsName : string) (ns : Namespace) : cleanup :=
  (if IsZeroPtr ns.(ns_Meta).(m_DeletionTimestamp) then
     (err <- timedOp sess "delete" (cl_Delete sess.(ses_Client) KNamespace ns) (fun e => e) ;;
      match err with
      | Some err =>
          if IsNotFound err then Ret (leaseObj, Ok false)
          else Ret (leaseObj, Err (ErrorWrap ("delete namespace " +:+ nsName +:+ " on cluster "
                                              +:+ sess.(ses_Name)) err))
      | None => Ret (leaseObj, Ok false)
      end)%prog
   else Ret (leaseObj, Ok false)).

(** Reading the namespace and checking that it is the lease's. *)
Definition cleanupNamespace sess leaseObj (nsName : string) : cleanup :=
  (g <- timedOp sess "get" (cl_Get sess.(ses_Client) KNamespace (named nsName)) err_of ;;
   match g with
   | Err err =>
       if IsNotFound err then Ret (leaseObj, Ok true)
       else if bestEffort leaseObj then Ret (leaseObj, Ok true)
       else Ret (leaseObj, Err (ErrorWrap ("get namespace " +:+ nsName +:+ " on cluster "
                                           +:+ sess.(ses_Name)) err))
   | Ok ns =>
       match VerifyNamespaceOwnership ns leaseObj r.(rec_ControlClusterID) with
       | Some err =>
           Ret (SetCondition leaseObj ConditionCleanup ConditionFalseStatus ReasonOwnershipMismatch
                  (Error err), Err err)
       | None => deleteNamespace sess leaseObj nsName ns
       end
   end)%prog.

(** The live identity of a remote target against the recorded one. *)
Definition verifyTarget sess leaseObj : prog kube (EnvironmentLease * option error) :=
  let recorded := statusRemoteIdentity leaseObj in
  if negb sess.(ses_Local) && negb (is_empty recorded) then
    (id <- ProbeRemoteIdentity sess.(ses_Client) ;;
     match id with
     | Err idErr => Ret (leaseObj, Some (ErrorWrap "probe target identity before cleanup" idErr))
     | Ok liveID =>
         match VerifyLiveTargetIdentity recorded liveID with
         | Some err =>
             Ret (SetCondition leaseObj ConditionCleanup ConditionFalseStatus ReasonOwnershipMismatch
                    (Error err), Some err)
         | None => Ret (leaseObj, None)
         end
     end)%prog
  else Ret (leaseObj, None).

(** The cleanup on an open session, under the gate. *)
Definition cleanupOn sess leaseObj (nsName : string) : cleanup :=
  ('(leaseObj, err) <- verifyTarget sess leaseObj ;;
   match err with
   | Some err => Ret (leaseObj, Err err)
   | None => cleanupNamespace sess leaseObj nsName
   end)%prog.

Definition cleanupEnvironment leaseObj : cleanup :=
  let nsName := leaseObj.(lease_Status).(st_Namespace) in
  if is_empty nsName then Ret (leaseObj, Ok true)
  else if IsProtectedNamespace nsName then
    Ret (leaseObj, Err (ErrorString ("refusing to delete protected namespace " +:+ quote nsName)))
  else if ForceCleanupAcknowledged leaseObj then Ret (leaseObj, Ok true)
  else
    (s <- resolveTargetSession leaseObj ;;
     match s with
     | Err err =>
         if bestEffort leaseObj then Ret (leaseObj, Ok true)
         else
           let leaseObj := SetCondition leaseObj ConditionTargetClusterReady ConditionFalseStatus
             ReasonRemoteCleanupBlocked (Error err) in
           Ret (leaseObj, Err (ErrorWrap ReasonRemoteCleanupBlocked err))
     | Ok sess => gated r sess (cleanupOn sess leaseObj nsName)
     end)%prog.

(** A cleanup error: an ownership mismatch waits for an operator, anything else
    is retried later.  [observe] updates the observed generation, which the
    expired path does and the deleted path does not. *)
Definition cleanupErr leaseObj (before : EnvironmentLeaseStatus) (err : error)
    (observe : EnvironmentLease -> EnvironmentLease) : prog kube (CtrlResult * option error) :=
  let leaseObj := MarkCleanupFailed leaseObj (Error err) in
  if IsOwnershipMismatch err then
    let leaseObj := SetCondition leaseObj ConditionCleanup ConditionFalseStatus
      ReasonOwnershipMismatch (Error err) in
    ('(leaseObj, patchErr) <- patchStatusIfChanged (observe leaseObj) before ;;
     Ret (noResult, patchErr))%prog
  else
    (inc "CleanupFailuresTotal" ;;
     emit r leaseObj EventTypeWarning eventCleanupFailed (Error err) ;;
     '(leaseObj, patchErr) <- patchStatusIfChanged (observe leaseObj) before ;;
     match patchErr with
     | Some patchErr => Ret (noResult, Some patchErr)
     | None => Ret (requeueAfter targetUnavailableAfter, None)
     end)%prog.

(** The announcements of a first expiry. *)
Definition announceExpiry leaseObj (reason : ExpirationReason) : prog kube unit :=
  (inc "LeasesExpiredTotal" ;;
   (match reason with
    | ExpirationReasonIdleTimeout => inc "IdleExpirationsTotal"
    | ExpirationReasonManualExpiration => inc "ManualExpirationsTotal"
    | _ => Ret tt
    end) ;;
   (match reason with
    | ExpirationReasonIdleTimeout =>
        emit r leaseObj EventTypeNormal eventLeaseIdleExpired
          "Lease idle timeout elapsed; cleaning up environment"
    | ExpirationReasonSourceClosed =>
        emit r leaseObj EventTypeNormal eventSourceClosed
          "Upstream source closed; cleaning up environment"
    | _ =>
        emit r leaseObj EventTypeNormal eventLeaseExpired
          ("Lease expired (" +:+ ExpirationReasonString reason +:+ "); cleaning up environment")
    end) ;;
   emit r leaseObj EventTypeNormal eventCleanupStarted "Cleanup started")%prog.

(** The reason the expired path settles on. *)
Definition expiryReason leaseObj : prog kube ExpirationReason :=
  let reason := leaseObj.(lease_Status).(st_ExpirationReason) in
  if bool_decide (reason = ExpirationReasonUnset) then
    let hard := default TimeZero leaseObj.(lease_Status).(st_ExpiresAt) in
    (t <- now_ ;; Ret (ResolveExpirationReason t hard leaseObj.(lease_Status).(st_IdleExpiresAt)))%prog
  else Ret reason.

Definition isFirstExpiry (previousPhase : LeasePhase) : bool :=
  negb (bool_decide (previousPhase = LeasePhaseExpired))
  && negb (bool_decide (previousPhase = LeasePhaseCleaning))
  && negb (bool_decide (previousPhase = LeasePhaseExpiring)).

(** After a completed cleanup of an expired lease: the status, the finalizer,
    the lease. *)
Definition finishExpired leaseObj (before : EnvironmentLeaseStatus) (firstExpiry : bool)
    : prog kube (CtrlResult * option error) :=
  let leaseObj := EnsureObservedGeneration (MarkCleanupComplete leaseObj) in
  ('(leaseObj, err) <- patchStatusIfChanged leaseObj before ;;
   match err with
   | Some err => Ret (noResult, Some err)
   | None =>
       when firstExpiry (emit r leaseObj EventTypeNormal eventCleanupCompleted "Cleanup completed") ;;
       err <- removeLeaseFinalizer leaseObj ;;
       match err with
       | Some err => Ret (noResult, Some (ErrorWrap "remove finalizer" err))
       | None =>
           err <- cl_Delete HubClient KLease leaseObj ;;
           match err with
           | Some err =>
               if IsNotFound err then Ret (noResult, None)
               else Ret (noResult, Some (ErrorWrap "delete expired lease" err))
           | None => Ret (noResult, None)
           end
       end
   end)%prog.

Definition reconcileExpired leaseObj (before : EnvironmentLeaseStatus) (previousPhase : LeasePhase)
    : prog kube (CtrlResult * option error) :=
  let firstExpiry := isFirstExpiry previousPhase in
  (reason <- expiryReason leaseObj ;;
   when firstExpiry (announceExpiry leaseObj reason) ;;
   let leaseObj := MarkExpired leaseObj reason in
   '(leaseObj, done) <- cleanupEnvironment leaseObj ;;
   match done with
   | Err err => cleanupErr leaseObj before err EnsureObservedGeneration
   | Ok false =>
       let leaseObj := EnsureObservedGeneration (MarkCleaning leaseObj "Waiting for namespace deletion") in
       '(leaseObj, err) <- patchStatusIfChanged leaseObj before ;;
       match err with
       | Some err => Ret (noResult, Some err)
       | None => Ret (requeueAfter cleanupRequeueAfter, None)
       end
   | Ok true => finishExpired leaseObj before firstExpiry
   end)%prog.

(** The announcements of a first deletion. *)
Definition announceDelete leaseObj : prog kube unit :=
  let reason := leaseObj.(lease_Status).(st_ExpirationReason) in
  (when (bool_decide (reason = ExpirationReasonManualExpiration)) (inc "ManualExpirationsTotal") ;;
   when (bool_decide (reason = ExpirationReasonSourceClosed))
     (emit r leaseObj EventTypeNormal eventSourceClosed "Upstream source closed; cleaning up environment") ;;
   emit r leaseObj EventTypeNormal eventCleanupStarted "Cleanup started")%prog.

(** After a completed cleanup of a deleted lease: the status, the finalizer. *)
Definition finishDelete leaseObj (before : EnvironmentLeaseStatus) : prog kube (CtrlResult * option error) :=
  let leaseObj := MarkCleanupComplete leaseObj in
  ('(leaseObj, err) <- patchStatusIfChanged leaseObj before ;;
   match err with
   | Some err => Ret (noResult, Some err)
   | None =>
       emit r leaseObj EventTypeNormal eventCleanupCompleted "Cleanup completed" ;;
       err <- removeLeaseFinalizer leaseObj ;;
       match err with
       | Some err => Ret (noResult, Some (ErrorWrap "remove finalizer" err))
       | None => Ret (noResult, None)
       end
   end)%prog.

Definition reconcileDelete leaseObj : prog kube (CtrlResult * option error) :=
  if negb (ContainsFinalizer leaseObj.(lease_Meta).(m_Finalizers) FinalizerName) then Ret (noResult, None)
  else
    let before := DeepCopyStatus leaseObj.(lease_Status) in
    let firstDelete :=
      negb (bool_decide (leaseObj.(lease_Status).(st_Phase) = LeasePhaseCleaning))
      && negb (bool_decide (leaseObj.(lease_Status).(st_Phase) = LeasePhaseExpired)) in
    let leaseObj :=
      if negb (bool_decide (leaseObj.(lease_Status).(st_ExpirationReason) = ExpirationReasonSourceClosed))
      then leaseObj <|@ st_ExpirationReason := ExpirationReasonManualExpiration |> else leaseObj in
    (when firstDelete (announceDelete leaseObj) ;;
     let leaseObj := MarkCleaning leaseObj "Deleting managed environment" in
     '(leaseObj, done) <- cleanupEnvironment leaseObj ;;
     match done with
     | Err err => cleanupErr leaseObj before err (fun l => l)
     | Ok false =>
         '(leaseObj, err) <- patchStatusIfChanged leaseObj before ;;
         match err with
         | Some err => Ret (noResult, Some err)
         | None => Ret (requeueAfter cleanupRequeueAfter, None)
         end
     | Ok true => finishDelete leaseObj before
     end)%prog.

End Cleanup.
