(* ===== verification/LeaseReconcile.v ===== *)
(** * Reconciling a lease (internal/controller)

    [Reconcile], the entry point of the lease controller, and the watch
    mappings and field indexes [SetupWithManager] installs. *)

From S2P Require Import Prelude GoStrings GoTime GoErrors Api LeaseConditions LeaseStatus Resources.
From S2P Require Import Policy LeaseExpiration LeaseWarnings Programs Kube Identity Placement Outage Remote.
From S2P Require Import LeaseCommon LeaseProvision LeaseCleanup.

Section Reconcile.
Context `{QuantityAPI} `{ConditionsAPI} `{SelectorAPI} `{!ControllerutilAPI} `{RetryAPI}.
Variable r : EnvironmentLeaseReconciler.

Implicit Types (leaseObj : EnvironmentLease).

Definition fetchPolicy leaseObj : prog kube (result (option EnvironmentLeasePolicy)) :=
  match leaseObj.(lease_Spec).(spec_PolicyRef) with
  | None => Ret (Ok None)
  | Some name =>
      if is_empty name then Ret (Ok None)
      else
        (g <- cl_Get HubClient KPolicy (named name) ;;
         Ret match g with
             | Err err => Err (ErrorWrap ("get EnvironmentLeasePolicy " +:+ quote name) err)
             | Ok pol => Ok (Some pol)
             end)%prog
  end.

(** A lease that cannot be reconciled as specified: the failure is recorded and
    nothing is retried.  [metrics_] is what the branch counts afterwards. *)
Definition rejectLease leaseObj (before : EnvironmentLeaseStatus) (reason : string) (err : error)
    (metrics_ : prog kube unit) : prog kube (CtrlResult * option error) :=
  let leaseObj := EnsureObservedGeneration (MarkFailed leaseObj reason (Error err)) in
  ('(leaseObj, patchErr) <- patchStatusIfChanged leaseObj before ;;
   match patchErr with
   | Some patchErr => Ret (noResult, Some patchErr)
   | None => metrics_ ;; Ret (noResult, None)
   end)%prog.

(** "Detect renewal": the expiration has moved later on a renewable lease. *)
Definition announceRenewal leaseObj (previousExpires : option time) (renewable : bool) : prog kube unit :=
  match previousExpires, leaseObj.(lease_Status).(st_ExpiresAt) with
  | Some p, Some e =>
      when (After e p && renewable)
        (inc "RenewalsTotal" ;;
         emit r leaseObj EventTypeNormal eventLeaseRenewed
           ("Lease renewed; new expiration " +:+ FormatRFC3339 e))%prog
  | _, _ => Ret tt
  end.

(** With the timestamps in place: expired or active. *)
Definition reconcileStamped leaseObj (before : EnvironmentLeaseStatus) (previousPhase : LeasePhase)
    (previousExpires : option time) (resolved : Resolved) (pol : option EnvironmentLeasePolicy)
    : prog kube (CtrlResult * option error) :=
  (t <- now_ ;;
   let leaseObj := SyncExpirationStatus leaseObj resolved.(r_IdleTTL) t in
   announceRenewal leaseObj previousExpires resolved.(r_Renewable) ;;
   t <- now_ ;;
   if IsExpired leaseObj t then reconcileExpired r leaseObj before previousPhase
   else
     '(leaseObj, res) <- reconcileActive r leaseObj previousPhase resolved pol ;;
     '(leaseObj, patchErr) <- patchStatusIfChanged (EnsureObservedGeneration leaseObj) before ;;
     match patchErr, res with
     | Some patchErr, _ => Ret (noResult, Some patchErr)
     | None, (_, Some err) => Ret (noResult, Some err)
     | None, (result, None) => Ret (result, None)
     end)%prog.

(** The lease after [EnsureTimestamps], with the condition of a refused renewal. *)
Definition stampedLease (stamps : Timestamps) : EnvironmentLease :=
  if stamps.(ts_renewalRejected)
  then SetCondition stamps.(ts_lease) ConditionDegraded ConditionTrueStatus
         ReasonRenewalRejected "TTL increase ignored because lease is not renewable"
  else stamps.(ts_lease).

(** With a policy in hand. *)
Definition reconcileResolved leaseObj (before : EnvironmentLeaseStatus) (previousPhase : LeasePhase)
    (previousExpires : option time) (pol : option EnvironmentLeasePolicy)
    : prog kube (CtrlResult * option error) :=
  match Resolve leaseObj.(lease_Spec) pol with
  | Err err =>
      rejectLease leaseObj before ReasonPolicyViolation err
        (inc "ProvisionFailuresTotal" ;; inc "PolicyRejectionsTotal")%prog
  | Ok resolved =>
      let leaseObj := leaseObj <|@ st_Effective := Some (ToEffectiveStatus resolved) |> in
      (t <- now_ ;;
       match EnsureTimestamps leaseObj resolved.(r_TTL) resolved.(r_MaxTTL) resolved.(r_Renewable) t with
       | Err err => rejectLease leaseObj before ReasonInvalidConfiguration err (Ret tt)
       | Ok stamps =>
           reconcileStamped (stampedLease stamps) before previousPhase previousExpires resolved pol
       end)%prog
  end.

(** A live lease that holds the finalizer. *)
Definition reconcileLive leaseObj : prog kube (CtrlResult * option error) :=
  let before := DeepCopyStatus leaseObj.(lease_Status) in
  let previousPhase := leaseObj.(lease_Status).(st_Phase) in
  let previousExpires := leaseObj.(lease_Status).(st_ExpiresAt) in
  match ValidateSpec leaseObj with
  | Some err =>
      rejectLease leaseObj before ReasonInvalidConfiguration err (inc "ProvisionFailuresTotal")
  | None =>
      (pol <- fetchPolicy leaseObj ;;
       match pol with
       | Err err => rejectLease leaseObj before ReasonPolicyNotFound err (inc "ProvisionFailuresTotal")
       | Ok pol => reconcileResolved leaseObj before previousPhase previousExpires pol
       end)%prog
  end.

Definition Reconcile (req : string) : prog kube (CtrlResult * option error) :=
  (g <- cl_Get HubClient KLease (named req) ;;
   match g with
   | Err err =>
       if IsNotFound err then Ret (noResult, None)
       else Ret (noResult, Some (ErrorWrap ("get EnvironmentLease " +:+ req) err))
   | Ok leaseObj =>
       let m := leaseObj.(lease_Meta) in
       if negb (IsZeroPtr m.(m_DeletionTimestamp)) then reconcileDelete r leaseObj
       else if negb (ContainsFinalizer m.(m_Finalizers) FinalizerName) then
         let leaseObj := leaseObj <| lease_Meta :=
           m <| m_Finalizers := AddFinalizer m.(m_Finalizers) FinalizerName |> |> in
         u <- cl_Update HubClient KLease leaseObj ;;
         match u with
         | Err err => Ret (noResult, Some (ErrorWrap "add finalizer" err))
         | Ok _ => Ret (mkCtrlResult true 0, None)
         end
       else reconcileLive leaseObj
   end)%prog.

(** ** SetupWithManager: indexes and watch mappings *)

Definition index (name : string) : list string := if is_empty name then [] else [name].

Definition indexStatusNamespaceOf (l : EnvironmentLease) : list string :=
  index l.(lease_Status).(st_Namespace).
Definition indexPolicyRefOf (l : EnvironmentLease) : list string :=
  index (refName l.(lease_Spec).(spec_PolicyRef)).
Definition indexClusterRefOf (l : EnvironmentLease) : list string :=
  index (refName l.(lease_Spec).(spec_ClusterRef)).
Definition indexStatusClusterOf (l : EnvironmentLease) : list string :=
  match l.(lease_Status).(st_Cluster) with Some c => index c.(cs_Name) | None => [] end.

(** The requests for a namespace: its lease label, or the leases indexed by it. *)
Definition mapNamespace (m : ObjectMeta) : prog kube (list string) :=
  let leaseName := get m.(m_Labels) LabelLease in
  if negb (is_empty leaseName) && String.eqb (get m.(m_Labels) LabelManagedBy) ManagedByValue
  then Ret [leaseName]
  else
    (l <- cl_List HubClient KLease (Some (indexStatusNamespace, m.(m_Name))) ;;
     Ret match l with Ok items => (fun i => lease_Name i) <$> items | Err _ => [] end)%prog.

Definition mapPolicy (m : ObjectMeta) : prog kube (list string) :=
  (l <- cl_List HubClient KLease (Some (indexPolicyRefName, m.(m_Name))) ;;
   Ret match l with Ok items => (fun i => lease_Name i) <$> items | Err _ => [] end)%prog.

(** [add]: a request for a name that has not been seen. *)
Definition addRequest (reqs : list string) (n : string) : list string :=
  if bool_decide (n ∈ reqs) then reqs else reqs ++ [n].

(** A lease that waits for placement. *)
Definition waitsForPlacement (l : EnvironmentLease) : bool :=
  bool_decide (l.(lease_Status).(st_Phase) = LeasePhasePending) &&
  (bool_decide (is_Some l.(lease_Spec).(spec_Placement))
   || negb (is_empty (refName l.(lease_Spec).(spec_ClusterRef)))).

Definition namesOf (l : result (list EnvironmentLease)) : list string :=
  match l with Ok items => (fun i => lease_Name i) <$> items | Err _ => [] end.

Definition mapClusterTarget (m : ObjectMeta) : prog kube (list string) :=
  (assigned <- cl_List HubClient KLease (Some (StatusClusterNameIndex, m.(m_Name))) ;;
   let reqs := fold_left addRequest (namesOf assigned) [] in
   refs <- cl_List HubClient KLease (Some (indexClusterRefName, m.(m_Name))) ;;
   let reqs := fold_left addRequest (namesOf refs) reqs in
   pending <- cl_List HubClient KLease None ;;
   let waiting := match pending with
                  | Ok items => Ok (filter (fun l => waitsForPlacement l = true) items)
                  | Err err => Err err
                  end in
   Ret (fold_left addRequest (namesOf waiting) reqs))%prog.

(** [nsPred]: the namespaces the controller watches. *)
Definition nsPred (m : ObjectMeta) : bool :=
  String.eqb (get m.(m_Labels) LabelManagedBy) ManagedByValue && negb (is_empty (get m.(m_Labels) LabelLease)).

End Reconcile.
