(* ===== verification/Runtime.v ===== *)
(** * The reconciler at concrete parameters

    Instances of the remaining parameters, with their laws, and the lease
    reconciler over them: what the witnesses execute in the reference world. *)

From S2P Require Import Prelude GoStrings GoTime GoErrors Api LeaseConditions Concrete Programs Kube World.
From S2P Require Import Placement LeaseCommon LeaseReconcile.

(** Finalizers as plain lists; one controller owner reference. *)
Definition listControllerutil : @ControllerutilAPI milliQuantity := {|
  ContainsFinalizer fs f := bool_decide (f ∈ fs);
  AddFinalizer fs f := if bool_decide (f ∈ fs) then fs else fs ++ [f];
  RemoveFinalizer fs f := filter (fun g => g <> f) fs;
  SetControllerReference l m :=
    Ok (m <| m_OwnerReferences :=
          [mkOwnerReference "EnvironmentLease" (lease_Name l) (lease_UID l) true] |>)
|}.

Lemma listControllerutil_laws : @ControllerutilLaws milliQuantity listControllerutil.
Proof.
  split.
  - intros fs f. cbn. apply bool_decide_eq_true.
  - intros fs f g. cbn. case_bool_decide; [naive_solver|]. rewrite elem_of_app, list_elem_of_singleton. done.
  - intros fs f g. cbn. rewrite list_elem_of_filter. tauto.
  - intros l m m'. cbn. intros [= <-]. by eexists.
Defined.

(** [DefaultBackoff]: four attempts. *)
Definition fourAttempts : RetryAPI := {| RetryOnConflict E S f s := retry 3 f s |}.

Lemma fourAttempts_laws : @RetryLaws fourAttempts.
Proof. exact (@Build_RetryLaws fourAttempts 3%nat (fun E S f s => eq_refl)). Defined.

Definition demoReconciler : EnvironmentLeaseReconciler := mkReconciler "control-1" true true true true.

Definition demoReconcile (req : string) : prog (@kube milliQuantity) (CtrlResult * option error) :=
  @Reconcile milliQuantity listConditions exactSelectors listControllerutil fourAttempts demoReconciler req.

Section Demo.

#[local] Existing Instance milliQuantity.

(** A lease of an hour with a quota, in a world whose clock shows second 100. *)
Definition demoLease : EnvironmentLease :=
  mkEnvironmentLease
    (emptyMeta <| m_Name := "demo" |> <| m_UID := "uid-1" |> <| m_Generation := 1 |>
       <| m_CreationTimestamp := 100 * Second |>)
    (emptySpec <| spec_TTL := Some Hour |> <| spec_Warnings := [10 * Minute] |>
       <| spec_Quota := Some (mkQuotaSpec {["cpu" := 2000]} ∅) |>)
    emptyStatus.

Definition demoWorld : World := put HubClient KLease demoLease (emptyWorld (100 * Second)).

(** [n] reconciles of the lease, one after the other. *)
Fixpoint rounds (n : nat) (w : World) : World :=
  match n with O => w | S n => rounds n (in_world (demoReconcile "demo") w).1.2 end.

Definition leaseIn (w : World) : option EnvironmentLease := w.(w_leases) !! slot HubClient (named "demo").
Definition phaseIn (w : World) : option LeasePhase := (fun l => l.(lease_Status).(st_Phase)) <$> leaseIn w.
Definition namespaceIn (w : World) (n : string) : option Namespace := w.(w_namespaces) !! slot HubClient (named n).

(** Two reconciles later the environment stands: the namespace, marked as the
    lease's, the quota, and a lease that is active until the hour is over. *)
Example demo_provisioned :
  let w := rounds 2 demoWorld in
  bool_decide (phaseIn w = Some LeasePhaseActive)
  && bool_decide ((fun l => l.(lease_Status).(st_Namespace)) <$> leaseIn w = Some "preview-x7k2p")
  && bool_decide ((fun ns => get ns.(ns_Meta).(m_Annotations) AnnotationLeaseUID)
                  <$> namespaceIn w "preview-x7k2p" = Some "uid-1")
  && match w.(w_quotas) !! slot HubClient (mkObjectKey "preview-x7k2p" "kubelease-quota") with
     | Some q => bool_decide (map_to_list q.(rq_Hard) = [("requests.cpu", 2000 : Z)])
     | None => false
     end
  && match (in_world (demoReconcile "demo") w).1.1 with
     | (res, None) => res.(res_RequeueAfter) =? 50 * Minute
     | _ => false
     end = true.
Proof. vm_compute. reflexivity. Qed.

(** After the hour two more reconciles remove the namespace and the lease. *)
Example demo_cleaned :
  let w := rounds 2 ((rounds 2 demoWorld) <| w_now := 4000 * Second |>) in
  match leaseIn w, namespaceIn w "preview-x7k2p" with None, None => true | _, _ => false end = true.
Proof. vm_compute. reflexivity. Qed.

End Demo.
