(* ===== verification/LeasePaths.v ===== *)
(** * What each path of the lease reconciler may do

    Properties of every call a path can make, whatever the answers: the active
    path never deletes, the paths that clean up never provision, and the gate is
    held at most once and always given back. *)

From S2P Require Import Prelude GoStrings GoTime GoErrors Api LeaseConditions LeaseStatus Resources.
From S2P Require Import Policy LeaseExpiration LeaseWarnings Concrete Programs Kube World Identity Placement Outage Remote.
From S2P Require Import LeaseCommon LeaseProvision LeaseCleanup LeaseReconcile Runtime.

Section Paths.
Context `{QuantityAPI} `{ConditionsAPI} `{SelectorAPI} `{!ControllerutilAPI} `{RetryLaws}.
Variable r : EnvironmentLeaseReconciler.

Notation property := (forall X, kube X -> Prop).

(** Unfold a program and follow it. *)
Ltac every_in name := unfold name; every_tac.

Section Sub.
Variable P : property.

(** A report that keeps the promises of the collectors; nothing sets the gauge of
    leases by phase. *)
Definition reportsWell (m : MetricOp) : bool := reports m && negb (String.eqb (metricName m) "Leases").

(** Calls that only read, or touch the process's own state. *)
Definition harmless {X} (e : kube X) : bool :=
  match e with
  | GateAcquire _ | GateRelease _ => false
  | Metric m => reportsWell m
  | _ => negb (writes e)
  end.

Hypothesis P_harmless : forall X (e : kube X), harmless e = true -> P X e.

Ltac every_step' :=
  match goal with
  | |- every _ (call _) => apply every_call; apply P_harmless; reflexivity
  | _ => every_step
  end.
Ltac every_reads := repeat (cbv zeta; every_step').

Lemma every_inc name : reportsWell (MetricInc name []) = true -> every P (inc name).
Proof. intros Hn. by apply every_call, P_harmless. Qed.

Lemma every_emit l t reason m : every P (emit r l t reason m).
Proof. unfold emit. every_reads. Qed.

Lemma every_ObserveClusterOp cluster op result s :
  counted op = true -> outcomeLabel result = true -> every P (ObserveClusterOp cluster op result s).
Proof.
  intros Ho Hr. unfold ObserveClusterOp, ObserveRemote, when.
  assert (Hrep : forall m, reports m = true -> String.eqb (metricName m) "Leases" = false -> every P (call (Metric m))).
  { intros m Hm Hn. apply every_call, P_harmless. cbn. unfold reportsWell. by rewrite Hm, Hn. }
  cbv zeta. apply every_bind; [by apply Hrep; [apply clusterOp_reports|]|]. intros [].
  apply every_bind; [|intros []; by apply Hrep; [apply remote_reports|]].
  destruct (0 <=? s); [|done]. by apply Hrep; [apply clusterTime_reports|].
Qed.

Lemma every_observe sess op err s : counted op = true -> every P (observeClusterOp sess op err s).
Proof.
  intros Ho. unfold observeClusterOp. destruct (ses_Local sess); [done|].
  by apply every_ObserveClusterOp; [|destruct err].
Qed.

Lemma every_observeOp sess op err : counted op = true -> every P (observeOp sess op err).
Proof. apply every_observe. Qed.

Lemma every_Get c k key : every P (cl_Get c k key).
Proof. unfold cl_Get. every_reads. Qed.

Lemma every_List c k f : every P (cl_List c k f).
Proof. unfold cl_List. every_reads. Qed.

Lemma every_now : every P now_.
Proof. unfold now_. every_reads. Qed.

Hint Resolve every_inc every_emit every_observe every_observeOp every_Get every_List every_now : every.

Lemma every_Probe c : every P (ProbeRemoteIdentity c).
Proof. unfold ProbeRemoteIdentity. every_reads. Qed.

Lemma every_getTarget c name : every P (getTarget c name).
Proof. unfold getTarget. every_reads. Qed.

Lemma every_select c l ls ps o : every P (selectFromCandidates c l ls ps o).
Proof. unfold selectFromCandidates. every_reads. Qed.

Hint Resolve every_Probe every_getTarget every_select : every.

Lemma every_Decide c l pol o : every P (Decide c l pol o).
Proof. unfold Decide. every_reads. Qed.

Lemma every_Count c : every P (CountActiveLeases c).
Proof. unfold CountActiveLeases. every_reads. Qed.

Lemma every_Resolve hub lc p name : every P (ResolveNamedTarget hub lc p name).
Proof. unfold ResolveNamedTarget. every_reads. Qed.

Hint Resolve every_Decide every_Count every_Resolve : every.

Lemma every_captureIdentity l sess : every P (captureIdentity l sess).
Proof. unfold captureIdentity. every_reads. Qed.

Hint Resolve every_captureIdentity : every.

Lemma every_openSession l d : every P (openSession r l d).
Proof. unfold openSession. every_reads. Qed.

Hint Resolve every_openSession : every.

Lemma every_resolveForProvision l pol : every P (resolveTargetSessionForProvision r l pol).
Proof. unfold resolveTargetSessionForProvision. every_reads. Qed.

Lemma every_handleTargetError l err : every P (handleTargetError r l err).
Proof. unfold handleTargetError. every_reads. Qed.

Lemma every_warnLoop l d ws : every P (warnLoop r l d ws).
Proof. revert l. induction ws as [|w ws IH]; intros l; cbn [warnLoop]; every_reads. Qed.

Hint Resolve every_warnLoop : every.

Lemma every_emitWarnings l : every P (emitWarnings r l).
Proof. unfold emitWarnings. every_reads. Qed.

Hint Resolve every_emitWarnings : every.

Lemma every_finishActive sess l ph wr n : every P (finishActive r sess l ph wr n).
Proof. unfold finishActive. every_reads. Qed.

Lemma every_expiryReason l : every P (expiryReason l).
Proof. unfold expiryReason. every_reads. Qed.

Lemma every_announceExpiry l reason : every P (announceExpiry r l reason).
Proof. unfold announceExpiry. every_reads. Qed.

Lemma every_announceDelete l : every P (announceDelete r l).
Proof. unfold announceDelete. every_reads. Qed.

Lemma every_announceRenewal l p b : every P (announceRenewal r l p b).
Proof. unfold announceRenewal. every_reads. Qed.

Lemma every_fetchPolicy l : every P (fetchPolicy l).
Proof. unfold fetchPolicy. every_reads. Qed.

Lemma every_verifyTarget sess l : every P (verifyTarget sess l).
Proof. unfold verifyTarget. every_reads. Qed.

Hint Resolve every_resolveForProvision every_handleTargetError every_finishActive every_expiryReason
  every_announceExpiry every_announceDelete every_announceRenewal every_fetchPolicy every_verifyTarget : every.

(** The status writer. *)
Section Status.
Hypothesis P_status : forall l, P _ (ClientStatusUpdate HubClient KLease l).

Lemma every_patchAttempt desired l : every P (patchStatusAttempt desired l).
Proof. unfold patchStatusAttempt, cl_StatusUpdate. every_reads. Qed.

Lemma every_patchStatus l before : every P (patchStatusIfChanged l before).
Proof.
  unfold patchStatusIfChanged. every_reads. apply every_patchAttempt.
Qed.

Hint Resolve every_patchStatus : every.

Lemma every_cleanupErr l before err f : every P (cleanupErr r l before err f).
Proof. unfold cleanupErr. every_reads. Qed.

Lemma every_rejectLease l before reason err m :
  every P m -> every P (rejectLease l before reason err m).
Proof. intros Hm. unfold rejectLease. every_reads. Qed.

Hint Resolve every_cleanupErr : every.

(** The active path, for a session: objects are created and patched on its
    client only, and they are not leases. *)
Section Active.
Variable sess : TargetSession.
Hypothesis P_create : forall k o, k <> KLease -> P _ (ClientCreate sess.(ses_Client) k o).
Hypothesis P_patch : forall k o b, k <> KLease -> P _ (ClientPatch sess.(ses_Client) k o b).

Ltac every_writes :=
  repeat (cbv zeta; first [ every_step'
    | match goal with
      | |- every _ (cl_Create _ _ _) => apply every_call, P_create; discriminate
      | |- every _ (cl_Patch _ _ _ _) => apply every_call, P_patch; discriminate
      | |- every _ (cl_StatusUpdate _ _ _) => apply every_call, P_status
      end ]).

Lemma every_ensureExisting l name : every P (ensureExistingNamespace r sess l name).
Proof. unfold ensureExistingNamespace. every_writes. Qed.

Hint Resolve every_ensureExisting : every.

Lemma every_ensureNamespace l : every P (ensureNamespace r sess l).
Proof. unfold ensureNamespace. every_writes. Qed.

Lemma every_ensureQuota l ns : every P (ensureResourceQuota sess l ns).
Proof. unfold ensureResourceQuota. every_writes. Qed.

Lemma every_ensureLimitRange l ns : every P (ensureLimitRange sess l ns).
Proof. unfold ensureLimitRange. every_writes. Qed.

Lemma every_ensureNetworkPolicy l ns : every P (ensureNetworkPolicy sess l ns).
Proof. unfold ensureNetworkPolicy. every_writes. Qed.

Hint Resolve every_ensureNamespace every_ensureQuota every_ensureLimitRange every_ensureNetworkPolicy : every.

Lemma every_ensureObjects l ns : every P (ensureObjects sess l ns).
Proof. unfold ensureObjects. every_writes. Qed.

Lemma every_persist l res n w : every P (persistAndReload l res n w).
Proof. unfold persistAndReload. every_writes. Qed.

Lemma every_provisionFailed l op reason err :
  counted op = true -> every P (provisionFailed sess l op reason err).
Proof. intros Ho. unfold provisionFailed. every_writes. Qed.

Hint Resolve every_ensureObjects every_persist every_provisionFailed : every.

Lemma every_provisionNamespace l ph res wr : every P (provisionNamespace r sess l ph res wr).
Proof. unfold provisionNamespace. every_writes. Qed.

Hint Resolve every_provisionNamespace : every.

Lemma every_provisionOn l ph res wr : every P (provisionOn r sess l ph res wr).
Proof. unfold provisionOn. every_writes. Qed.

End Active.

(** The cleanup, for a session: only namespaces are deleted, on its client. *)
Section Cleaning.
Variable sess : TargetSession.
Hypothesis P_delete : forall ns, P _ (ClientDelete sess.(ses_Client) KNamespace ns).

Lemma every_timedOp {A} op (p : prog kube A) f :
  counted op = true -> every P p -> every P (timedOp sess op p f).
Proof. intros Ho Hp. unfold timedOp. every_reads. Qed.

Lemma every_cleanupOn l n : every P (cleanupOn r sess l n).
Proof.
  unfold cleanupOn, cleanupNamespace, deleteNamespace, cl_Delete, cl_Get.
  every_reads; apply every_timedOp; try reflexivity; every_reads.
Qed.

End Cleaning.

(** Around the gate, and the removal of the lease itself. *)
Section Whole.
Hypothesis P_gate : forall n, P _ (GateAcquire n) /\ P _ (GateRelease n).

Lemma every_gated {A} sess (body : prog kube A) : every P body -> every P (gated r sess body).
Proof.
  intros Hb. unfold gated, with_release. destruct (rec_Gate r); [|done].
  apply every_bind; [apply every_call, P_gate|]. intros _. apply every_bind; [done|]. intros a.
  apply every_bind; [apply every_call, P_gate|]. done.
Qed.

Lemma every_reconcileActive l ph res pol :
  (forall c k o, P _ (ClientCreate c k o)) -> (forall c k o b, P _ (ClientPatch c k o b)) ->
  every P (reconcileActive r l ph res pol).
Proof. intros Hc Hp. unfold reconcileActive. every_reads. apply every_gated, every_provisionOn; auto. Qed.

Hypothesis P_delete : forall c ns, P _ (ClientDelete c KNamespace ns).

Lemma every_cleanupEnvironment l : every P (cleanupEnvironment r l).
Proof.
  unfold cleanupEnvironment, resolveTargetSession. every_reads. apply every_gated, every_cleanupOn; auto.
Qed.

Hypothesis P_update : forall l, P _ (ClientUpdate HubClient KLease l).
Hypothesis P_deleteLease : forall l, P _ (ClientDelete HubClient KLease l).

Lemma every_removeFinalizer l : every P (removeLeaseFinalizer l).
Proof.
  unfold removeLeaseFinalizer, removeFinalizerAttempt, cl_Update. every_reads.
Qed.

Hint Resolve every_cleanupEnvironment every_removeFinalizer : every.

Lemma every_finishExpired l before b : every P (finishExpired r l before b).
Proof. unfold finishExpired, cl_Delete. every_reads. Qed.

Lemma every_finishDelete l before : every P (finishDelete r l before).
Proof. unfold finishDelete. every_reads. Qed.

Hint Resolve every_finishExpired every_finishDelete : every.

Lemma every_reconcileExpired l before ph : every P (reconcileExpired r l before ph).
Proof. unfold reconcileExpired. every_reads. Qed.

Lemma every_reconcileDelete l : every P (reconcileDelete r l).
Proof. unfold reconcileDelete. every_reads. Qed.

Hypothesis P_create : forall c k o, P _ (ClientCreate c k o).
Hypothesis P_patch : forall c k o b, P _ (ClientPatch c k o b).

Hint Resolve every_reconcileExpired every_reconcileDelete every_reconcileActive : every.

Lemma every_reconcileStamped l before ph pe res pol : every P (reconcileStamped r l before ph pe res pol).
Proof. unfold reconcileStamped. every_reads. Qed.

Hint Resolve every_reconcileStamped : every.

Lemma every_reconcileLive l : every P (reconcileLive r l).
Proof. unfold reconcileLive, reconcileResolved. every_reads; apply every_rejectLease; every_reads. Qed.

Hint Resolve every_reconcileLive : every.

(** Every call of a run of the reconciler. *)
Lemma every_Reconcile req : every P (Reconcile r req).
Proof. unfold Reconcile, cl_Update. every_reads. Qed.

End Whole.
End Status.
End Sub.

(** ** Cleaning up and provisioning exclude each other *)

Definition noDelete X (e : kube X) : Prop := deletes e = false.
Definition noProvision X (e : kube X) : Prop := provisions e = false.

Definition onlyWith (P : forall X, kube X -> Prop) (tr : trace kube) : Prop :=
  Forall (fun ev => P _ ev.(ev_eff)) tr.

Lemma every_onlyWith {A} (P : property) (p : prog kube A) h :
  every P p -> onlyWith P h -> safe (fun _ _ _ => True) p h (fun h _ => onlyWith P h).
Proof.
  intros Hp. apply (every_inv P _ (onlyWith P) p h Hp). intros X h' e Hh He.
  split; [done|]. intros x. by constructor.
Qed.

(** Every call of a run before its path is chosen, or of a run that rejects the
    lease. *)
Definition neutral X (e : kube X) : Prop := deletes e = false /\ provisions e = false.

Lemma neutral_harmless X (e : kube X) : harmless e = true -> neutral X e.
Proof. by destruct e. Qed.

Lemma onlyWith_neutral tr : onlyWith neutral tr -> onlyWith noDelete tr /\ onlyWith noProvision tr.
Proof. intros Ht. split; (eapply Forall_impl; [exact Ht|]); intros ev [? ?]; done. Qed.

Definition unmixed (tr : trace kube) : Prop := onlyWith noDelete tr \/ onlyWith noProvision tr.

Lemma unmixed_every {A} (P : property) (p : prog kube A) h :
  every P p -> onlyWith P h -> (forall tr, onlyWith P tr -> unmixed tr) ->
  safe (fun _ _ _ => True) p h (fun h _ => unmixed h).
Proof. intros Hp Hh HP. eapply safe_post; [by apply every_onlyWith|]. auto. Qed.

Lemma neutral_reject l before reason err m h :
  every neutral m -> onlyWith neutral h ->
  safe (fun _ _ _ => True) (rejectLease l before reason err m) h (fun h _ => unmixed h).
Proof.
  intros Hm Hh. apply (unmixed_every neutral); [|done|intros tr [? _]%onlyWith_neutral; by left].
  apply every_rejectLease; [apply neutral_harmless|done|done].
Qed.

Lemma reconcileStamped_unmixed l before ph pe res pol h :
  onlyWith neutral h ->
  safe (fun _ _ _ => True) (reconcileStamped r l before ph pe res pol) h (fun h _ => unmixed h).
Proof.
  intros Hh. unfold reconcileStamped. rewrite safe_bind.
  eapply safe_post; [apply (every_onlyWith neutral); [apply every_now, neutral_harmless|done]|].
  intros h1 t1 Hh1. cbv zeta. rewrite safe_bind.
  eapply safe_post; [apply (every_onlyWith neutral); [apply every_announceRenewal, neutral_harmless|done]|].
  intros h2 [] Hh2. rewrite safe_bind.
  eapply safe_post; [apply (every_onlyWith neutral); [apply every_now, neutral_harmless|done]|].
  intros h3 t3 Hh3. apply onlyWith_neutral in Hh3 as [Hd Hp]. destruct (IsExpired _ _).
  - apply (unmixed_every noProvision); [|done|by right].
    apply every_reconcileExpired; try done. by intros X [].
  - apply (unmixed_every noDelete); [|done|by left]. apply every_bind.
    + apply every_reconcileActive; try done. by intros X [].
    + intros [l' res']. apply every_bind; [apply every_patchStatus; try done; by intros X []|].
      intros [l'' [e|]]; [done|]. by destruct res' as [? []].
Qed.

Lemma reconcileLive_unmixed l h :
  onlyWith neutral h -> safe (fun _ _ _ => True) (reconcileLive r l) h (fun h _ => unmixed h).
Proof.
  intros Hh. unfold reconcileLive. cbv zeta. destruct (ValidateSpec l).
  { apply neutral_reject; [apply every_inc; [apply neutral_harmless|reflexivity]|done]. }
  rewrite safe_bind.
  eapply safe_post; [apply (every_onlyWith neutral); [apply every_fetchPolicy, neutral_harmless|done]|].
  intros h1 [pol|err] Hh1; [|apply neutral_reject; [apply every_inc; [apply neutral_harmless|reflexivity]|done]].
  unfold reconcileResolved. destruct (Resolve _ _) as [res|err].
  - cbv zeta. rewrite safe_bind.
    eapply safe_post; [apply (every_onlyWith neutral); [apply every_now, neutral_harmless|done]|].
    intros h2 t Hh2. destruct (EnsureTimestamps _ _ _ _ _); [by apply reconcileStamped_unmixed|].
    by apply neutral_reject.
  - apply neutral_reject; [|done]. apply every_bind; [apply every_inc; [apply neutral_harmless|reflexivity]|].
    intros _. apply every_inc; [apply neutral_harmless|reflexivity].
Qed.

(** Claim C3.  Provisioning and cleaning up never meet in one reconcile.
    Whatever the API servers answer, a run that deletes anything neither creates
    nor changes a namespace, quota, limit range or network policy anywhere, and a
    run that provisions deletes nothing: an environment is not rebuilt while it
    is being torn down. *)
Theorem reconcile_never_mixes (req : string) (tr : trace kube) (res : CtrlResult * option error) :
  runs (Reconcile r req) [] tr res ->
  onlyWith noDelete tr \/ onlyWith noProvision tr.
Proof.
  intros Hr. by_safe (fun X (_ : trace kube) (_ : kube X) => True) Hr. fold unmixed.
  change (safe (fun _ _ _ => True) (Reconcile r req) [] (fun h _ => unmixed h)).
  unfold Reconcile. rewrite safe_bind. split; [done|]. intros [l|err]; cbn [safe].
  2: { case_match; left; by repeat constructor. }
  set (h := [_]). assert (Hh : onlyWith neutral h) by (by repeat constructor).
  cbv zeta. destruct (IsZeroPtr _); cbn [negb].
  - destruct (ContainsFinalizer _ _); cbn [negb]; [by apply reconcileLive_unmixed|].
    split; [done|]. intros [?|?]; left; by repeat constructor.
  - apply (unmixed_every noProvision); [|by apply onlyWith_neutral|by right].
    apply every_reconcileDelete; try done. by intros X [].
Qed.

(** ** The gate *)

Fixpoint release_first (n : string) (l : list string) : list string :=
  match l with
  | [] => []
  | m :: l => if String.eqb m n then l else m :: release_first n l
  end.

(** The targets whose gate the run holds. *)
Fixpoint held (tr : trace kube) : list string :=
  match tr with
  | [] => []
  | ev :: tr =>
      match ev.(ev_eff) with
      | GateAcquire n => n :: held tr
      | GateRelease n => release_first n (held tr)
      | _ => held tr
      end
  end.

(** A slot is only waited for with no slot in hand, and only a held one is given
    back. *)
Definition gateDiscipline X (h : trace kube) (e : kube X) : Prop :=
  match e with
  | GateAcquire _ => held h = []
  | GateRelease n => held h = [n]
  | _ => True
  end.

Definition ungatedCall X (e : kube X) : Prop :=
  match e with GateAcquire _ | GateRelease _ => False | _ => True end.

Definition holdsNone (h : trace kube) : Prop := held h = [].

Lemma ungatedCall_harmless X (e : kube X) : harmless e = true -> ungatedCall X e.
Proof. by destruct e. Qed.

Lemma every_held {A} (p : prog kube A) hs h :
  every ungatedCall p -> held h = hs -> safe gateDiscipline p h (fun h _ => held h = hs).
Proof.
  intros Hp. apply (every_inv ungatedCall gateDiscipline (fun h => held h = hs) p h Hp).
  intros X h' e Hh He. by destruct e.
Qed.

Lemma keeps_every {A} (p : prog kube A) : every ungatedCall p -> keeps gateDiscipline holdsNone p.
Proof. intros Hp h Hh. by apply every_held. Qed.

Lemma keeps_gated {A} sess (body : prog kube A) :
  every ungatedCall body -> keeps gateDiscipline holdsNone (gated r sess body).
Proof.
  intros Hb. unfold gated, with_release. destruct (rec_Gate r); [|by apply keeps_every].
  intros h Hh. unfold call. cbn [bind safe]. split; [done|]. intros [].
  rewrite safe_bind. eapply safe_post; [apply (every_held _ [ses_Name sess]); [done|]|].
  - cbn. by rewrite Hh.
  - intros h' a Hh'. cbn. split; [done|]. intros []. unfold holdsNone. cbn. rewrite Hh'. cbn.
    by rewrite String.eqb_refl.
Qed.

Ltac gate_free lem := apply keeps_every; apply lem; try apply ungatedCall_harmless; try done.

Lemma keeps_patchStatus l before : keeps gateDiscipline holdsNone (patchStatusIfChanged l before).
Proof. gate_free every_patchStatus. Qed.
Lemma keeps_inc n : keeps gateDiscipline holdsNone (inc n).
Proof. by apply keeps_every, every_call. Qed.
Lemma keeps_emit l t reason m : keeps gateDiscipline holdsNone (emit r l t reason m).
Proof. gate_free every_emit. Qed.
Lemma keeps_now : keeps gateDiscipline holdsNone now_.
Proof. gate_free every_now. Qed.
Lemma keeps_removeFinalizer l : keeps gateDiscipline holdsNone (removeLeaseFinalizer l).
Proof. gate_free every_removeFinalizer. Qed.
Lemma keeps_call {X} (e : kube X) : ungatedCall X e -> keeps gateDiscipline holdsNone (call e).
Proof. intros He. by apply keeps_every, every_call. Qed.
Lemma keeps_fetchPolicy l : keeps gateDiscipline holdsNone (fetchPolicy l).
Proof. gate_free every_fetchPolicy. Qed.
Lemma keeps_announceRenewal l p b : keeps gateDiscipline holdsNone (announceRenewal r l p b).
Proof. gate_free every_announceRenewal. Qed.
Lemma keeps_announceExpiry l reason : keeps gateDiscipline holdsNone (announceExpiry r l reason).
Proof. gate_free every_announceExpiry. Qed.
Lemma keeps_announceDelete l : keeps gateDiscipline holdsNone (announceDelete r l).
Proof. gate_free every_announceDelete. Qed.
Lemma keeps_expiryReason l : keeps gateDiscipline holdsNone (expiryReason l).
Proof. gate_free every_expiryReason. Qed.
Lemma keeps_cleanupErr l before err f : keeps gateDiscipline holdsNone (cleanupErr r l before err f).
Proof. gate_free every_cleanupErr. Qed.
Lemma keeps_resolveForProvision l pol :
  keeps gateDiscipline holdsNone (resolveTargetSessionForProvision r l pol).
Proof. gate_free every_resolveForProvision. Qed.
Lemma keeps_handleTargetError l err : keeps gateDiscipline holdsNone (handleTargetError r l err).
Proof. gate_free every_handleTargetError. Qed.
Lemma keeps_Resolve hub lc p name : keeps gateDiscipline holdsNone (ResolveNamedTarget hub lc p name).
Proof. gate_free every_Resolve. Qed.
Lemma keeps_provisionGated sess l ph res wr :
  keeps gateDiscipline holdsNone (gated r sess (provisionOn r sess l ph res wr)).
Proof. apply keeps_gated, every_provisionOn; try apply ungatedCall_harmless; done. Qed.
Lemma keeps_cleanupGated sess l n : keeps gateDiscipline holdsNone (gated r sess (cleanupOn r sess l n)).
Proof. apply keeps_gated, every_cleanupOn; try apply ungatedCall_harmless; done. Qed.

Hint Resolve keeps_patchStatus keeps_inc keeps_emit keeps_now keeps_removeFinalizer keeps_fetchPolicy
  keeps_announceRenewal keeps_announceExpiry keeps_announceDelete keeps_expiryReason keeps_cleanupErr
  keeps_resolveForProvision keeps_handleTargetError keeps_Resolve keeps_provisionGated
  keeps_cleanupGated : keeps.

Lemma keeps_Get c k key : keeps gateDiscipline holdsNone (cl_Get c k key).
Proof. by apply keeps_call. Qed.
Lemma keeps_Update c k o : keeps gateDiscipline holdsNone (cl_Update c k o).
Proof. by apply keeps_call. Qed.
Lemma keeps_Delete c k o : keeps gateDiscipline holdsNone (cl_Delete c k o).
Proof. by apply keeps_call. Qed.

Hint Resolve keeps_Get keeps_Update keeps_Delete : keeps.

Lemma keeps_cleanupEnvironment l : keeps gateDiscipline holdsNone (cleanupEnvironment r l).
Proof. unfold cleanupEnvironment, resolveTargetSession. keeps_tac. Qed.
Lemma keeps_finishExpired l before b : keeps gateDiscipline holdsNone (finishExpired r l before b).
Proof. unfold finishExpired. keeps_tac. Qed.
Lemma keeps_finishDelete l before : keeps gateDiscipline holdsNone (finishDelete r l before).
Proof. unfold finishDelete. keeps_tac. Qed.

Hint Resolve keeps_cleanupEnvironment keeps_finishExpired keeps_finishDelete : keeps.

Lemma keeps_reconcileExpired l before ph : keeps gateDiscipline holdsNone (reconcileExpired r l before ph).
Proof. unfold reconcileExpired. keeps_tac. Qed.
Lemma keeps_reconcileDelete l : keeps gateDiscipline holdsNone (reconcileDelete r l).
Proof. unfold reconcileDelete. keeps_tac. Qed.
Lemma keeps_reconcileActive l ph res pol :
  keeps gateDiscipline holdsNone (reconcileActive r l ph res pol).
Proof. unfold reconcileActive. keeps_tac. Qed.

Hint Resolve keeps_reconcileExpired keeps_reconcileDelete keeps_reconcileActive : keeps.

Lemma keeps_rejectLease l before reason err m :
  keeps gateDiscipline holdsNone m -> keeps gateDiscipline holdsNone (rejectLease l before reason err m).
Proof. intros Hm. unfold rejectLease. keeps_tac. Qed.

Lemma keeps_reconcileLive l : keeps gateDiscipline holdsNone (reconcileLive r l).
Proof.
  unfold reconcileLive, reconcileResolved, reconcileStamped. keeps_tac; apply keeps_rejectLease; keeps_tac.
Qed.

Hint Resolve keeps_reconcileLive : keeps.

(** Claim C37.  The gate is used without deadlock or leak.  In every run of the
    reconciler, whatever the answers and on every error path, a target's slot is
    acquired only while no slot is held, only the slot that is held is released,
    and when [Reconcile] returns no slot is held. *)
Theorem gate_balanced (req : string) (tr : trace kube) (res : CtrlResult * option error) :
  runs (Reconcile r req) [] tr res -> guaranteed gateDiscipline tr /\ held tr = [].
Proof.
  intros Hr. apply (safe_sound gateDiscipline (Reconcile r req) [] tr res (fun h _ => holdsNone h) I); [|done].
  assert (Hk : keeps gateDiscipline holdsNone (Reconcile r req)) by (unfold Reconcile; keeps_tac).
  by apply Hk.
Qed.

End Paths.

(** ** Witnesses *)

Lemma reconcile_never_mixes_witness :
  onlyWith noDelete (in_world (demoReconcile "demo") demoWorld).2 \/
  onlyWith noProvision (in_world (demoReconcile "demo") demoWorld).2.
Proof.
  exact (@reconcile_never_mixes milliQuantity listConditions exactSelectors listControllerutil
    fourAttempts fourAttempts_laws demoReconciler "demo" _ _
    (@in_world_runs milliQuantity _ (demoReconcile "demo") demoWorld)).
Defined.

Lemma gate_balanced_witness : held (in_world (demoReconcile "demo") (rounds 1 demoWorld)).2 = [].
Proof.
  exact (proj2 (@gate_balanced milliQuantity listConditions exactSelectors listControllerutil
    fourAttempts fourAttempts_laws demoReconciler "demo" _ _
    (@in_world_runs milliQuantity _ (demoReconcile "demo") (rounds 1 demoWorld)))).
Defined.
