(* ===== verification/LeaseSafety.v ===== *)
(** * What may be destroyed, and when

    The safety of the lease reconciler's destructive calls, over every run and
    every answer: deleting a namespace, dropping the finalizer of a lease,
    deleting the lease. *)

From S2P Require Import Prelude GoStrings GoTime GoErrors Api LeaseConditions LeaseStatus Resources.
From S2P Require Import Policy LeaseExpiration Lifetime LeaseWarnings Concrete Programs Kube World Identity Placement Outage Remote.
From S2P Require Import LeaseCommon LeaseProvision LeaseCleanup LeaseReconcile Runtime LeasePaths.

Section Safety.
Context `{QuantityAPI} `{ConditionsAPI} `{SelectorAPI} `{!ControllerutilAPI} `{!ControllerutilLaws} `{RetryLaws}.
Variable r : EnvironmentLeaseReconciler.

Implicit Types (l : EnvironmentLease) (h : trace kube).

(** ** Evidence in a history *)

(** The client the provider answered for a target. *)
Definition clientAnswer (ev : event kube) : option (ClusterTarget * Client) :=
  match ev.(ev_eff) in kube X return X -> option (ClusterTarget * Client) with
  | ProviderClientFor t => fun res => match res with Ok c => Some (t, c) | Err _ => None end
  | _ => fun _ => None
  end ev.(ev_resp).

Definition isLocalName (name : string) : bool := is_empty name || String.eqb name LocalClusterName.

(** [c] is the client of the cluster [name]: the hub's, or the one the provider
    gave in this run for the target the hub returned under that name. *)
Definition clientOf h (name : string) (c : Client) : Prop :=
  if isLocalName name then c = HubClient
  else exists target, answered KTarget h HubClient (named name) (Ok target) /\
         Some (target, c) ∈ (clientAnswer <$> h).

Lemma clientOf_mono h h' name c : h `suffix_of` h' -> clientOf h name c -> clientOf h' name c.
Proof.
  intros Hh. unfold clientOf. case_match; [done|]. intros (target & Hx1 & Hx2). exists target.
  split; [by eapply answered_mono|]. destruct Hh as [t ->]. rewrite fmap_app, elem_of_app. tauto.
Qed.


(** ** The two conditions *)

(** Every check that must precede the deletion of a namespace, for the lease as
    it was read. *)
Record verifiedDeletion l h (c : Client) (ns : Namespace) : Prop := {
  vd_unprotected : IsProtectedNamespace l.(lease_Status).(st_Namespace) = false;
  vd_not_forced : ForceCleanupAcknowledged l = false;
  vd_cluster : clientOf h (cleanupTarget l) c;
  vd_read : answered KNamespace h c (named l.(lease_Status).(st_Namespace)) (Ok ns);
  vd_owned : owns r.(rec_ControlClusterID) l ns;
  vd_live : IsZeroPtr ns.(ns_Meta).(m_DeletionTimestamp) = true;
  vd_target : isLocalName (cleanupTarget l) = false -> expectedTarget l <> "" ->
    exists ks, answered KNamespace h c (named "kube-system") (Ok ks) /\
               ks.(ns_Meta).(m_UID) = expectedTarget l
}.

(** Why the environment of a lease counts as gone: it never had a namespace, the
    operator or the specification waived the cleanup, or the cluster itself
    answered that the namespace does not exist. *)
Definition cleanedUp l h : Prop :=
  let n := l.(lease_Status).(st_Namespace) in
  n = "" \/
  IsProtectedNamespace n = false /\
  (ForceCleanupAcknowledged l = true \/ bestEffort l = true \/
   exists c err, clientOf h (cleanupTarget l) c /\ answered KNamespace h c (named n) (Err err) /\
     IsNotFound err = true).

Lemma cleanedUp_mono l h h' : h `suffix_of` h' -> cleanedUp l h -> cleanedUp l h'.
Proof.
  intros Hh [?|[? [?|[?|(c & err & ? & ? & ?)]]]]; [by left|right; split; [done|]..]; [by left|by right; left|].
  right. right. exists c, err. split; [by eapply clientOf_mono|]. split; [by eapply answered_mono|done].
Qed.

(** What a run that started from the lease [l] may destroy. *)
Definition destructive l X h (e : kube X) : Prop :=
  match e with
  | ClientDelete c k o =>
      match k return Obj k -> Prop with
      | KNamespace => fun ns => verifiedDeletion l h c ns
      | KLease => fun _ => cleanedUp l h
      | _ => fun _ => False
      end o
  | ClientUpdate c k o =>
      match k return Obj k -> Prop with
      | KLease => fun l' => FinalizerName ∈ l'.(lease_Meta).(m_Finalizers) \/ cleanedUp l h
      | _ => fun _ => False
      end o
  | _ => True
  end.

(** The parts of a lease the checks depend on are those that were read. *)
Record sameEnv l0 l : Prop := {
  se_meta : l.(lease_Meta) = l0.(lease_Meta);
  se_spec : l.(lease_Spec) = l0.(lease_Spec);
  se_ns : l.(lease_Status).(st_Namespace) = l0.(lease_Status).(st_Namespace);
  se_cluster : l.(lease_Status).(st_Cluster) = l0.(lease_Status).(st_Cluster)
}.

(** ** The cleanup *)

Lemma destructive_harmless l X h (e : kube X) : harmless e = true -> destructive l X h e.
Proof. by destruct e. Qed.

(** Resolution of a cluster, from any history. *)
Lemma Resolve_client l0 name h :
  safe (destructive l0) (ResolveNamedTarget HubClient HubClient r.(rec_Provider) name) h
    (fun h' s => forall sess, s = Ok sess ->
       clientOf h' name sess.(ses_Client) /\ sess.(ses_Local) = isLocalName name).
Proof.
  unfold ResolveNamedTarget, clientOf. fold (isLocalName name). destruct (isLocalName name) eqn:Hl.
  { by intros sess [= <-]. }
  cbn. split; [done|]. intros [t|err]; cbn; [|case_match; done].
  repeat (case_match; cbn; [done|]). split; [done|]. intros [c|err]; cbn; [|done].
  intros sess [= <-]. cbn. split; [|done]. exists t. unfold answered. cbn. split; [right; left|left].
Qed.

Lemma safe_observe l0 sess op err s h (Q : trace kube -> unit -> Prop) :
  counted op = true -> (forall t, Q (t ++ h) tt) -> safe (destructive l0) (observeClusterOp sess op err s) h Q.
Proof.
  intros Ho HQ. eapply safe_post; [apply safe_extends|].
  - eapply (every_safe (fun X (e : kube X) => harmless e = true) _ _ _ (fun _ _ => True)); [|apply destructive_harmless|done].
    by apply every_observe.
  - intros h' [] [_ [t ->]]. apply HQ.
Qed.

(** A timed call: its answer is in the history, which has grown. *)
Lemma safe_timedOp {X} l0 sess op (e : kube X) f h (Q : trace kube -> X -> Prop) :
  counted op = true ->
  (forall s, destructive l0 X (Ev WallClock s :: h) e) ->
  (forall t s x, Q (t ++ Ev e x :: Ev WallClock s :: h) x) ->
  safe (destructive l0) (timedOp sess op (call e) f) h Q.
Proof.
  intros Ho HG HQ. unfold timedOp, call. cbn [bind safe]. split; [done|]. intros s.
  split; [apply HG|]. intros x. split; [done|]. intros stop. rewrite safe_bind.
  apply safe_observe; [done|]. intros t. cbn [safe].
  replace (t ++ Ev WallClock stop :: Ev e x :: Ev WallClock s :: h)
    with ((t ++ [Ev WallClock stop]) ++ Ev e x :: Ev WallClock s :: h) by by rewrite <- app_assoc.
  apply HQ.
Qed.

Lemma statusRemoteIdentity_expected l : statusRemoteIdentity l = expectedTarget l.
Proof. done. Qed.

(** The live identity check leaves its evidence. *)
Definition targetVerified l h (c : Client) : Prop :=
  isLocalName (cleanupTarget l) = false -> expectedTarget l <> "" ->
  exists ks, answered KNamespace h c (named "kube-system") (Ok ks) /\ ks.(ns_Meta).(m_UID) = expectedTarget l.

Lemma verifyTarget_safe l0 l sess h :
  sameEnv l0 l -> sess.(ses_Local) = isLocalName (cleanupTarget l0) ->
  safe (destructive l0) (verifyTarget sess l) h (fun h' p =>
    sameEnv l0 p.1 /\ (exists t, h' = t ++ h) /\ (p.2 = None -> targetVerified l0 h' sess.(ses_Client))).
Proof.
  intros Hs Hl. unfold verifyTarget. cbv zeta. rewrite statusRemoteIdentity_expected, Hl.
  assert (Hexp : expectedTarget l = expectedTarget l0) by (unfold expectedTarget; by rewrite (se_cluster _ _ Hs)).
  rewrite Hexp. unfold targetVerified.
  destruct (isLocalName _) eqn:Hloc; cbn [negb andb]; [split; [done|]; split; [by exists []|done]|].
  destruct (is_empty _) eqn:He; cbn [negb].
  { apply is_empty_true in He. split; [done|]. split; [by exists []|done]. }
  rewrite safe_bind. apply safe_Probe; [done|..].
  - intros ks Huid. destruct (VerifyLiveTargetIdentity _ _) as [err|] eqn:Hv; cbn.
    + split; [by destruct Hs|]. split; [by eexists [_]|done].
    + split; [done|]. split; [by eexists [_]|]. intros _ _ _. exists ks.
      split; [unfold answered; cbn; left|].
      apply is_empty_false in He. destruct (decide (expectedTarget l0 = ks.(ns_Meta).(m_UID))); [done|].
      exfalso. assert (Hc : VerifyLiveTargetIdentity (expectedTarget l0) (m_UID (ns_Meta ks)) <> None)
        by (by apply VerifyLiveTargetIdentity_iff). done.
  - intros res err. cbn. split; [done|]. split; [by eexists [_]|done].
Qed.

Lemma bestEffort_same l0 l : sameEnv l0 l -> bestEffort l = bestEffort l0.
Proof. intros Hs. unfold bestEffort. by rewrite (se_spec _ _ Hs). Qed.

Lemma owns_same ctl l0 l ns : sameEnv l0 l -> owns ctl l ns -> owns ctl l0 ns.
Proof.
  intros Hs []. pose proof (se_meta _ _ Hs) as Hm. pose proof (se_cluster _ _ Hs) as Hc.
  constructor; try done; rewrite <- ?Hm; try done.
  unfold expectedTarget in *. by rewrite <- Hc.
Qed.

Definition cleanupPost l0 h (p : EnvironmentLease * result bool) : Prop :=
  sameEnv l0 p.1 /\ (p.2 = Ok true -> cleanedUp l0 h).

(** From an open session on. *)
Lemma cleanupNamespace_safe l0 l sess h :
  sameEnv l0 l -> IsProtectedNamespace l0.(lease_Status).(st_Namespace) = false ->
  ForceCleanupAcknowledged l0 = false ->
  clientOf h (cleanupTarget l0) sess.(ses_Client) -> targetVerified l0 h sess.(ses_Client) ->
  safe (destructive l0) (cleanupNamespace r sess l l0.(lease_Status).(st_Namespace)) h (cleanupPost l0).
Proof.
  intros Hs Hp Hf Hcl Htv. unfold cleanupNamespace, cl_Get. rewrite safe_bind.
  apply safe_timedOp; [done|done|]. intros t s [ns|err].
  - set (n := st_Namespace (lease_Status l0)) in *. set (h1 := t ++ _).
    destruct (VerifyNamespaceOwnership ns l (rec_ControlClusterID r)) as [err|] eqn:Hv.
    { split; [by destruct Hs|done]. }
    apply VerifyNamespaceOwnership_iff in Hv. unfold deleteNamespace.
    destruct (IsZeroPtr _) eqn:Hz; [|by split].
    rewrite safe_bind. unfold cl_Delete. apply safe_timedOp; [done|..].
    + intros s2. constructor; try done.
      * eapply clientOf_mono; [|exact Hcl]. subst h1. grown.
      * eapply answered_mono; [apply suffix_cons_r, suffix_app_r; reflexivity|].
        unfold answered. cbn. left.
      * by eapply owns_same.
      * intros Hl He. destruct (Htv Hl He) as (ks & Hk & Huid). exists ks. split; [|done].
        eapply answered_mono; [|exact Hk]. subst h1. grown.
    + intros t2 s2 [err|]; [case_match|]; by split.
  - destruct (IsNotFound err) eqn:Hn.
    + split; [done|]. intros _. right. split; [done|]. right. right. exists sess.(ses_Client), err.
      split; [|split; [|done]].
      * eapply clientOf_mono; [|exact Hcl]. grown.
      * eapply answered_mono; [apply suffix_app_r; reflexivity|]. unfold answered. cbn. left.
    + rewrite (bestEffort_same _ _ Hs). destruct (bestEffort l0) eqn:Hb; [|by split].
      split; [done|]. intros _. right. auto.
Qed.

(** The gate around a body. *)
Lemma safe_gated {A} l0 sess (body : prog kube A) h (Q : trace kube -> A -> Prop) :
  (forall g, safe (destructive l0) body (g ++ h) (fun h' a => forall g, Q (g ++ h') a)) ->
  safe (destructive l0) (gated r sess body) h Q.
Proof.
  intros Hb. unfold gated, with_release, call. destruct (rec_Gate r).
  - cbn [bind safe]. split; [done|]. intros x. rewrite safe_bind.
    eapply safe_post; [apply (Hb [_])|]. intros h' a Ha. cbn. split; [done|]. intros y.
    apply (Ha [_]).
  - eapply safe_post; [apply (Hb [])|]. intros h' a Ha. apply (Ha []).
Qed.

Lemma cleanupPost_mono l0 g h p : cleanupPost l0 h p -> cleanupPost l0 (g ++ h) p.
Proof. intros [? Hc]. split; [done|]. intros Hp. eapply cleanedUp_mono; [|by apply Hc]. grown. Qed.

Lemma cleanupTarget_same l0 l : sameEnv l0 l -> cleanupTarget l = cleanupTarget l0.
Proof. intros Hs. unfold cleanupTarget. by rewrite (se_spec _ _ Hs), (se_cluster _ _ Hs). Qed.

Lemma cleanupEnvironment_safe l0 l h :
  sameEnv l0 l -> safe (destructive l0) (cleanupEnvironment r l) h (cleanupPost l0).
Proof.
  intros Hs. unfold cleanupEnvironment. rewrite (se_ns _ _ Hs). cbv zeta.
  destruct (is_empty _) eqn:He.
  { apply is_empty_true in He. split; [done|]. intros _. by left. }
  destruct (IsProtectedNamespace _) eqn:Hp; [by split|].
  assert (Hforce : ForceCleanupAcknowledged l = ForceCleanupAcknowledged l0)
    by (unfold ForceCleanupAcknowledged; by rewrite (se_meta _ _ Hs)).
  rewrite Hforce. destruct (ForceCleanupAcknowledged l0) eqn:Hf.
  { split; [done|]. intros _. right. auto. }
  unfold resolveTargetSession. rewrite (cleanupTarget_same _ _ Hs), safe_bind.
  eapply safe_post; [apply Resolve_client|]. intros h1 [sess|err] Hc.
  2: { rewrite (bestEffort_same _ _ Hs). destruct (bestEffort l0) eqn:Hb.
       - split; [done|]. intros _. right. auto.
       - split; [by destruct Hs|done]. }
  destruct (Hc sess eq_refl) as [Hcl Hloc]. apply safe_gated. intros g.
  eapply (safe_post _ _ _ (cleanupPost l0)); [|intros h' a Ha g'; by apply cleanupPost_mono].
  unfold cleanupOn. rewrite safe_bind. eapply safe_post; [by apply verifyTarget_safe|].
  intros h2 [l' [err|]] (Hs' & [t ->] & Hv); [by split|].
  apply cleanupNamespace_safe; try done.
  - eapply clientOf_mono; [|exact Hcl]. grown.
  - by apply Hv.
Qed.

(** ** The paths *)

(** Calls that destroy nothing. *)
Definition benign X (e : kube X) : Prop :=
  match e with ClientDelete _ _ _ | ClientUpdate _ _ _ => False | _ => True end.

(** Calls that finish a lease off. *)
Definition finishing X (e : kube X) : Prop :=
  match e with ClientDelete _ k _ | ClientUpdate _ k _ => k = KLease | _ => True end.

Lemma benign_harmless X (e : kube X) : harmless e = true -> benign X e.
Proof. by destruct e. Qed.

Lemma finishing_harmless X (e : kube X) : harmless e = true -> finishing X e.
Proof. by destruct e. Qed.

Lemma benign_safe {A} l0 (p : prog kube A) h :
  every benign p -> safe (destructive l0) p h (fun _ _ => True).
Proof. intros Hp. apply (every_safe benign); [done|by intros X h' []|done]. Qed.

Lemma finishing_safe {A} l0 (p : prog kube A) h :
  every finishing p -> cleanedUp l0 h -> safe (destructive l0) p h (fun _ _ => True).
Proof.
  intros Hp Hc. eapply safe_post; [|done].
  apply (every_inv finishing (destructive l0) (cleanedUp l0) p h Hp); [|done].
  intros X h' e Hh He. split.
  - destruct e; try done; cbn in He; subst k; cbn; [by right|done].
  - intros x. eapply cleanedUp_mono; [|exact Hh]. grown.
Qed.

Lemma finishExpired_safe l0 l before b h :
  cleanedUp l0 h -> safe (destructive l0) (finishExpired r l before b) h (fun _ _ => True).
Proof.
  apply finishing_safe, every_finishExpired; try apply finishing_harmless; done.
Qed.

Lemma finishDelete_safe l0 l before h :
  cleanedUp l0 h -> safe (destructive l0) (finishDelete r l before) h (fun _ _ => True).
Proof.
  apply finishing_safe, every_finishDelete; try apply finishing_harmless; done.
Qed.

Lemma sameEnv_refl l : sameEnv l l.
Proof. done. Qed.

Lemma sameEnv_MarkExpired l0 l reason : sameEnv l0 l -> sameEnv l0 (MarkExpired l reason).
Proof. by intros []. Qed.

Lemma sameEnv_MarkCleaning l0 l m : sameEnv l0 l -> sameEnv l0 (MarkCleaning l m).
Proof. by intros []. Qed.

Lemma reconcileExpired_safe l0 l before ph h :
  sameEnv l0 l -> safe (destructive l0) (reconcileExpired r l before ph) h (fun _ _ => True).
Proof.
  intros Hs. unfold reconcileExpired. cbv zeta. rewrite safe_bind.
  eapply safe_post; [apply benign_safe, every_expiryReason, benign_harmless|]. intros h1 reason _.
  rewrite safe_bind. eapply safe_post.
  { apply benign_safe. unfold when. case_match; [apply every_announceExpiry, benign_harmless|done]. }
  intros h2 [] _. rewrite safe_bind.
  eapply safe_post; [apply cleanupEnvironment_safe, sameEnv_MarkExpired, Hs|].
  intros h3 [l' [[]|err]] [Hs' Hc].
  - apply finishExpired_safe. by apply Hc.
  - apply benign_safe. apply every_bind.
    + apply every_patchStatus; [apply benign_harmless|done].
    + intros [l'' [e|]]; done.
  - apply benign_safe, every_cleanupErr; [apply benign_harmless|done].
Qed.

Lemma reconcileDelete_safe l0 h :
  safe (destructive l0) (reconcileDelete r l0) h (fun _ _ => True).
Proof.
  unfold reconcileDelete. destruct (ContainsFinalizer _ _); cbn [negb]; [|done]. cbv zeta.
  rewrite safe_bind. eapply safe_post.
  { apply benign_safe. unfold when. case_match; [apply every_announceDelete, benign_harmless|done]. }
  intros h1 [] _. rewrite safe_bind.
  eapply safe_post; [apply cleanupEnvironment_safe, sameEnv_MarkCleaning; by case_match|].
  intros h3 [l' [[]|err]] [Hs' Hc].
  - apply finishDelete_safe. by apply Hc.
  - apply benign_safe. apply every_bind.
    + apply every_patchStatus; [apply benign_harmless|done].
    + intros [l'' [e|]]; done.
  - apply benign_safe, every_cleanupErr; [apply benign_harmless|done].
Qed.

(** ** The whole run *)

(** The lease the run is about: the answer of its first call. *)
Definition readLease (req : string) h l : Prop :=
  last h = Some (Ev (ClientGet HubClient KLease (named req)) (Ok l)).

(** The policy of a lease, as the hub returned it in this run. *)
Definition policyRead l h (pol : option EnvironmentLeasePolicy) : Prop :=
  let name := refName l.(lease_Spec).(spec_PolicyRef) in
  match pol with
  | None => name = ""
  | Some p => name <> "" /\ answered KPolicy h HubClient (named name) (Ok p)
  end.

(** The readings of the clock in a history, the first one first. *)
Definition clockReading (ev : event kube) : option time :=
  match ev.(ev_eff) in kube X return X -> option time with
  | Now => fun t => Some t
  | _ => fun _ => None
  end ev.(ev_resp).

Definition clockReadings h : list time := reverse (omap clockReading h).

(** The lifetime of a lease as a run derived it: its timestamps brought up to date
    under its policy at the first reading of the clock, its idle expiration at the
    second, and its deadline passed or not at the third. *)
Definition derived l h (expired : bool) : Prop :=
  exists pol resolved stamps t0 t1 t2,
    [t0; t1; t2] `prefix_of` clockReadings h /\
    policyRead l h pol /\ Resolve l.(lease_Spec) pol = Ok resolved /\
    EnsureTimestamps (l <|@ st_Effective := Some (ToEffectiveStatus resolved) |>)
      resolved.(r_TTL) resolved.(r_MaxTTL) resolved.(r_Renewable) t0 = Ok stamps /\
    IsExpired (SyncExpirationStatus (stampedLease stamps) resolved.(r_IdleTTL) t1) t2 = expired.

(** The end of a lease: it is being deleted, or this run found its deadline passed. *)
Definition endOfLife l h : Prop :=
  IsZeroPtr l.(lease_Meta).(m_DeletionTimestamp) = false \/ derived l h true.

(** A lease written with its finalizer. *)
Definition holdsFinalizer (k : Kind) : Obj k -> Prop :=
  match k with KLease => fun l => FinalizerName ∈ l.(lease_Meta).(m_Finalizers) | _ => fun _ => False end.

(** What a run for [req] may do to leases and namespaces. *)
Definition runGuard (req : string) X h (e : kube X) : Prop :=
  match e with
  | ClientDelete _ _ _ => exists l, readLease req h l /\ endOfLife l h /\ destructive l X h e
  | ClientUpdate _ k o => exists l, readLease req h l /\ (endOfLife l h \/ holdsFinalizer k o) /\ destructive l X h e
  | _ => True
  end.

Lemma readLease_mono req h h' l : h `suffix_of` h' -> readLease req h l -> readLease req h' l.
Proof.
  intros [t ->]. unfold readLease. rewrite last_app. by intros ->.
Qed.

Lemma policyRead_mono l h h' pol : h `suffix_of` h' -> policyRead l h pol -> policyRead l h' pol.
Proof.
  intros Hh Hp. destruct pol; [|done]. destruct Hp as [Hn Ha]. split; [done|].
  eapply answered_mono; [exact Hh|exact Ha].
Qed.

Lemma clockReadings_mono h h' ts : h `suffix_of` h' -> ts `prefix_of` clockReadings h -> ts `prefix_of` clockReadings h'.
Proof.
  intros [t ->] Hts. unfold clockReadings. rewrite omap_app, reverse_app. by apply prefix_app_r.
Qed.

Lemma clockReadings_now h (t : time) : clockReadings (Ev Now t :: h) = clockReadings h ++ [t].
Proof. apply reverse_cons. Qed.

(** Calls other than readings of the clock. *)
Definition clockless X (e : kube X) : Prop := forall x, clockReading (Ev e x) = None.

Lemma clockless_safe {A} (G : guarantee kube) (p : prog kube A) h Q :
  every clockless p -> safe G p h Q ->
  safe G p h (fun h' a => Q h' a /\ clockReadings h' = clockReadings h).
Proof.
  enough (Hen : forall ts, clockReadings h = ts -> every clockless p -> safe G p h Q ->
    safe G p h (fun h' a => Q h' a /\ clockReadings h' = ts)) by (by apply Hen).
  intros ts. revert h. induction p as [a|X e k IH]; intros h Hts; cbn [safe every]; [done|].
  intros [He Hk] [HG Hs]. split; [done|]. intros x. apply IH; [|done|done].
  rewrite <- Hts. unfold clockReadings. f_equal. cbn. by rewrite He.
Qed.

Lemma clockless_fetchPolicy l : every clockless (fetchPolicy l).
Proof. unfold fetchPolicy, cl_Get. every_tac. Qed.

Lemma clockless_announceRenewal l p b : every clockless (announceRenewal r l p b).
Proof. unfold announceRenewal, inc, emit. every_tac. Qed.

Lemma derived_mono l h h' b : h `suffix_of` h' -> derived l h b -> derived l h' b.
Proof.
  intros Hh (pol & res & st & t0 & t1 & t2 & Ht & Hp & Hrest). exists pol, res, st, t0, t1, t2.
  split; [by eapply clockReadings_mono|]. split; [by eapply policyRead_mono|done].
Qed.

Lemma endOfLife_mono l h h' : h `suffix_of` h' -> endOfLife l h -> endOfLife l h'.
Proof. intros Hh [?|?]; [by left|right; by eapply derived_mono]. Qed.

Lemma runGuard_safe {A} req l (p : prog kube A) h Q :
  readLease req h l -> endOfLife l h -> safe (destructive l) p h Q -> safe (runGuard req) p h Q.
Proof.
  intros Hr He Hp. apply safe_within in Hp. eapply safe_mono; [| |exact Hp]; [|done].
  intros X h' e [Hd Hs]. destruct e; try done; exists l.
  - split; [by eapply readLease_mono|]. split; [left; by eapply endOfLife_mono|done].
  - split; [by eapply readLease_mono|]. split; [by eapply endOfLife_mono|done].
Qed.

Lemma runGuard_benign {A} req (p : prog kube A) h :
  every benign p -> safe (runGuard req) p h (fun h' _ => h `suffix_of` h').
Proof.
  intros Hp. eapply safe_post; [apply safe_extends, (every_safe benign _ _ _ (fun _ _ => True)); [done| |done]|].
  - by intros X h' [].
  - intros h' a [_ [t ->]]. by exists t.
Qed.

Lemma sameEnv_stamped l ttl maxTTL ren now resolved stamps :
  EnsureTimestamps (l <|@ st_Effective := Some (ToEffectiveStatus resolved) |>) ttl maxTTL ren now = Ok stamps ->
  sameEnv l (stampedLease stamps).
Proof.
  intros Hst. apply EnsureTimestamps_Ok_inv in Hst as [_ Hl]. unfold stampedLease.
  destruct stamps as [l' ? []]; cbn in *; by subst l'.
Qed.

Lemma sameEnv_Sync l0 l idle now : sameEnv l0 l -> sameEnv l0 (SyncExpirationStatus l idle now).
Proof. intros []. unfold SyncExpirationStatus. repeat case_match; by constructor. Qed.

Lemma benign_reject l before reason err m : every benign m -> every benign (rejectLease l before reason err m).
Proof. apply every_rejectLease; [apply benign_harmless|done]. Qed.

Lemma reconcileStamped_safe req l before ph pe res pol stamps t0 h :
  readLease req h l -> policyRead l h pol -> Resolve l.(lease_Spec) pol = Ok res -> clockReadings h = [t0] ->
  EnsureTimestamps (l <|@ st_Effective := Some (ToEffectiveStatus res) |>)
    res.(r_TTL) res.(r_MaxTTL) res.(r_Renewable) t0 = Ok stamps ->
  safe (runGuard req) (reconcileStamped r (stampedLease stamps) before ph pe res pol) h (fun _ _ => True).
Proof.
  intros Hr Hp Hres Ht0 Hst. unfold reconcileStamped. rewrite safe_bind. split; [done|]. intros t1. cbn [safe]. cbv zeta.
  rewrite safe_bind. eapply safe_post; [apply clockless_safe; [apply clockless_announceRenewal|]|].
  { apply runGuard_benign, every_announceRenewal, benign_harmless. }
  intros h2 [] [Hh2 Hcl]. rewrite safe_bind. split; [done|]. intros t2. cbn [safe].
  rewrite clockReadings_now, Ht0 in Hcl. set (h3 := Ev Now t2 :: h2).
  assert (Hh : h `suffix_of` h3) by (etrans; [|apply suffix_cons_r, Hh2]; grown).
  destruct (IsExpired _ _) eqn:Hexp.
  - apply (runGuard_safe req l); [by eapply readLease_mono| |].
    + right. exists pol, res, stamps, t0, t1, t2. split_and!; try done; [|by eapply policyRead_mono].
      subst h3. by rewrite clockReadings_now, Hcl.
    + apply reconcileExpired_safe, sameEnv_Sync. by eapply sameEnv_stamped.
  - eapply safe_post; [apply runGuard_benign|done]. apply every_bind.
    + apply every_reconcileActive; try apply benign_harmless; done.
    + intros [l' res']. apply every_bind; [apply every_patchStatus; [apply benign_harmless|done]|].
      intros [l'' [e|]]; [done|]. by destruct res' as [? []].
Qed.

Lemma fetchPolicy_safe req l h :
  safe (runGuard req) (fetchPolicy l) h (fun h' p => h `suffix_of` h' /\
    forall pol, p = Ok pol -> policyRead l h' pol).
Proof.
  unfold fetchPolicy, policyRead, refName. destruct (spec_PolicyRef _) as [name|]; cbn.
  - destruct (is_empty name) eqn:He; cbn.
    + apply is_empty_true in He. split; [done|]. by intros pol [= <-].
    + split; [done|]. intros [p|err]; cbn; (split; [grown|]); [|done]. intros pol [= <-].
      split; [by apply is_empty_false|]. unfold answered. cbn. left.
  - split; [done|]. by intros pol [= <-].
Qed.

Lemma reconcileLive_safe req l h :
  readLease req h l -> clockReadings h = [] -> safe (runGuard req) (reconcileLive r l) h (fun _ _ => True).
Proof.
  intros Hr Hcl. unfold reconcileLive. cbv zeta. destruct (ValidateSpec l).
  { eapply safe_post; [apply runGuard_benign, benign_reject, every_inc; [apply benign_harmless|reflexivity]|done]. }
  rewrite safe_bind.
  eapply safe_post; [apply clockless_safe; [apply clockless_fetchPolicy|apply fetchPolicy_safe]|].
  intros h1 [pol|err] [[Hh1 Hp] Hcl1].
  2: { eapply safe_post; [apply runGuard_benign, benign_reject, every_inc; [apply benign_harmless|reflexivity]|done]. }
  unfold reconcileResolved. destruct (Resolve _ _) as [res|err] eqn:Hres.
  - cbv zeta. rewrite safe_bind. split; [done|]. intros t. cbn [safe]. set (h2 := Ev Now t :: h1).
    assert (Hh2 : h1 `suffix_of` h2) by (subst h2; grown).
    destruct (EnsureTimestamps _ _ _ _ _) as [stamps|err] eqn:Hst.
    + apply (reconcileStamped_safe req l _ _ _ _ _ _ t); try done.
      * eapply readLease_mono; [|exact Hr]. by transitivity h1.
      * by eapply policyRead_mono, Hp.
      * subst h2. by rewrite clockReadings_now, Hcl1, Hcl.
    + eapply safe_post; [by apply runGuard_benign, benign_reject|done].
  - eapply safe_post; [apply runGuard_benign, benign_reject, every_bind|done].
    + apply every_inc; [apply benign_harmless|reflexivity].
    + intros _. apply every_inc; [apply benign_harmless|reflexivity].
Qed.

(** Claim C1.  The destructive calls of the controller are safe in every run,
    whatever the API servers, the provider and the clock answer.  Let [l] be the
    lease the run read first.  A namespace is deleted only when [l] is being
    deleted or its deadline, computed under the policy this run read from the first
    two readings of the clock, has passed at the third, and only after that very namespace was
    read in this run, under the name in the status of [l], from the cluster [l]
    is on, with labels and stamps that make it the property of [l]; it is not a
    protected namespace and not already terminating, no force-cleanup
    acknowledgement was given, and on a remote cluster with a recorded identity
    the live cluster proved to have it.  The lease object is deleted, and its
    finalizer dropped, only at that same end of its life and once its environment
    is gone or its cleanup waived. *)
Theorem reconcile_destroys_safely (req : string) (tr : trace kube) (res : CtrlResult * option error) :
  runs (Reconcile r req) [] tr res -> guaranteed (runGuard req) tr.
Proof.
  intros Hrun. eapply (runs_guaranteed _ _ _ _ (fun _ _ => True) Hrun).
  unfold Reconcile. rewrite safe_bind. split; [done|]. intros [l|err]; cbn [safe]; [|by case_match].
  set (h := [_]). assert (Hr : readLease req h l) by done. cbv zeta.
  destruct (IsZeroPtr _) eqn:Hz; cbn [negb].
  - destruct (ContainsFinalizer _ _) eqn:Hf; cbn [negb]; [by apply reconcileLive_safe|].
    split; [|by intros [?|?]]. exists l. split; [done|].
    assert (Hadd : FinalizerName ∈ AddFinalizer l.(lease_Meta).(m_Finalizers) FinalizerName)
      by (apply AddFinalizer_spec; by right).
    split; [by right|by left].
  - apply (runGuard_safe req l); [done|by left|]. apply reconcileDelete_safe.
Qed.

End Safety.

(** ** Witness *)

Lemma reconcile_destroys_safely_witness :
  let w := (rounds 2 demoWorld) <| w_now := 4000 * Second |> in
  guaranteed (@runGuard milliQuantity listConditions demoReconciler "demo")
    (in_world (demoReconcile "demo") w).2.
Proof.
  exact (@reconcile_destroys_safely milliQuantity listConditions exactSelectors listControllerutil
    listControllerutil_laws fourAttempts fourAttempts_laws demoReconciler "demo" _ _
    (@in_world_runs milliQuantity _ (demoReconcile "demo") _)).
Defined.
