(* ===== verification/LeaseEnsure.v ===== *)
(** * What provisioning establishes

    The namespace and the objects the active path creates or changes, for every
    answer of the target cluster, and the status writer. *)

From S2P Require Import Prelude GoStrings GoTime GoErrors Api LeaseConditions LeaseStatus Resources.
From S2P Require Import Policy LeaseExpiration LeaseWarnings Concrete Programs Kube World Identity Placement Outage Remote.
From S2P Require Import LeaseCommon LeaseProvision LeaseCleanup LeaseReconcile Runtime LeasePaths LeaseSafety.

(** ** Comparing maps *)

Lemma mapsEqual_spec (a b : labels) :
  mapsEqual a b = true <->
  size a = size b /\ forall k v, a !! k = Some v -> get b k = v.
Proof.
  unfold mapsEqual. destruct (bool_decide_reflect (size a <> size b)) as [Hs|Hs]; [naive_solver|].
  rewrite forallb_forall. split.
  - intros Hf. split; [destruct (decide (size a = size b)); tauto|]. intros k v Hk.
    specialize (Hf (k, v)). cbn in Hf. apply String.eqb_eq, Hf.
    by apply list_elem_of_In, elem_of_map_to_list.
  - intros [_ Hf] [k v] Hin. apply list_elem_of_In, elem_of_map_to_list in Hin.
    apply String.eqb_eq. by apply Hf.
Qed.

(** The map comparison that decides whether labels need a patch is
    equality of maps as long as no value on the left is empty: Go's [b[k]] reads
    a missing key as the empty string. *)
Theorem mapsEqual_correct (a b : labels) :
  (forall k v, a !! k = Some v -> v <> "") -> (mapsEqual a b = true <-> a = b).
Proof.
  intros Hne. rewrite mapsEqual_spec. split; [|intros ->; split; [done|]; intros k v Hk; unfold get; by rewrite Hk].
  intros [Hs Hf]. assert (Hsub : a ⊆ b).
  { apply map_subseteq_spec. intros k v Hk. specialize (Hf k v Hk). unfold get in Hf.
    destruct (b !! k); cbn in Hf; [by subst|]. exfalso. by apply (Hne k v). }
  apply map_subseteq_size_eq; [done|lia].
Qed.

(** The comparison is not symmetric, and not equality: a label with an empty
    value on one side hides a missing label on the other. *)
Lemma mapsEqual_confuses : mapsEqual {["x" := ""]} {["y" := "z"]} = true /\
  mapsEqual {["y" := "z"]} {["x" := ""]} = false.
Proof. split; vm_compute; reflexivity. Qed.

Section Ensure.
Context `{QuantityAPI} `{ConditionsAPI} `{SelectorAPI} `{!ControllerutilAPI} `{!ControllerutilLaws} `{RetryLaws}.
Variable r : EnvironmentLeaseReconciler.

Implicit Types (l : EnvironmentLease) (h : trace kube) (sess : TargetSession).

(** ** The namespace *)

(** Metadata with the managed labels and the stamps of a lease makes a namespace
    the lease's. *)
Lemma owns_stamped l (m : ObjectMeta) extra base :
  m.(m_Labels) = MergeLabels (ManagedLabels (lease_Name l)) extra ->
  m.(m_Annotations) = stampAnnotations base (lease_UID l) r.(rec_ControlClusterID) (expectedTarget l) ->
  owns r.(rec_ControlClusterID) l (mkNamespace m).
Proof.
  intros Hl Ha. pose proof (merged_managed (lease_Name l) extra) as Hm.
  apply IsManagedByKubeLease_spec in Hm as [Hm1 Hm2].
  constructor; cbn; rewrite ?Hl, ?Ha; [done|done|apply stamp_uid|..]; intros (Hr & He & Hne).
  - by rewrite stamp_control in Hne by done.
  - by rewrite stamp_target in Hne by done.
Qed.

Lemma DesiredNamespace_owned l name ns :
  DesiredNamespace l name r.(rec_ControlClusterID) (statusRemoteIdentity l) = Ok ns ->
  owns r.(rec_ControlClusterID) l ns /\ ns.(ns_Meta).(m_Name) = name /\
  IsProtectedNamespace name = false /\ name <> "".
Proof.
  unfold DesiredNamespace. destruct (is_empty name) eqn:He; [done|].
  destruct (IsProtectedNamespace name) eqn:Hp; [done|]. intros [= <-].
  split; [|by apply is_empty_false in He].
  eapply owns_stamped; [done|]. cbn. f_equal. case_match; done.
Qed.

(** The name a lease's namespace has to have, when it is determined. *)
Definition wantedName l : string :=
  if negb (is_empty l.(lease_Status).(st_Namespace)) then l.(lease_Status).(st_Namespace)
  else l.(lease_Spec).(spec_Namespace).(nsp_Name).

(** What may be done to namespaces while one is ensured. *)
Definition namespaceWrites sess l X h (e : kube X) : Prop :=
  match e with
  | ClientGet c KNamespace key => c = sess.(ses_Client) /\ key = named (wantedName l)
  | ClientCreate c k o =>
      c = sess.(ses_Client) /\
      match k return Obj k -> Prop with
      | KNamespace => fun ns =>
          owns r.(rec_ControlClusterID) l ns /\ ns.(ns_Meta).(m_Name) = wantedName l /\
          (wantedName l <> "" -> IsProtectedNamespace (wantedName l) = false /\
             exists err, answered KNamespace h c (named (wantedName l)) (Err err) /\ IsNotFound err = true)
      | _ => fun _ => False
      end o
  | ClientPatch c k patched base =>
      c = sess.(ses_Client) /\
      match k return Obj k -> Obj k -> Prop with
      | KNamespace => fun patched base =>
          answered KNamespace h c (named (wantedName l)) (Ok base) /\
          CanAdoptNamespace (Some base) (lease_Name l) (lease_UID l) = true /\
          IsZeroPtr base.(ns_Meta).(m_DeletionTimestamp) = true /\
          owns r.(rec_ControlClusterID) l patched /\
          IsProtectedNamespace (wantedName l) = false /\
          patched.(ns_Meta).(m_Name) = base.(ns_Meta).(m_Name)
      | _ => fun _ _ => False
      end patched base
  | _ => False
  end.

(** The namespace a successful run found or made. *)
Definition createdNamespace (ev : event kube) : option (Client * Namespace) :=
  match ev.(ev_eff) in kube X return X -> option (Client * Namespace) with
  | ClientCreate c k o =>
      match k return result (Obj k) -> option (Client * Namespace) with
      | KNamespace => fun res => match res with Ok ns => Some (c, ns) | Err _ => None end
      | _ => fun _ => None
      end
  | _ => fun _ => None
  end ev.(ev_resp).

Definition namespaceStands sess l h (n : string) (created : bool) : Prop :=
  (wantedName l <> "" -> n = wantedName l) /\
  if created then exists ns, Some (sess.(ses_Client), ns) ∈ (createdNamespace <$> h) /\
                             (wantedName l = "" -> ns.(ns_Meta).(m_Name) = n)
  else exists ns, answered KNamespace h sess.(ses_Client) (named n) (Ok ns) /\
         CanAdoptNamespace (Some ns) (lease_Name l) (lease_UID l) = true.

Lemma ensureExisting_safe sess l :
  wantedName l <> "" ->
  safe (namespaceWrites sess l) (ensureExistingNamespace r sess l (wantedName l)) []
    (fun h res => forall n created, res = Ok (n, created) -> namespaceStands sess l h n created).
Proof.
  intros Hw. unfold ensureExistingNamespace. cbv zeta.
  destruct (DesiredNamespace _ _ _ _) as [desired|err] eqn:Hd; [|done].
  apply DesiredNamespace_owned in Hd as (Ho & Hn & Hp & _).
  rewrite safe_bind. split; [done|]. intros [ns|err]; cbn [safe].
  - destruct (IsZeroPtr _) eqn:Hz; cbn [negb]; [|done].
    destruct (CanAdoptNamespace _ _ _) eqn:Ha; cbn [negb]; [|done].
    assert (Hans : answered KNamespace [Ev (ClientGet (ses_Client sess) KNamespace (named (wantedName l))) (Ok ns)]
      (ses_Client sess) (named (wantedName l)) (Ok ns)) by (unfold answered; cbn; left).
    destruct (mapsEqual _ _ && mapsEqual _ _).
    { intros n created [= <- <-]. split; [done|]. by exists ns. }
    rewrite safe_bind. split.
    { split; [done|]. do 3 (split; [done|]). split; [|done].
      eapply owns_stamped; reflexivity. }
    intros [p|err]; [|done]. intros n created [= <- <-]. split; [done|]. exists ns.
    split; [|done]. eapply answered_mono; [|exact Hans]. apply suffix_cons_r. done.
  - destruct (IsNotFound err) eqn:Hnf; [|done]. rewrite safe_bind. split.
    { split; [done|]. split; [done|]. split; [done|]. intros _. split; [done|]. exists err.
      split; [unfold answered; cbn; left|done]. }
    intros [p|err2]; [|done]. intros n created [= <- <-]. split; [done|]. exists p. cbn.
    split; [left|done].
Qed.

(** Claim C14.  Ensuring the namespace of a lease, for every answer of the target
    cluster.  Every call goes to the session's cluster.  A namespace is created
    only under the name the lease asks for, never a protected one, after the
    cluster answered that it does not exist (or under a generated name when none
    is determined); an existing one is changed only after it was read, is not
    terminating and may be adopted.  Whatever is created or changed carries the
    labels and stamps that make it the lease's own, so the same lease will be
    allowed to delete it.  Success means that a namespace stands under the
    returned name, which is the lease's recorded or requested one if it has one. *)
Theorem ensureNamespace_correct sess l (tr : trace kube) (res : result (string * bool)) :
  runs (ensureNamespace r sess l) [] tr res ->
  guaranteed (namespaceWrites sess l) tr /\
  forall n created, res = Ok (n, created) -> namespaceStands sess l tr n created.
Proof.
  intros Hr. apply (safe_sound (namespaceWrites sess l) (ensureNamespace r sess l) [] tr res
    (fun h res => forall n created, res = Ok (n, created) -> namespaceStands sess l h n created) I); [|done].
  pose proof (ensureExisting_safe sess l) as Hex.
  unfold ensureNamespace. cbv zeta. unfold wantedName in Hex.
  destruct (is_empty (st_Namespace _)) eqn:Hs; cbn [negb] in *.
  2: { apply Hex. by apply is_empty_false. }
  destruct (is_empty (nsp_Name _)) eqn:Hn; cbn [negb].
  2: { apply Hex. by apply is_empty_false. }
  apply is_empty_true in Hn. rewrite safe_bind.
  assert (Hw : wantedName l = "") by (unfold wantedName; by rewrite Hs, Hn).
  split.
  - split; [done|]. split; [eapply owns_stamped; reflexivity|]. cbn. by rewrite Hw.
  - intros [ns|err]; [|done]. intros n created [= <- <-]. split; [by rewrite Hw|].
    exists ns. cbn. split; [left|done].
Qed.

(** ** The quota *)

(** What may be done while the quota is ensured: read, create the desired one,
    patch the one that was read to the desired content. *)
Definition quotaWrites sess (namespace : string) (desired : ResourceQuota) X h (e : kube X) : Prop :=
  let key := mkObjectKey namespace ResourceQuotaName in
  let same (q : ResourceQuota) :=
    q.(rq_Hard) = desired.(rq_Hard) /\ q.(rq_Meta).(m_Labels) = desired.(rq_Meta).(m_Labels) in
  match e with
  | ClientGet c KQuota k => c = sess.(ses_Client) /\ k = key
  | ClientCreate c k o =>
      c = sess.(ses_Client) /\
      match k return Obj k -> Prop with
      | KQuota => fun q => same q /\ ObjectKeyFromMeta q.(rq_Meta) = key /\
                   (sess.(ses_SetLeaseOwner) = false -> q.(rq_Meta).(m_OwnerReferences) = [])
      | _ => fun _ => False
      end o
  | ClientPatch c k p b =>
      c = sess.(ses_Client) /\
      match k return Obj k -> Obj k -> Prop with
      | KQuota => fun p b => same p /\ answered KQuota h c key (Ok b) /\
                   (sess.(ses_SetLeaseOwner) = false ->
                      p.(rq_Meta).(m_OwnerReferences) = b.(rq_Meta).(m_OwnerReferences))
      | _ => fun _ _ => False
      end p b
  | _ => False
  end.

Lemma setOwner_meta sess l m m' :
  setOwner sess l m = Ok m' ->
  (exists refs, m' = m <| m_OwnerReferences := refs |>) /\
  (sess.(ses_SetLeaseOwner) = false -> m' = m).
Proof.
  unfold setOwner. destruct (ses_SetLeaseOwner sess).
  - intros Hs. split; [by eapply SetControllerReference_meta|done].
  - intros [= <-]. split; [by exists m.(m_OwnerReferences); destruct m|done].
Qed.

(** A call that left the quota as it is desired. *)
Definition quotaWritten (ev : event kube) : option (Client * ResourceQuota) :=
  match ev.(ev_eff) in kube X return X -> option (Client * ResourceQuota) with
  | ClientCreate c k o =>
      match k return Obj k -> result (Obj k) -> option (Client * ResourceQuota) with
      | KQuota => fun o res => match res with Ok _ => Some (c, o) | Err _ => None end
      | _ => fun _ _ => None
      end o
  | ClientPatch c k o _ =>
      match k return Obj k -> result (Obj k) -> option (Client * ResourceQuota) with
      | KQuota => fun o res => match res with Ok _ => Some (c, o) | Err _ => None end
      | _ => fun _ _ => None
      end o
  | _ => fun _ => None
  end ev.(ev_resp).

(** Ensuring the quota.  A lease without a quota, or with an empty
    one, costs no call.  Otherwise the only writes are, on the session's cluster,
    the creation of the quota or a patch of the one just read, both with exactly
    the desired limits and the managed labels; owner references are touched only
    on the control cluster.  Success means that the quota the cluster answered
    with already agreed, or that such a write succeeded. *)
Theorem ensureResourceQuota_correct sess l (namespace : string) (tr : trace kube) (res : option error) :
  runs (ensureResourceQuota sess l namespace) [] tr res ->
  match DesiredResourceQuota l namespace with
  | None => tr = [] /\ res = None
  | Some desired =>
      guaranteed (quotaWrites sess namespace desired) tr /\
      (res = None ->
        (exists q, answered KQuota tr sess.(ses_Client) (mkObjectKey namespace ResourceQuotaName) (Ok q) /\
           ResourceListsEqual q.(rq_Hard) desired.(rq_Hard) = true /\
           mapsEqual q.(rq_Meta).(m_Labels) desired.(rq_Meta).(m_Labels) = true) \/
        (exists q, Some (sess.(ses_Client), q) ∈ (quotaWritten <$> tr) /\ q.(rq_Hard) = desired.(rq_Hard)))
  end.
Proof.
  intros Hr. destruct (DesiredResourceQuota l namespace) as [desired|] eqn:Hd.
  2: { by_safe (fun X (_ : trace kube) (_ : kube X) => True) Hr. unfold ensureResourceQuota. by rewrite Hd. }
  eapply (safe_sound (quotaWrites sess namespace desired) _ [] tr res
    (fun h res => res = None -> _) I); [|exact Hr].
  assert (Hkey : ObjectKeyFromMeta desired.(rq_Meta) = mkObjectKey namespace ResourceQuotaName).
  { unfold DesiredResourceQuota in Hd. repeat case_match; by simplify_eq/=. }
  assert (Hrefs : desired.(rq_Meta).(m_OwnerReferences) = []).
  { clear Hkey. unfold DesiredResourceQuota in Hd. repeat case_match; by simplify_eq/=. }
  unfold ensureResourceQuota. rewrite Hd. cbv zeta.
  destruct (setOwner sess l (rq_Meta desired)) as [m|err] eqn:Ho; [|done].
  apply setOwner_meta in Ho as [[refs ->] Hloc].
  rewrite safe_bind. split; [done|]. intros [q|err]; cbn [safe].
  - cbn [rq_Hard rq_Meta m_Labels modify]. cbn.
    destruct (ResourceListsEqual _ _) eqn:He1; cbn [andb].
    + destruct (mapsEqual _ _) eqn:He2; [|].
      { intros _. left. exists q. split; [rewrite <- Hkey; apply answered_here|done]. }
      destruct (setOwner sess l _) as [m'|err] eqn:Ho; [|done].
      apply setOwner_meta in Ho as [[refs' ->] Hloc']. split.
      * split; [done|]. split; [done|]. split; [rewrite <- Hkey; apply answered_here|].
        intros Hs. specialize (Hloc' Hs). by injection Hloc'.
      * intros [p|err]; [|done]. intros _. right. eexists. cbn. split; [left|done].
    + destruct (setOwner sess l _) as [m'|err] eqn:Ho; [|done].
      apply setOwner_meta in Ho as [[refs' ->] Hloc']. split.
      * split; [done|]. split; [done|]. split; [rewrite <- Hkey; apply answered_here|].
        intros Hs. specialize (Hloc' Hs). by injection Hloc'.
      * intros [p|err]; [|done]. intros _. right. eexists. cbn. split; [left|done].
  - destruct (IsNotFound err); [|done]. rewrite safe_bind. split.
    + split; [done|]. split; [done|]. split; [done|]. intros Hs. specialize (Hloc Hs).
      apply (f_equal m_OwnerReferences) in Hloc. cbn in Hloc |- *. congruence.
    + intros [p|err2]; [|done]. intros _. right. eexists. cbn. split; [left|done].
Qed.

End Ensure.

(** ** Witnesses *)

Section Witnesses.

#[local] Existing Instances milliQuantity listConditions exactSelectors listControllerutil
  listControllerutil_laws fourAttempts fourAttempts_laws.

Definition localSession : TargetSession := mkTargetSession LocalClusterName HubClient true true.

Lemma mapsEqual_correct_witness : mapsEqual {["x" := "1"]} {["x" := "1"]} = true.
Proof.
  apply (mapsEqual_correct {["x" := "1"]} {["x" := "1"]}); [|reflexivity].
  intros k v Hk Hv. apply lookup_singleton_Some in Hk as [_ Hk]. rewrite Hv in Hk. discriminate.
Defined.

Lemma ensureNamespace_correct_witness :
  namespaceStands localSession demoLease
    (in_world (ensureNamespace demoReconciler localSession demoLease) demoWorld).2 "preview-x7k2p" true.
Proof.
  refine (proj2 (ensureNamespace_correct demoReconciler localSession demoLease _ _
    (in_world_runs (ensureNamespace demoReconciler localSession demoLease) demoWorld)) "preview-x7k2p" true _).
  vm_compute. reflexivity.
Defined.

Lemma ensureResourceQuota_correct_witness :
  (in_world (ensureResourceQuota localSession sampleLease "ns") demoWorld).2 = [].
Proof.
  exact (proj1 (ensureResourceQuota_correct localSession sampleLease "ns" _ _
    (in_world_runs (ensureResourceQuota localSession sampleLease "ns") demoWorld))).
Defined.

End Witnesses.
