(* ===== verification/LeaseBehaviour.v ===== *)
(** * How the lease reconciler reports and schedules

    The status writer, what the end of the active path tells the user and the
    work queue, and behaviours of the reconciler that differ from what its
    comments say. *)

From S2P Require Import Prelude GoStrings GoTime GoErrors Api LeaseConditions LeaseStatus Resources.
From S2P Require Import Policy LeaseExpiration LeaseWarnings Concrete Programs Kube World Identity Placement Outage Remote.
From S2P Require Import LeaseCommon LeaseProvision LeaseCleanup LeaseReconcile Runtime LeasePaths LeaseSafety LeaseEnsure.

Section Behaviour.
Context `{QuantityAPI} `{ConditionsAPI} `{SelectorAPI} `{!ControllerutilAPI} `{RetryLaws}.
Variable r : EnvironmentLeaseReconciler.

Implicit Types (l : EnvironmentLease) (h : trace kube) (sess : TargetSession).

(** ** The status writer *)

(** Status writes only: the lease is read, and written back as read but for the
    status, which is the desired one. *)
Definition statusWrites (key : ObjectKey) (desired : EnvironmentLeaseStatus) X h (e : kube X) : Prop :=
  match e with
  | ClientGet c KLease k => c = HubClient /\ k = key
  | ClientStatusUpdate c k o =>
      c = HubClient /\
      match k return Obj k -> Prop with
      | KLease => fun o => o.(lease_Status) = desired /\
          exists latest, answered KLease h HubClient key (Ok latest) /\
            o.(lease_Meta) = latest.(lease_Meta) /\ o.(lease_Spec) = latest.(lease_Spec)
      | _ => fun _ => False
      end o
  | _ => False
  end.

(** The status of a lease a call stored. *)
Definition storedStatus (ev : event kube) : option EnvironmentLeaseStatus :=
  match ev.(ev_eff) in kube X return X -> option EnvironmentLeaseStatus with
  | ClientStatusUpdate c k o =>
      match k return Obj k -> result (Obj k) -> option EnvironmentLeaseStatus with
      | KLease => fun o res => match res with Ok _ => Some o.(lease_Status) | Err _ => None end
      | _ => fun _ _ => None
      end o
  | _ => fun _ => None
  end ev.(ev_resp).

(** The status writer.  When the status has not changed nothing is
    called.  Otherwise the lease is re-read before every attempt and only its
    status is written, on the object just read; the writer reports success only
    if its last call stored exactly the desired status.  Metadata and
    specification are never written. *)
Theorem patchStatusIfChanged_correct l before (tr : trace kube) l' (err : option error) :
  runs (patchStatusIfChanged l before) [] tr (l', err) ->
  let desired := l.(lease_Status) in
  if StatusEqual before desired then tr = [] /\ l' = l /\ err = None
  else guaranteed (statusWrites (leaseKey l) desired) tr /\
       (err = None -> exists ev rest, tr = ev :: rest /\ storedStatus ev = Some desired).
Proof.
  intros Hr. cbv zeta. destruct (StatusEqual before (lease_Status l)) eqn:He.
  { cut ((fun (tr : trace kube) p => tr = [] /\ p.1 = l /\ p.2 = None) tr (l', err)); [done|].
    apply (runs_post (fun _ _ _ => True) _ _ _ _ Hr). unfold patchStatusIfChanged. by rewrite He. }
  cut (guaranteed (statusWrites (leaseKey l) (lease_Status l)) tr /\
       (fun (tr : trace kube) p => p.2 = None ->
          exists ev rest, tr = ev :: rest /\ storedStatus ev = Some (lease_Status l)) tr (l', err)); [done|].
  eapply (safe_sound _ _ [] tr (l', err) _ I); [|exact Hr]. unfold patchStatusIfChanged. rewrite He.
  apply (safe_RetryOnConflict _ (fun _ s => s = l)); [done|]. intros h s ->.
  unfold patchStatusAttempt. rewrite safe_bind. split; [done|]. intros [latest|e]; cbn [safe]; [|by split; [|intros]].
  rewrite safe_bind. split.
  - split; [done|]. split; [done|]. exists latest. split; [apply answered_here|done].
  - intros [stored|e]; cbn; [|by split; [|intros]]. split; [|done]. intros _. by eexists _, _.
Qed.

(** The status [st] is the one the run started from, up to the order of conditions,
    or was stored. *)
Definition told (before : EnvironmentLeaseStatus) h (st : EnvironmentLeaseStatus) : Prop :=
  StatusEqual before st = true \/
  exists o o', Ev (ClientStatusUpdate HubClient KLease o) (Ok o') ∈ h /\ o.(lease_Status) = st.

(** The error is that of a read or a write of the status of the lease. *)
Definition statusUnwritten l h (err : error) : Prop :=
  answered KLease h HubClient (leaseKey l) (Err err) \/
  exists o e, Ev (ClientStatusUpdate HubClient KLease o) (Err e) ∈ h /\
    err = ErrorWrap ("update status for " +:+ lease_Name l) e.

Lemma told_mono before h h' st : h `suffix_of` h' -> told before h st -> told before h' st.
Proof. intros Hh [?|(o & o' & ? & ?)]; [by left|right]. exists o, o'. split; [by eapply suffix_In|done]. Qed.

Lemma patchStatus_told l before h :
  safe (fun _ _ _ => True) (patchStatusIfChanged l before) h (fun h' p =>
    p.1.(lease_Meta) = l.(lease_Meta) /\ h `suffix_of` h' /\
    match p.2 with None => told before h' l.(lease_Status) | Some err => statusUnwritten l h' err end).
Proof.
  set (Q := fun (h' : trace kube) (p : EnvironmentLease * option error) => p.1.(lease_Meta) = l.(lease_Meta) /\
    match p.2 with None => told before h' l.(lease_Status) | Some err => statusUnwritten l h' err end).
  apply (safe_post _ _ _ (fun h' p => Q h' p /\ h `suffix_of` h')); [|intros h' p [[? ?] ?]; done].
  apply safe_conj; [|apply safe_any]. unfold patchStatusIfChanged. cbv zeta.
  destruct (StatusEqual _ _) eqn:He; [by split; [|left]|].
  apply (safe_RetryOnConflict _ (fun _ s => s.(lease_Meta) = l.(lease_Meta))); [done|]. clear h. intros h s Hs.
  unfold patchStatusAttempt, cl_Get, cl_StatusUpdate, leaseKey. rewrite Hs, safe_bind. split; [done|].
  intros [latest|err]; cbn [safe].
  2: { split; [|done]. split; [done|]. left. apply answered_here. }
  cbv zeta. rewrite safe_bind. split; [done|]. intros [u|err]; cbn [safe].
  - split; [|done]. split; [done|]. right. eexists _, _. split; [left|done].
  - split; [|done]. split; [done|]. right. eexists _, _. split; [left|done].
Qed.

(** ** The end of the active path *)

Lemma warnLoop_frame l d ws G h :
  (forall X h (e : kube X), harmless e = true -> G X h e) ->
  safe G (warnLoop r l d ws) h (fun _ l' =>
    exists ds, l' = l <|@ st_WarningsDelivered := ds |>).
Proof.
  intros HG. revert l h. induction ws as [|w ws IH]; intros l h; cbn [warnLoop].
  - exists (l.(lease_Status).(st_WarningsDelivered)). by destruct l as [? ? []].
  - rewrite safe_bind. split; [by apply HG|]. intros t. cbn [safe]. cbv zeta. rewrite safe_bind.
    eapply safe_post; [apply (every_safe (fun X (e : kube X) => harmless e = true) _ _ _ (fun _ _ => True));
      [by apply every_emit|auto|done]|].
    intros h1 [] _. rewrite safe_bind. split; [by apply HG|]. intros []. cbn [safe].
    eapply safe_post; [apply IH|]. intros h2 l' [ds ->]. by exists ds.
Qed.

Lemma emitWarnings_frame l G h :
  (forall X h (e : kube X), harmless e = true -> G X h e) ->
  safe G (emitWarnings r l) h (fun _ l' => exists ds, l' = l <|@ st_WarningsDelivered := ds |>).
Proof.
  intros HG. unfold emitWarnings. destruct (EffectiveDeadline l).
  - rewrite safe_bind. split; [by apply HG|]. intros t. cbn [safe]. by apply warnLoop_frame.
  - exists (l.(lease_Status).(st_WarningsDelivered)). by destruct l as [? ? []].
Qed.

Context `{!ConditionsLaws}.

(** What [MarkReady] and the target condition leave, whatever was there. *)
Lemma finished_conditions l expiring msg :
  let l' := SetCondition (MarkReady l expiring) ConditionTargetClusterReady ConditionTrueStatus
              ReasonEnvironmentReady msg in
  condition_of l' ConditionReady = Some (ConditionTrueStatus, ReasonEnvironmentReady) /\
  condition_of l' ConditionDegraded = Some (ConditionFalseStatus, ReasonEnvironmentReady) /\
  condition_of l' ConditionCleanup = Some (ConditionFalseStatus, ReasonEnvironmentReady) /\
  condition_of l' ConditionTargetClusterReady = Some (ConditionTrueStatus, ReasonEnvironmentReady) /\
  condition_of l' ConditionExpiring =
    Some (if expiring then (ConditionTrueStatus, ReasonLeaseExpiring)
          else (ConditionFalseStatus, ReasonEnvironmentReady)) /\
  l'.(lease_Status).(st_Phase) = if expiring then LeasePhaseExpiring else LeasePhaseActive.
Proof.
  cbv zeta. unfold MarkReady. destruct expiring; repeat split; by eval_condition.
Qed.

(** A provisioned environment is reported coherently, and a refused
    renewal is not.  Whatever conditions the lease carried, a reconcile that ends
    the active path leaves Ready and TargetClusterReady true, Cleanup and
    Degraded false, and the Expiring condition in step with the phase.  In
    particular the Degraded condition that [Reconcile] sets just before with
    reason RenewalRejected is overwritten in the same run, so no user ever sees
    it on a healthy lease. *)
Theorem finishActive_conditions sess l ph wr n (tr : trace kube) l' res :
  runs (finishActive r sess l ph wr n) [] tr (l', res) ->
  condition_of l' ConditionReady = Some (ConditionTrueStatus, ReasonEnvironmentReady) /\
  condition_of l' ConditionTargetClusterReady = Some (ConditionTrueStatus, ReasonEnvironmentReady) /\
  condition_of l' ConditionDegraded = Some (ConditionFalseStatus, ReasonEnvironmentReady) /\
  condition_of l' ConditionCleanup = Some (ConditionFalseStatus, ReasonEnvironmentReady) /\
  (l'.(lease_Status).(st_Phase) = LeasePhaseExpiring \/ l'.(lease_Status).(st_Phase) = LeasePhaseActive) /\
  (l'.(lease_Status).(st_Phase) = LeasePhaseExpiring <->
   condition_of l' ConditionExpiring = Some (ConditionTrueStatus, ReasonLeaseExpiring)) /\
  res.2 = None.
Proof.
  intros Hr.
  set (Q := fun (_ : trace kube) (p : EnvironmentLease * (CtrlResult * option error)) =>
    exists l0 expiring msg, p.1 = SetCondition (MarkReady l0 expiring) ConditionTargetClusterReady
      ConditionTrueStatus ReasonEnvironmentReady msg /\ p.2.2 = None).
  assert (HQ : Q tr (l', res)).
  { apply (runs_post (fun _ _ _ => True) _ _ _ _ Hr). unfold finishActive. rewrite safe_bind.
    eapply safe_post; [by apply emitWarnings_frame|]. intros h1 l1 _. rewrite safe_bind. split; [done|].
    intros t. cbn [safe]. cbv zeta. rewrite safe_bind.
    eapply safe_post; [apply (every_safe (fun X (e : kube X) => harmless e = true) _ _ _ (fun _ _ => True))|].
    - unfold when. case_match; [|done]. apply every_bind; [by apply every_inc|]. intros _. by apply every_emit.
    - done.
    - done.
    - intros h2 [] _. case_match; [|case_match].
      + rewrite safe_bind. split; [done|]. intros t2. by eexists _, _, _.
      + by eexists _, _, _.
      + by eexists _, _, _. }
  destruct HQ as (l0 & expiring & msg & Hl & Hres). cbn in Hl, Hres. subst l'.
  destruct (finished_conditions l0 expiring msg) as (Hx1 & Hx2 & Hx3 & Hx4 & Hx5 & Hx6).
  do 4 (split; [done|]). rewrite Hx5, Hx6. destruct expiring; split; naive_solver.
Qed.

(** A deadline that passes while the lease is being provisioned is not
    waited for.  On the local cluster, when the last reading of the clock is at
    or past the deadline, the reconciler returns the result that asks for no
    requeue: the expired lease is left to the next unrelated event. *)
Theorem deadline_mid_run_not_requeued sess l ph wr n d (tr : trace kube) l' res :
  sess.(ses_Local) = true -> EffectiveDeadline l = Some d ->
  runs (finishActive r sess l ph wr n) [] tr (l', res) ->
  exists (t : time) rest, tr = Ev Now t :: rest /\ (d <= t -> res = (noResult, None)).
Proof.
  intros Hloc Hd Hr.
  set (Q := fun (tr : trace kube) (p : EnvironmentLease * (CtrlResult * option error)) =>
    exists (t : time) rest, tr = Ev Now t :: rest /\ (d <= t -> p.2 = (noResult, None))).
  change (Q tr (l', res)). apply (runs_post (fun _ _ _ => True) _ _ _ _ Hr).
  unfold finishActive. rewrite safe_bind.
  eapply safe_post; [by apply emitWarnings_frame|]. intros h1 l1 [ds ->]. rewrite safe_bind. split; [done|].
  intros t. cbn [safe]. cbv zeta. rewrite safe_bind.
  eapply safe_post; [apply (every_safe (fun X (e : kube X) => harmless e = true) _ _ _ (fun _ _ => True))|].
  - unfold when. case_match; [|done]. apply every_bind; [by apply every_inc|]. intros _. by apply every_emit.
  - done.
  - done.
  - intros h2 [] _. set (l2 := SetCondition _ _ _ _ _).
    assert (Hd2 : EffectiveDeadline l2 = Some d).
    { subst l2. unfold MarkReady. destruct (IsExpiringWindow _ _); exact Hd. }
    rewrite Hd2, safe_bind. split; [done|]. intros t2. cbn [safe]. exists t2, h2. split; [done|]. intros Hle. cbn.
    rewrite Hloc. cbn. unfold NextReconcileAfter, Before.
    by rewrite (proj2 (Z.ltb_ge _ _) Hle).
Qed.

(** ** The announcement of an expiry *)

(** The events that announce the expiry of a lease. *)
Definition announces (ev : event kube) : bool :=
  match ev.(ev_eff) with
  | RecorderEvent _ _ reason _ =>
      existsb (String.eqb reason) [eventLeaseExpired; eventLeaseIdleExpired; eventSourceClosed;
                                   eventCleanupStarted; eventCleanupCompleted]
  | Metric (MetricInc name _) => String.eqb name "LeasesExpiredTotal"
  | _ => false
  end.

Definition silent X (e : kube X) : Prop := forall x, announces (Ev e x) = false.

Ltac silent_tac :=
  repeat (cbv zeta; first [ match goal with |- every _ (call _) => apply every_call; intros ?; reflexivity end
                          | every_step ]).

Lemma silent_observe sess op err s : every silent (observeClusterOp sess op err s).
Proof. unfold observeClusterOp, ObserveClusterOp, ObserveRemote. silent_tac. Qed.

Lemma silent_Probe c : every silent (ProbeRemoteIdentity c).
Proof. unfold ProbeRemoteIdentity, cl_Get. silent_tac. Qed.

Lemma silent_Resolve hub lc p name : every silent (ResolveNamedTarget hub lc p name).
Proof. unfold ResolveNamedTarget, cl_Get. silent_tac. Qed.

Lemma silent_patch l before : every silent (patchStatusIfChanged l before).
Proof. unfold patchStatusIfChanged, patchStatusAttempt, cl_Get, cl_StatusUpdate. silent_tac. Qed.

Hint Resolve silent_observe silent_Probe silent_Resolve silent_patch : every.

Lemma silent_cleanupOn sess l n : every silent (cleanupOn r sess l n).
Proof.
  unfold cleanupOn, verifyTarget, cleanupNamespace, deleteNamespace, timedOp, cl_Get, cl_Delete. silent_tac.
Qed.

Lemma silent_cleanup l : every silent (cleanupEnvironment r l).
Proof.
  unfold cleanupEnvironment, resolveTargetSession, gated, with_release. silent_tac; apply silent_cleanupOn.
Qed.

Lemma silent_cleanupErr l before err f : every silent (cleanupErr r l before err f).
Proof. unfold cleanupErr, inc, emit. silent_tac. Qed.

Lemma silent_finish l before : every silent (finishExpired r l before false).
Proof.
  unfold finishExpired, removeLeaseFinalizer, removeFinalizerAttempt, cl_Get, cl_Update, cl_Delete. silent_tac.
Qed.

Hint Resolve silent_cleanup silent_cleanupErr silent_finish : every.

(** A lease that was announced as expiring expires without a word.
    [MarkReady] gives a lease in its warning window the phase Expiring, and the
    expired path takes that phase for a sign that the expiry was announced
    before: the reconcile that finds such a lease expired emits none of the
    events LeaseExpired, LeaseIdleExpired, SourceClosed, CleanupStarted and
    CleanupCompleted, and does not count it in the metric of expired leases. *)
Theorem expiring_lease_expires_silently l before (tr : trace kube) (res : CtrlResult * option error) :
  runs (reconcileExpired r l before LeasePhaseExpiring) [] tr res ->
  Forall (fun ev => announces ev = false) tr.
Proof.
  intros Hr. by_safe (fun X (_ : trace kube) (_ : kube X) => True) Hr.
  assert (Hs : every silent (reconcileExpired r l before LeasePhaseExpiring)).
  { unfold reconcileExpired, expiryReason, now_. cbv zeta.
    change (isFirstExpiry LeasePhaseExpiring) with false. silent_tac. }
  apply (every_inv silent _ (Forall (fun ev => announces ev = false)) _ _ Hs); [|done].
  intros X h e Hh He. split; [done|]. intros x. constructor; [apply He|done].
Qed.

(** ** Leases that cannot be resolved *)

(** The outcome of a run for a lease it could not resolve: it wrote statuses at
    most and asks for no requeue.  Without an error the lease's status says Failed,
    as it was stored or was before; an error is only that of storing it. *)
Definition leftAlone l h (res : CtrlResult * option error) : Prop :=
  onlyWith neutral h /\ res.1 = noResult /\
  match res.2 with
  | None => exists st, st.(st_Phase) = LeasePhaseFailed /\ told l.(lease_Status) h st
  | Some err => statusUnwritten l h err
  end.

(** The specification of the lease is valid and resolves under its policy as the
    hub returned it in this run. *)
Definition resolvable l h : Prop :=
  ValidateSpec l = None /\ exists pol resolved, policyRead l h pol /\ Resolve l.(lease_Spec) pol = Ok resolved.

Lemma resolvable_mono l h h' : h `suffix_of` h' -> resolvable l h -> resolvable l h'.
Proof.
  intros Hh [? (pol & res & ? & ?)]. split; [done|]. exists pol, res. split; [by eapply policyRead_mono|done].
Qed.

Lemma leftAlone_reject l reason err m h :
  every neutral m -> onlyWith neutral h ->
  safe (fun _ _ _ => True) (rejectLease l l.(lease_Status) reason err m) h (leftAlone l).
Proof.
  intros Hm Hh. apply safe_conj.
  - apply every_onlyWith; [|done]. by apply every_rejectLease; [apply neutral_harmless|..].
  - unfold rejectLease. cbv zeta. rewrite safe_bind.
    eapply safe_post; [apply patchStatus_told|]. intros h1 [l1 [e|]] (_ & _ & Ht); [done|]. rewrite safe_bind.
    eapply safe_post; [apply safe_any|]. intros h2 [] Hh2. split; [done|].
    exists (EnsureObservedGeneration (MarkFailed l reason (Error err))).(lease_Status). split; [reflexivity|].
    by eapply told_mono.
Qed.

Lemma reconcileLive_resolves l h :
  onlyWith neutral h ->
  safe (fun _ _ _ => True) (reconcileLive r l) h (fun h' res => resolvable l h' \/ leftAlone l h' res).
Proof.
  intros Hh. unfold reconcileLive. cbv zeta. rewrite DeepCopyStatus_id.
  destruct (ValidateSpec l) as [err|] eqn:Hv.
  { eapply safe_post; [by apply leftAlone_reject; [apply every_inc; [apply neutral_harmless|reflexivity]|]|]. by right. }
  rewrite safe_bind. eapply safe_post.
  { apply safe_conj; [apply (every_onlyWith neutral); [apply every_fetchPolicy, neutral_harmless|done]|].
    eapply safe_mono; [| |apply (fetchPolicy_safe r "")]; [done|]. intros h1 p [_ Hp]. exact Hp. }
  intros h1 [pol|err] [Hh1 Hp].
  2: { eapply safe_post; [by apply leftAlone_reject; [apply every_inc; [apply neutral_harmless|reflexivity]|]|]. by right. }
  specialize (Hp pol eq_refl). unfold reconcileResolved. destruct (Resolve _ _) as [resolved|err] eqn:Hres.
  - assert (Hr : resolvable l h1) by (split; [done|]; by exists pol, resolved).
    eapply safe_post; [apply safe_any|]. intros h2 res Hh2. left. by apply (resolvable_mono l h1).
  - eapply safe_post; [apply leftAlone_reject; [|done]|by right].
    apply every_bind; [apply every_inc; [apply neutral_harmless|reflexivity]|]. intros _. apply every_inc; [apply neutral_harmless|reflexivity].
Qed.

(** Claim C30.  A lease that cannot be resolved is not ended.  If the lease a run
    read (live, with its finalizer) is not valid, or its policy could not be read,
    whatever the error, or refuses it, then the run deletes nothing and provisions
    nothing, and asks for no requeue.  Its status then says Failed, and the run
    returns no error, so that nothing retries it; only when that status could not be
    stored does the run return an error, which is the one of that write.  A lease
    whose policy was removed or tightened is not cleaned up when its deadline
    passes, and one failed read of the policy leaves it Failed until another
    event. *)
Theorem unresolvable_lease_left_alone (req : string) l (tr : trace kube) (res : CtrlResult * option error) :
  runs (Reconcile r req) [] tr res -> readLease req tr l ->
  IsZeroPtr l.(lease_Meta).(m_DeletionTimestamp) = true ->
  ContainsFinalizer l.(lease_Meta).(m_Finalizers) FinalizerName = true ->
  resolvable l tr \/ leftAlone l tr res.
Proof.
  intros Hrun Hread Hz Hf. revert Hread.
  by_safe (fun X (_ : trace kube) (_ : kube X) => True) Hrun.
  unfold Reconcile. rewrite safe_bind. split; [done|]. intros [l0|err]; cbn [safe].
  2: { destruct (IsNotFound err); intros Hread; by apply (f_equal (fmap (getAnswer KLease))) in Hread. }
  set (h := [_]). cbv zeta.
  assert (Hsame : forall h', h `suffix_of` h' -> readLease req h' l -> l0 = l).
  { intros h' [t ->] Hread. unfold readLease in Hread. rewrite last_app in Hread. cbn in Hread.
    apply (f_equal (fmap (getAnswer KLease))) in Hread. by injection Hread. }
  destruct (IsZeroPtr (m_DeletionTimestamp (lease_Meta l0))) eqn:Hz0; cbn [negb].
  2: { eapply safe_post; [apply safe_any|]. intros h' res' Hh' Hread. rewrite (Hsame h' Hh' Hread) in Hz0. congruence. }
  destruct (ContainsFinalizer (m_Finalizers (lease_Meta l0)) FinalizerName) eqn:Hf0; cbn [negb].
  2: { eapply safe_post; [apply safe_any|]. intros h' res' Hh' Hread. rewrite (Hsame h' Hh' Hread) in Hf0. congruence. }
  eapply safe_post; [apply safe_conj; [apply safe_any|apply (reconcileLive_resolves l0); by repeat constructor]|].
  intros h' res' [Hh' Hres] Hread. by rewrite (Hsame h' Hh' Hread) in Hres.
Qed.

End Behaviour.

(** ** A stale read *)

Section Stale.

#[local] Existing Instances milliQuantity listConditions listConditions_laws exactSelectors
  listControllerutil listControllerutil_laws fourAttempts fourAttempts_laws.

(** The reference world behind a read cache: the third read of a lease (the one
    after the namespace was recorded) is answered with the lease as it was before
    the last status update, as an informer cache may do. *)
Definition stale_handler X (e : kube X) (s : World * nat * World) : X * (World * nat * World) :=
  let '(w, n, old) := s in
  match e with
  | ClientGet _ KLease _ =>
      let '(x, _) := world_handler _ e (if (n =? 2)%nat then old else w) in (x, (w, S n, old))
  | ClientStatusUpdate _ KLease _ => let '(x, w') := world_handler _ e w in (x, (w', n, w))
  | _ => let '(x, w') := world_handler _ e w in (x, (w', n, old))
  end.

Definition staleRun := exec stale_handler (demoReconcile "demo") (rounds 1 demoWorld, 0%nat, demoWorld) [].

(** A stale read can lose the namespace of a lease.  After recording
    [status.namespace] the active path reads the lease back through the cached
    client; if the cache still shows the lease before that write, the run goes on
    with an empty namespace and its last status update erases the record of the
    namespace it has just created, which the next reconcile will not find. *)
Theorem stale_read_loses_namespace :
  exists (tr : trace kube) (res : CtrlResult * option error),
    runs (demoReconcile "demo") [] tr res /\ res.2 = None /\
    (fun c => (c.1, c.2.(ns_Meta).(m_Name))) <$> omap createdNamespace tr = [(HubClient, "preview-x7k2p")] /\
    st_Namespace <$> omap storedStatus tr = [""; "preview-x7k2p"; ""].
Proof.
  exists staleRun.2, staleRun.1.1. split.
  { apply (exec_runs stale_handler _ (rounds 1 demoWorld, 0%nat, demoWorld) [] _ staleRun.1.2).
    unfold staleRun. by destruct (exec _ _ _ _) as [[? ?] ?]. }
  split; [vm_compute; reflexivity|]. split; vm_compute; reflexivity.
Qed.

(** ** Witnesses *)

Definition demoStatus : EnvironmentLeaseStatus := emptyStatus <| st_Phase := LeasePhaseActive |>.

Lemma patchStatusIfChanged_correct_witness :
  (in_world (patchStatusIfChanged demoLease emptyStatus) demoWorld).2 = [].
Proof.
  exact (proj1 (patchStatusIfChanged_correct demoLease emptyStatus _ demoLease None
    (in_world_runs (patchStatusIfChanged demoLease emptyStatus) demoWorld))).
Defined.

(** The end of the active path for the demonstration lease, at second 100. *)
Definition demoFinish (l : EnvironmentLease) :=
  finishActive demoReconciler localSession l LeasePhaseActive true "preview-x7k2p".

Lemma finishActive_conditions_witness :
  condition_of (in_world (demoFinish demoLease) demoWorld).1.1.1 ConditionDegraded =
  Some (ConditionFalseStatus, ReasonEnvironmentReady).
Proof.
  exact (proj1 (proj2 (proj2 (finishActive_conditions demoReconciler localSession demoLease
    LeasePhaseActive true "preview-x7k2p" _ _ _ (in_world_runs_pair (demoFinish demoLease) demoWorld))))).
Defined.

(** A lease whose deadline is the instant the clock shows. *)
Definition overdueLease : EnvironmentLease := demoLease <|@ st_ExpiresAt := Some (100 * Second) |>.

Lemma deadline_mid_run_not_requeued_witness :
  exists (t : time) rest, (in_world (demoFinish overdueLease) demoWorld).2 = Ev Now t :: rest.
Proof.
  pose proof (deadline_mid_run_not_requeued demoReconciler localSession overdueLease LeasePhaseActive true
    "preview-x7k2p" (100 * Second) _ _ _ eq_refl eq_refl
    (in_world_runs_pair (demoFinish overdueLease) demoWorld)) as (t & rest & Ht & _).
  exists t, rest. exact Ht.
Defined.

Lemma expiring_lease_expires_silently_witness :
  Forall (fun ev => announces ev = false)
    (in_world (reconcileExpired demoReconciler overdueLease emptyStatus LeasePhaseExpiring) demoWorld).2.
Proof.
  exact (expiring_lease_expires_silently demoReconciler overdueLease emptyStatus _ _
    (in_world_runs (reconcileExpired demoReconciler overdueLease emptyStatus LeasePhaseExpiring) demoWorld)).
Defined.

(** The demonstration lease, provisioned, an hour later, and with a policy that
    does not exist any more. *)
Definition overdue (l : EnvironmentLease) : EnvironmentLease :=
  l <| lease_Spec := l.(lease_Spec) <| spec_PolicyRef := Some "gone" |> |>.

Definition overdueWorld : World :=
  let w := rounds 2 demoWorld in
  default w ((fun l => put HubClient KLease (overdue l) w <| w_now := 4000 * Second |>) <$> leaseIn w).

Definition overdueRead : EnvironmentLease := default demoLease (leaseIn overdueWorld).

(** Past its deadline it keeps its namespace, and nothing is asked for. *)
Lemma unresolvable_lease_left_alone_witness :
  let out := in_world (demoReconcile "demo") overdueWorld in
  bool_decide (is_Some (namespaceIn out.1.2 "preview-x7k2p"))
  && bool_decide (phaseIn out.1.2 = Some LeasePhaseFailed)
  && match EffectiveDeadline overdueRead with Some d => d <? 4000 * Second | _ => false end = true /\
  (resolvable overdueRead out.2 \/ leftAlone overdueRead out.2 out.1.1).
Proof.
  split; [vm_compute; reflexivity|].
  apply (unresolvable_lease_left_alone demoReconciler "demo" overdueRead _ _
    (in_world_runs (demoReconcile "demo") overdueWorld)).
  - unfold readLease. vm_compute. reflexivity.
  - vm_compute. reflexivity.
  - vm_compute. reflexivity.
Defined.

End Stale.
