(* ===== verification/LeaseProgress.v ===== *)
(** * No lease is forgotten

    When a reconcile comes back without an error and without asking to be run
    again, nothing but an outside event brings the lease back.  This file lists,
    over every run and every answer, all the reasons for which that happens: the
    lease is gone, or its status says what it waits for. *)

From S2P Require Import Prelude GoStrings GoTime GoErrors Api LeaseConditions LeaseStatus Resources.
From S2P Require Import Policy LeaseExpiration Lifetime LeaseWarnings Concrete Programs Kube World Identity Placement Outage Remote.
From S2P Require Import LeaseCommon LeaseProvision LeaseCleanup LeaseReconcile Runtime LeasePaths LeaseSafety LeaseEnsure LeaseBehaviour.

Section Progress.
Context `{QuantityAPI} `{ConditionsAPI} `{SelectorAPI} `{!ControllerutilAPI} `{!ControllerutilLaws} `{RetryLaws}.
Variable r : EnvironmentLeaseReconciler.

Implicit Types (l : EnvironmentLease) (h : trace kube) (sess : TargetSession).

Notation anything := (fun X (_ : trace kube) (_ : kube X) => True) (only parsing).

(** The work queue of controller-runtime drops the request: no error, no requeue,
    and no delay, which counts only when it is positive. *)
Definition quiet (res : CtrlResult * option error) : Prop :=
  res.2 = None /\ res.1.(res_Requeue) = false /\ res.1.(res_RequeueAfter) <= 0.

Lemma quiet_err res err : ~ quiet (res, Some err).
Proof. by intros [? _]. Qed.

Lemma quiet_after d : quiet (requeueAfter d, None) -> d <= 0.
Proof. by intros (_ & _ & ?). Qed.

(** ** The finalizer *)

(** The lease is seen without its finalizer, or not seen at all, or an update that
    takes the finalizer away was stored. *)
Definition finalizerGone h (key : ObjectKey) : Prop :=
  (exists err, answered KLease h HubClient key (Err err) /\ IsNotFound err = true) \/
  (exists cur, answered KLease h HubClient key (Ok cur) /\
     ContainsFinalizer cur.(lease_Meta).(m_Finalizers) FinalizerName = false) \/
  exists o o', Ev (ClientUpdate HubClient KLease o) (Ok o') ∈ h /\
     ContainsFinalizer o.(lease_Meta).(m_Finalizers) FinalizerName = false.

Lemma finalizerGone_mono h h' key : h `suffix_of` h' -> finalizerGone h key -> finalizerGone h' key.
Proof.
  intros Hh [(err & ? & ?)|[(cur & ? & ?)|(o & o' & ? & ?)]].
  - left. exists err. split; [by eapply answered_mono|done].
  - right; left. exists cur. split; [by eapply answered_mono|done].
  - right; right. exists o, o'. split; [by eapply suffix_In|done].
Qed.

Lemma removeLeaseFinalizer_gone l h :
  safe anything (removeLeaseFinalizer l) h (fun h' err => err = None -> finalizerGone h' (leaseKey l)).
Proof.
  unfold removeLeaseFinalizer. rewrite safe_bind.
  apply (safe_RetryOnConflict _ (fun _ _ => True)); [done|]. clear h. intros h [] _.
  unfold removeFinalizerAttempt, cl_Get, cl_Update. rewrite safe_bind. split; [done|].
  intros [cur|err]; cbn [safe]; cbv zeta.
  - destruct (ContainsFinalizer _ _) eqn:Hf; cbn [negb].
    + rewrite safe_bind. split; [done|]. intros [u|err]; cbn; [|done]. split; [|done]. intros _. right; right.
      eexists _, _. split; [left|]. apply not_true_iff_false. cbn.
      rewrite ContainsFinalizer_spec, RemoveFinalizer_spec. tauto.
    + split; [|done]. intros _. right; left. exists cur. split; [apply answered_here|done].
  - destruct (IsNotFound err) eqn:Hn; [|done]. split; [|done]. intros _. left. exists err.
    split; [apply answered_here|done].
Qed.

(** The lease object is out of the way: without its finalizer it has been deleted,
    or the API server said that it does not exist. *)
Definition deletedLease h : Prop :=
  exists o err, Ev (ClientDelete HubClient KLease o) err ∈ h /\ match err with Some e => IsNotFound e = true | None => True end.

Context `{!ConditionsLaws}.

(** ** Cleaning up *)

Lemma cleanupErr_quiet l before err f h :
  (forall l' t, condition_of (f l') t = condition_of l' t) ->
  safe anything (cleanupErr r l before err f) h (fun h' res => quiet res ->
    exists l', told before h' l'.(lease_Status) /\
      condition_of l' ConditionCleanup = Some (ConditionFalseStatus, ReasonOwnershipMismatch)).
Proof.
  intros Hf. unfold cleanupErr. cbv zeta. destruct (IsOwnershipMismatch err).
  - rewrite safe_bind. eapply safe_post; [apply patchStatus_told|]. intros h1 [l1 e] (_ & _ & Ht) (He & _).
    cbn in He. subst e. eexists. split; [by apply Ht|]. rewrite Hf. by eval_condition.
  - rewrite safe_bind. eapply safe_post; [apply safe_any|]. intros h1 [] _.
    rewrite safe_bind. eapply safe_post; [apply safe_any|]. intros h2 [] _.
    rewrite safe_bind. eapply safe_post; [apply safe_any|].
    intros h3 [l1 [e|]] _ Hq; [by apply quiet_err in Hq|]. apply quiet_after in Hq. by vm_compute in Hq.
Qed.

Lemma finishExpired_quiet l before b h :
  safe anything (finishExpired r l before b) h (fun h' res =>
    quiet res -> finalizerGone h' (leaseKey l) /\ deletedLease h').
Proof.
  unfold finishExpired. cbv zeta. rewrite safe_bind.
  eapply safe_post; [apply patchStatus_told|]. intros h1 [l1 [e|]] (Hm & _); [by intros ?%quiet_err|].
  rewrite safe_bind. eapply safe_post; [apply safe_any|]. intros h2 [] _.
  rewrite safe_bind. eapply safe_post; [apply removeLeaseFinalizer_gone|].
  intros h3 [e|] Hg; [by intros ?%quiet_err|]. specialize (Hg eq_refl).
  unfold leaseKey in Hg. cbn in Hm. rewrite Hm in Hg.
  unfold cl_Delete. rewrite safe_bind. split; [done|].
  assert (Hd : forall err, match err with Some e => IsNotFound e = true | None => True end ->
    finalizerGone (Ev (ClientDelete HubClient KLease l1) err :: h3) (leaseKey l) /\
    deletedLease (Ev (ClientDelete HubClient KLease l1) err :: h3)).
  { intros err Herr. split; [eapply finalizerGone_mono; [|exact Hg]; grown|]. eexists _, err. split; [left|done]. }
  intros [e|]; cbn [safe]; [|by intros _; apply Hd].
  destruct (IsNotFound e) eqn:He; [|by intros ?%quiet_err]. by intros _; apply Hd.
Qed.

Lemma finishDelete_quiet l before h :
  safe anything (finishDelete r l before) h (fun h' res => quiet res -> finalizerGone h' (leaseKey l)).
Proof.
  unfold finishDelete. cbv zeta. rewrite safe_bind.
  eapply safe_post; [apply patchStatus_told|]. intros h1 [l1 [e|]] (Hm & _); [by intros ?%quiet_err|].
  rewrite safe_bind. eapply safe_post; [apply safe_any|]. intros h2 [] _.
  rewrite safe_bind. eapply safe_post; [apply removeLeaseFinalizer_gone|].
  intros h3 [e|] Hg; [by intros ?%quiet_err|]. intros _. specialize (Hg eq_refl).
  unfold leaseKey in *. cbn in Hm. by rewrite Hm in Hg.
Qed.

(** How a cleanup comes to rest. *)
Definition cleanupRests l0 h : Prop :=
  finalizerGone h (leaseKey l0) /\ (IsZeroPtr l0.(lease_Meta).(m_DeletionTimestamp) = true -> deletedLease h) \/
  exists l', told l0.(lease_Status) h l'.(lease_Status) /\
    condition_of l' ConditionCleanup = Some (ConditionFalseStatus, ReasonOwnershipMismatch).

Lemma reconcileExpired_quiet l0 l ph h :
  sameEnv l0 l ->
  safe anything (reconcileExpired r l l0.(lease_Status) ph) h (fun h' res => quiet res -> cleanupRests l0 h').
Proof.
  intros Hs. unfold reconcileExpired. cbv zeta. rewrite safe_bind.
  eapply safe_post; [apply safe_any|]. intros h1 reason _.
  rewrite safe_bind. eapply safe_post; [apply safe_any|]. intros h2 [] _. rewrite safe_bind.
  eapply safe_mono; [| |apply (cleanupEnvironment_safe r l0), sameEnv_MarkExpired, Hs]; [done|].
  intros h3 [l' [[]|err]] [Hs' _].
  - eapply safe_post; [apply finishExpired_quiet|]. intros h4 res Hg Hq. left. unfold leaseKey in *.
    destruct (Hg Hq). by rewrite <- (se_meta _ _ Hs').
  - rewrite safe_bind. eapply safe_post; [apply safe_any|].
    intros h4 [l1 [e|]] _ Hq; [by apply quiet_err in Hq|]. apply quiet_after in Hq. by vm_compute in Hq.
  - eapply safe_post; [by apply cleanupErr_quiet|]. intros h4 res Hg Hq. right. by apply Hg.
Qed.

Lemma reconcileDelete_quiet l0 h :
  IsZeroPtr l0.(lease_Meta).(m_DeletionTimestamp) = false ->
  ContainsFinalizer l0.(lease_Meta).(m_Finalizers) FinalizerName = true ->
  safe anything (reconcileDelete r l0) h (fun h' res => quiet res -> cleanupRests l0 h').
Proof.
  intros Hz Hf. unfold reconcileDelete. rewrite Hf. cbv zeta. cbn [negb]. rewrite DeepCopyStatus_id.
  rewrite safe_bind. eapply safe_post; [apply safe_any|]. intros h1 [] _. rewrite safe_bind.
  eapply safe_mono; [| |apply (cleanupEnvironment_safe r l0), sameEnv_MarkCleaning; by case_match]; [done|].
  intros h3 [l' [[]|err]] [Hs' _].
  - eapply safe_post; [apply finishDelete_quiet|]. intros h4 res Hg Hq. left. unfold leaseKey in *.
    rewrite <- (se_meta _ _ Hs'). split; [by apply Hg|]. cbn in *. rewrite (se_meta _ _ Hs'), Hz. done.
  - rewrite safe_bind. eapply safe_post; [apply safe_any|].
    intros h4 [l1 [e|]] _ Hq; [by apply quiet_err in Hq|]. apply quiet_after in Hq. by vm_compute in Hq.
  - eapply safe_post; [by apply cleanupErr_quiet|]. intros h4 res Hg Hq. right. by apply Hg.
Qed.

(** ** Provisioning *)

(** The outage tracker answered with no wait: [Outage.MarkUnavailable] never does
    for a remote target. *)
Definition emptyWait (ev : event kube) : bool :=
  match ev.(ev_eff) in kube X return X -> bool with
  | OutageMarkUnavailable _ _ => fun wait => wait <=? 0
  | _ => fun _ => false
  end ev.(ev_resp).

Definition emptyBackoff h : Prop := exists ev, ev ∈ h /\ emptyWait ev = true.

Lemma no_emptyBackoff h : forallb (fun ev => negb (emptyWait ev)) h = true -> ~ emptyBackoff h.
Proof.
  rewrite forallb_forall. intros Hall (ev & Hin & He). apply list_elem_of_In, Hall in Hin. by rewrite He in Hin.
Qed.

(** An event of the lease was due at a reading of the clock, or it has no deadline. *)
Definition eventDue h l : Prop :=
  match EffectiveDeadline l with
  | None => True
  | Some deadline => exists t : time, Ev Now t ∈ h /\
      NextReconcileAfter t deadline (WarningDurations l.(lease_Spec).(spec_Warnings))
        l.(lease_Status).(st_WarningsDelivered) <= 0
  end.

(** How the active path comes to rest, with the lease it leaves. *)
Definition activeRests h l : Prop :=
  l.(lease_Status).(st_Phase) = LeasePhaseFailed \/
  ((l.(lease_Status).(st_Phase) = LeasePhaseActive \/ l.(lease_Status).(st_Phase) = LeasePhaseExpiring) /\
   condition_of l ConditionReady = Some (ConditionTrueStatus, ReasonEnvironmentReady) /\ eventDue h l) \/
  emptyBackoff h.

Lemma activeRests_mono h h' l : h `suffix_of` h' -> activeRests h l -> activeRests h' l.
Proof.
  intros Hh [?|[(? & ? & Hd)|(ev & ? & ?)]]; [by left| |].
  - right; left. split_and!; try done. unfold eventDue in *. destruct (EffectiveDeadline l); [|done].
    destruct Hd as (t & ? & ?). exists t. split; [by eapply suffix_In|done].
  - right; right. exists ev. split; [by eapply suffix_In|done].
Qed.

(** What a step of the active path may return. *)
Notation restful := (fun h (p : EnvironmentLease * (CtrlResult * option error)) => quiet p.2 -> activeRests h p.1).

Lemma finishActive_quiet sess l ph wr n h : safe anything (finishActive r sess l ph wr n) h restful.
Proof.
  unfold finishActive. rewrite safe_bind. eapply safe_post; [apply safe_any|]. intros h1 l1 _.
  rewrite safe_bind. split; [done|]. intros t. cbn [safe]. cbv zeta.
  set (l2 := SetCondition (MarkReady _ _) _ _ _ _).
  assert (Hl2 : (l2.(lease_Status).(st_Phase) = LeasePhaseActive \/ l2.(lease_Status).(st_Phase) = LeasePhaseExpiring) /\
    condition_of l2 ConditionReady = Some (ConditionTrueStatus, ReasonEnvironmentReady)).
  { subst l2. unfold MarkReady. destruct (IsExpiringWindow _ _); (split; [by auto|by eval_condition]). }
  destruct Hl2 as [Hph Hrd]. clearbody l2. rewrite safe_bind. eapply safe_post; [apply safe_any|]. intros h2 [] _.
  destruct (EffectiveDeadline l2) as [d|] eqn:Hd.
  - rewrite safe_bind. split; [done|]. intros t2. cbn [safe]. intros Hq%quiet_after. right; left.
    do 2 (split; [done|]). unfold eventDue. cbn [fst]. rewrite Hd. exists t2. split; [left|].
    destruct (negb _ && _); [by vm_compute in Hq|done].
  - destruct (negb _); cbn [safe]; intros Hq; [apply quiet_after in Hq; by vm_compute in Hq|].
    right; left. do 2 (split; [done|]). unfold eventDue. cbn [fst]. by rewrite Hd.
Qed.

Lemma failing_restful {A} (p : prog kube A) (f : A -> EnvironmentLease) err h :
  safe anything (bind p (fun a => Ret (f a, (noResult, Some err)))) h restful.
Proof. rewrite safe_bind. eapply safe_post; [apply safe_any|]. intros h1 a _ Hq. by apply quiet_err in Hq. Qed.

Lemma provisionFailed_quiet sess l op reason err h : safe anything (provisionFailed sess l op reason err) h restful.
Proof.
  unfold provisionFailed. rewrite safe_bind. eapply safe_post; [apply safe_any|]. intros h1 [] _.
  apply (failing_restful _ (fun _ => _)).
Qed.

Lemma provisionNamespace_quiet sess l ph res wr h : safe anything (provisionNamespace r sess l ph res wr) h restful.
Proof.
  unfold provisionNamespace. cbv zeta. rewrite safe_bind. eapply safe_post; [apply safe_any|].
  intros h1 [[n c]|err] _; [|apply provisionFailed_quiet].
  rewrite safe_bind. eapply safe_post; [apply safe_any|]. intros h2 [] _.
  rewrite safe_bind. eapply safe_post; [apply safe_any|]. intros h3 [l3 [err|]] _; [by intros ?%quiet_err|].
  rewrite safe_bind. eapply safe_post; [apply safe_any|].
  intros h4 [[reason err]|] _; [apply provisionFailed_quiet|apply finishActive_quiet].
Qed.

Lemma provisionOn_quiet sess l ph res wr h : safe anything (provisionOn r sess l ph res wr) h restful.
Proof.
  unfold provisionOn. cbv zeta. rewrite safe_bind. eapply safe_post; [apply safe_any|].
  intros h1 [l1 [err|]] _; [by intros ?%quiet_err|apply provisionNamespace_quiet].
Qed.

Lemma gated_quiet sess (body : prog kube (EnvironmentLease * (CtrlResult * option error))) h :
  (forall h, safe anything body h restful) -> safe anything (gated r sess body) h restful.
Proof.
  intros Hb. unfold gated, with_release. destruct (rec_Gate r); [|apply Hb].
  rewrite safe_bind. split; [done|]. intros []. cbn [safe]. rewrite safe_bind. eapply safe_post; [apply Hb|].
  intros h1 p Hp. cbn [call bind safe]. split; [done|]. intros [] Hq. eapply activeRests_mono; [|by apply Hp]. grown.
Qed.

Lemma handleTargetError_quiet l err h : safe anything (handleTargetError r l err) h restful.
Proof.
  unfold handleTargetError. cbv zeta. destruct (match AsTargetError err with Some _ => _ | None => _ end) as [reason msg].
  rewrite safe_bind. eapply safe_post; [apply safe_any|]. intros h1 [] _. rewrite safe_bind.
  eapply (safe_post _ _ _ (fun h wait => wait <= 0 -> emptyBackoff h)).
  - destruct (_ && _); [|intros Hq; by vm_compute in Hq]. rewrite safe_bind. split; [done|]. intros t. cbn [safe].
    split; [done|]. intros wait Hw. eexists. split; [left|]. by apply Z.leb_le.
  - intros h2 wait Hw Hq%quiet_after. right; right. by apply Hw.
Qed.

(** Placement comes to rest only when the policy refuses it. *)
Lemma resolveForProvision_quiet l pol h :
  safe anything (resolveTargetSessionForProvision r l pol) h (fun _ p =>
    match p.2 with ProvisionStop res => quiet (res, None) -> p.1.(lease_Status).(st_Phase) = LeasePhaseFailed | _ => True end).
Proof.
  unfold resolveTargetSessionForProvision. rewrite safe_bind. eapply safe_post; [apply safe_any|]. intros h1 [] _.
  rewrite safe_bind. eapply safe_post; [apply safe_any|]. intros h2 [counts|err] _; [|done].
  rewrite safe_bind. eapply safe_post; [apply safe_any|]. intros h3 [d|err] _.
  - destruct (Pending d).
    + rewrite safe_bind. eapply safe_post; [apply safe_any|]. intros h4 [] _. cbn [safe].
      intros Hq%quiet_after. by vm_compute in Hq.
    + unfold openSession. cbv zeta. rewrite safe_bind. eapply safe_post; [apply safe_any|]. intros h4 wait _.
      destruct (0 <? wait) eqn:Hw; zify_bool; [intros Hq%quiet_after; lia|].
      rewrite safe_bind. eapply safe_post; [apply safe_any|]. intros h5 [sess|err] _; [|done].
      destruct (ses_Local sess); [done|]. rewrite safe_bind. eapply safe_post; [apply safe_any|].
      intros h6 [l6 [err|]] _; [done|]. rewrite safe_bind. eapply safe_post; [apply safe_any|]. by intros h7 [] _.
  - destruct (Contains _ _); [|done]. cbv zeta. rewrite safe_bind. eapply safe_post; [apply safe_any|]. intros h4 [] _.
    rewrite safe_bind. eapply safe_post; [apply safe_any|]. by intros h5 [] _.
Qed.

Lemma reconcileActive_quiet l ph res pol h : safe anything (reconcileActive r l ph res pol) h restful.
Proof.
  unfold reconcileActive. cbv zeta. rewrite safe_bind. eapply safe_post; [apply resolveForProvision_quiet|].
  intros h1 [l1 [sess|res1|err]] Hp.
  - apply gated_quiet. intros h2. apply provisionOn_quiet.
  - intros Hq. left. by apply Hp.
  - apply handleTargetError_quiet.
Qed.

(** ** The whole run *)

(** The lease is refused: it is not valid, its policy cannot be read, or the policy
    does not allow it. *)
Definition refused l h : Prop :=
  ValidateSpec l <> None \/
  (exists err, answered KPolicy h HubClient (named (refName l.(lease_Spec).(spec_PolicyRef))) (Err err)) \/
  exists pol err, policyRead l h pol /\ Resolve l.(lease_Spec) pol = Err err.

Lemma refused_mono l h h' : h `suffix_of` h' -> refused l h -> refused l h'.
Proof.
  intros Hh [?|[(err & ?)|(pol & err & ? & ?)]]; [by left|right; left|right; right].
  - exists err. by eapply answered_mono.
  - exists pol, err. split; [by eapply policyRead_mono|done].
Qed.

(** All the ways a run comes to rest. *)
Inductive settled (req : string) h : Prop :=
  | settled_absent err :
      h = [Ev (ClientGet HubClient KLease (named req)) (Err err)] -> IsNotFound err = true -> settled req h
  | settled_released l :
      readLease req h l -> IsZeroPtr l.(lease_Meta).(m_DeletionTimestamp) = false ->
      ContainsFinalizer l.(lease_Meta).(m_Finalizers) FinalizerName = false -> settled req h
  | settled_cleanup l :
      readLease req h l -> endOfLife l h -> cleanupRests l h -> settled req h
  | settled_refused l l' :
      readLease req h l -> IsZeroPtr l.(lease_Meta).(m_DeletionTimestamp) = true -> refused l h ->
      told l.(lease_Status) h l'.(lease_Status) -> l'.(lease_Status).(st_Phase) = LeasePhaseFailed -> settled req h
  | settled_unplaced l l' :
      readLease req h l -> IsZeroPtr l.(lease_Meta).(m_DeletionTimestamp) = true -> derived l h false ->
      told l.(lease_Status) h l'.(lease_Status) -> l'.(lease_Status).(st_Phase) = LeasePhaseFailed -> settled req h
  | settled_standing l l' :
      readLease req h l -> IsZeroPtr l.(lease_Meta).(m_DeletionTimestamp) = true -> derived l h false ->
      told l.(lease_Status) h l'.(lease_Status) ->
      l'.(lease_Status).(st_Phase) = LeasePhaseActive \/ l'.(lease_Status).(st_Phase) = LeasePhaseExpiring ->
      condition_of l' ConditionReady = Some (ConditionTrueStatus, ReasonEnvironmentReady) ->
      eventDue h l' -> settled req h.

Lemma rejectLease_quiet l before reason err m h :
  safe anything (rejectLease l before reason err m) h (fun h' res => quiet res ->
    exists l', told before h' l'.(lease_Status) /\ l'.(lease_Status).(st_Phase) = LeasePhaseFailed).
Proof.
  unfold rejectLease. cbv zeta. rewrite safe_bind. eapply safe_post; [apply patchStatus_told|].
  intros h1 [l1 [e|]] (_ & _ & Ht); [by intros ?%quiet_err|]. rewrite safe_bind.
  eapply safe_post; [apply safe_any|]. intros h2 [] Hh2 _.
  exists (EnsureObservedGeneration (MarkFailed l reason (Error err))). split; [|reflexivity].
  eapply told_mono; [exact Hh2|by apply Ht].
Qed.

(** With the timestamps in place: the run ends the lease or keeps it. *)
Lemma reconcileStamped_quiet l0 l ph pe res pol t0 h :
  sameEnv l0 l -> clockReadings h = [t0] ->
  safe anything (reconcileStamped r l l0.(lease_Status) ph pe res pol) h (fun h' x => quiet x ->
    exists t1 t2, [t0; t1; t2] `prefix_of` clockReadings h' /\
      (IsExpired (SyncExpirationStatus l res.(r_IdleTTL) t1) t2 = true /\ cleanupRests l0 h' \/
       IsExpired (SyncExpirationStatus l res.(r_IdleTTL) t1) t2 = false /\
       exists l', told l0.(lease_Status) h' l'.(lease_Status) /\ activeRests h' l')).
Proof.
  intros Hs Ht0. unfold reconcileStamped. rewrite safe_bind. split; [done|]. intros t1. cbn [safe]. cbv zeta.
  rewrite safe_bind.
  eapply safe_post; [apply clockless_safe; [apply clockless_announceRenewal|apply safe_any]|]. intros h1 [] [_ Hcl].
  rewrite clockReadings_now, Ht0 in Hcl.
  rewrite safe_bind. split; [done|]. intros t2. cbn [safe].
  assert (Hpre : [t0; t1; t2] `prefix_of` clockReadings (Ev Now t2 :: h1)) by by rewrite clockReadings_now, Hcl.
  destruct (IsExpired _ t2) eqn:Hexp.
  - eapply safe_post; [apply safe_conj; [by apply (reconcileExpired_quiet l0), sameEnv_Sync|apply safe_any]|].
    intros h2 x [Hx Hh2] Hq. exists t1, t2. split; [by eapply clockReadings_mono|]. left. split; [done|by apply Hx].
  - rewrite safe_bind. eapply safe_post; [apply safe_conj; [apply reconcileActive_quiet|apply safe_any]|].
    intros h2 [l2 [x e]] [Hact Hh2].
    rewrite safe_bind. eapply safe_post; [apply patchStatus_told|].
    intros h3 [l3 [e3|]] (_ & Hh3 & Ht); [by intros ?%quiet_err|].
    destruct e as [e|]; [by intros ?%quiet_err|]. intros Hq. exists t1, t2.
    split; [eapply clockReadings_mono; [|exact Hpre]; by transitivity h2|]. right. split; [done|].
    eexists. split; [by apply Ht|]. apply (activeRests_mono h2); [done|]. exact (Hact Hq).
Qed.

Lemma fetchPolicy_refused l h :
  safe anything (fetchPolicy l) h (fun h' p => forall err, p = Err err -> refused l h').
Proof.
  unfold fetchPolicy. destruct (spec_PolicyRef _) as [name|] eqn:Hn; [|done]. destruct (is_empty name); [done|].
  unfold cl_Get. rewrite safe_bind. split; [done|]. intros [pol|err]; cbn [safe]; [done|]. intros err' _.
  right; left. exists err. rewrite Hn. apply answered_here.
Qed.

Lemma fetchPolicy_read l h :
  safe anything (fetchPolicy l) h (fun h' p => h `suffix_of` h' /\ forall pol, p = Ok pol -> policyRead l h' pol).
Proof. eapply safe_mono; [| |apply (fetchPolicy_safe r "" l)]; done. Qed.

Lemma reconcileLive_quiet req l h :
  readLease req h l -> clockReadings h = [] -> IsZeroPtr l.(lease_Meta).(m_DeletionTimestamp) = true ->
  safe anything (reconcileLive r l) h (fun h' res => h `suffix_of` h' -> quiet res -> emptyBackoff h' \/ settled req h').
Proof.
  intros Hread Hcl Hz.
  assert (Hrej : forall before reason err m h1, before = l.(lease_Status) -> refused l h1 ->
    safe anything (rejectLease l before reason err m) h1 (fun h' res => h `suffix_of` h' -> quiet res -> emptyBackoff h' \/ settled req h')).
  { intros before reason err m h1 -> Href. eapply safe_post; [apply safe_conj; [apply rejectLease_quiet|apply safe_any]|].
    intros h2 res [Hx Hh2] Hh Hq. destruct (Hx Hq) as (l' & ? & ?). right.
    apply (settled_refused _ _ l l'); try done; [by apply (readLease_mono req h)|by apply (refused_mono l h1)]. }
  unfold reconcileLive. cbv zeta. rewrite DeepCopyStatus_id.
  destruct (ValidateSpec l) as [err|] eqn:Hv; [apply Hrej; [done|by left; rewrite Hv]|].
  rewrite safe_bind.
  eapply safe_post; [apply clockless_safe; [apply clockless_fetchPolicy|apply safe_conj; [apply fetchPolicy_refused|apply fetchPolicy_read]]|].
  intros h1 [pol|err] [[Href [Hh1 Hp]] Hcl1]; [|by eapply Hrej, Href]. specialize (Hp pol eq_refl).
  unfold reconcileResolved. destruct (Resolve _ _) as [res|err] eqn:Hres.
  2: { apply Hrej; [done|]. right; right. by exists pol, err. }
  rewrite safe_bind. split; [done|]. intros t0. cbn [safe].
  pose proof (resolved_lifetime _ _ _ Hres) as Hlife.
  rewrite EnsureTimestamps_eq by done. set (stamps := mkTimestamps _ _ _).
  assert (Hst : EnsureTimestamps (l <|@ st_Effective := Some (ToEffectiveStatus res) |>)
      res.(r_TTL) res.(r_MaxTTL) res.(r_Renewable) t0 = Ok stamps) by (by rewrite EnsureTimestamps_eq).
  eapply safe_post; [apply safe_conj; [apply (reconcileStamped_quiet l _ _ _ _ _ t0)|apply safe_any]|].
  1: by eapply sameEnv_stamped.
  1: by rewrite clockReadings_now, Hcl1, Hcl.
  intros h2 x [Hx Hh2] Hh Hq.
  assert (Hr2 : readLease req h2 l) by (by apply (readLease_mono req h)).
  assert (Hd : forall t1 t2 b, [t0; t1; t2] `prefix_of` clockReadings h2 -> IsExpired (SyncExpirationStatus (stampedLease stamps) res.(r_IdleTTL) t1) t2 = b ->
            derived l h2 b).
  { intros t1 t2 b Hpre Hb. exists pol, res, stamps, t0, t1, t2. split_and!; try done.
    apply (policyRead_mono l h1); [|done]. etrans; [|exact Hh2]. grown. }
  destruct (Hx Hq) as (t1 & t2 & Hpre & [[Hexp Hr]|[Hexp (l' & Ht & Ha)]]); apply (Hd _ _ _ Hpre) in Hexp.
  { right. apply (settled_cleanup _ _ l); [done|by right|done]. }
  destruct Ha as [Hf|[(Hph & Hrd & Hdue)|He]]; [right|right|by left].
  - by apply (settled_unplaced _ _ l l').
  - by apply (settled_standing _ _ l l').
Qed.

(** Claim C4.  No lease is forgotten.  When a run of [Reconcile] comes back quiet,
    with no error, no requeue and no delay, then, whatever was answered, one of these
    is the case.  The lease does not exist, or is being deleted and no longer holds
    the finalizer.  It has reached the end of its life, and either its finalizer is
    gone (and, if nobody had deleted it, the lease itself was deleted), or the
    cleanup is blocked on an ownership mismatch and its status says so.  It was
    refused (not valid, or its policy could not be read or does not allow it) or its
    policy forbids its cluster, and its status says Failed.  Or it stands, is
    reported ready, and at the last reading of the clock its deadline or an
    undelivered warning was already due.  In every status above, what the status says
    is what was stored, or what the lease said before.  The outage tracker is assumed
    to answer with a positive wait, which it does ([Outage.MarkUnavailable_bounds]). *)
Theorem quiet_reconcile (req : string) (tr : trace kube) (res : CtrlResult * option error) :
  runs (Reconcile r req) [] tr res -> ~ emptyBackoff tr -> quiet res -> settled req tr.
Proof.
  intros Hrun Hback Hq. cut (emptyBackoff tr \/ settled req tr); [by intros [?|?]|]. revert Hq. clear Hback.
  by_safe (fun X (_ : trace kube) (_ : kube X) => True) Hrun.
  unfold Reconcile, cl_Get. rewrite safe_bind. split; [done|]. intros [l|err]; cbn [safe].
  2: { destruct (IsNotFound err) eqn:Hn; [|by intros ?%quiet_err]. intros _. right. by eapply settled_absent. }
  set (h := [_]). cbv zeta. assert (Hread : readLease req h l) by done.
  destruct (IsZeroPtr (m_DeletionTimestamp (lease_Meta l))) eqn:Hz; cbn [negb].
  - destruct (ContainsFinalizer (m_Finalizers (lease_Meta l)) FinalizerName) eqn:Hf; cbn [negb].
    + eapply safe_post; [apply safe_conj; [by apply (reconcileLive_quiet req)|apply safe_any]|].
      intros h' res' [Hx Hh'] Hq. by apply Hx.
    + unfold cl_Update. rewrite safe_bind. split; [done|]. intros [u|err]; cbn [safe]; [by intros (_ & Hq & _)|].
      by intros ?%quiet_err.
  - destruct (ContainsFinalizer (m_Finalizers (lease_Meta l)) FinalizerName) eqn:Hf.
    + eapply safe_post; [apply safe_conj; [by apply reconcileDelete_quiet|apply safe_any]|].
      intros h' res' [Hx Hh'] Hq. right. apply (settled_cleanup _ _ l); [by apply (readLease_mono req h)|by left|by apply Hx].
    + unfold reconcileDelete. rewrite Hf. intros _. right. by apply (settled_released _ _ l).
Qed.

End Progress.

(** ** Witness *)

Section Witness.

#[local] Existing Instance milliQuantity.
#[local] Existing Instance listConditions.
#[local] Existing Instance exactSelectors.
#[local] Existing Instance listControllerutil.
#[local] Existing Instance listControllerutil_laws.
#[local] Existing Instance fourAttempts.
#[local] Existing Instance fourAttempts_laws.
#[local] Existing Instance listConditions_laws.

(** After its hour, with its namespace already deleted. *)
Definition endingWorld : World := rounds 1 ((rounds 2 demoWorld) <| w_now := 4000 * Second |>).

Lemma quiet_reconcile_witness : settled "demo" (in_world (demoReconcile "demo") endingWorld).2.
Proof.
  apply (quiet_reconcile demoReconciler "demo" _ _ (in_world_runs (demoReconcile "demo") endingWorld)).
  - apply no_emptyBackoff. vm_compute. reflexivity.
  - vm_compute. split_and!; [reflexivity|reflexivity|discriminate].
Defined.

End Witness.
