(* ===== verification/ManagerMain.v ===== *)
(** * The manager's start (cmd/main.go) and what survives a restart

    The identity of the control cluster is probed once per process, and a failed
    probe is tolerated: the controller then runs without one.  The namespaces it
    stamps and verifies therefore meet controllers that know the identity and
    controllers that do not. *)

From S2P Require Import Prelude GoStrings GoTime GoErrors Api LeaseConditions LeaseStatus Resources.
From S2P Require Import Policy LeaseExpiration LeaseWarnings Concrete Programs Kube World Identity Placement Outage Remote.
From S2P Require Import Provider LeaseCommon LeaseProvision LeaseCleanup LeaseReconcile Runtime LeasePaths.

(** ** The wiring *)

(** [SetupWithManager] fills in the recorder; the clock is an effect. *)
Definition SetupWithManager (r : EnvironmentLeaseReconciler) : EnvironmentLeaseReconciler :=
  mkReconciler r.(rec_ControlClusterID) r.(rec_Provider) r.(rec_Outages) r.(rec_Gate) true.

(** What the process runs: the lease reconciler with the shared state its workers
    use, and the bound of the client cache. *)
Record Manager := mkManager {
  mgr_Reconciler : EnvironmentLeaseReconciler;
  mgr_Outages : OutageTracker;
  mgr_Gate : TargetGate;
  mgr_MaxCacheEntries : Z
}.

Section Main.
Context `{QuantityAPI}.

(** The identity of the control cluster, over a client of its own; [None]: no
    client could be built. *)
Definition controlID (hubClient : option Client) : prog kube string :=
  match hubClient with
  | None => Ret ""
  | Some c =>
      (id <- ProbeRemoteIdentity c ;; Ret match id with Ok id => id | Err _ => "" end)%prog
  end.

Definition managerMain (hubClient : option Client) : prog kube Manager :=
  (id <- controlID hubClient ;;
   Ret (mkManager (SetupWithManager (mkReconciler id true true true false))
          (NewOutageTracker (15 * Second) (2 * Minute)) (NewTargetGate 4) (NewProviderMaxCache 0)))%prog.

(** ** Restarts *)

(** Every identity the control cluster answered in a trace is this one. *)
Definition sameHub (id : string) (tr : trace kube) : Prop :=
  forall c ns, Some (c, "kube-system", ns) ∈ (gotNamespace <$> tr) -> ns.(ns_Meta).(m_UID) = id.

Lemma managerMain_id hub tr m id :
  runs (managerMain hub) [] tr m -> sameHub id tr ->
  m.(mgr_Reconciler).(rec_ControlClusterID) = "" \/ m.(mgr_Reconciler).(rec_ControlClusterID) = id.
Proof.
  intros Hr. by_safe (fun X (_ : trace kube) (_ : kube X) => True) Hr.
  unfold managerMain, controlID. destruct hub as [c|]; [|by left]. rewrite safe_bind, safe_bind.
  apply safe_Probe; [done|..]; [|by left]. intros ns _. cbn. intros Hid. right. apply (Hid c). left.
Qed.

(** Two identities agree unless both are known and differ. *)
Definition agree (a b : string) : Prop := a = "" \/ b = "" \/ a = b.

Lemma agree_contradicts a b : agree a b <-> ~ contradicts a b.
Proof.
  unfold agree, contradicts. destruct (decide (a = "")), (decide (b = "")), (decide (a = b)); naive_solver.
Qed.

Lemma agree_controls hub1 hub2 tr1 tr2 m1 m2 id :
  runs (managerMain hub1) [] tr1 m1 -> runs (managerMain hub2) [] tr2 m2 -> sameHub id tr1 -> sameHub id tr2 ->
  agree m1.(mgr_Reconciler).(rec_ControlClusterID) m2.(mgr_Reconciler).(rec_ControlClusterID).
Proof.
  intros Hr1 Hr2 Hi1 Hi2. unfold agree.
  destruct (managerMain_id _ _ _ _ Hr1 Hi1) as [-> | ->]; [by left|].
  destruct (managerMain_id _ _ _ _ Hr2 Hi2) as [-> | ->]; [by right; left|by right; right].
Qed.

Lemma agree_stamp stamp base other : agree base other -> agree stamp other -> agree (if is_empty stamp then base else stamp) other.
Proof. by destruct (is_empty stamp). Qed.

Lemma stampAnnotations_get base uid ctl target :
  get (stampAnnotations base uid ctl target) AnnotationLeaseUID = uid /\
  get (stampAnnotations base uid ctl target) AnnotationControlClusterID
    = (if is_empty ctl then get base AnnotationControlClusterID else ctl) /\
  get (stampAnnotations base uid ctl target) AnnotationTargetIdentity
    = (if is_empty target then get base AnnotationTargetIdentity else target).
Proof.
  split; [apply stamp_uid|].
  unfold stampAnnotations. destruct (is_empty ctl), (is_empty target); cbn [negb];
    rewrite ?get_insert_ne by done; rewrite ?get_insert_eq; by rewrite ?get_insert_ne by done.
Qed.

(** Labels and stamps of one lease, read by another process. *)
Lemma stamped_owned (m : ObjectMeta) extra base ctl1 ctl2 target l1 l2 :
  m.(m_Labels) = MergeLabels (ManagedLabels (lease_Name l1)) extra ->
  m.(m_Annotations) = stampAnnotations base (lease_UID l1) ctl1 target ->
  l1.(lease_Meta) = l2.(lease_Meta) ->
  agree ctl1 ctl2 -> agree target (expectedTarget l2) ->
  agree (get base AnnotationControlClusterID) ctl2 ->
  agree (get base AnnotationTargetIdentity) (expectedTarget l2) ->
  VerifyNamespaceOwnership (mkNamespace m) l2 ctl2 = None.
Proof.
  intros Hl Ha Hm Hc Ht Hbc Hbt. apply VerifyNamespaceOwnership_iff.
  pose proof (merged_managed (lease_Name l1) extra) as Hmm. apply IsManagedByKubeLease_spec in Hmm as [Hm1 Hm2].
  destruct (stampAnnotations_get base (lease_UID l1) ctl1 target) as (Hu & Hctl & Htg).
  assert (Hname : lease_Name l2 = lease_Name l1) by by rewrite Hm.
  assert (Huid : lease_UID l2 = lease_UID l1) by by rewrite Hm.
  constructor; cbn; rewrite ?Hl, ?Ha, ?Hname, ?Huid; [done|done|exact Hu|..].
  - rewrite Hctl. by apply agree_contradicts, agree_stamp.
  - rewrite Htg. by apply agree_contradicts, agree_stamp.
Qed.

(** What the namespace of a lease is at any time: created under a name, created
    under a generated one, or adopted. *)
Definition provisionedAs (r : EnvironmentLeaseReconciler) (l : EnvironmentLease) (ns : Namespace) : Prop :=
  (exists name, DesiredNamespace l name r.(rec_ControlClusterID) (statusRemoteIdentity l) = Ok ns) \/
  ns = generatedNamespace r l \/
  (exists m, ns = mkNamespace (adoptedMeta r l (statusRemoteIdentity l) m) /\
     get m.(m_Annotations) AnnotationControlClusterID = "" /\ get m.(m_Annotations) AnnotationTargetIdentity = "").

Lemma get_union_empty (a b : labels) k : get a k = "" -> get b k = "" -> get (a ∪ b) k = "".
Proof. unfold get. rewrite lookup_union. by destruct (a !! k), (b !! k). Qed.

(** Claim C19.  A restart does not lock the controller out of its environments.
    Two processes start against one control cluster, each with its own outcome of
    the identity probe, which may fail; the namespace the first one creates or
    adopts for a lease passes the ownership check of the second one, whatever each
    of them knows of the control cluster.  Three conditions: the target identities
    the lease has recorded at the two times do not contradict each other (either may
    be missing); the annotations in the lease's specification carry neither of the
    two identity stamps; and an adopted namespace carried neither when it was
    adopted.  The second is needed: [own_stamp_locks_out]. *)
Theorem restart_keeps_ownership hub1 hub2 tr1 tr2 m1 m2 id (l1 l2 : EnvironmentLease) (ns : Namespace) :
  runs (managerMain hub1) [] tr1 m1 -> runs (managerMain hub2) [] tr2 m2 -> sameHub id tr1 -> sameHub id tr2 ->
  l1.(lease_Meta) = l2.(lease_Meta) -> agree (expectedTarget l1) (expectedTarget l2) ->
  get l1.(lease_Spec).(spec_Namespace).(nsp_Annotations) AnnotationControlClusterID = "" ->
  get l1.(lease_Spec).(spec_Namespace).(nsp_Annotations) AnnotationTargetIdentity = "" ->
  provisionedAs m1.(mgr_Reconciler) l1 ns ->
  VerifyNamespaceOwnership ns l2 m2.(mgr_Reconciler).(rec_ControlClusterID) = None.
Proof.
  intros Hr1 Hr2 Hi1 Hi2 Hm Ht Hbc Hbt Hns. pose proof (agree_controls _ _ _ _ _ _ _ Hr1 Hr2 Hi1 Hi2) as Hc.
  assert (Hempty : forall s, agree "" s) by by left.
  set (sp := l1.(lease_Spec).(spec_Namespace)) in *.
  pose proof (fun m base => stamped_owned m sp.(nsp_Labels) base m1.(mgr_Reconciler).(rec_ControlClusterID)
    m2.(mgr_Reconciler).(rec_ControlClusterID) (expectedTarget l1) l1 l2) as Hown.
  destruct Hns as [[name Hd]|[->|(m & -> & Hmc & Hmt)]].
  - revert Hd. unfold DesiredNamespace. destruct (is_empty name); [done|]. destruct (IsProtectedNamespace name); [done|].
    intros [= <-]. apply (Hown _ sp.(nsp_Annotations)); try done; rewrite ?Hbc, ?Hbt; try done.
    cbn. f_equal. by case_match.
  - apply (Hown _ sp.(nsp_Annotations)); try done; by rewrite ?Hbc, ?Hbt.
  - apply (Hown _ (sp.(nsp_Annotations) ∪ m.(m_Annotations))); try done; by rewrite get_union_empty.
Qed.

End Main.

(** ** Witnesses *)

Section Demo.

#[local] Existing Instance milliQuantity.

(** The control cluster with its own kube-system namespace. *)
Definition hubWorld : World :=
  put HubClient KNamespace (kubeSystem <| ns_Meta := kubeSystem.(ns_Meta) <| m_UID := "uid-hub" |> |>) (emptyWorld 0).

(** A lease whose specification sets the stamp of the control cluster itself. *)
Definition stampingLease : EnvironmentLease :=
  sampleLease <| lease_Spec := sampleLease.(lease_Spec)
    <| spec_Namespace := sampleLease.(lease_Spec).(spec_Namespace)
         <| nsp_Annotations := {[AnnotationControlClusterID := "elsewhere"]} |> |> |>.

Lemma sameHub_dec (id : string) (tr : trace (@kube milliQuantity)) :
  forallb (fun ev => match gotNamespace ev with
    | Some (_, name, ns) => negb (String.eqb name "kube-system") || String.eqb ns.(ns_Meta).(m_UID) id
    | None => true end) tr = true -> sameHub id tr.
Proof.
  rewrite forallb_forall. intros Hall c ns (ev & Hev & Hin)%list_elem_of_fmap. apply list_elem_of_In, Hall in Hin.
  rewrite <- Hev in Hin. cbn in Hin. by apply String.eqb_eq.
Qed.

(** Provisioned by a process that knows the control cluster, cleaned up by one
    whose client could not be built. *)
Lemma restart_keeps_ownership_witness :
  let first := in_world (managerMain (Some HubClient)) hubWorld in
  let second := in_world (managerMain None) hubWorld in
  let ns := generatedNamespace first.1.1.(mgr_Reconciler) sampleLease in
  get ns.(ns_Meta).(m_Annotations) AnnotationControlClusterID = "uid-hub" /\
  VerifyNamespaceOwnership ns sampleLease second.1.1.(mgr_Reconciler).(rec_ControlClusterID) = None.
Proof.
  intros first second ns. split; [vm_compute; reflexivity|].
  apply (restart_keeps_ownership (Some HubClient) None first.2 second.2 first.1.1 second.1.1 "uid-hub" sampleLease sampleLease).
  - exact (in_world_runs (managerMain (Some HubClient)) hubWorld).
  - exact (in_world_runs (managerMain None) hubWorld).
  - apply sameHub_dec. vm_compute. reflexivity.
  - apply sameHub_dec. vm_compute. reflexivity.
  - reflexivity.
  - left. reflexivity.
  - reflexivity.
  - reflexivity.
  - right. left. reflexivity.
Defined.

(** The specification's annotations can lock it out: stamped while the probe had
    failed, the namespace is refused once it succeeds. *)
Lemma own_stamp_locks_out :
  let first := in_world (managerMain None) hubWorld in
  let second := in_world (managerMain (Some HubClient)) hubWorld in
  match VerifyNamespaceOwnership (generatedNamespace first.1.1.(mgr_Reconciler) stampingLease) stampingLease
    second.1.1.(mgr_Reconciler).(rec_ControlClusterID) with
  | Some err => IsOwnershipMismatch err | None => false end = true.
Proof. vm_compute. reflexivity. Qed.

End Demo.
