(* ===== verification/TargetController.v ===== *)
(** * Reconciling cluster targets (internal/controller/clustertarget_controller.go)

    Health checks of a [ClusterTarget], the sticky identity of the cluster
    behind it, and the finalizer that protects a target in use.  [SetupWithManager]
    refuses a nil provider, so the nil checks of [r.Provider] take their positive
    branch; version probing is discovery, one call. *)

From S2P Require Import Prelude GoStrings GoTime GoErrors Api LeaseConditions Concrete Programs Kube World.
From S2P Require Import Identity Placement LeaseCommon LeasePaths LeaseSafety Runtime.

Definition ClusterTargetConditionAuthenticated : string := "Authenticated".
Definition ClusterTargetConditionReachable : string := "Reachable".
Definition ClusterTargetConditionDegraded : string := "Degraded".
Definition ReasonClusterReachable : string := "ClusterReachable".
Definition ReasonClusterUnreachable : string := "ClusterUnreachable".
Definition ReasonCredentialsInvalid : string := "CredentialsInvalid".
Definition ReasonClusterTargetDisabled : string := "TargetDisabled".
Definition ReasonTargetHasActiveLeases : string := "TargetHasActiveLeases".
Definition ReasonIdentityDrift : string := "IdentityDrift".

Definition clusterTargetHealthAfter : duration := 5 * Minute.
Definition clusterTargetBackoff : duration := 30 * Second.

(** [target.Status.f = v]. *)
Notation "t <|* f := v |>" :=
  (modify (proj:=ct_Status) (fun st => modify (proj:=f) (fun _ => v) st) t)
  (at level 1, left associativity, f constr at level 9, format "t <|* f := v |>").

Section TargetController.
Context `{QuantityAPI} `{ConditionsAPI} `{!ControllerutilAPI} `{RetryAPI}.

Implicit Types (target : ClusterTarget).

(** [meta.SetStatusCondition(&target.Status.Conditions, ...)]. *)
Definition setTargetCondition target (type : string) (status : bool) (reason message : string) : ClusterTarget :=
  target <|* tst_Conditions :=
    SetStatusCondition target.(ct_Status).(tst_Conditions)
      (mkCondition type (if status then ConditionTrueStatus else ConditionFalseStatus)
         target.(ct_Meta).(m_Generation) reason message) |>.

Definition setTargetConditions target (ready authenticated reachable : bool) (reason message : string)
    : ClusterTarget :=
  let t := setTargetCondition target ClusterTargetConditionAuthenticated authenticated reason message in
  let t := setTargetCondition t ClusterTargetConditionReachable reachable reason message in
  setTargetCondition t ClusterTargetConditionReady ready reason message.

(** [target.Status.ObservedGeneration = target.Generation]. *)
Definition observeTarget target : ClusterTarget :=
  target <|* tst_ObservedGeneration := target.(ct_Meta).(m_Generation) |>.

Definition updateStatus target : prog kube (result ClusterTarget) := cl_StatusUpdate HubClient KTarget target.

(** [_ = r.Status().Update(ctx, target)]: the target holds the answer, if any. *)
Definition tryUpdateStatus target : prog kube ClusterTarget :=
  (u <- updateStatus target ;; Ret match u with Ok t => t | Err _ => target end)%prog.

Definition setHealth (name : string) (v : Z) : prog kube unit :=
  call (Metric (MetricSet "ClusterHealth" [name] v)).

(** ** Deletion *)

Definition countReferencingLeases (targetName : string) : prog kube (result Z) :=
  (a <- cl_List HubClient KLease (Some (indexClusterRefName, targetName)) ;;
   match a with
   | Ok items => Ret (Ok (Z.of_nat (length items)))
   | Err _ =>
       b <- cl_List HubClient KLease None ;;
       Ret match b with
           | Err err => Err err
           | Ok items =>
               Ok (Z.of_nat (length (filter (fun l =>
                 l.(lease_Spec).(spec_ClusterRef) = Some targetName) items)))
           end
   end)%prog.

(** One attempt of dropping the finalizer of a target. *)
Definition removeTargetFinalizerAttempt target : prog kube (unit * option error) :=
  (g <- cl_Get HubClient KTarget (ObjectKeyFromMeta target.(ct_Meta)) ;;
   match g with
   | Err err => Ret (tt, Some err)
   | Ok current =>
       let m := current.(ct_Meta) in
       if negb (ContainsFinalizer m.(m_Finalizers) ClusterTargetFinalizer) then Ret (tt, None)
       else
         u <- cl_Update HubClient KTarget (current <| ct_Meta :=
           m <| m_Finalizers := RemoveFinalizer m.(m_Finalizers) ClusterTargetFinalizer |> |>) ;;
         Ret (tt, err_of u)
   end)%prog.

Definition targetReconcileDelete target : prog kube (CtrlResult * option error) :=
  if negb (ContainsFinalizer target.(ct_Meta).(m_Finalizers) ClusterTargetFinalizer)
  then Ret (noResult, None)
  else
    (active <- countReferencingLeases target.(ct_Meta).(m_Name) ;;
     match active with
     | Err err => Ret (noResult, Some err)
     | Ok active =>
         if 0 <? active then
           let target := setTargetCondition target ClusterTargetConditionReady false
             ReasonTargetHasActiveLeases
             (Itoa active +:+ " EnvironmentLease(s) still reference this target") in
           tryUpdateStatus (observeTarget target) ;;
           Ret (requeueAfter clusterTargetBackoff, None)
         else
           call (ProviderInvalidate target.(ct_Meta).(m_Name)) ;;
           e <- RetryOnConflict (fun _ => removeTargetFinalizerAttempt target) tt ;;
           Ret (noResult, e.2)
     end)%prog.

(** ** Health *)

(** Live, unexpired leases of a list. *)
Definition activeIn (items : list EnvironmentLease) : Z :=
  fold_left (fun n l =>
    if IsZeroPtr l.(lease_Meta).(m_DeletionTimestamp)
       && negb (bool_decide (l.(lease_Status).(st_Phase) = LeasePhaseExpired))
    then wrap32 (n + 1) else n) items 0.

Definition refreshCapacity target : prog kube ClusterTarget :=
  let name := target.(ct_Meta).(m_Name) in
  (a <- cl_List HubClient KLease (Some (StatusClusterNameIndex, name)) ;;
   active <-
     match a with
     | Ok items => Ret (activeIn items)
     | Err _ =>
         counts <- CountActiveLeases HubClient ;;
         Ret match counts with Ok cs => default 0 (cs !! name) | Err _ => 0 end
     end ;;
   Ret (target <|* tst_Capacity :=
          Some (mkClusterCapacityStatus active target.(ct_Spec).(ts_MaxActiveLeases)) |>))%prog.

Definition isReady target : bool :=
  IsStatusConditionTrue target.(ct_Status).(tst_Conditions) ClusterTargetConditionReady.

Definition refreshClusterTargetMetrics : prog kube unit :=
  (a <- cl_List HubClient KTarget None ;;
   match a with
   | Err _ => Ret tt
   | Ok items =>
       let ready := Z.of_nat (length (filter (fun t => isReady t = true) items)) in
       let notReady := Z.of_nat (length (filter (fun t => isReady t = false) items)) in
       call (Metric (MetricSet "ClusterTargets" ["true"] ready)) ;;
       call (Metric (MetricSet "ClusterTargets" ["false"] notReady))
   end)%prog.

(** The credentials or the cluster could not be used; [health] is whether the
    health gauge is reset. *)
Definition unhealthy target (authenticated : bool) (reason message : string) (health : bool)
    : prog kube (CtrlResult * option error) :=
  let target := setTargetConditions target false authenticated false reason message in
  (target <- tryUpdateStatus (observeTarget target) ;;
   when health (setHealth target.(ct_Meta).(m_Name) 0) ;;
   Ret (requeueAfter clusterTargetBackoff, None))%prog.

(** The API server answered no version. *)
Definition unreachable target (message : string) : prog kube (CtrlResult * option error) :=
  let target := setTargetConditions target false true false ReasonClusterUnreachable message in
  let target := setTargetCondition target ClusterTargetConditionDegraded true ReasonClusterUnreachable message in
  (target <- tryUpdateStatus (observeTarget target) ;;
   inc "ClusterConnectionFailuresTotal" ;;
   setHealth target.(ct_Meta).(m_Name) 0 ;;
   Ret (requeueAfter clusterTargetBackoff, None))%prog.

(** The cluster behind the credentials is another one. *)
Definition identityDrift target (liveID : string) : prog kube (CtrlResult * option error) :=
  let msg := "remote identity changed (sticky=" +:+ target.(ct_Status).(tst_RemoteIdentity)
             +:+ " live=" +:+ liveID +:+ "); refusing to follow credential swap" in
  let target := setTargetConditions target false true true ReasonIdentityDrift msg in
  let target := setTargetCondition target ClusterTargetConditionDegraded true ReasonIdentityDrift msg in
  (target <- tryUpdateStatus (observeTarget target) ;;
   setHealth target.(ct_Meta).(m_Name) 0 ;;
   call (ProviderInvalidate target.(ct_Meta).(m_Name)) ;;
   Ret (requeueAfter clusterTargetBackoff, None))%prog.

(** Every check passed. *)
Definition healthy target (ver : string) : prog kube (CtrlResult * option error) :=
  let target := target <|* tst_KubernetesVersion := ver |> in
  let target := setTargetConditions target true true true ReasonClusterReachable "Remote API reachable" in
  let target := setTargetCondition target ClusterTargetConditionDegraded false ReasonClusterReachable "Healthy" in
  (target <- refreshCapacity target ;;
   u <- updateStatus (observeTarget target) ;;
   match u with
   | Err err => Ret (noResult, Some err)
   | Ok target =>
       setHealth target.(ct_Meta).(m_Name) 1 ;;
       Ret (requeueAfter clusterTargetHealthAfter, None)
   end)%prog.

(** [reconcileHealth] before its deferred metrics. *)
Definition checkHealth target : prog kube (CtrlResult * option error) :=
  if negb (IsEnabled target.(ct_Spec)) then
    let target := setTargetConditions target false false false
      ReasonClusterTargetDisabled "ClusterTarget is disabled" in
    (u <- updateStatus (observeTarget target) ;;
     match u with
     | Err err => Ret (noResult, Some err)
     | Ok target =>
         call (ProviderInvalidate target.(ct_Meta).(m_Name)) ;;
         Ret (requeueAfter clusterTargetHealthAfter, None)
     end)%prog
  else
    (cfg <- call (ProviderRESTConfigFor target) ;;
     match cfg with
     | Err err => unhealthy target false ReasonCredentialsInvalid (Error err) false
     | Ok cfg =>
         ver <- call (ServerVersion cfg) ;;
         match ver with
         | Err err => unreachable target (Error err)
         | Ok ver =>
             cl <- call (ProviderClientFor target) ;;
             match cl with
             | Err err => unhealthy target false ReasonCredentialsInvalid (Error err) true
             | Ok cl =>
                 id <- ProbeRemoteIdentity cl ;;
                 match id with
                 | Err err => unhealthy target true ReasonClusterUnreachable (Error err) true
                 | Ok liveID =>
                     let sticky := target.(ct_Status).(tst_RemoteIdentity) in
                     if is_empty sticky
                     then healthy (target <|* tst_RemoteIdentity := liveID |>) ver
                     else if negb (String.eqb sticky liveID) then identityDrift target liveID
                     else healthy target ver
                 end
             end
         end
     end)%prog.

Definition reconcileHealth target : prog kube (CtrlResult * option error) :=
  (res <- checkHealth target ;; refreshClusterTargetMetrics ;; Ret res)%prog.

Definition TargetReconcile (req : string) : prog kube (CtrlResult * option error) :=
  (g <- cl_Get HubClient KTarget (named req) ;;
   match g with
   | Err err => Ret (noResult, if IsNotFound err then None else Some err)
   | Ok target =>
       let m := target.(ct_Meta) in
       if negb (IsZeroPtr m.(m_DeletionTimestamp)) then targetReconcileDelete target
       else if negb (ContainsFinalizer m.(m_Finalizers) ClusterTargetFinalizer) then
         let target := target <| ct_Meta :=
           m <| m_Finalizers := AddFinalizer m.(m_Finalizers) ClusterTargetFinalizer |> |> in
         u <- cl_Update HubClient KTarget target ;;
         match u with
         | Err err => Ret (noResult, Some err)
         | Ok _ => Ret (mkCtrlResult true 0, None)
         end
       else reconcileHealth target
   end)%prog.

(** ** SetupWithManager: the targets that use a secret *)

(** The loop of [mapSecret]: the cached client of every target of the secret is
    dropped. *)
Fixpoint secretLoop (secret : ObjectMeta) (items : list ClusterTarget) : prog kube (list string) :=
  match items with
  | [] => Ret []
  | t :: items =>
      let ref := t.(ct_Spec).(ts_SecretRef) in
      if String.eqb ref.(sk_Name) secret.(m_Name) && String.eqb ref.(sk_Namespace) secret.(m_Namespace) then
        (call (ProviderInvalidate t.(ct_Meta).(m_Name)) ;;
         reqs <- secretLoop secret items ;;
         Ret (t.(ct_Meta).(m_Name) :: reqs))%prog
      else secretLoop secret items
  end.

Definition mapSecret (secret : ObjectMeta) : prog kube (list string) :=
  (l <- cl_List HubClient KTarget None ;;
   match l with
   | Err _ => Ret []
   | Ok items => secretLoop secret items
   end)%prog.

(** ** What the target reconciler guarantees *)

Context `{!ConditionsLaws} `{!ControllerutilLaws} `{!RetryLaws}.

Implicit Types (h : trace kube).

Lemma setTargetCondition_ready_other t type status reason m :
  type <> ClusterTargetConditionReady -> isReady (setTargetCondition t type status reason m) = isReady t.
Proof.
  intros Ht. unfold isReady, setTargetCondition. cbn. apply bool_eq_iff.
  rewrite !IsStatusConditionTrue_spec.
  setoid_rewrite SetStatusCondition_other; [done|]. cbn. congruence.
Qed.

Lemma setTargetCondition_ready t status reason m :
  isReady (setTargetCondition t ClusterTargetConditionReady status reason m) = status.
Proof.
  unfold isReady, setTargetCondition. cbn. apply bool_eq_iff. rewrite IsStatusConditionTrue_spec.
  set (c := mkCondition _ _ _ _ _). change ClusterTargetConditionReady with c.(c_Type).
  setoid_rewrite SetStatusCondition_same. subst c. destruct status; cbn; naive_solver.
Qed.

Lemma isReady_setTargetConditions t ready auth reach reason m :
  isReady (setTargetConditions t ready auth reach reason m) = ready.
Proof. apply setTargetCondition_ready. Qed.

(** The target the run is about: the answer of its first call. *)
Definition readTarget (req : string) h (t : ClusterTarget) : Prop :=
  last h = Some (Ev (ClientGet HubClient KTarget (named req)) (Ok t)).

(** The cluster behind the target proved its identity in this run. *)
Definition provedIdentity (t : ClusterTarget) h (id : string) : Prop :=
  IsEnabled t.(ct_Spec) = true /\ id <> "" /\
  exists cl ks, Some (t, cl) ∈ (clientAnswer <$> h) /\
    answered KNamespace h cl (named "kube-system") (Ok ks) /\ ks.(ns_Meta).(m_UID) = id.

(** A listing of leases that was answered: its client, the field selector it
    asked for, and the leases. *)
Definition listedLeases (ev : event kube) : option (Client * option (string * string) * list EnvironmentLease) :=
  match ev.(ev_eff) in kube X return X -> option (Client * option (string * string) * list EnvironmentLease) with
  | ClientList c k fields =>
      match k return result (list (Obj k)) -> option (Client * option (string * string) * list EnvironmentLease) with
      | KLease => fun res => match res with Ok ls => Some (c, fields, ls) | Err _ => None end
      | _ => fun _ => None
      end
  | _ => fun _ => None
  end ev.(ev_resp).

(** No lease refers to the target: the hub answered the query for the leases
    indexed by a reference to it with none, or the query for all leases with a
    list that holds none. *)
Definition unreferenced (name : string) h : Prop :=
  Some (HubClient, Some (indexClusterRefName, name), []) ∈ (listedLeases <$> h) \/
  exists ls, Some (HubClient, None, ls) ∈ (listedLeases <$> h) /\
    forall l, l ∈ ls -> l.(lease_Spec).(spec_ClusterRef) <> Some name.

(** [o] is [cur] with other finalizers, all but the target's own kept. *)
Definition refinalized (cur o : ClusterTarget) : Prop :=
  o = cur <| ct_Meta := cur.(ct_Meta) <| m_Finalizers := o.(ct_Meta).(m_Finalizers) |> |> /\
  forall f, f <> ClusterTargetFinalizer ->
    f ∈ o.(ct_Meta).(m_Finalizers) <-> f ∈ cur.(ct_Meta).(m_Finalizers).

(** What a run may write, for the target [t] it read. *)
Definition targetWrites (t : ClusterTarget) X h (e : kube X) : Prop :=
  match e with
  | ClientStatusUpdate c k o =>
      c = HubClient /\
      match k return Obj k -> Prop with
      | KTarget => fun o =>
          o.(ct_Meta) = t.(ct_Meta) /\ o.(ct_Spec) = t.(ct_Spec) /\
          (t.(ct_Status).(tst_RemoteIdentity) <> "" ->
             o.(ct_Status).(tst_RemoteIdentity) = t.(ct_Status).(tst_RemoteIdentity)) /\
          (isReady o = true -> provedIdentity t h o.(ct_Status).(tst_RemoteIdentity))
      | _ => fun _ => False
      end o
  | ClientUpdate c k o =>
      c = HubClient /\
      match k return Obj k -> Prop with
      | KTarget => fun o =>
          ClusterTargetFinalizer ∈ o.(ct_Meta).(m_Finalizers) /\ refinalized t o \/
          IsZeroPtr t.(ct_Meta).(m_DeletionTimestamp) = false /\ unreferenced t.(ct_Meta).(m_Name) h /\
          exists cur, answered KTarget h HubClient (ObjectKeyFromMeta t.(ct_Meta)) (Ok cur) /\ refinalized cur o
      | _ => fun _ => False
      end o
  | ClientCreate _ _ _ | ClientPatch _ _ _ _ | ClientStatusPatch _ _ _ _ | ClientDelete _ _ _ => False
  | _ => True
  end.

(** A status that differs from the target's in its conditions, and is not Ready. *)
Lemma report_safe t t' h (Q : trace kube -> result ClusterTarget -> Prop) :
  t'.(ct_Meta) = t.(ct_Meta) -> t'.(ct_Spec) = t.(ct_Spec) ->
  t'.(ct_Status).(tst_RemoteIdentity) = t.(ct_Status).(tst_RemoteIdentity) ->
  isReady t' = false -> (forall h u, Q h u) ->
  safe (targetWrites t) (updateStatus (observeTarget t')) h Q.
Proof.
  intros Hm Hs Hi Hr HQ. split; [|intros u; apply HQ].
  split; [done|]. cbn. do 3 (split; [done|]). intros Ht.
  change (isReady t' = true) in Ht. congruence.
Qed.

Lemma tryReport_safe t t' h (Q : trace kube -> ClusterTarget -> Prop) :
  t'.(ct_Meta) = t.(ct_Meta) -> t'.(ct_Spec) = t.(ct_Spec) ->
  t'.(ct_Status).(tst_RemoteIdentity) = t.(ct_Status).(tst_RemoteIdentity) ->
  isReady t' = false -> (forall h u, Q h u) ->
  safe (targetWrites t) (tryUpdateStatus (observeTarget t')) h Q.
Proof. intros. unfold tryUpdateStatus. rewrite safe_bind. apply report_safe; try done. intros h' u. cbn. auto. Qed.

Lemma quiet_safe {A} t (p : prog kube A) h :
  every (fun X (e : kube X) => harmless e = true) p -> safe (targetWrites t) p h (fun _ _ => True).
Proof. intros Hp. eapply every_safe; [exact Hp| |done]. by intros X h' []. Qed.

Lemma unhealthy_safe t auth reason m hl h :
  safe (targetWrites t) (unhealthy t auth reason m hl) h (fun _ _ => True).
Proof.
  unfold unhealthy. cbv zeta. rewrite safe_bind. apply tryReport_safe; try done.
  { apply isReady_setTargetConditions. }
  intros h1 u. apply quiet_safe. destruct hl; cbn [when]; unfold setHealth; every_tac.
Qed.

Lemma refreshCapacity_safe t t' h :
  safe (targetWrites t) (refreshCapacity t') h (fun h' t'' =>
    h `suffix_of` h' /\ exists cap, t'' = t' <|* tst_Capacity := cap |>).
Proof.
  unfold refreshCapacity. cbv zeta. rewrite safe_bind. split; [done|]. intros a. cbn [safe].
  rewrite safe_bind. destruct a as [items|err].
  - cbn. split; [grown|]. by eexists.
  - rewrite safe_bind. unfold CountActiveLeases. rewrite safe_bind. split; [done|].
    intros c. cbn. split; [grown|]. by eexists.
Qed.

Lemma healthy_safe t t' ver h :
  t'.(ct_Meta) = t.(ct_Meta) -> t'.(ct_Spec) = t.(ct_Spec) ->
  (t.(ct_Status).(tst_RemoteIdentity) <> "" ->
     t'.(ct_Status).(tst_RemoteIdentity) = t.(ct_Status).(tst_RemoteIdentity)) ->
  provedIdentity t h t'.(ct_Status).(tst_RemoteIdentity) ->
  safe (targetWrites t) (healthy t' ver) h (fun _ _ => True).
Proof.
  intros Hm Hs Hi Hp. unfold healthy. cbv zeta. rewrite safe_bind.
  eapply safe_post; [apply refreshCapacity_safe|]. intros h1 t1 [Hh [cap ->]]. rewrite safe_bind. split.
  - split; [done|]. cbn. do 3 (split; [done|]). intros _. destruct Hp as (He & Hne & cl & ks & Hc & Ha & Hu).
    split; [done|]. split; [done|]. exists cl, ks. split; [|split; [|done]].
    + destruct Hh as [x ->]. rewrite fmap_app, elem_of_app. by right.
    + by eapply answered_mono.
  - intros [u|err]; cbn [safe]; [|done]. apply quiet_safe. unfold setHealth. every_tac.
Qed.

Lemma checkHealth_safe t h : safe (targetWrites t) (checkHealth t) h (fun _ _ => True).
Proof.
  unfold checkHealth. destruct (IsEnabled _) eqn:Hen; cbn [negb].
  2: { cbv zeta. rewrite safe_bind. apply report_safe; try done.
       - apply isReady_setTargetConditions.
       - intros h1 [u|err]; [|done]. apply quiet_safe. every_tac. }
  rewrite safe_bind. split; [done|]. intros [cfg|err]; cbn [safe]; [|apply unhealthy_safe].
  rewrite safe_bind. split; [done|]. intros [ver|err]; cbn [safe].
  2: { unfold unreachable. cbv zeta. rewrite safe_bind. apply tryReport_safe; try done.
       rewrite setTargetCondition_ready_other by done. apply isReady_setTargetConditions. }
  rewrite safe_bind. split; [done|]. intros [cl|err]; cbn [safe]; [|apply unhealthy_safe].
  rewrite safe_bind. apply safe_Probe; [done|..].
  2: { intros res err. apply unhealthy_safe. }
  intros ks Hne. cbv zeta.
  assert (Hp : forall id, id = ks.(ns_Meta).(m_UID) -> provedIdentity t
    (Ev (ClientGet cl KNamespace (named "kube-system")) (Ok ks)
     :: Ev (ProviderClientFor t) (Ok cl) :: Ev (ServerVersion cfg) (Ok ver)
     :: Ev (ProviderRESTConfigFor t) (Ok cfg) :: h) id).
  { intros id ->. split; [done|]. split; [done|]. exists cl, ks.
    split; [cbn; right; left|]. split; [apply answered_here|done]. }
  destruct (is_empty _) eqn:He.
  - apply is_empty_true in He. apply healthy_safe; try done. by apply Hp.
  - destruct (String.eqb_spec (tst_RemoteIdentity (ct_Status t)) (m_UID (ns_Meta ks))) as [Heq|Hneq]; cbn [negb].
    + apply healthy_safe; try done. by apply Hp.
    + unfold identityDrift. cbv zeta. rewrite safe_bind. apply tryReport_safe; try done.
      rewrite setTargetCondition_ready_other by done. apply isReady_setTargetConditions.
Qed.

Lemma countReferencing_safe t name h :
  safe (targetWrites t) (countReferencingLeases name) h (fun h' res =>
    forall n, res = Ok n -> n <= 0 -> unreferenced name h').
Proof.
  unfold countReferencingLeases. rewrite safe_bind. split; [done|]. intros [items|err]; cbn [safe].
  - intros n [= <-] Hn. left. destruct items; [cbn; left|cbn in Hn; lia].
  - rewrite safe_bind. split; [done|]. intros [items|err2]; [|done]. intros n [= <-] Hn.
    right. exists items. split; [cbn; left|]. intros l Hl Href.
    apply (Nat2Z.inj_le _ 0), Nat.le_0_r, nil_length_inv in Hn as Hn'.
    by apply (filter_nil_not_elem_of _ _ l Hn').
Qed.

Lemma unreferenced_mono name h h' : h `suffix_of` h' -> unreferenced name h -> unreferenced name h'.
Proof.
  intros [x ->] [Hin|(ls & Hin & Hrest)]; [left|right; exists ls; split; [|done]];
    rewrite fmap_app, elem_of_app; by right.
Qed.

Lemma targetReconcileDelete_safe t h :
  IsZeroPtr t.(ct_Meta).(m_DeletionTimestamp) = false ->
  safe (targetWrites t) (targetReconcileDelete t) h (fun _ _ => True).
Proof.
  intros Hd. unfold targetReconcileDelete. destruct (ContainsFinalizer _ _); cbn [negb]; [|done].
  rewrite safe_bind. eapply safe_post; [apply countReferencing_safe|]. intros h1 [n|err] Hn; [|done].
  destruct (0 <? n) eqn:Hz; zify_bool.
  - cbv zeta. rewrite safe_bind. apply tryReport_safe; try done. apply setTargetCondition_ready.
  - rewrite safe_bind. split; [done|]. intros []. cbn [safe]. rewrite safe_bind.
    specialize (Hn n eq_refl Hz).
    apply (safe_RetryOnConflict _ (fun h _ => unreferenced t.(ct_Meta).(m_Name) h)).
    { eapply unreferenced_mono; [|exact Hn]. grown. }
    intros h2 s Hs. unfold removeTargetFinalizerAttempt. rewrite safe_bind. split; [done|].
    intros [cur|err]; cbn [safe].
    + destruct (ContainsFinalizer _ _); cbn [negb]; [|done]. rewrite safe_bind. split.
      * split; [done|]. right. split; [done|]. split; [eapply unreferenced_mono; [|exact Hs]; grown|].
        exists cur. split; [apply answered_here|]. split; [done|]. intros f Hne. cbn.
        rewrite RemoveFinalizer_spec. naive_solver.
      * intros u. cbn. split; [done|]. intros e He Hc. eapply unreferenced_mono; [|exact Hs]. grown.
    + split; [done|]. intros e He Hc. eapply unreferenced_mono; [|exact Hs]. grown.
Qed.

(** What a run for [req] may write: nothing before the target is read, then what
    that target allows. *)
Definition targetGuard (req : string) X h (e : kube X) : Prop :=
  writes e = true -> exists t, readTarget req h t /\ targetWrites t X h e.

Lemma targetGuard_safe {A} req t (p : prog kube A) h Q :
  readTarget req h t -> safe (targetWrites t) p h Q -> safe (targetGuard req) p h Q.
Proof.
  intros Hr Hp. apply safe_within in Hp. eapply safe_mono; [| |exact Hp]; [|done].
  intros X h' e [Hd [x ->]] _. exists t. split; [|done]. unfold readTarget. rewrite last_app. by rewrite Hr.
Qed.

(** Claim C12.  The identity of a target is sticky, and Ready means proved.  In
    every run of the target controller, whatever is answered: only the status and
    the controller's own finalizer of the target read first are written; a recorded remote
    identity is never replaced, even when the credentials lead to another
    cluster; a status that says Ready is written only for an enabled target whose
    cluster, reached through the provider's client, answered in this run with the
    very identity the status records; and the finalizer of a target is dropped
    only while it is being deleted, after the hub answered in this run that no lease
    refers to it: the query for the leases indexed by a reference to this target's
    name with none, or the query for all leases with none that names it. *)
Theorem target_reconcile_safe (req : string) (tr : trace kube) (res : CtrlResult * option error) :
  runs (TargetReconcile req) [] tr res -> guaranteed (targetGuard req) tr.
Proof.
  intros Hrun. eapply (runs_guaranteed _ _ _ _ (fun _ _ => True) Hrun).
  unfold TargetReconcile. rewrite safe_bind. split; [done|]. intros [t|err]; cbn [safe]; [|done].
  set (h := [_]). assert (Hr : readTarget req h t) by done. cbv zeta.
  destruct (IsZeroPtr _) eqn:Hz; cbn [negb].
  - destruct (ContainsFinalizer _ _) eqn:Hf; cbn [negb].
    + apply (targetGuard_safe req t); [done|]. unfold reconcileHealth. rewrite safe_bind.
      eapply safe_post; [apply checkHealth_safe|]. intros h1 a _. apply quiet_safe.
      unfold refreshClusterTargetMetrics, cl_List. every_tac.
    + rewrite safe_bind. split.
      * intros _. exists t. split; [done|]. split; [done|]. left. cbn. rewrite AddFinalizer_spec.
        split; [by right|]. split; [done|]. intros f Hne. cbn. rewrite AddFinalizer_spec. naive_solver.
      * intros [u|err]; done.
  - apply (targetGuard_safe req t); [done|]. by apply targetReconcileDelete_safe.
Qed.

End TargetController.

(** ** Witnesses *)

Section Demo.

#[local] Existing Instance milliQuantity.

Definition demoTargetReconcile (req : string) : prog (@kube milliQuantity) (CtrlResult * option error) :=
  @TargetReconcile milliQuantity listConditions listControllerutil fourAttempts req.

(** A target of the hub whose cluster answers, before its first health check. *)
Definition edgeTarget : ClusterTarget :=
  mkClusterTarget (emptyMeta <| m_Name := "edge" |> <| m_Finalizers := [ClusterTargetFinalizer] |>)
    (mkClusterTargetSpec (mkSecretKeySelector "kc" "kubelease" "") ∅ None None None None)
    (mkClusterTargetStatus "" "" None 0 []).

Definition edgeWorld : World :=
  put (RemoteClient 4) KNamespace kubeSystem (put HubClient KTarget edgeTarget (emptyWorld 0)).

Definition targetIn (w : World) (name : string) : option ClusterTarget :=
  w.(w_targets) !! slot HubClient (named name).

(** An active lease that placement put on the target, without a [clusterRef]. *)
Definition placedLease : EnvironmentLease :=
  sampleLease <|@ st_Phase := LeasePhaseActive |> <|@ st_Cluster := Some (mkClusterStatus "edge" "" "uid-b") |>.

(** The target is deleted while the lease runs on it. *)
Definition abandonedWorld : World :=
  put HubClient KLease placedLease
    (put HubClient KTarget (edgeTarget <| ct_Meta := edgeTarget.(ct_Meta) <| m_DeletionTimestamp := Some Second |> |>)
       (emptyWorld 0)).

End Demo.

(** A first health check makes the target Ready under the identity its cluster
    answered with. *)
Lemma target_reconcile_safe_witness :
  let out := in_world (demoTargetReconcile "edge") edgeWorld in
  match targetIn out.1.2 "edge" with
  | Some t => @isReady listConditions t && String.eqb t.(ct_Status).(tst_RemoteIdentity) "uid-b"
  | None => false
  end = true /\
  guaranteed (@targetGuard milliQuantity listConditions "edge") out.2.
Proof.
  split; [vm_compute; reflexivity|].
  exact (@target_reconcile_safe milliQuantity listConditions listControllerutil fourAttempts listConditions_laws
    listControllerutil_laws fourAttempts_laws "edge" _ _
    (@in_world_runs milliQuantity _ (demoTargetReconcile "edge") edgeWorld)).
Defined.

(** The protection looks at [spec.clusterRef] only: a target is let go while a
    lease that placement put on it, and that counts toward its capacity, is
    active. *)
Lemma placed_lease_does_not_protect :
  let out := in_world (demoTargetReconcile "edge") abandonedWorld in
  bool_decide (default 0 (@countLeases milliQuantity [placedLease] !! "edge") = 1)
  && match targetIn abandonedWorld "edge" with Some _ => true | None => false end
  && match targetIn out.1.2 "edge" with Some _ => false | None => true end = true.
Proof. vm_compute. reflexivity. Qed.
