(* ===== verification/GoText.v ===== *)
(** * Text processing of the Go standard library

    The functions of [strings], [encoding/hex] and [crypto/hmac] that the source
    webhook uses, on byte strings, with the lemmas on the characters of their
    results.  Functions that scan from the right work on the list of bytes. *)

From S2P Require Import Prelude GoStrings Sha.
From Stdlib Require Import Ascii.

Notation chars := String.list_ascii_of_string (only parsing).
Notation of_chars := String.string_of_list_ascii (only parsing).

Definition code (c : ascii) : N := N_of_ascii c.

(** ** strings.ToLower, strings.ToUpper of one byte *)

Definition lower (c : ascii) : ascii :=
  if ((65 <=? code c) && (code c <=? 90))%N then ascii_of_N (code c + 32) else c.

(** [strings.ToLower]: ASCII letters, and the two other runes whose lower case is
    ASCII (U+0130 and U+212A).  The remaining runes are kept: the program looks
    only at the ASCII part of a lowered string. *)
Fixpoint ToLower (s : string) : string :=
  match s with
  | EmptyString => EmptyString
  | String c s1 =>
      match s1 with
      | EmptyString => String (lower c) EmptyString
      | String d s2 =>
          if ((code c =? 196) && (code d =? 176))%N then String "i" (ToLower s2)
          else
            match s2 with
            | EmptyString => String (lower c) (ToLower s1)
            | String e s3 =>
                if ((code c =? 226) && (code d =? 132) && (code e =? 170))%N then String "k" (ToLower s3)
                else String (lower c) (ToLower s1)
            end
      end
  end.

(** ** strings.TrimSpace, strings.Trim *)

(** The UTF-8 encodings of the runes [unicode.IsSpace] accepts. *)
Definition spaceRunes : list (list N) :=
  [[9]; [10]; [11]; [12]; [13]; [32]; [194; 133]; [194; 160]; [225; 154; 128];
   [226; 128; 128]; [226; 128; 129]; [226; 128; 130]; [226; 128; 131]; [226; 128; 132];
   [226; 128; 133]; [226; 128; 134]; [226; 128; 135]; [226; 128; 136]; [226; 128; 137];
   [226; 128; 138]; [226; 128; 168]; [226; 128; 169]; [226; 128; 175]; [226; 129; 159];
   [227; 128; 128]]%N.

(** The number of bytes of the first of [runes] that [l] starts with. *)
Definition startsWith (runes : list (list N)) (l : list ascii) : option nat :=
  match find_first (fun r => bool_decide (take (length r) (code <$> l) = r)) runes with
  | Some r => Some (length r)
  | None => None
  end.

(** Drop leading runes; the length of [l] is enough fuel. *)
Fixpoint strip (runes : list (list N)) (fuel : nat) (l : list ascii) : list ascii :=
  match fuel with
  | O => l
  | S fuel => match startsWith runes l with Some n => strip runes fuel (drop n l) | None => l end
  end.

Definition TrimSpace (s : string) : string :=
  let l := chars s in
  let l := strip spaceRunes (length l) l in
  let l := strip (reverse <$> spaceRunes) (length l) (reverse l) in
  of_chars (reverse l).

(** Drop the leading bytes equal to [c]. *)
Fixpoint dropByte (c : ascii) (l : list ascii) : list ascii :=
  match l with
  | [] => []
  | d :: l' => if Ascii.eqb c d then dropByte c l' else l
  end.

(** [strings.Trim(s, "c")] for a one-byte cutset. *)
Definition trimByte (c : ascii) (l : list ascii) : list ascii :=
  reverse (dropByte c (reverse (dropByte c l))).

Definition TrimByte (c : ascii) (s : string) : string := of_chars (trimByte c (chars s)).

(** ** strings.ReplaceAll *)

(** [strings.ReplaceAll(s, "c", "d")] for single bytes. *)
Definition replaceByte (c d : ascii) (l : list ascii) : list ascii :=
  (fun e => if Ascii.eqb c e then d else e) <$> l.

(** [strings.ReplaceAll(s, "cc", "c")]: pairs from the left, without overlap. *)
Fixpoint halvePairs (c : ascii) (l : list ascii) : list ascii :=
  match l with
  | [] => []
  | d :: l1 =>
      match l1 with
      | [] => [d]
      | e :: l2 =>
          if Ascii.eqb c d && Ascii.eqb c e then c :: halvePairs c l2 else d :: halvePairs c l1
      end
  end.

(** [strings.Contains(s, "cc")]. *)
Fixpoint hasPair (c : ascii) (l : list ascii) : bool :=
  match l with
  | d :: l' => (Ascii.eqb c d && match l' with e :: _ => Ascii.eqb c e | [] => false end) || hasPair c l'
  | [] => false
  end.

(** [for strings.Contains(s, "cc") { s = strings.ReplaceAll(s, "cc", "c") }]; the
    length of [l] is enough fuel. *)
Fixpoint squeeze (fuel : nat) (c : ascii) (l : list ascii) : list ascii :=
  match fuel with
  | O => l
  | S fuel => if hasPair c l then squeeze fuel c (halvePairs c l) else l
  end.

(** [regexp.MustCompile("[^...]+").ReplaceAllString(s, "c")]: every maximal run
    of bytes outside the class becomes one [c]. *)
Fixpoint replaceRuns (class : ascii -> bool) (c : ascii) (inRun : bool) (l : list ascii) : list ascii :=
  match l with
  | [] => []
  | d :: l' =>
      if class d then d :: replaceRuns class c false l'
      else if inRun then replaceRuns class c true l'
      else c :: replaceRuns class c true l'
  end.

(** ** encoding/hex: decoding *)

Definition hexValue (c : ascii) : option Z :=
  let n := code c in
  if ((48 <=? n) && (n <=? 57))%N then Some (Z.of_N (n - 48))
  else if ((97 <=? n) && (n <=? 102))%N then Some (Z.of_N (n - 87))
  else if ((65 <=? n) && (n <=? 70))%N then Some (Z.of_N (n - 55))
  else None.

(** [hex.DecodeString]; [None] is any of its errors. *)
Fixpoint DecodeString (s : string) : option (list Z) :=
  match s with
  | EmptyString => Some []
  | String _ EmptyString => None
  | String c (String d s') =>
      hi ← hexValue c; lo ← hexValue d; bs ← DecodeString s'; Some (16 * hi + lo :: bs)
  end.

(** ** crypto/hmac with SHA-256 *)

Definition hmacPad (x : Z) (key : list Z) : list Z := (fun b => Z.lxor b x) <$> key.

Definition hmacSHA256 (key msg : list Z) : list Z :=
  let key := if (64 <? length key)%nat then Sum256 key else key in
  let key := key ++ replicate (64 - length key) 0 in
  Sum256 (hmacPad 92 key ++ Sum256 (hmacPad 54 key ++ msg)).

(** RFC 4231, test cases 2 and 6 (a key longer than a block). *)
Example hmac_rfc4231_2 :
  EncodeToString (hmacSHA256 (bytes_of_string "Jefe") (bytes_of_string "what do ya want for nothing?")) =
  "5bdcc146bf60754e6a042426089575c75a003f089d2739839dec58b964ec3843".
Proof. vm_compute. reflexivity. Qed.

Example hmac_rfc4231_6 :
  EncodeToString (hmacSHA256 (replicate 131 170)
    (bytes_of_string "Test Using Larger Than Block-Size Key - Hash Key First")) =
  "60e431591ee0b67f0d8a26aacbf5b77f8e0bc6213728c5140546040f0ee37f54".
Proof. vm_compute. reflexivity. Qed.

Example TrimSpace_ex : TrimSpace "  a b
" = "a b".
Proof. vm_compute. reflexivity. Qed.

Example ToLower_ex : ToLower "Hello-World_1" = "hello-world_1".
Proof. vm_compute. reflexivity. Qed.

(** ** Lemmas: strings as lists *)

Lemma chars_app s t : chars (s +:+ t) = chars s ++ chars t.
Proof. induction s as [|c s IH]; simpl; [done|]. by rewrite IH. Qed.

Lemma chars_of_chars l : chars (of_chars l) = l.
Proof. induction l as [|c l IH]; simpl; [done|]. by rewrite IH. Qed.

Lemma length_chars s : length (chars s) = String.length s.
Proof. induction s as [|c s IH]; simpl; [done|]. by rewrite IH. Qed.

Lemma chars_inj s t : chars s = chars t -> s = t.
Proof.
  revert t. induction s as [|c s IH]; intros [|d t]; simpl; try done.
  intros [= -> H]. by rewrite (IH t).
Qed.

(** A property of bytes that holds by evaluation on all of them. *)
Definition every_byte (P : ascii -> bool) : bool := forallb P (ascii_of_N <$> (N.of_nat <$> seq 0 256)).

Lemma every_byte_spec (P : ascii -> bool) : every_byte P = true -> forall c, P c = true.
Proof.
  unfold every_byte. rewrite forallb_forall. intros HP c. apply HP. apply list_elem_of_In.
  apply list_elem_of_fmap. exists (N_of_ascii c). split; [by rewrite ascii_N_embedding|].
  apply list_elem_of_fmap. exists (N.to_nat (N_of_ascii c)). split; [by rewrite N2Nat.id|].
  apply elem_of_seq. pose proof (N_ascii_bounded c). lia.
Qed.

(** ** Lemmas: trimming and replacing one byte *)

Lemma dropByte_suffix c l : exists p, l = p ++ dropByte c l.
Proof.
  induction l as [|d l [p IH]]; simpl; [by exists []|].
  destruct (Ascii.eqb c d); [|by exists []]. exists (d :: p). simpl. by rewrite <- IH.
Qed.

Lemma dropByte_head c l : head (dropByte c l) <> Some c.
Proof.
  induction l as [|d l IH]; simpl; [done|]. destruct (Ascii.eqb c d) eqn:E; [done|].
  apply Ascii.eqb_neq in E. simpl. congruence.
Qed.

Lemma head_reverse {A} (l : list A) : head (reverse l) = last l.
Proof. rewrite <- (reverse_involutive l) at 2. by rewrite last_reverse. Qed.

Lemma trimByte_sublist c l : trimByte c l `sublist_of` l.
Proof.
  unfold trimByte. destruct (dropByte_suffix c l) as [p Hp].
  destruct (dropByte_suffix c (reverse (dropByte c l))) as [q Hq].
  trans (dropByte c l); [|rewrite Hp at 2; by apply sublist_inserts_l].
  rewrite <- (reverse_involutive (dropByte c l)) at 2. rewrite Hq at 2. rewrite reverse_app.
  by apply sublist_inserts_r.
Qed.

Lemma trimByte_last c l : last (trimByte c l) <> Some c.
Proof. unfold trimByte. rewrite last_reverse. apply dropByte_head. Qed.

(** What is left of a string that does not start with [c] does not either. *)
Lemma trimByte_head c l : head (trimByte c l) <> Some c.
Proof.
  unfold trimByte. set (m := dropByte c l). assert (Hm : head m <> Some c) by apply dropByte_head.
  destruct (dropByte_suffix c (reverse m)) as [q Hq].
  assert (Hm2 : m = reverse (dropByte c (reverse m)) ++ reverse q)
    by (by rewrite <- reverse_app, <- Hq, reverse_involutive).
  destruct (reverse (dropByte c (reverse m))) as [|y r]; [done|]. rewrite Hm2 in Hm. exact Hm.
Qed.

Lemma halvePairs_eq c d e l :
  halvePairs c (d :: e :: l) =
  if Ascii.eqb c d && Ascii.eqb c e then c :: halvePairs c l else d :: halvePairs c (e :: l).
Proof. done. Qed.

Lemma hasPair_eq c d e l :
  hasPair c (d :: e :: l) = (Ascii.eqb c d && Ascii.eqb c e) || hasPair c (e :: l).
Proof. done. Qed.

Lemma halvePairs_cons c d l : exists l', halvePairs c (d :: l) = d :: l'.
Proof.
  destruct l as [|e l]; simpl; [by eexists|]. destruct (_ && _) eqn:E; [|by eexists].
  apply andb_true_iff in E as [->%Ascii.eqb_eq _]. by eexists.
Qed.

Lemma halvePairs_head c l : head (halvePairs c l) = head l.
Proof. destruct l as [|d l]; [done|]. by destruct (halvePairs_cons c d l) as [l' ->]. Qed.

Lemma halvePairs_last c l : last (halvePairs c l) = last l.
Proof.
  remember (length l) as n eqn:Hn. revert l Hn. induction (lt_wf n) as [n _ IH]. intros l ->.
  destruct l as [|d [|e l]]; [done..|]. rewrite halvePairs_eq. destruct (_ && _) eqn:E.
  - apply andb_true_iff in E as [_ ->%Ascii.eqb_eq]. destruct l as [|f l]; [done|].
    specialize (IH (length (f :: l)) ltac:(simpl; lia) (f :: l) eq_refl).
    destruct (halvePairs_cons e f l) as [l' Hl]. rewrite Hl in *. exact IH.
  - specialize (IH (length (e :: l)) ltac:(simpl; lia) (e :: l) eq_refl).
    destruct (halvePairs_cons c e l) as [l' Hl]. rewrite Hl in *. exact IH.
Qed.

Lemma halvePairs_Forall (P : ascii -> Prop) c l : Forall P l -> Forall P (halvePairs c l).
Proof.
  remember (length l) as n eqn:Hn. revert l Hn. induction (lt_wf n) as [n _ IH]. intros l -> Hl.
  destruct l as [|d [|e l]]; [done..|]. rewrite halvePairs_eq.
  inversion Hl as [|? ? Hd Hl1]; subst. inversion Hl1 as [|? ? He Hl2]; subst.
  destruct (_ && _) eqn:E.
  - apply andb_true_iff in E as [->%Ascii.eqb_eq _]. constructor; [done|].
    apply (IH (length l)); [simpl; lia|done|done].
  - constructor; [done|]. apply (IH (length (e :: l))); [simpl; lia|done|done].
Qed.

Lemma halvePairs_length c l : (length (halvePairs c l) <= length l)%nat.
Proof.
  remember (length l) as n eqn:Hn. revert l Hn. induction (lt_wf n) as [n _ IH]. intros l ->.
  destruct l as [|d [|e l]]; [simpl; lia..|]. rewrite halvePairs_eq. destruct (_ && _).
  - specialize (IH (length l) ltac:(simpl; lia) l eq_refl). simpl. lia.
  - specialize (IH (length (e :: l)) ltac:(simpl; lia) (e :: l) eq_refl). simpl in *. lia.
Qed.

(** A round of [squeeze] makes progress. *)
Lemma halvePairs_shorter c l : hasPair c l = true -> (length (halvePairs c l) < length l)%nat.
Proof.
  induction l as [|d l IH]; [done|]. destruct l as [|e l].
  - simpl. rewrite andb_false_r. done.
  - rewrite hasPair_eq, halvePairs_eq. destruct (_ && _) eqn:E.
    + intros _. pose proof (halvePairs_length c l). simpl. lia.
    + rewrite orb_false_l. intros H. specialize (IH H). cbn [length] in *. lia.
Qed.

Lemma squeeze_spec c fuel l :
  (length l <= fuel)%nat ->
  let l' := squeeze fuel c l in
  hasPair c l' = false /\ head l' = head l /\ last l' = last l /\
  forall P : ascii -> Prop, Forall P l -> Forall P l'.
Proof.
  cbv zeta. revert l. induction fuel as [|fuel IH]; intros l Hl; cbn [squeeze].
  - destruct l; [done|simpl in Hl; lia].
  - destruct (hasPair c l) eqn:E; [|done]. pose proof (halvePairs_shorter c l E).
    destruct (IH (halvePairs c l) ltac:(lia)) as (? & Hh & Hla & HP).
    rewrite Hh, Hla, halvePairs_head, halvePairs_last. repeat split; try done.
    intros P HPl. by apply HP, halvePairs_Forall.
Qed.

Lemma replaceRuns_Forall class c b l : class c = true ->
  Forall (fun d => class d = true) (replaceRuns class c b l).
Proof.
  intros Hc. revert b. induction l as [|d l IH]; intros b; simpl; [constructor|].
  destruct (class d) eqn:E; [by constructor|]. destruct b; [done|]. by constructor.
Qed.

(** ** Lemmas: decimal numbers *)

Definition isDigit (c : ascii) : bool := ((48 <=? code c) && (code c <=? 57))%N.

Lemma pretty_digit x : isDigit (pretty_N_char x) = true.
Proof. unfold pretty_N_char. by repeat case_match. Qed.

Lemma pretty_go_spec (x : N) s :
  exists ds, chars (pretty_N_go x s) = ds ++ chars s /\ Forall (fun c => isDigit c = true) ds /\
    forall k, (x < 10 ^ N.of_nat k)%N -> (length ds <= k)%nat.
Proof.
  revert s. induction (N.lt_wf_0 x) as [x _ IH]. intros s.
  destruct (decide (0 < x)%N) as [Hx|Hx].
  - rewrite pretty_N_go_step by done.
    destruct (IH (x / 10)%N (N.div_lt x 10 Hx eq_refl) (String (pretty_N_char (x mod 10)) s))
      as (ds & Hds & HF & Hlen).
    exists (ds ++ [pretty_N_char (x mod 10)]). split; [|split].
    + rewrite Hds. simpl. by rewrite <- app_assoc.
    + apply Forall_app. split; [done|]. constructor; [apply pretty_digit|constructor].
    + intros k Hk. rewrite length_app. simpl. destruct k as [|k]; [simpl in Hk; lia|].
      specialize (Hlen k). rewrite Nat2N.inj_succ, N.pow_succ_r' in Hk.
      assert (x / 10 < 10 ^ N.of_nat k)%N by (apply N.Div0.div_lt_upper_bound; lia). lia.
  - assert (x = 0%N) as -> by lia. rewrite pretty_N_go_0. exists []. split; [done|].
    split; [constructor|]. simpl. lia.
Qed.

(** A positive number prints as at least one digit, and at most as many as its
    magnitude allows. *)
Lemma Itoa_digits (n : Z) (k : nat) :
  0 < n -> n < 10 ^ Z.of_nat k ->
  Forall (fun c => isDigit c = true) (chars (Itoa n)) /\
  (0 < String.length (Itoa n) <= k)%nat.
Proof.
  intros Hn Hk. destruct n as [|p|p]; [lia| |lia]. change (Itoa (Z.pos p)) with (pretty_N_go (N.pos p) "").
  destruct (pretty_go_spec (N.pos p) "") as (ds & Hds & HF & Hlen).
  rewrite app_nil_r in Hds. rewrite Hds. split; [done|]. rewrite <- length_chars, Hds. split.
  - destruct ds; [|simpl; lia]. rewrite pretty_N_go_step in Hds by lia.
    destruct (pretty_go_spec (N.pos p / 10) (String (pretty_N_char (N.pos p mod 10)) "")) as (ds' & Hds' & _).
    rewrite Hds' in Hds. by destruct ds'.
  - apply Hlen. apply N2Z.inj_lt. rewrite N2Z.inj_pow, nat_N_Z. exact Hk.
Qed.

Lemma Itoa_inj (m n : Z) : Itoa m = Itoa n -> m = n.
Proof. apply pretty_Z_inj. Qed.

(** ** Lemmas: hexadecimal *)

Definition isByte (b : Z) : Prop := 0 <= b < 256.

Lemma ToLower_ascii c s : (code c < 128)%N -> ToLower (String c s) = String (lower c) (ToLower s).
Proof.
  intros Hc. assert (E1 : (code c =? 196)%N = false) by (apply N.eqb_neq; lia).
  assert (E2 : (code c =? 226)%N = false) by (apply N.eqb_neq; lia).
  cbn [ToLower]. rewrite E1, E2. destruct s as [|d [|e s]]; done.
Qed.

(** A lowered string that starts with a byte other than [i] and [k] comes from a
    string that starts with that letter. *)
Lemma ToLower_inv x t s :
  x <> "i"%char -> x <> "k"%char -> ToLower s = String x t ->
  exists c s', s = String c s' /\ lower c = x /\ ToLower s' = t.
Proof.
  intros Hi Hk. destruct s as [|c s1]; [done|]. destruct s1 as [|d s2].
  - intros [= <- <-]. by eexists _, _.
  - cbn [ToLower]. destruct (_ && _); [intros [= <- _]; done|]. destruct s2 as [|e s3].
    + intros [= <- <-]. by eexists _, _.
    + destruct (_ && _); [intros [= <- _]; done|]. intros [= <- <-]. by eexists _, _.
Qed.

Lemma nibble_In v : 0 <= v < 16 -> In (Z.to_N v) (N.of_nat <$> seq 0 16).
Proof.
  intros Hv. apply list_elem_of_In, list_elem_of_fmap. exists (Z.to_nat v). rewrite elem_of_seq.
  split; [by rewrite Z_nat_N|lia].
Qed.

(** [hexValue] inverts [hex_digit] up to case. *)
Lemma hexValue_spec c v :
  hexValue c = Some v <-> 0 <= v < 16 /\ lower c = hex_digit (Z.to_N v).
Proof.
  split.
  - intros Hv.
    assert (Hc : match hexValue c with
                 | Some v => bool_decide (0 <= v < 16 /\ lower c = hex_digit (Z.to_N v))
                 | None => true end = true)
      by (revert c Hv; intros c _; revert c; apply (every_byte_spec (fun c => match hexValue c with
            | Some v => bool_decide (0 <= v < 16 /\ lower c = hex_digit (Z.to_N v)) | None => true end));
          vm_compute; reflexivity).
    rewrite Hv in Hc. by apply bool_decide_eq_true in Hc.
  - intros [Hr Hl].
    assert (Hc : forallb (fun v => negb (Ascii.eqb (lower c) (hex_digit v))
                   || bool_decide (hexValue c = Some (Z.of_N v))) (N.of_nat <$> seq 0 16) = true)
      by (revert c Hl; intros c _; revert c; apply (every_byte_spec (fun c => forallb (fun v =>
            negb (Ascii.eqb (lower c) (hex_digit v)) || bool_decide (hexValue c = Some (Z.of_N v)))
            (N.of_nat <$> seq 0 16))); vm_compute; reflexivity).
    assert (Hin : In (Z.to_N v) (N.of_nat <$> seq 0 16)) by (apply nibble_In; lia).
    rewrite forallb_forall in Hc. specialize (Hc _ Hin). rewrite Hl, Ascii.eqb_refl in Hc.
    apply bool_decide_eq_true in Hc. by rewrite Z2N.id in Hc by lia.
Qed.

Lemma hexValue_ascii c v : hexValue c = Some v -> (code c < 128)%N.
Proof.
  unfold hexValue. repeat case_match; try done;
    repeat match goal with H : _ = true |- _ => apply andb_true_iff in H as [?%N.leb_le ?%N.leb_le] end; lia.
Qed.

Lemma hex_digit_letter v : 0 <= v < 16 ->
  hex_digit (Z.to_N v) <> "i"%char /\ hex_digit (Z.to_N v) <> "k"%char.
Proof.
  intros Hv%nibble_In%list_elem_of_In. revert Hv. generalize (Z.to_N v). intros n Hn.
  assert (Hall : Forall (fun n => hex_digit n <> "i"%char /\ hex_digit n <> "k"%char) (N.of_nat <$> seq 0 16))
    by (cbn; repeat constructor; discriminate).
  rewrite Forall_forall in Hall. by apply Hall.
Qed.

(** [hex.DecodeString] accepts the hexadecimal form of the bytes it returns, in
    either case, and nothing else. *)
Lemma DecodeString_spec s bs :
  DecodeString s = Some bs <-> Forall isByte bs /\ ToLower s = EncodeToString bs.
Proof.
  revert s. induction bs as [|b bs IH]; intros s; split.
  - destruct s as [|c [|d s]]; [done..|]. cbn [DecodeString].
    destruct (hexValue c); [|done]. destruct (hexValue d); [|done]. by destruct (DecodeString s).
  - intros [_ Hs]. destruct s as [|c [|d [|e s]]]; [done..| |]; cbn in Hs; by repeat case_match.
  - destruct s as [|c [|d s]]; [done..|]. cbn [DecodeString].
    destruct (hexValue c) as [hi|] eqn:Hhi; [|done]. destruct (hexValue d) as [lo|] eqn:Hlo; [|done].
    destruct (DecodeString s) as [bs'|] eqn:Hbs; [|done]. intros Heq. cbn in Heq.
    injection Heq as Hb Hbs'. subst bs'. apply IH in Hbs as [HF HE].
    pose proof (hexValue_ascii c hi Hhi). pose proof (hexValue_ascii d lo Hlo).
    apply hexValue_spec in Hhi as [Hr1 Hl1]. apply hexValue_spec in Hlo as [Hr2 Hl2].
    split; [constructor; [unfold isByte; lia|done]|].
    rewrite !ToLower_ascii by done. rewrite HE, Hl1, Hl2. unfold EncodeToString. cbn [fold_right].
    unfold hex_byte. subst b. replace ((16 * hi + lo) / 16) with hi by (Z.div_mod_to_equations; lia).
    replace ((16 * hi + lo) mod 16) with lo by (Z.div_mod_to_equations; lia). done.
  - intros [HF Hs]. inversion HF as [|? ? Hb HF']; subst. unfold isByte in Hb.
    unfold EncodeToString in Hs. cbn [fold_right] in Hs. unfold hex_byte in Hs. cbn in Hs.
    assert (H1 : 0 <= b / 16 < 16) by (Z.div_mod_to_equations; lia).
    assert (H2 : 0 <= b mod 16 < 16) by (Z.div_mod_to_equations; lia).
    destruct (hex_digit_letter _ H1), (hex_digit_letter _ H2).
    apply ToLower_inv in Hs as (c & s1 & -> & Hc & Hs); [|done..].
    apply ToLower_inv in Hs as (d & s2 & -> & Hd & Hs); [|done..].
    cbn [DecodeString]. rewrite (proj2 (hexValue_spec c (b / 16))) by done.
    rewrite (proj2 (hexValue_spec d (b mod 16))) by done. cbn.
    rewrite (proj2 (IH s2)) by done. cbn. do 2 f_equal. Z.div_mod_to_equations; lia.
Qed.

Lemma Sum256_bytes msg : Forall isByte (Sum256 msg).
Proof.
  unfold Sum256. generalize (fold_left sha256_block (blocks msg) sha256_H). intros l.
  induction l as [|x l IH]; [constructor|]. rewrite bind_cons. apply Forall_app. split; [|done].
  generalize 4%nat. intros n. induction n as [|n IHn]; cbn [be_bytes]; constructor; [|done].
  change 255 with (Z.ones 8). rewrite Z.land_ones by lia. unfold isByte. apply Z.mod_pos_bound. lia.
Qed.

Lemma hmacSHA256_bytes key msg : Forall isByte (hmacSHA256 key msg).
Proof. apply Sum256_bytes. Qed.
