(* ===== verification/ProviderShare.v ===== *)
(** * The client provider, shared by the workers (internal/remote/provider.go)

    Provider.v models the provider one call at a time.  Here any number of
    [ClientFor], [RESTConfigFor] and [Invalidate] run interleaved on one provider, each
    critical section of its mutex at once and everything else call by call, with
    Secrets that change and clients that fail to be built.  [shared] remembers which
    Secrets were read and which clients were built, so that [provenance] can say
    where an entry of the cache comes from.

    [provider_hands_out]: the cache never exceeds its bound, and a client that is
    handed out was built from credentials with the fingerprint of those that this
    very call has read: never, whatever is invalidated or replaced meanwhile, from
    credentials that were rotated before. *)

From S2P Require Import Prelude GoStrings GoTime GoErrors Api Concrete Sha Programs Threads Kube Provider GoText.
From Stdlib Require Import Ascii.

Notation credential := (ObjectKey * Secret)%type (only parsing).
Notation connection := (RESTConfig * Client)%type (only parsing).

Section Share.
Context `{ClientcmdAPI}.
Variable range : gmap string cacheEntry -> list (string * cacheEntry).
Hypothesis range_spec : forall c, range c ≡ₚ map_to_list c.

(** [Options.MaxCacheEntries]. *)
Variable MaxCacheEntries : Z.

(** [NewProvider]. *)
Definition maxCache : Z := NewProviderMaxCache MaxCacheEntries.

(** ** The shared state *)

Record shared := mkShared {
  sh_cache : gmap string cacheEntry;
  sh_now : time;
  sh_built : list connection;
  sh_read : list credential
}.
#[local] Instance eta_shared : Eta shared :=
  fun r => mkShared r.(sh_cache) r.(sh_now) r.(sh_built) r.(sh_read).

(** What a call may answer, and the state after it: Secrets and new clients are
    whatever the API server and the constructor make of them. *)
Definition perform X (e : penv X) (s : shared) : X -> shared -> Prop :=
  match e in penv X return X -> shared -> Prop with
  | HubGetSecret key => fun r s' =>
      s' = match r with Ok v => s <| sh_read := (key, v) :: s.(sh_read) |> | Err _ => s end
  | NewClient cfg => fun r s' =>
      s' = match r with Ok cl => s <| sh_built := (cfg, cl) :: s.(sh_built) |> | Err _ => s end
  | Critical f => fun x s' =>
      x = (f s.(sh_now) s.(sh_cache)).1 /\ s' = s <| sh_cache := (f s.(sh_now) s.(sh_cache)).2 |>
  | Inc _ => fun _ s' => s' = s
  end.

(** The interface [Provider]. *)
Inductive Call :=
  | CallClientFor (target : ClusterTarget)
  | CallRESTConfigFor (target : ClusterTarget)
  | CallInvalidate (targetName : string).

Inductive outcome :=
  | GotClient (r : result Client)
  | GotConfig (r : result RESTConfig)
  | Invalidated.

Definition code (c : Call) : prog penv outcome :=
  match c with
  | CallClientFor t => (r <- ClientFor range maxCache t ;; Ret (GotClient r))%prog
  | CallRESTConfigFor t => (r <- RESTConfigFor range maxCache t ;; Ret (GotConfig r))%prog
  | CallInvalidate n => (Invalidate n ;; Ret Invalidated)%prog
  end.

(** Objects of the API server have names. *)
Definition named (c : Call) : Prop :=
  match c with
  | CallClientFor t | CallRESTConfigFor t => t.(ct_Meta).(m_Name) <> ""
  | CallInvalidate _ => True
  end.

Notation thread := (thread penv outcome Call) (only parsing).
Notation process := (shared * list thread)%type (only parsing).
Notation act := (act (O:=outcome) (L:=Call) perform) (only parsing).

(** An operation of a call, a new call, or time that passes. *)
Inductive step : process -> process -> Prop :=
  | step_act pr pr' : act pr pr' -> step pr pr'
  | step_start s ts c : named c -> step (s, ts) (s, ts ++ [mkThread c (code c) []])
  | step_tick s ts now : step (s, ts) (s <| sh_now := now |>, ts).

Definition reaches : process -> process -> Prop := rtc step.

(** A new provider. *)
Definition fresh (now : time) : process := (mkShared ∅ now [] [], []).

(** ** Where clients come from *)

(** The Secret an event has read. *)
Definition readOf (ev : event penv) : option credential :=
  match ev with
  | Ev e x =>
      match e in penv X return X -> option credential with
      | HubGetSecret key => fun r => match r with Ok v => Some (key, v) | Err _ => None end
      | _ => fun _ => None
      end x
  end.

(** The kubeconfig that a target's Secret holds, in a version that was read. *)
Definition credentials (R : list credential) (t : ClusterTarget) (secret : Secret) (data : string) : Prop :=
  let ref := t.(ct_Spec).(ts_SecretRef) in
  (mkObjectKey ref.(sk_Namespace) ref.(sk_Name), secret) ∈ R /\ secret.(sec_Data) !! SecretKey ref = Some data.

(** A connection built for a target from a kubeconfig, under the target's limits. *)
Definition builtFor (B : list connection) (t : ClusterTarget) (data : string) (cc : connection) : Prop :=
  cc ∈ B /\ exists cfg, RESTConfigFromKubeconfig data = Ok cfg /\ cc.1 = ApplyClientLimits cfg (Some t).

(** An entry of the cache was built for its target from credentials with its
    fingerprint. *)
Definition provenance (B : list connection) (R : list credential) (name fp : string) (cc : connection) : Prop :=
  exists t secret data,
    t.(ct_Meta).(m_Name) = name /\ IsEnabled t.(ct_Spec) = true /\ credentials R t secret data /\
    fingerprint t secret data = fp /\ builtFor B t data cc.

Record cacheOk (B : list connection) (R : list credential) (c : gmap string cacheEntry) : Prop := {
  co_named : c !! "" = None;
  co_bound : Z.of_nat (size c) <= maxCache;
  co_entries : forall name ent, c !! name = Some ent ->
    provenance B R name ent.(ce_fingerprint) (ent.(ce_cfg), ent.(ce_cl))
}.

(** What an answer shows. *)
Definition sound (B : list connection) (R : list credential) (ev : event penv) : Prop :=
  match ev with
  | Ev e x =>
      match e in penv X return X -> Prop with
      | HubGetSecret key => fun r => forall v, r = Ok v -> (key, v) ∈ R
      | NewClient cfg => fun r => forall cl, r = Ok cl -> (cfg, cl) ∈ B
      | Critical f => fun x => exists now c, cacheOk B R c /\ x = (f now c).1
      | Inc _ => fun _ => True
      end x
  end.

(** Every critical section leaves a good cache good. *)
Definition keepsCache : guarantee penv := fun X h e =>
  match e with
  | Critical f => forall B R now c, Forall (sound B R) h -> cacheOk B R c -> cacheOk B R (f now c).2
  | _ => True
  end.

Lemma maxCache_pos : 0 < maxCache.
Proof. unfold maxCache, NewProviderMaxCache, defaultMaxCache. by_cases. Qed.

Lemma provenance_mono B B' R R' name fp cc :
  B ⊆ B' -> R ⊆ R' -> provenance B R name fp cc -> provenance B' R' name fp cc.
Proof.
  intros HB HR (t & secret & data & Hn & He & [Hc Hd] & Hf & Hb & Hcfg). exists t, secret, data.
  split_and!; [done|done|split; [by apply HR|done]|done|split; [by apply HB|done]].
Qed.

Lemma cacheOk_mono B B' R R' c : B ⊆ B' -> R ⊆ R' -> cacheOk B R c -> cacheOk B' R' c.
Proof. intros HB HR [Hn Hs He]. split; [done|done|]. intros name ent Hc. eapply provenance_mono; [exact HB|exact HR|auto]. Qed.

Lemma sound_mono B B' R R' ev : B ⊆ B' -> R ⊆ R' -> sound B R ev -> sound B' R' ev.
Proof.
  intros HB HR. destruct ev as [X e x]. destruct e; cbn; [auto|auto| |done].
  intros (now & c & Hc & ->). exists now, c. split; [by eapply cacheOk_mono|done].
Qed.

(** Unique readability at a separator. *)
Lemma split_first (c : ascii) p q r s : c ∉ p -> c ∉ q -> p ++ c :: r = q ++ c :: s -> p = q /\ r = s.
Proof.
  revert q. induction p as [|x p IH]; intros [|y q] Hp Hq Heq; simpl in Heq; simplify_eq.
  - done.
  - by destruct Hq; left.
  - by destruct Hp; left.
  - apply not_elem_of_cons in Hp as [_ Hp], Hq as [_ Hq]. by destruct (IH q Hp Hq) as [-> ->].
Qed.

Lemma split_last (c : ascii) p q r s : c ∉ r -> c ∉ s -> p ++ c :: r = q ++ c :: s -> p = q /\ r = s.
Proof.
  intros Hr Hs Heq%(f_equal reverse). rewrite !reverse_app, !reverse_cons, <- !app_assoc in Heq. simpl in Heq.
  apply split_first in Heq as [H1%(inj reverse) H2%(inj reverse)]; [done|by rewrite elem_of_reverse..].
Qed.

Lemma digits_no_bar ds : Forall (fun c => isDigit c = true) ds -> "|"%char ∉ ds.
Proof. intros HF Hin. rewrite Forall_forall in HF. by specialize (HF _ Hin). Qed.

Lemma Itoa_no_bar n : "|"%char ∉ chars (Itoa n).
Proof.
  destruct n as [|q|q].
  - by apply digits_no_bar; repeat constructor.
  - change (Itoa (Z.pos q)) with (pretty_N_go (N.pos q) "").
    destruct (pretty_go_spec (N.pos q) "") as (ds & -> & HF & _). rewrite app_nil_r. by apply digits_no_bar.
  - change (Itoa (Z.neg q)) with ("-" +:+ pretty_N_go (N.pos q) ""). rewrite chars_app.
    destruct (pretty_go_spec (N.pos q) "") as (ds & -> & HF & _). rewrite app_nil_r.
    intros [Hin|Hin]%elem_of_app; [by apply list_elem_of_singleton in Hin|by eapply digits_no_bar].
Qed.

Lemma hex_digit_no_equals n : (n < 16)%N -> hex_digit n <> "="%char.
Proof.
  intros Hn. assert (Hall : Forall (fun n => hex_digit n <> "="%char) (N.of_nat <$> seq 0 16)) by (repeat constructor; discriminate).
  rewrite Forall_forall in Hall. apply Hall. apply list_elem_of_fmap. exists (N.to_nat n). split; [lia|]. apply elem_of_seq. lia.
Qed.

Lemma EncodeToString_no_equals bs : Forall isByte bs -> "="%char ∉ chars (EncodeToString bs).
Proof.
  intros Hb. induction Hb as [|b bs Hb _ IH]; [apply not_elem_of_nil|].
  unfold isByte in Hb. pose proof (Z.div_lt_upper_bound b 16 16) as Hdiv. pose proof (Z.div_pos b 16) as Hpos.
  pose proof (Z.mod_pos_bound b 16) as Hmod.
  intros [H1|[H2|H3]%elem_of_cons]%elem_of_cons; [| |by apply IH].
  - symmetry in H1. by apply hex_digit_no_equals in H1; [|lia].
  - symmetry in H2. by apply hex_digit_no_equals in H2; [|lia].
Qed.

Lemma checksum_no_equals data : "="%char ∉ chars (EncodeToString (take 8 (Sum256 (bytes_of_string data)))).
Proof. apply EncodeToString_no_equals, Forall_take, Sum256_bytes. Qed.

(** The three critical sections. *)
Lemma lookupCache_keeps B R name fp now c : cacheOk B R c -> cacheOk B R (lookupCache name fp now c).2.
Proof.
  intros [Hn Hs He]. unfold lookupCache. destruct (c !! name) as [ent|] eqn:Hc; [|done].
  destruct (String.eqb _ _); [|done]. split; cbn.
  - destruct (decide (name = "")) as [->|]; [congruence|by rewrite lookup_insert_ne].
  - by rewrite map_size_insert_Some by by rewrite Hc.
  - intros n e [[<- <-]|[_ Hn']]%lookup_insert_Some; [exact (He _ _ Hc)|auto].
Qed.

Lemma Invalidate_keeps B R name c : cacheOk B R c -> cacheOk B R (delete name c).
Proof.
  intros [Hn Hs He]. split.
  - rewrite lookup_delete_None. by right.
  - rewrite map_size_delete. destruct (c !! name); cbn; lia.
  - intros n e [_ Hc]%lookup_delete_Some. auto.
Qed.

Lemma storeCache_keeps B R name fp cfg cl now c :
  name <> "" -> provenance B R name fp (cfg, cl) -> cacheOk B R c ->
  cacheOk B R (storeCache range maxCache name fp cfg cl now c).2.
Proof.
  intros Hne Hp [Hn Hs He]. unfold storeCache, evictIfNeededLocked. cbn [snd].
  destruct (evictLoop_spec range range_spec (size c) maxCache c) as (H1 & [H2 _] & _ & _); [lia|apply maxCache_pos|done|].
  set (c1 := evictLoop _ _ _ _) in *. split.
  - rewrite lookup_insert_ne by done. destruct (c1 !! "") as [e|] eqn:Hc1; [|done].
    by rewrite (lookup_weaken _ _ _ _ Hc1 H2) in Hn.
  - rewrite map_size_insert. case_match; cbn; lia.
  - intros n e [[<- <-]|[_ Hc1]]%lookup_insert_Some; [done|]. apply He. by eapply lookup_weaken.
Qed.

(** ** What a call returns *)

(** The checksum of a kubeconfig in its fingerprint. *)
Definition checksum (data : string) : string := EncodeToString (take 8 (Sum256 (bytes_of_string data))).

(** A connection was built for an enabled target of this name, of this generation,
    from this version of a Secret and a kubeconfig with this checksum. *)
Definition builtLike (B : list connection) (R : list credential) (t : ClusterTarget) (secret : Secret) (data : string)
    (cc : connection) : Prop :=
  exists t' secret' data',
    credentials R t' secret' data' /\ builtFor B t' data' cc /\ IsEnabled t'.(ct_Spec) = true /\
    t'.(ct_Meta).(m_Name) = t.(ct_Meta).(m_Name) /\
    t'.(ct_Meta).(m_Generation) = t.(ct_Meta).(m_Generation) /\
    secret'.(sec_Meta).(m_ResourceVersion) = secret.(sec_Meta).(m_ResourceVersion) /\
    checksum data' = checksum data.

(** A call was given a connection like the credentials it has itself read. *)
Definition handedOut (B : list connection) (R : list credential) (tr : trace penv) (t : ClusterTarget) (cc : connection) : Prop :=
  IsEnabled t.(ct_Spec) = true /\
  exists secret data, credentials (omap readOf tr) t secret data /\ builtLike B R t secret data cc.

(** What a finished call promises. *)
Definition promised (B : list connection) (R : list credential) (tr : trace penv) (c : Call) (o : outcome) : Prop :=
  match c, o with
  | CallClientFor t, GotClient r => forall cl, r = Ok cl -> exists cfg, handedOut B R tr t (cfg, cl)
  | CallRESTConfigFor t, GotConfig r => forall cfg, r = Ok cfg -> exists cl, handedOut B R tr t (cfg, cl)
  | CallInvalidate _, Invalidated => True
  | _, _ => False
  end.

(** Fingerprints tell credentials of a target apart. *)
Lemma fingerprint_chars t secret data :
  chars (fingerprint t secret data) =
  chars t.(ct_Meta).(m_Name) ++ chars "|gen=" ++ chars (Itoa t.(ct_Meta).(m_Generation)) ++
  "|"%char :: ((chars "enabled=" ++ chars (bool_string (IsEnabled t.(ct_Spec))) ++ chars "|secretRV=" ++
    chars secret.(sec_Meta).(m_ResourceVersion) ++ chars "|sha") ++ "="%char :: chars (checksum data)).
Proof. unfold fingerprint. cbv zeta. rewrite !chars_app, <- !app_assoc. reflexivity. Qed.

Lemma fingerprint_inj t t' secret secret' data data' :
  t'.(ct_Meta).(m_Name) = t.(ct_Meta).(m_Name) -> IsEnabled t'.(ct_Spec) = IsEnabled t.(ct_Spec) ->
  fingerprint t' secret' data' = fingerprint t secret data ->
  t'.(ct_Meta).(m_Generation) = t.(ct_Meta).(m_Generation) /\
  secret'.(sec_Meta).(m_ResourceVersion) = secret.(sec_Meta).(m_ResourceVersion) /\
  checksum data' = checksum data.
Proof.
  intros Hn He Hf. apply (f_equal chars) in Hf. rewrite !fingerprint_chars, Hn, He in Hf.
  do 2 apply app_inv_head in Hf. apply split_first in Hf as [Hg Hf]; [|apply Itoa_no_bar..].
  apply split_last in Hf as [Hf Hs]; [|apply checksum_no_equals..].
  do 3 apply app_inv_head in Hf. apply app_inv_tail in Hf.
  split_and!; [by apply Itoa_inj, chars_inj|by apply chars_inj|by apply chars_inj].
Qed.

Lemma provenance_like B R t secret data cc :
  IsEnabled t.(ct_Spec) = true ->
  provenance B R t.(ct_Meta).(m_Name) (fingerprint t secret data) cc -> builtLike B R t secret data cc.
Proof.
  intros Hen (t' & secret' & data' & Hn & He & Hc & Hf & Hb). exists t', secret', data'.
  destruct (fingerprint_inj _ _ _ _ _ _ Hn (eq_trans He (eq_sym Hen)) Hf) as (Hg & Hrv & Hs). by split_and!.
Qed.

Lemma credentials_sound B R t secret data h :
  Forall (sound B R) h -> credentials (omap readOf h) t secret data -> credentials R t secret data.
Proof.
  intros Hs [(ev & Hev & Hr)%list_elem_of_omap Hd]. split; [|done]. rewrite Forall_forall in Hs. specialize (Hs ev Hev).
  destruct ev as [X e x]. destruct e; cbn in *; try done. destruct x as [v|]; [|done]. injection Hr as -> ->. by apply Hs.
Qed.

Lemma credentials_suffix h h' t secret data :
  h `suffix_of` h' -> credentials (omap readOf h) t secret data -> credentials (omap readOf h') t secret data.
Proof. intros [l ->] [Hc Hd]. split; [|done]. rewrite omap_app. apply elem_of_app. by right. Qed.

(** [loadKubeconfig] returns what it reads. *)
Lemma loadKubeconfig_safe target h :
  safe keepsCache (loadKubeconfig target) h (fun h' r =>
    forall secret data, r = Ok (secret, data) -> credentials (omap readOf h') target secret data).
Proof.
  unfold loadKubeconfig. cbv zeta. destruct (_ || _); [done|]. split; [done|]. intros [secret|err]; cbn.
  - destruct (_ !! _) as [data|] eqn:Hd; [destruct (is_empty data)|]; cbn; try done.
    intros ? ? [= <- <-]. split; [left|done].
  - by destruct (IsNotFound err).
Qed.

Lemma configAndClient_safe target h :
  target.(ct_Meta).(m_Name) <> "" ->
  safe keepsCache (configAndClient range maxCache target) h (fun h' r =>
    forall cc, r = Ok cc -> forall B R, Forall (sound B R) h' -> handedOut B R h' target cc).
Proof.
  intros Hne. unfold configAndClient. cbv zeta. destruct (IsEnabled _) eqn:Hen; [|done]. cbn [negb].
  rewrite safe_bind. eapply safe_post; [apply loadKubeconfig_safe|]. intros h1 [[secret data]|err] Hcred; [|done].
  specialize (Hcred _ _ eq_refl). split; [intros B R now c _; apply lookupCache_keeps|].
  intros [cc|]; cbn [safe bind call].
  - intros ? [= <-] B R [(now & c & Hc & Hhit) Hh]%Forall_cons. split; [done|]. exists secret, data.
    split; [eapply credentials_suffix; [|exact Hcred]; grown|]. apply provenance_like; [done|].
    unfold lookupCache in Hhit. destruct (c !! _) as [ent|] eqn:He; [|done].
    destruct (String.eqb_spec ent.(ce_fingerprint) (fingerprint target secret data)) as [<-|]; [|done].
    injection Hhit as ->. by apply (co_entries _ _ _ Hc).
  - destruct (RESTConfigFromKubeconfig data) as [cfg|err] eqn:Hcfg; [|done]. split; [done|]. intros [cl|err]; [|done].
    assert (Hprov : forall B R hit, Forall (sound B R) (Ev (NewClient (ApplyClientLimits cfg (Some target))) (Ok cl) :: hit :: h1) ->
      provenance B R target.(ct_Meta).(m_Name) (fingerprint target secret data) (ApplyClientLimits cfg (Some target), cl)).
    { intros B R hit [Hb [_ Hh]%Forall_cons]%Forall_cons. exists target, secret, data.
      split_and!; [done|done|by eapply credentials_sound|done|]. split; [by apply Hb|]. by exists cfg. }
    split.
    + intros B R now c Hh. apply storeCache_keeps; [done|]. by eapply Hprov.
    + intros [] ? [= <-] B R [_ Hh]%Forall_cons. split; [done|]. exists secret, data.
      split; [eapply credentials_suffix; [|exact Hcred]; grown|]. apply provenance_like; [done|by eapply Hprov].
Qed.

Lemma code_safe c :
  named c -> safe keepsCache (code c) [] (fun h o => forall B R, Forall (sound B R) h -> promised B R h c o).
Proof.
  destruct c as [t|t|n]; cbn [code named]; intros Hne.
  1-2: unfold ClientFor, RESTConfigFor; rewrite !safe_bind;
       (eapply safe_post; [by apply configAndClient_safe|]); intros h [[cfg cl]|err] Hcc B R Hh; [|done];
       intros ? [= <-]; eexists; by apply (Hcc _ eq_refl).
  split; [|done]. intros B R now c _. apply Invalidate_keeps.
Qed.

(** A call makes at most four. *)
Lemma configAndClient_within t : within 4 (configAndClient range maxCache t).
Proof.
  unfold configAndClient. cbv zeta. destruct (negb _); [done|]. apply (within_bind 1 3).
  - unfold loadKubeconfig. cbv zeta. destruct (_ || _); [done|]. intros [secret|err]; cbn; [|by destruct (IsNotFound err)].
    destruct (_ !! _) as [data|]; [by destruct (is_empty data)|done].
  - intros [[secret data]|err]; [|done]. intros [cc|]; [done|]. cbn.
    destruct (RESTConfigFromKubeconfig data); [|done]. by intros [cl|err].
Qed.

Lemma calls_within c : within 4 (code c).
Proof.
  destruct c as [t|t|n]; [..|done]; unfold code, ClientFor, RESTConfigFor;
    (apply (within_bind 4 0); [apply (within_bind 4 0); [apply configAndClient_within|]|]); done.
Qed.

(** ** The invariant *)

Definition threadOk (s : shared) (th : thread) : Prop :=
  within 4 th.(th_code) /\ Forall (sound s.(sh_built) s.(sh_read)) th.(th_trace) /\
  safe keepsCache th.(th_code) th.(th_trace) (fun h o => forall B R, Forall (sound B R) h -> promised B R h th.(th_label) o).

Definition providerOk (pr : process) : Prop :=
  cacheOk pr.1.(sh_built) pr.1.(sh_read) pr.1.(sh_cache) /\ Forall (threadOk pr.1) pr.2.

Lemma sharing_mono s s' th :
  s.(sh_built) ⊆ s'.(sh_built) -> s.(sh_read) ⊆ s'.(sh_read) -> threadOk s th -> threadOk s' th.
Proof. intros HB HR (Hw & Hs & Hsafe). split_and!; [done| |done]. eapply Forall_impl; [exact Hs|]. intros ev. by apply sound_mono. Qed.

Lemma perform_ok s tr X (e : penv X) x s' :
  cacheOk s.(sh_built) s.(sh_read) s.(sh_cache) -> Forall (sound s.(sh_built) s.(sh_read)) tr -> keepsCache X tr e ->
  perform X e s x s' ->
  s.(sh_built) ⊆ s'.(sh_built) /\ s.(sh_read) ⊆ s'.(sh_read) /\
  cacheOk s'.(sh_built) s'.(sh_read) s'.(sh_cache) /\ sound s'.(sh_built) s'.(sh_read) (Ev e x).
Proof.
  intros Hc Htr Hk Hp. destruct e as [key|cfg|A f|n]; cbn in Hp.
  - destruct x as [v|err]; subst s'; cbn; split_and!; try done.
    + intros y ?. by right.
    + eapply cacheOk_mono; [done| |exact Hc]. intros y ?. by right.
    + intros ? [= <-]. left.
  - destruct x as [cl|err]; subst s'; cbn; split_and!; try done.
    + intros y ?. by right.
    + eapply cacheOk_mono; [|done|exact Hc]. intros y ?. by right.
    + intros ? [= <-]. left.
  - destruct Hp as [-> ->]. cbn. split_and!; [done|done|by apply Hk|]. by exists s.(sh_now), s.(sh_cache).
  - by subst s'.
Qed.

Lemma shared_act_ok pr pr' : providerOk pr -> act pr pr' -> providerOk pr'.
Proof.
  intros [Hc Hts] Ha. destruct Ha as [s ts i c X e k tr x s' Hi Hp]. cbn [fst snd] in *.
  pose proof (proj1 (Forall_lookup _ _) Hts _ _ Hi) as (Hw & Htr & Hk & Hsafe). cbn [th_trace th_code th_label] in *.
  destruct (perform_ok _ _ _ _ _ _ Hc Htr Hk Hp) as (HB & HR & Hc' & Hso). split; [done|]. cbn.
  apply Forall_insert; [eapply Forall_impl; [exact Hts|]; intros th; by apply sharing_mono|].
  split_and!; [apply (within_S 3), Hw| |apply Hsafe]. constructor; [done|]. eapply Forall_impl; [exact Htr|]. intros ev. by apply sound_mono.
Qed.

Lemma reaches_providerOk now pr : reaches (fresh now) pr -> providerOk pr.
Proof.
  assert (H0 : providerOk (fresh now)).
  { split; [|constructor]. split; cbn; [done| |done]. rewrite map_size_empty. pose proof maxCache_pos. lia. }
  revert H0. generalize (fresh now). intros pr0 H0 Hr.
  induction Hr as [pr|pr pr1 pr' Hs _ IH]; [done|]. apply IH.
  destruct Hs as [pr2 pr3 Ha|s ts c Hn|s ts t]; [by eapply shared_act_ok|destruct H0 as [Hc Hts]..]; (split; [done|]); [|done].
  apply Forall_app. split; [done|]. apply Forall_singleton. split_and!; [apply calls_within|constructor|by apply code_safe].
Qed.

(** ** The theorem *)

(** Claim C20.  What a shared provider promises its callers.  However the calls of
    [ClientFor], [RESTConfigFor] and [Invalidate] of any number of workers
    interleave, whatever Secrets are replaced and however old the cache is: the
    cache holds at most its bound; a client or configuration that is handed out was
    built for an enabled target of the caller's name and generation, from the
    version of the Secret and a kubeconfig with the checksum that this very call
    has read, under limits within the caps; so a client of rotated credentials is
    never handed out again.  Every call is over after at most four calls of its own. *)
Theorem provider_hands_out (now : time) (s : shared) (ts : list thread) :
  reaches (fresh now) (s, ts) ->
  Z.of_nat (size s.(sh_cache)) <= maxCache /\
  (forall i t r tr cl, ts !! i = Some (mkThread (CallClientFor t) (Ret (GotClient r)) tr) -> r = Ok cl ->
     exists cfg, handedOut s.(sh_built) s.(sh_read) tr t (cfg, cl)) /\
  (forall i t r tr cfg, ts !! i = Some (mkThread (CallRESTConfigFor t) (Ret (GotConfig r)) tr) -> r = Ok cfg ->
     0 < cfg.(rc_QPS) <= maxQPS /\ 0 < cfg.(rc_Burst) <= maxBurst /\
     exists cl, handedOut s.(sh_built) s.(sh_read) tr t (cfg, cl)) /\
  (forall n pr', nsteps act n (s, ts) pr' -> (n <= 4 * length ts)%nat).
Proof.
  intros [Hc Hts]%reaches_providerOk. cbn [fst snd] in *.
  assert (Hdone : forall i c o tr, ts !! i = Some (mkThread c (Ret o) tr) -> promised s.(sh_built) s.(sh_read) tr c o).
  { intros i c o tr Hi. pose proof (proj1 (Forall_lookup _ _) Hts _ _ Hi) as (_ & Hs & Hp). by apply Hp. }
  split_and!; [apply Hc| | |].
  - intros i t r tr cl Hi. apply (Hdone _ _ _ _ Hi).
  - intros i t r tr cfg Hi ->. destruct (Hdone _ _ _ _ Hi cfg eq_refl) as [cl Hh].
    pose proof Hh as (_ & secret & data & _ & t' & secret' & data' & _ & (_ & cfg0 & _ & Hcfg) & _). cbn in Hcfg. subst cfg.
    destruct (ApplyClientLimits_bounds cfg0 (Some t')) as (Hq & Hb & _). split_and!; [apply Hq..|apply Hb|apply Hb|by exists cl].
  - intros n pr' Hn. apply (acts_bounded_each _ 4 _ _ _ ) in Hn; [done|]. eapply Forall_impl; [exact Hts|]. by intros th [Hw _].
Qed.

End Share.

(** ** Schedules, executed *)

Section Execute.
Context `{ClientcmdAPI}.
Variable range : gmap string cacheEntry -> list (string * cacheEntry).
Variable MaxCacheEntries : Z.

Notation process := (shared * list (thread penv outcome Call))%type (only parsing).

(** One answer a call may have: the Secret as the world has it, and the next
    client. *)
Definition attempt (world : ObjectKey -> option Secret) X (e : penv X) (s : shared) : option (X * shared) :=
  match e in penv X return option (X * shared) with
  | HubGetSecret key =>
      match world key with
      | Some v => Some (Ok v, mkShared s.(sh_cache) s.(sh_now) s.(sh_built) ((key, v) :: s.(sh_read)))
      | None => Some (Err (StatusError ReasonNotFound "secret"), s)
      end
  | NewClient cfg =>
      let cl := RemoteClient (1 + Z.of_nat (length s.(sh_built))) in
      Some (Ok cl, mkShared s.(sh_cache) s.(sh_now) ((cfg, cl) :: s.(sh_built)) s.(sh_read))
  | Critical f =>
      let '(x, c) := f s.(sh_now) s.(sh_cache) in Some (x, mkShared c s.(sh_now) s.(sh_built) s.(sh_read))
  | Inc _ => Some (tt, s)
  end.

Lemma attempt_possible world X (e : penv X) s x s' : attempt world X e s = Some (x, s') -> perform X e s x s'.
Proof.
  destruct e as [key|cfg|A f|n]; cbn; [destruct (world key)| |destruct (f _ _)|]; intros; simplify_eq; done.
Qed.

(** Rounds of turns, each in a world of its own, after these calls have begun. *)
Definition begun (cs : list Call) (pr : process) : process :=
  (pr.1, pr.2 ++ ((fun c => mkThread c (code range MaxCacheEntries c) []) <$> cs)).

Definition turns (world : ObjectKey -> option Secret) (order : list nat) (pr : process) : process :=
  fold_left (proceed (attempt world)) order pr.

Lemma begun_reaches cs pr : Forall named cs -> reaches range MaxCacheEntries pr (begun cs pr).
Proof.
  revert pr. induction cs as [|c cs IH]; intros [s ts] Hcs; unfold begun; cbn; [by rewrite app_nil_r|].
  apply Forall_cons in Hcs as [Hc Hcs]. eapply rtc_l; [by apply (step_start range MaxCacheEntries s ts c)|].
  specialize (IH (s, ts ++ [mkThread c (code range MaxCacheEntries c) []]) Hcs). unfold begun in IH. cbn in IH.
  by rewrite <- app_assoc in IH.
Qed.

Lemma turns_reaches world order pr : reaches range MaxCacheEntries pr (turns world order pr).
Proof.
  revert pr. induction order as [|i order IH]; intros pr; [done|]. cbn. etransitivity; [|apply IH].
  eapply (rtc_subrel (act perform)); [intros ? ?; apply step_act|]. apply proceed_acts, attempt_possible.
Qed.

End Execute.

(** ** Witness *)

Definition sharedTarget : ClusterTarget :=
  mkClusterTarget (emptyMeta <| m_Name := "edge" |> <| m_Generation := 3 |>)
    (mkClusterTargetSpec (mkSecretKeySelector "kc" "kubelease" "") ∅ None (Some 500) None None)
    (mkClusterTargetStatus "" "" None 0 []).

(** The credentials of the target, before and after a rotation. *)
Definition credentialsOf (version data : string) (key : ObjectKey) : option Secret :=
  Some (mkSecret (emptyMeta <| m_Name := key.(key_Name) |> <| m_Namespace := key.(key_Namespace) |>
    <| m_ResourceVersion := version |>) {["kubeconfig" := data]}).

(** Two workers build a client each for the same credentials, which are rotated
    before the first has stored its own; a third asks afterwards. *)
Definition sharedRun : shared * list (thread penv outcome Call) :=
  let pr := @begun plainClientcmd map_to_list 1 [CallClientFor sharedTarget; CallRESTConfigFor sharedTarget] (fresh 0) in
  let pr := turns (credentialsOf "7" "old") [0; 0; 1; 1; 0; 1; 1]%nat pr in
  let pr := @begun plainClientcmd map_to_list 1 [CallInvalidate "edge"; CallRESTConfigFor sharedTarget] pr in
  turns (credentialsOf "8" "new") [2; 0; 3; 3; 3; 3]%nat pr.

Lemma provider_hands_out_witness :
  exists s ts tr cfg,
    @reaches plainClientcmd map_to_list 1 (fresh 0) (s, ts) /\
    ts !! 3%nat = Some (mkThread (CallRESTConfigFor sharedTarget) (Ret (GotConfig (Ok cfg))) tr) /\
    cfg.(rc_Kubeconfig) = "new" /\ 0 < cfg.(rc_QPS) <= maxQPS /\ Z.of_nat (size s.(sh_cache)) <= 1.
Proof.
  assert (Hr : @reaches plainClientcmd map_to_list 1 (fresh 0) (sharedRun.1, sharedRun.2)).
  { rewrite <- surjective_pairing. unfold sharedRun. cbv zeta.
    etransitivity; [|apply turns_reaches]. etransitivity; [|by apply begun_reaches; repeat constructor].
    etransitivity; [|apply turns_reaches]. by apply begun_reaches; repeat constructor. }
  assert (Hi : sharedRun.2 !! 3%nat = Some (mkThread (CallRESTConfigFor sharedTarget)
    (Ret (GotConfig (Ok (mkRESTConfig "new" (30 * Second) 50 40)))) (default [] (th_trace <$> sharedRun.2 !! 3%nat))))
    by (vm_compute; reflexivity).
  destruct (@provider_hands_out plainClientcmd map_to_list (fun c => reflexivity _) 1 0 _ _ Hr) as (Hb & _ & Hc & _).
  destruct (Hc _ _ _ _ _ Hi eq_refl) as (Hq & _).
  exists sharedRun.1, sharedRun.2, (default [] (th_trace <$> sharedRun.2 !! 3%nat)), (mkRESTConfig "new" (30 * Second) 50 40).
  exact (conj Hr (conj Hi (conj eq_refl (conj Hq Hb)))).
Defined.
