(* ===== verification/GoDuration.v ===== *)
(** * Parsing durations

    [time.ParseDuration], bit by bit: the fraction of a unit is computed in
    [float64], here the binary64 operations of [SpecFloat].  It reads back what
    [Duration.String] prints, so distinct durations print differently. *)

From S2P Require Import Prelude GoStrings GoTime GoErrors GoText.
From Stdlib Require Import Ascii SpecFloat.

(** ** Definitions *)

(** [float64], [float64(x)] of an integer, the product and the quotient, and
    [uint64(f)] of a value in range, which truncates. *)
Definition float64OfZ (z : Z) : spec_float := binary_normalize 53 1024 z 0 false.
Definition fmul : spec_float -> spec_float -> spec_float := SFmul 53 1024.
Definition fdiv : spec_float -> spec_float -> spec_float := SFdiv 53 1024.
Definition uint64OfFloat (f : spec_float) : Z :=
  match f with
  | S754_finite false m e => Z.shiftl (Z.pos m) e
  | _ => 0
  end.

Definition digitOf (c : ascii) : Z := Z.of_N (code c) - 48.

(** [leadingInt]: the leading digits and the rest. *)
Fixpoint leadingInt (x : Z) (l : list ascii) : option (Z * list ascii) :=
  match l with
  | c :: l' =>
      if isDigit c then
        if two63 / 10 <? x then None
        else
          let x := x * 10 + digitOf c in
          if two63 <? x then None else leadingInt x l'
      else Some (x, l)
  | [] => Some (x, [])
  end.

(** [leadingFraction]: the digits, as far as they fit, the power of ten they are
    to be divided by, and the rest. *)
Fixpoint leadingFraction (x : Z) (scale : spec_float) (overflow : bool) (l : list ascii)
    : Z * spec_float * list ascii :=
  match l with
  | c :: l' =>
      if isDigit c then
        if overflow then leadingFraction x scale true l'
        else if (two63 - 1) / 10 <? x then leadingFraction x scale true l'
        else
          let y := x * 10 + digitOf c in
          if two63 <? y then leadingFraction x scale true l'
          else leadingFraction y (fmul scale (float64OfZ 10)) false l'
      else (x, scale, l)
  | [] => (x, scale, [])
  end.

(** The bytes of a unit: up to the next digit or dot. *)
Fixpoint takeUnit (l : list ascii) : list ascii * list ascii :=
  match l with
  | c :: l' =>
      if isDigit c || Ascii.eqb c "." then ([], l)
      else let '(u, rest) := takeUnit l' in (c :: u, rest)
  | [] => ([], [])
  end.

(** [unitMap]; both micro signs, U+00B5 and U+03BC, are accepted. *)
Definition unitMap (u : string) : option Z :=
  if String.eqb u "ns" then Some 1
  else if String.eqb u "us" then Some Microsecond
  else if String.eqb u (micro_sign +:+ "s") then Some Microsecond
  else if String.eqb u (of_chars [ascii_of_N 206; ascii_of_N 188] +:+ "s") then Some Microsecond
  else if String.eqb u "ms" then Some Millisecond
  else if String.eqb u "s" then Some Second
  else if String.eqb u "m" then Some Minute
  else if String.eqb u "h" then Some Hour
  else None.

(** [quote] of package time. *)
Definition timeQuoteByte (c : ascii) : string :=
  let n := code c in
  if (n <? 32)%N || (128 <=? n)%N then "\x" +:+ String (hex_digit (n / 16)) (String (hex_digit (n mod 16)) "")
  else if (n =? 34)%N || (n =? 92)%N then "\" +:+ String c ""
  else String c "".

Definition timeQuote (s : string) : string :=
  let dq := String (ascii_of_N 34) "" in dq +:+ foldr (fun c acc => timeQuoteByte c +:+ acc) "" (chars s) +:+ dq.

Definition invalidDuration (orig : string) : error := ErrorString ("time: invalid duration " +:+ timeQuote orig).

(** The nanoseconds of a fraction [f] over [scale] of a unit. *)
Definition fractionOf (f : Z) (scale : spec_float) (unit : Z) : Z :=
  uint64OfFloat (fmul (float64OfZ f) (fdiv (float64OfZ unit) scale)).

(** A number without its unit: integer part, fraction, scale and the rest. *)
Definition parseNumber (l : list ascii) : option (Z * Z * spec_float * list ascii) :=
  match leadingInt 0 l with
  | None => None
  | Some (v, rest) =>
      let pre := negb (length l =? length rest)%nat in
      let one := float64OfZ 1 in
      match rest with
      | c :: rest' =>
          if Ascii.eqb c "." then
            let '(f, scale, rest'') := leadingFraction 0 one false rest' in
            let post := negb (length rest' =? length rest'')%nat in
            if pre || post then Some (v, f, scale, rest'') else None
          else if pre then Some (v, 0, one, rest) else None
      | [] => if pre then Some (v, 0, one, rest) else None
      end
  end.

(** One number with its unit. *)
Definition parseTerm (orig : string) (l : list ascii) : result (Z * list ascii) :=
  match l with
  | [] => Err (invalidDuration orig)
  | c :: _ =>
      if negb (Ascii.eqb c "." || isDigit c) then Err (invalidDuration orig)
      else
        match parseNumber l with
        | None => Err (invalidDuration orig)
        | Some (v, f, scale, rest) =>
            let '(u, rest) := takeUnit rest in
            if bool_decide (u = []) then Err (ErrorString ("time: missing unit in duration " +:+ timeQuote orig))
            else
              match unitMap (of_chars u) with
              | None => Err (ErrorString ("time: unknown unit " +:+ timeQuote (of_chars u) +:+ " in duration "
                                            +:+ timeQuote orig))
              | Some unit =>
                  if two63 / unit <? v then Err (invalidDuration orig)
                  else
                    let v := v * unit in
                    if 0 <? f then
                      let v := v + fractionOf f scale unit in
                      if two63 <? v then Err (invalidDuration orig) else Ok (v, rest)
                    else Ok (v, rest)
              end
        end
  end.

(** The loop; every round consumes a byte at least. *)
Fixpoint parseTerms (fuel : nat) (orig : string) (d : Z) (l : list ascii) : result Z :=
  match l with
  | [] => Ok d
  | _ =>
      match fuel with
      | O => Err (invalidDuration orig)
      | S fuel =>
          match parseTerm orig l with
          | Err err => Err err
          | Ok (v, rest) =>
              let d := (d + v) mod (2 * two63) in
              if two63 <? d then Err (invalidDuration orig) else parseTerms fuel orig d rest
          end
      end
  end.

Definition ParseDuration (s : string) : result duration :=
  let '(neg, l) :=
    match chars s with
    | c :: l => if Ascii.eqb c "-" then (true, l) else if Ascii.eqb c "+" then (false, l) else (false, chars s)
    | [] => (false, [])
    end in
  if bool_decide (l = ["0"%char]) then Ok 0
  else if bool_decide (l = []) then Err (invalidDuration s)
  else
    match parseTerms (length l) s 0 l with
    | Err err => Err err
    | Ok d => if neg then Ok (wrap64 (- d)) else if two63 - 1 <? d then Err (invalidDuration s) else Ok d
    end.

Example ParseDuration_ex1 : ParseDuration "1h15m30.918s" = Ok (Hour + 15 * Minute + 30918 * Millisecond).
Proof. vm_compute. reflexivity. Qed.
Example ParseDuration_ex2 : ParseDuration ".3333333333333333333h" = Ok (20 * Minute).
Proof. vm_compute. reflexivity. Qed.
Example ParseDuration_ex3 : ParseDuration "-9223372036854775808ns" = Ok minDuration.
Proof. vm_compute. reflexivity. Qed.
Example ParseDuration_ex4 : ParseDuration "3000000h" = Err (invalidDuration "3000000h").
Proof. vm_compute. reflexivity. Qed.
Example ParseDuration_ex5 : ParseDuration "9223372036854775.807us" = Ok maxDuration.
Proof. vm_compute. reflexivity. Qed.

(** ** Exact products of small floats *)

Lemma iter_pos_nat {A} (f : A -> A) n x : iter_pos f n x = Nat.iter (Pos.to_nat n) f x.
Proof.
  revert x. induction n as [n IH|n IH|]; intros x; cbn [iter_pos]; rewrite ?IH, <- ?Nat.iter_add.
  - rewrite <- Nat.iter_succ_r. f_equal. lia.
  - f_equal. lia.
  - done.
Qed.

(** [q * 2^n]. *)
Notation shifted n q := (Nat.iter n xO q) (only parsing).

Lemma shifted_Z n q : Z.pos (shifted n q) = Z.pos q * 2 ^ Z.of_nat n.
Proof.
  induction n as [|n IH]; [simpl; lia|].
  rewrite Nat.iter_succ, Pos2Z.inj_xO, IH, Nat2Z.inj_succ, Z.pow_succ_r by lia. lia.
Qed.

(** Shifting out zeros is exact. *)
Lemma shr_exact n q :
  Nat.iter n shr_1 (Build_shr_record (Z.pos (shifted n q)) false false) = Build_shr_record (Z.pos q) false false.
Proof. induction n as [|n IH]; [done|]. by rewrite Nat.iter_succ_r, Nat.iter_succ. Qed.

Lemma shr_shifted n q e :
  shr (Build_shr_record (Z.pos (shifted n q)) false false) e (Z.of_nat n) =
  (Build_shr_record (Z.pos q) false false, e + Z.of_nat n).
Proof.
  destruct n as [|n]; [by rewrite Z.add_0_r|]. change (Z.of_nat (S n)) with (Z.pos (Pos.of_succ_nat n)).
  cbn [shr]. by rewrite iter_pos_nat, SuccNat2Pos.id_succ, shr_exact.
Qed.

Lemma digits2_bounds p : 2 ^ (Z.pos (digits2_pos p) - 1) <= Z.pos p < 2 ^ Z.pos (digits2_pos p).
Proof.
  induction p as [p IH|p IH|]; cbn [digits2_pos]; [| |lia]; rewrite Pos2Z.inj_succ.
  - replace (Z.succ (Z.pos (digits2_pos p)) - 1) with (Z.succ (Z.pos (digits2_pos p) - 1)) by lia.
    rewrite !Z.pow_succ_r by lia. lia.
  - replace (Z.succ (Z.pos (digits2_pos p)) - 1) with (Z.succ (Z.pos (digits2_pos p) - 1)) by lia.
    rewrite !Z.pow_succ_r by lia. lia.
Qed.

(** The number of digits is determined by the magnitude. *)
Lemma digits2_unique p d : 2 ^ (d - 1) <= Z.pos p < 2 ^ d -> 0 < d -> Z.pos (digits2_pos p) = d.
Proof.
  intros H Hd. pose proof (digits2_bounds p) as Hp. set (e := Z.pos (digits2_pos p)) in *.
  assert (~ e < d) by (intros ?; assert (2 ^ e <= 2 ^ (d - 1)) by (apply Z.pow_le_mono_r; lia); lia).
  assert (~ d < e) by (intros ?; assert (2 ^ d <= 2 ^ (e - 1)) by (apply Z.pow_le_mono_r; lia); lia).
  lia.
Qed.

Lemma digits2_shifted n q : Z.pos (digits2_pos (shifted n q)) = Z.pos (digits2_pos q) + Z.of_nat n.
Proof.
  induction n as [|n IH]; [simpl; lia|]. rewrite Nat.iter_succ. cbn [digits2_pos].
  rewrite Pos2Z.inj_succ, IH. lia.
Qed.

(** Rounding a mantissa of 53 significant bits is exact. *)
Lemma round_exact n q e :
  Z.pos (digits2_pos q) = 53 -> -1074 <= e + Z.of_nat n <= 971 ->
  binary_round_aux 53 1024 false (Z.pos (shifted n q)) e loc_Exact = S754_finite false q (e + Z.of_nat n).
Proof.
  intros Hq He. unfold binary_round_aux, shr_fexp at 1. cbn [shr_record_of_loc Zdigits2].
  assert (Hf : forall x, -1074 <= x - 53 -> fexp 53 1024 x = x - 53) by (unfold fexp, emin; lia).
  rewrite digits2_shifted, Hq, Hf by lia. replace (53 + Z.of_nat n + e - 53 - e) with (Z.of_nat n) by lia.
  rewrite shr_shifted. cbn [shr_m loc_of_shr_record round_nearest_even].
  unfold shr_fexp. cbn [shr_record_of_loc Zdigits2]. rewrite Hq, Hf by lia.
  replace (53 + (e + Z.of_nat n) - 53 - (e + Z.of_nat n)) with 0 by lia. cbn [shr shr_m].
  by rewrite (proj2 (Z.leb_le _ _)) by lia.
Qed.

(** A positive integer below [2^53] as a float. *)
Lemma float64OfZ_exact p (n : nat) :
  Z.pos (digits2_pos p) = 53 - Z.of_nat n ->
  float64OfZ (Z.pos p) = S754_finite false (shifted n p) (- Z.of_nat n).
Proof.
  intros Hp. unfold float64OfZ, binary_normalize, binary_round.
  assert (Hf : fexp 53 1024 (Z.pos (digits2_pos p) + 0) = - Z.of_nat n) by (unfold fexp, emin; lia).
  rewrite Hf. assert (Hs : shl_align p 0 (- Z.of_nat n) = (shifted n p, - Z.of_nat n)).
  { unfold shl_align. destruct n as [|n]; [done|].
    change (- Z.of_nat (S n) - 0) with (Z.neg (Pos.of_succ_nat n)). cbv iota. f_equal.
    by rewrite Pos2Nat.inj_iter, SuccNat2Pos.id_succ. }
  rewrite Hs. rewrite (round_exact 0 (shifted n p)).
  - f_equal. lia.
  - rewrite digits2_shifted. lia.
  - lia.
Qed.

Lemma digits2_le p (d : nat) : Z.pos p < 2 ^ Z.of_nat d -> Z.pos (digits2_pos p) <= Z.of_nat d.
Proof.
  intros Hp. pose proof (digits2_bounds p) as [Hb _].
  assert (~ Z.of_nat d <= Z.pos (digits2_pos p) - 1); [|lia].
  intros Hd. assert (2 ^ Z.of_nat d <= 2 ^ (Z.pos (digits2_pos p) - 1)) by (apply Z.pow_le_mono_r; lia). lia.
Qed.

(** The shift that normalizes an integer below [2^53]. *)
Lemma normal_shift p : Z.pos p < 2 ^ 53 -> exists n : nat, Z.pos (digits2_pos p) = 53 - Z.of_nat n.
Proof.
  intros Hp. pose proof (digits2_le p 53 Hp). exists (Z.to_nat (53 - Z.pos (digits2_pos p))). lia.
Qed.

Lemma uint64OfFloat_exact z : 0 <= z < 2 ^ 53 -> uint64OfFloat (float64OfZ z) = z.
Proof.
  intros Hz. destruct z as [|p|p]; [done| |lia]. destruct (normal_shift p) as [n Hn]; [lia|].
  rewrite (float64OfZ_exact p n Hn). cbn [uint64OfFloat].
  rewrite shifted_Z, Z.shiftl_div_pow2, Z.opp_involutive by lia. by rewrite Z.div_mul by lia.
Qed.

Lemma shifted_mul m n p q : (shifted m p * shifted n q)%positive = shifted (m + n) (p * q)%positive.
Proof.
  apply Pos2Z.inj. rewrite Pos2Z.inj_mul, !shifted_Z, Pos2Z.inj_mul, Nat2Z.inj_add, Z.pow_add_r by lia. lia.
Qed.

Lemma fmul_exact a b : 0 < a -> 0 < b -> a * b < 2 ^ 53 ->
  fmul (float64OfZ a) (float64OfZ b) = float64OfZ (a * b).
Proof.
  intros Ha Hb Hab. destruct a as [|p|p], b as [|q|q]; try lia.
  destruct (normal_shift p) as [m Hm]; [nia|]. destruct (normal_shift q) as [n Hn]; [nia|].
  destruct (normal_shift (p * q)%positive) as [k Hk]; [lia|].
  assert (Hle : Z.pos (digits2_pos p) <= Z.pos (digits2_pos (p * q)%positive)).
  { pose proof (digits2_bounds p) as [Hp _]. pose proof (digits2_bounds (p * q)%positive) as [_ Hpq].
    assert (~ Z.pos (digits2_pos (p * q)%positive) <= Z.pos (digits2_pos p) - 1); [|lia]. intros Hd.
    assert (2 ^ Z.pos (digits2_pos (p * q)%positive) <= 2 ^ (Z.pos (digits2_pos p) - 1)) by (apply Z.pow_le_mono_r; lia).
    rewrite Pos2Z.inj_mul in Hpq. nia. }
  rewrite (float64OfZ_exact p m Hm), (float64OfZ_exact q n Hn).
  change (Z.pos p * Z.pos q) with (Z.pos (p * q)%positive). rewrite (float64OfZ_exact (p * q)%positive k Hk).
  unfold fmul, SFmul. cbn [xorb]. rewrite shifted_mul.
  assert (Hmn : (m + n = (m + n - k) + k)%nat) by lia. rewrite Hmn, Nat.iter_add.
  rewrite round_exact; [f_equal; lia| |lia]. rewrite digits2_shifted, Hk. lia.
Qed.

(** The scale after [k] digits of a fraction. *)
Definition scaleOf (k : nat) : spec_float := Nat.iter k (fun s => fmul s (float64OfZ 10)) (float64OfZ 1).

(** The units whose fractions [Duration.String] prints, with their digits. *)
Definition fractional : list (Z * nat) := [(Microsecond, 3%nat); (Millisecond, 6%nat); (Second, 9%nat)].

Lemma fdiv_exact unit prec (k : nat) :
  (unit, prec) ∈ fractional -> (k <= prec)%nat ->
  fdiv (float64OfZ unit) (scaleOf k) = float64OfZ (10 ^ Z.of_nat (prec - k)).
Proof.
  intros Hin Hk. unfold fractional in Hin. rewrite !elem_of_cons, elem_of_nil in Hin.
  destruct Hin as [[= -> ->]|[[= -> ->]|[[= -> ->]|[]]]];
    do 10 (destruct k as [|k]; [first [lia | vm_compute; reflexivity]|]); lia.
Qed.

Lemma fractionOf_exact unit prec (k : nat) f :
  (unit, prec) ∈ fractional -> (k <= prec)%nat -> 0 < f < 10 ^ Z.of_nat k ->
  fractionOf f (scaleOf k) unit = f * 10 ^ Z.of_nat (prec - k).
Proof.
  intros Hin Hk Hf. unfold fractionOf. rewrite (fdiv_exact unit prec) by done.
  assert (Hprec : (prec <= 9)%nat).
  { unfold fractional in Hin. rewrite !elem_of_cons, elem_of_nil in Hin. intuition (simplify_eq; lia). }
  assert (Hpow : 10 ^ Z.of_nat k * 10 ^ Z.of_nat (prec - k) <= 10 ^ 9).
  { rewrite <- Z.pow_add_r by lia. apply Z.pow_le_mono_r; lia. }
  assert (0 < 10 ^ Z.of_nat (prec - k)) by lia.
  rewrite fmul_exact, uint64OfFloat_exact; nia.
Qed.

(** ** Reading numbers *)

Notation digits ds := (Forall (fun c => isDigit c = true) ds) (only parsing).

(** The value of digits, after [x]. *)
Definition decimal (x : Z) (ds : list ascii) : Z := foldl (fun x c => x * 10 + digitOf c) x ds.

(** What may follow a number. *)
Definition noDigit (rest : list ascii) : Prop := match rest with c :: _ => isDigit c = false | [] => True end.

Lemma digitOf_range c : isDigit c = true -> 0 <= digitOf c <= 9.
Proof. unfold isDigit, digitOf. rewrite andb_true_iff, !N.leb_le. lia. Qed.

Lemma decimal_ge x ds : digits ds -> 0 <= x -> x <= decimal x ds.
Proof.
  intros Hds. revert x. induction Hds as [|c ds Hc Hds IH]; intros x Hx; [simpl; lia|].
  pose proof (digitOf_range c Hc). cbn. specialize (IH (x * 10 + digitOf c) ltac:(lia)). unfold decimal in IH. lia.
Qed.

Lemma decimal_app x ds es : decimal x (ds ++ es) = decimal (decimal x ds) es.
Proof. apply foldl_app. Qed.

Lemma decimal_lt x ds : digits ds -> 0 <= x -> decimal x ds < (x + 1) * 10 ^ Z.of_nat (length ds).
Proof.
  intros Hds. revert x. induction Hds as [|d ds Hd Hds IH]; intros x Hx; [cbn; lia|].
  pose proof (digitOf_range d Hd). cbn [decimal foldl length].
  specialize (IH (x * 10 + digitOf d) ltac:(lia)). unfold decimal in IH.
  rewrite Nat2Z.inj_succ, Z.pow_succ_r by lia. nia.
Qed.

Lemma leadingInt_spec x ds rest :
  digits ds -> noDigit rest -> 0 <= x -> decimal x ds <= two63 ->
  leadingInt x (ds ++ rest) = Some (decimal x ds, rest).
Proof.
  intros Hds Hrest. revert x. induction Hds as [|c ds Hc Hds IH]; intros x Hx Hle.
  - destruct rest as [|c rest]; [done|]. cbn in *. by rewrite Hrest.
  - pose proof (digitOf_range c Hc). cbn in *. rewrite Hc.
    pose proof (decimal_ge (x * 10 + digitOf c) ds Hds ltac:(lia)) as Hge. unfold decimal in Hge.
    unfold two63 in *. rewrite (proj2 (Z.ltb_ge _ _)) by (apply Z.div_le_lower_bound; lia).
    rewrite (proj2 (Z.ltb_ge _ _)) by lia. apply IH; [lia|]. unfold decimal. lia.
Qed.

Lemma leadingFraction_spec x i ds rest :
  digits ds -> noDigit rest -> 0 <= x -> decimal x ds < two63 ->
  leadingFraction x (scaleOf i) false (ds ++ rest) = (decimal x ds, scaleOf (i + length ds), rest).
Proof.
  intros Hds Hrest. revert x i. induction Hds as [|c ds Hc Hds IH]; intros x i Hx Hlt.
  - rewrite Nat.add_0_r. destruct rest as [|c rest]; [done|]. cbn in *. by rewrite Hrest.
  - pose proof (digitOf_range c Hc). cbn in *. rewrite Hc.
    pose proof (decimal_ge (x * 10 + digitOf c) ds Hds ltac:(lia)) as Hge. unfold decimal in Hge.
    unfold two63 in *. rewrite (proj2 (Z.ltb_ge _ _)) by (apply Z.div_le_lower_bound; lia).
    rewrite (proj2 (Z.ltb_ge _ _)) by lia. change (fmul (scaleOf i) _) with (scaleOf (S i)).
    rewrite IH; [|lia|unfold decimal; lia]. by rewrite Nat.add_succ_r.
Qed.

Lemma takeUnit_spec u rest :
  Forall (fun c => isDigit c || Ascii.eqb c "." = false) u ->
  match rest with c :: _ => isDigit c = true | [] => True end ->
  takeUnit (u ++ rest) = (u, rest).
Proof.
  intros Hu Hrest. induction Hu as [|c u Hc Hu IH]; cbn.
  - destruct rest as [|c rest]; [done|]. cbn. by rewrite Hrest.
  - by rewrite Hc, IH.
Qed.

Lemma digitOf_pretty x : (x < 10)%N -> digitOf (pretty_N_char x) = Z.of_N x.
Proof.
  intros Hx. assert (Hin : In x (N.of_nat <$> seq 0 10)).
  { apply list_elem_of_In, list_elem_of_fmap. exists (N.to_nat x). split; [lia|]. apply elem_of_seq. lia. }
  cbn in Hin. repeat destruct Hin as [<-|Hin]; by try destruct Hin.
Qed.

Lemma pretty_go_decimal (x : N) s :
  exists ds, chars (pretty_N_go x s) = ds ++ chars s /\ digits ds /\ decimal 0 ds = Z.of_N x.
Proof.
  revert s. induction (N.lt_wf_0 x) as [x _ IH]. intros s. destruct (decide (0 < x)%N) as [Hx|Hx].
  - rewrite pretty_N_go_step by done.
    destruct (IH (x / 10)%N (N.div_lt x 10 Hx eq_refl) (String (pretty_N_char (x mod 10)) s)) as (ds & Hds & HF & Hv).
    exists (ds ++ [pretty_N_char (x mod 10)]). split; [|split].
    + rewrite Hds. simpl. by rewrite <- app_assoc.
    + apply Forall_app. split; [done|]. constructor; [apply pretty_digit|constructor].
    + rewrite decimal_app, Hv. cbn. rewrite digitOf_pretty by (apply N.mod_lt; lia).
      pose proof (N.div_mod x 10 ltac:(lia)). lia.
  - assert (x = 0%N) as -> by lia. rewrite pretty_N_go_0. by exists [].
Qed.

(** What [Itoa] prints of a non-negative number. *)
Lemma Itoa_decimal v : 0 <= v ->
  exists c ds, chars (Itoa v) = c :: ds /\ digits (c :: ds) /\ decimal 0 (c :: ds) = v.
Proof.
  intros Hv. destruct v as [|p|p]; [|change (Itoa (Z.pos p)) with (pretty_N_go (N.pos p) "")|lia].
  - exists "0"%char, []. split; [done|]. split; [|done]. by constructor.
  - destruct (pretty_go_decimal (N.pos p) "") as (ds & Hds & HF & Hval). rewrite app_nil_r in Hds.
    destruct ds as [|c ds]; [done|]. exists c, ds. done.
Qed.

(** ** What [Duration.String] prints *)

Lemma digit_char_spec d : 0 <= d < 10 -> isDigit (digit_char d) = true /\ digitOf (digit_char d) = d.
Proof.
  intros Hd. assert (Hin : In d (Z.of_nat <$> seq 0 10)).
  { apply list_elem_of_In, list_elem_of_fmap. exists (Z.to_nat d). split; [lia|]. apply elem_of_seq. lia. }
  cbn in Hin. repeat destruct Hin as [<-|Hin]; by try destruct Hin.
Qed.

(** The fraction [F] of a unit of [10^prec], as it is printed. *)
Definition fractionText (prec : nat) (F : Z) (l : list ascii) : Prop :=
  (l = [] /\ F = 0) \/
  exists ds, l = "."%char :: ds /\ digits ds /\ (0 < length ds <= prec)%nat /\ 0 < decimal 0 ds /\
    F = decimal 0 ds * 10 ^ Z.of_nat (prec - length ds).

Lemma mod10_step v prec : 0 <= v ->
  v mod 10 ^ Z.of_nat (S prec) = (v / 10) mod 10 ^ Z.of_nat prec * 10 + v mod 10.
Proof.
  intros Hv. rewrite Nat2Z.inj_succ, Z.pow_succ_r by lia. rewrite Z.rem_mul_r by lia. lia.
Qed.

(** Once a digit was printed all the digits before it are. *)
Lemma fmtFrac_printing w v prec : 0 <= v ->
  exists ds, chars (fmtFrac w v prec true).1 = "."%char :: ds ++ chars w /\ digits ds /\ length ds = prec /\
    decimal 0 ds = v mod 10 ^ Z.of_nat prec /\ (fmtFrac w v prec true).2 = v / 10 ^ Z.of_nat prec.
Proof.
  revert w v. induction prec as [|prec IH]; intros w v Hv.
  - exists []. cbn. rewrite Z.mod_1_r, Z.div_1_r. done.
  - cbn [fmtFrac]. cbv zeta. cbn [orb].
    destruct (digit_char_spec (v mod 10)) as [Hd Hval]; [apply Z.mod_pos_bound; lia|].
    destruct (IH (String (digit_char (v mod 10)) w) (v / 10)) as (ds & H1 & H2 & H3 & H4 & H5);
      [apply Z.div_pos; lia|].
    exists (ds ++ [digit_char (v mod 10)]). split_and!.
    + rewrite H1. cbn. by rewrite <- app_assoc.
    + apply Forall_app. split; [done|]. by constructor.
    + rewrite length_app, H3. simpl. lia.
    + rewrite decimal_app, H4, mod10_step by done. cbn. by rewrite Hval.
    + rewrite H5, Nat2Z.inj_succ, Z.pow_succ_r, Z.div_div by lia. done.
Qed.

Lemma fmtFrac_spec w v prec : 0 <= v ->
  exists l, chars (fmtFrac w v prec false).1 = l ++ chars w /\
    fractionText prec (v mod 10 ^ Z.of_nat prec) l /\ (fmtFrac w v prec false).2 = v / 10 ^ Z.of_nat prec.
Proof.
  revert w v. induction prec as [|prec IH]; intros w v Hv.
  - exists []. cbn. rewrite Z.mod_1_r, Z.div_1_r. split; [done|]. split; [by left|done].
  - cbn [fmtFrac]. cbv zeta. cbn [orb]. assert (Hq : 0 <= v / 10) by (apply Z.div_pos; lia).
    assert (H2 : v / 10 ^ Z.of_nat (S prec) = v / 10 / 10 ^ Z.of_nat prec)
      by (rewrite Nat2Z.inj_succ, Z.pow_succ_r, Z.div_div by lia; done).
    pose proof (Z.mod_pos_bound v 10 ltac:(lia)) as Hm.
    pose proof (Z.mod_pos_bound (v / 10) (10 ^ Z.of_nat prec) ltac:(lia)) as Hm2.
    destruct (v mod 10 =? 0) eqn:Hz; zify_bool; cbn [negb].
    + destruct (IH w (v / 10) Hq) as (l & H3 & H4 & H5). exists l. split; [done|]. split; [|by rewrite H5].
      rewrite mod10_step, Hz by done. destruct H4 as [[-> ->]|(ds & -> & Hd & Hlen & Hpos & HF)]; [by left|].
      right. exists ds. split_and!; try done; try lia. rewrite HF.
      replace (S prec - length ds)%nat with (S (prec - length ds)) by lia.
      rewrite Nat2Z.inj_succ, Z.pow_succ_r by lia. lia.
    + destruct (digit_char_spec (v mod 10)) as [Hd Hval]; [lia|].
      destruct (fmtFrac_printing (String (digit_char (v mod 10)) w) (v / 10) prec Hq) as (ds & H3 & H4 & H5 & H6 & H7).
      exists ("."%char :: ds ++ [digit_char (v mod 10)]). split; [|split; [|by rewrite H7]].
      * rewrite H3. cbn. by rewrite <- app_assoc.
      * right. exists (ds ++ [digit_char (v mod 10)]).
        assert (Hdec : decimal 0 (ds ++ [digit_char (v mod 10)]) = v mod 10 ^ Z.of_nat (S prec))
          by (rewrite decimal_app, H6, mod10_step by done; cbn; by rewrite Hval).
        assert (Hlen : length (ds ++ [digit_char (v mod 10)]) = S prec) by (rewrite length_app; simpl; lia).
        split_and!; try done; try lia.
        -- apply Forall_app. split; [done|]. by constructor.
        -- rewrite Hdec, mod10_step by done. lia.
        -- rewrite Hdec, Hlen, Nat.sub_diag. lia.
Qed.

(** ** One number with its unit *)

Definition unitText (u : string) (unit : Z) : Prop :=
  unitMap u = Some unit /\ u <> "" /\ 0 < unit /\
  Forall (fun c => isDigit c || Ascii.eqb c "." = false) (chars u).

Definition startsNumber (rest : list ascii) : Prop := match rest with c :: _ => isDigit c = true | [] => True end.

Lemma parseTerm_spec orig v F l u unit prec rest :
  0 <= v -> fractionText prec F l -> (l = [] \/ (unit, prec) ∈ fractional) ->
  unitText u unit -> startsNumber rest -> v * unit + F <= two63 ->
  parseTerm orig (chars (Itoa v) ++ l ++ chars u ++ rest) = Ok (v * unit + F, rest).
Proof.
  intros Hv HF Hl (Hu & Hune & Hupos & Huc) Hrest Hle.
  destruct (Itoa_decimal v Hv) as (c & ds & Hds & Hdig & Hval).
  assert (HF0 : 0 <= F) by (destruct HF as [[_ ->]|(es & _ & _ & _ & ? & ->)]; [lia|]; apply Z.mul_nonneg_nonneg; lia).
  assert (Hvle : v <= two63) by nia.
  assert (Hune' : exists a us, chars u = a :: us /\ isDigit a || Ascii.eqb a "." = false).
  { destruct u as [|a us]; [done|]. exists a, (chars us). split; [done|]. by inversion Huc. }
  destruct Hune' as (a & us & Hua & Hadig). apply orb_false_iff in Hadig as [Hadig Hadot].
  assert (Hnum : exists f scale, parseNumber (chars (Itoa v) ++ l ++ chars u ++ rest) = Some (v, f, scale, chars u ++ rest) /\
    if 0 <? f then F = fractionOf f scale unit else F = 0).
  { unfold parseNumber. rewrite Hds, leadingInt_spec; [|done| |lia|by rewrite Hval].
    2: { destruct HF as [[-> _]|(es & -> & _)]; [|done]. cbn. by rewrite Hua. }
    rewrite Hval. assert (Hpre : (length ((c :: ds) ++ l ++ chars u ++ rest) =? length (l ++ chars u ++ rest))%nat = false)
      by (apply Nat.eqb_neq; rewrite length_app; cbn [length]; lia).
    rewrite Hpre. cbn [negb orb]. destruct HF as [[-> ->]|(es & -> & Hes & Hlen & Hpos & HF)].
    - cbn [app]. rewrite Hua. cbn [app]. rewrite Hadot. by exists 0, (float64OfZ 1).
    - cbn [app]. assert (Hdot : Ascii.eqb "." "." = true) by done. rewrite Hdot.
      change (float64OfZ 1) with (scaleOf 0).
      destruct Hl as [?|Hin]; [done|].
      assert (Hprec : (prec <= 9)%nat).
      { unfold fractional in Hin. rewrite !elem_of_cons, elem_of_nil in Hin. intuition (simplify_eq; lia). }
      pose proof (decimal_lt 0 es Hes ltac:(lia)) as Hlt.
      assert (Hbig : 10 ^ Z.of_nat (length es) <= 10 ^ 9) by (apply Z.pow_le_mono_r; lia).
      rewrite leadingFraction_spec; [|done|by rewrite Hua|lia|unfold two63; lia].
      exists (decimal 0 es), (scaleOf (length es)). split; [done|].
      rewrite (proj2 (Z.ltb_lt _ _)) by lia. rewrite (fractionOf_exact unit prec) by (done || lia). done. }
  destruct Hnum as (f & scale & Hnum & Hf). unfold parseTerm.
  assert (Hhd : chars (Itoa v) ++ l ++ chars u ++ rest = c :: (ds ++ l ++ chars u ++ rest)) by by rewrite Hds.
  rewrite Hhd at 1. assert (Hc : isDigit c = true) by by inversion Hdig. rewrite Hc, orb_true_r. cbn [negb].
  rewrite Hnum, takeUnit_spec by done. rewrite Hua. rewrite bool_decide_eq_false_2 by done. rewrite <- Hua.
  rewrite (chars_inj (of_chars (chars u)) u (chars_of_chars _)), Hu.
  rewrite (proj2 (Z.ltb_ge _ _)) by (apply Z.div_le_lower_bound; nia).
  cbv zeta. destruct (0 <? f); subst F.
  - by rewrite (proj2 (Z.ltb_ge _ _)) by lia.
  - by rewrite Z.add_0_r.
Qed.

(** ** Whole durations *)

(** [l] spells [total] nanoseconds, wherever the loop meets it. *)
Definition spells (total : Z) (l : list ascii) : Prop :=
  startsNumber l /\ 0 <= total /\
  forall orig fuel d, (length l <= fuel)%nat -> 0 <= d -> d + total <= two63 ->
    parseTerms fuel orig d l = Ok (d + total).

Lemma spells_nil : spells 0 [].
Proof. split; [done|]. split; [done|]. intros orig fuel d _ _ _. rewrite Z.add_0_r. by destruct fuel. Qed.

Lemma spells_term v F l u unit prec total rest :
  0 <= v -> fractionText prec F l -> (l = [] \/ (unit, prec) ∈ fractional) -> unitText u unit ->
  spells total rest -> spells (v * unit + F + total) (chars (Itoa v) ++ l ++ chars u ++ rest).
Proof.
  intros Hv HF Hl Hu (Hrest & Htot & Hparse). destruct (Itoa_decimal v Hv) as (c & ds & Hds & Hdig & _).
  assert (HF0 : 0 <= F) by (destruct HF as [[_ ->]|(es & _ & _ & _ & ? & ->)]; [lia|]; apply Z.mul_nonneg_nonneg; lia).
  assert (Hpos : 0 < unit) by apply Hu. split; [|split; [nia|]].
  { rewrite Hds. cbn. by inversion Hdig. }
  intros orig fuel d Hfuel Hd Hle.
  assert (Hlen : (length rest < length (chars (Itoa v) ++ l ++ chars u ++ rest))%nat)
    by (rewrite !length_app, Hds; cbn [length]; lia).
  destruct fuel as [|fuel]; [lia|].
  assert (Hterm : parseTerm orig (chars (Itoa v) ++ l ++ chars u ++ rest) = Ok (v * unit + F, rest))
    by (apply (parseTerm_spec orig v F l u unit prec); try done; lia).
  assert (Hne : exists x xs, chars (Itoa v) ++ l ++ chars u ++ rest = x :: xs) by (rewrite Hds; by eexists _, _).
  destruct Hne as (x & xs & Hne). rewrite Hne in *. cbn [parseTerms]. rewrite Hterm.
  cbv zeta. rewrite Z.mod_small by (unfold two63 in *; nia).
  rewrite (proj2 (Z.ltb_ge _ _)) by lia. rewrite Hparse by (lia || nia). f_equal. lia.
Qed.

(** A term without a fraction. *)
Lemma spells_int v u unit total rest :
  0 <= v -> unitText u unit -> spells total rest -> spells (v * unit + total) (chars (Itoa v) ++ chars u ++ rest).
Proof.
  intros Hv Hu Hr. replace (v * unit + total) with (v * unit + 0 + total) by lia.
  apply (spells_term v 0 [] u unit 0); [done|by left|by left|done|done].
Qed.

Lemma unitText_intro u unit :
  unitMap u = Some unit -> u <> "" -> 0 < unit ->
  forallb (fun c => negb (isDigit c || Ascii.eqb c ".")) (chars u) = true -> unitText u unit.
Proof.
  intros ? ? ? Hu. split_and!; try done. apply Forall_forall. intros c Hc%list_elem_of_In.
  rewrite forallb_forall in Hu. specialize (Hu c Hc). by apply negb_true_iff in Hu.
Qed.

Lemma unit_ns : unitText "ns" 1. Proof. by apply unitText_intro. Qed.
Lemma unit_us : unitText (micro_sign +:+ "s") Microsecond. Proof. by apply unitText_intro. Qed.
Lemma unit_ms : unitText "ms" Millisecond. Proof. by apply unitText_intro. Qed.
Lemma unit_s : unitText "s" Second. Proof. by apply unitText_intro. Qed.
Lemma unit_m : unitText "m" Minute. Proof. by apply unitText_intro. Qed.
Lemma unit_h : unitText "h" Hour. Proof. by apply unitText_intro. Qed.

Lemma fmtInt_chars w v : chars (fmtInt w v) = chars (Itoa v) ++ chars w.
Proof. apply chars_app. Qed.

(** A number printed with its fraction. *)
Lemma spells_frac x w u unit prec total rest :
  0 <= x -> unit = 10 ^ Z.of_nat prec -> (unit, prec) ∈ fractional -> unitText u unit ->
  chars w = chars u ++ rest -> spells total rest ->
  let '(w', q) := fmtFrac w x prec false in
  q = x / unit /\ forall v, 0 <= v -> spells (v * unit + x mod unit + total) (chars (fmtInt w' v)).
Proof.
  intros Hx Hunit Hin Hu Hw Hr. destruct (fmtFrac_spec w x prec Hx) as (l & H1 & H2 & H3).
  destruct (fmtFrac w x prec false) as [w' q]. cbn in H1, H3. subst q. rewrite <- Hunit in *. split; [done|].
  intros v Hv. rewrite fmtInt_chars, H1, Hw. apply (spells_term v _ l u unit prec); try done. by right.
Qed.

Lemma spells_small x u unit prec :
  0 <= x -> unit = 10 ^ Z.of_nat prec -> (unit, prec) ∈ fractional -> unitText u unit ->
  let '(w, q) := fmtFrac u x prec false in spells x (chars (fmtInt w q)).
Proof.
  intros Hx Hunit Hin Hu. assert (Hpos : 0 < unit) by apply Hu.
  pose proof (spells_frac x u u unit prec 0 [] Hx Hunit Hin Hu (eq_sym (app_nil_r _)) spells_nil) as Hs.
  destruct (fmtFrac u x prec false) as [w q]. destruct Hs as [-> Hs].
  specialize (Hs (x / unit) (Z.div_pos _ _ Hx Hpos)).
  by replace (x / unit * unit + x mod unit + 0) with x in Hs by (pose proof (Z.div_mod x unit); lia).
Qed.

(** A magnitude is spelled by its text. *)
Lemma durationBody_spells x : 0 <= x -> spells x (chars (durationBody x)).
Proof.
  intros Hx. unfold durationBody.
  destruct (x <? Second) eqn:H1; zify_bool.
  - destruct (x =? 0) eqn:H0; zify_bool.
    { subst x. by apply (spells_int 0 "s" Second 0 []); [|apply unit_s|apply spells_nil]. }
    destruct (x <? Microsecond) eqn:H2; [|destruct (x <? Millisecond) eqn:H3].
    + cbn [fmtFrac]. rewrite fmtInt_chars, <- (app_nil_r (chars "ns")).
      replace x with (x * 1 + 0) at 1 by lia. apply spells_int; [done|apply unit_ns|apply spells_nil].
    + apply (spells_small x _ Microsecond 3); [done|done|by left|apply unit_us].
    + apply (spells_small x _ Millisecond 6); [done|done|by right; left|apply unit_ms].
  - pose proof (spells_frac x "s" "s" Second 9 0 [] Hx eq_refl ltac:(by right; right; left) unit_s
      eq_refl spells_nil) as Hs.
    destruct (fmtFrac "s" x 9 false) as [w q]. destruct Hs as [-> Hs]. cbv zeta.
    set (s := x / Second). assert (Hs0 : 0 <= s) by (apply Z.div_pos; [done|unfold Second; lia]).
    assert (Hx' : x = s * Second + x mod Second) by (pose proof (Z.div_mod x Second); unfold Second in *; lia).
    pose proof (Z.div_mod s 60 ltac:(lia)) as Hs60. pose proof (Z.mod_pos_bound s 60 ltac:(lia)) as Hsm.
    specialize (Hs (s mod 60) ltac:(lia)).
    set (m := s / 60) in *. assert (Hm0 : 0 <= m) by (apply Z.div_pos; lia).
    pose proof (Z.div_mod m 60 ltac:(lia)) as Hm60. pose proof (Z.mod_pos_bound m 60 ltac:(lia)) as Hmm.
    destruct (0 <? m) eqn:Hm; zify_bool; [|by replace (_ + 0) with x in Hs by (unfold Second in *; lia)].
    assert (Hmin : forall v, 0 <= v ->
      spells (v * Minute + (s mod 60 * Second + x mod Second + 0)) (chars (fmtInt ("m" +:+ fmtInt w (s mod 60)) v))).
    { intros v Hv. rewrite fmtInt_chars, chars_app. by apply spells_int; [|apply unit_m|]. }
    set (h := m / 60) in *. assert (Hh0 : 0 <= h) by (apply Z.div_pos; lia).
    destruct (0 <? h) eqn:Hh; zify_bool.
    + rewrite fmtInt_chars, chars_app.
      replace x with (h * Hour + (m mod 60 * Minute + (s mod 60 * Second + x mod Second + 0))) at 1
        by (unfold Hour, Minute in *; lia).
      apply spells_int; [done|apply unit_h|]. apply Hmin. lia.
    + specialize (Hmin (m mod 60) ltac:(lia)).
      by replace (m mod 60 * Minute + _) with x in Hmin by (unfold Minute, Second in *; lia).
Qed.

(** ** The round trip *)

(** The text is neither empty nor the special case of the parser, and carries no
    sign. *)
Lemma durationBody_chars x : 0 <= x <= two63 ->
  exists c t, chars (durationBody x) = c :: t /\ isDigit c = true /\ t <> [].
Proof.
  intros Hx. destruct (durationBody_spells x) as (Hhd & _ & Hparse); [lia|].
  destruct (chars (durationBody x)) as [|c t] eqn:Hc.
  - specialize (Hparse "" 0%nat 0 ltac:(done) ltac:(done) ltac:(lia)). injection Hparse as Hx0.
    assert (x = 0) as -> by lia. done.
  - exists c, t. split; [done|]. split; [done|]. intros ->.
    specialize (Hparse "" 1%nat 0 ltac:(done) ltac:(done) ltac:(lia)). cbn in Hhd.
    pose proof (digitOf_range c Hhd).
    assert (Hli : leadingInt 0 [c] = Some (digitOf c, [])).
    { apply (leadingInt_spec 0 [c] []); [by constructor|done|done|]. cbn. unfold two63. lia. }
    cbn [parseTerms parseTerm] in Hparse. unfold parseTerm, parseNumber in Hparse.
    rewrite Hhd, orb_true_r, Hli in Hparse. cbn in Hparse. done.
Qed.

(** [ParseDuration] reads back what [String] prints, for every 64-bit duration:
    the smallest one, whose magnitude no [Duration] has, and all fractions. *)
Lemma ParseDuration_String d : in_i64 d -> ParseDuration (DurationString d) = Ok d.
Proof.
  intros Hd. unfold in_i64, minDuration, maxDuration in Hd.
  assert (Hx : 0 <= Z.abs d <= two63) by lia.
  destruct (durationBody_spells (Z.abs d)) as (_ & _ & Hparse); [lia|].
  destruct (durationBody_chars (Z.abs d) Hx) as (c & t & Hc & Hdig & Ht).
  rewrite Hc in Hparse. unfold ParseDuration, DurationString. cbv zeta.
  set (s := if d <? 0 then _ else _).
  specialize (Hparse s (length (c :: t)) 0 ltac:(done) ltac:(lia) ltac:(lia)).
  assert (Hl : match chars s with
               | a :: l => if Ascii.eqb a "-" then (true, l) else if Ascii.eqb a "+" then (false, l) else (false, chars s)
               | [] => (false, [])
               end = (d <? 0, c :: t)).
  { subst s. destruct (d <? 0).
    - rewrite chars_app, Hc. done.
    - rewrite Hc. destruct (Ascii.eqb_spec c "-") as [->|]; [done|]. by destruct (Ascii.eqb_spec c "+") as [->|]. }
  rewrite Hl. rewrite bool_decide_eq_false_2 by (intros [= -> ->]; done).
  rewrite bool_decide_eq_false_2 by done. rewrite Hparse. destruct (d <? 0) eqn:Hneg; zify_bool.
  - rewrite wrap64_id by (unfold in_i64, minDuration, maxDuration; lia). f_equal. lia.
  - rewrite (proj2 (Z.ltb_ge _ _)) by lia. f_equal. lia.
Qed.

(** Hence different durations print differently. *)
Lemma DurationString_inj d e : in_i64 d -> in_i64 e -> DurationString d = DurationString e -> d = e.
Proof. intros Hd He Heq. pose proof (ParseDuration_String d Hd) as H. rewrite Heq, ParseDuration_String in H; naive_solver. Qed.
