(* ===== verification/WarningKeys.v ===== *)
(** * Warnings by their duration

    The status of a lease remembers delivered warnings by the text of their
    duration.  The text determines the duration ([GoDuration]), so that the
    strings refine a set of durations: what is announced depends on the durations
    alone. *)

From S2P Require Import Prelude GoStrings GoTime GoDuration LeaseWarnings.

Section Keys.

Implicit Types (passes : list (time * time * list duration)) (warnings : list duration).

Lemma negatable_i64 w : negatable w -> in_i64 w.
Proof. unfold negatable, in_i64. lia. Qed.

(** A pass at [now] announces [w]: it is configured and its threshold is reached,
    on a lease that is still alive. *)
Definition threshold_reached (pass : time * time * list duration) (w : duration) : Prop :=
  let '(now, expiresAt, warnings) := pass in
  now < expiresAt /\ w ∈ warnings /\ expiresAt - w <= now.

(** The keys of a list of passes are those of the durations that were due. *)
Lemma deliverAll_keys passes delivered w :
  Forall (fun pass => Forall negatable pass.2) passes -> in_i64 w ->
  CanonicalWarningKey w ∈ deliverAll passes delivered <->
  CanonicalWarningKey w ∈ delivered \/ Exists (fun pass => threshold_reached pass w) passes.
Proof.
  intros Hp Hw. revert delivered. induction Hp as [|[[now e] ws] ps Hws Hp IH]; intros delivered.
  { cbn. split; [by left|]. intros [?|Hx]; [done|]. by inversion Hx. }
  cbn [deliverAll fold_left]. fold (deliverAll ps (deliverPending now e ws delivered)).
  rewrite IH, Exists_cons. unfold deliverPending at 1. rewrite fold_Mark_elem. cbn [snd] in Hws.
  destruct (Z.lt_ge_cases now e) as [Hn|Hn].
  - setoid_rewrite PendingWarnings_elem; [|done..]. split.
    + intros [[?|(x & (Hx & _ & Hdue) & Hkey)]|?]; [by left| |by right; right].
      right. left. rewrite Forall_forall in Hws. specialize (Hws x Hx).
      apply DurationString_inj in Hkey as ->; [|done|by apply negatable_i64]. done.
    + intros [?|[(_ & Hx & Hdue)|?]]; [by left; left| |by right]. left.
      destruct (decide (CanonicalWarningKey w ∈ delivered)); [by left|]. right. exists w. done.
  - assert (Hnil : PendingWarnings now e ws delivered = []) by by apply PendingWarnings_expired.
    rewrite Hnil. split.
    + intros [[?|(x & []%not_elem_of_nil & _)]|?]; [by left|by right; right].
    + intros [?|[(? & _)|?]]; [by left; left|lia|by right].
Qed.

(** Claim C38.  Every warning is announced exactly once.  After any number of
    passes from a fresh lease, at whatever times, deadlines and configured
    warnings, the warnings pending at an instant are precisely the configured ones
    whose threshold is reached and that were not due in an earlier pass: no warning
    hides another one, as their keys differ, and renewing a lease does not repeat
    those already given. *)
Theorem warnings_exactly_once passes (now expiresAt : time) warnings (w : duration) :
  Forall (fun pass => Forall negatable pass.2) passes -> Forall negatable warnings ->
  w ∈ PendingWarnings now expiresAt warnings (deliverAll passes []) <->
  threshold_reached (now, expiresAt, warnings) w /\ ~ Exists (fun pass => threshold_reached pass w) passes.
Proof.
  intros Hp Hws. cbn. destruct (Z.lt_ge_cases now expiresAt) as [Hn|Hn].
  - rewrite PendingWarnings_elem by done. unfold due. split.
    + intros (Hw & Hk & Hdue). split; [done|]. intros Hx. apply Hk, deliverAll_keys; [done| |by right].
      rewrite Forall_forall in Hws. by apply negatable_i64, Hws.
    + intros [(_ & Hw & Hdue) Hx]. split; [done|]. split; [|done]. intros Hk.
      apply deliverAll_keys in Hk as [[]%not_elem_of_nil|?]; [done|done|].
      rewrite Forall_forall in Hws. by apply negatable_i64, Hws.
  - assert (Hnil : PendingWarnings now expiresAt warnings (deliverAll passes []) = [])
      by by apply PendingWarnings_expired.
    rewrite Hnil, elem_of_nil. split; [done|]. lia.
Qed.

End Keys.

(** ** Witness *)

(** Half an hour after the hour's warning the one of ten minutes is still to come. *)
Lemma warnings_exactly_once_witness :
  10 * Minute ∈ PendingWarnings (115 * Minute) (2 * Hour) [10 * Minute; Hour]
    (deliverAll [(70 * Minute, 2 * Hour, [10 * Minute; Hour])] []).
Proof.
  apply (warnings_exactly_once [(70 * Minute, 2 * Hour, [10 * Minute; Hour])] (115 * Minute) (2 * Hour)
    [10 * Minute; Hour] (10 * Minute)).
  - repeat constructor; vm_compute; auto; discriminate.
  - repeat constructor; vm_compute; auto; discriminate.
  - split.
    + vm_compute. split_and!; [done|left|discriminate].
    + intros [(_ & _ & Hdue)|Hx%Exists_nil]%Exists_cons; [by vm_compute in Hdue|done].
Defined.
