(* ===== verification/CliBuild.v ===== *)
(** * The lease a user asks for (internal/cli/create.go, output.go)

    From the flags of [create] to an [EnvironmentLease], and the texts the
    commands share.  Flag parsing itself is cobra's. *)

From S2P Require Import Prelude GoStrings GoTime GoErrors Api Concrete Resources Policy LeaseExpiration GoText GoDuration.
From Stdlib Require Import Ascii.

(** [createOptions]. *)
Record createOptions := mkCreateOptions {
  o_ttl : duration;
  o_maxTTL : duration;
  o_idleTTL : duration;
  o_policy : string;
  o_owner : string;
  o_team : string;
  o_cpuRequest : string;
  o_memoryRequest : string;
  o_cpuLimit : string;
  o_memoryLimit : string;
  o_renewable : bool;
  o_defaultDeny : bool;
  o_generateName : string;
  o_namespaceName : string;
  o_wait : bool;
  o_timeout : duration;
  o_warnings : list string;
  o_clusterRef : string;
  o_selectors : list string
}.
#[export] Instance eta_createOptions : Eta createOptions :=
  fun r => mkCreateOptions r.(o_ttl) r.(o_maxTTL) r.(o_idleTTL) r.(o_policy) r.(o_owner) r.(o_team)
    r.(o_cpuRequest) r.(o_memoryRequest) r.(o_cpuLimit) r.(o_memoryLimit) r.(o_renewable) r.(o_defaultDeny)
    r.(o_generateName) r.(o_namespaceName) r.(o_wait) r.(o_timeout) r.(o_warnings) r.(o_clusterRef) r.(o_selectors).

(** The values of the flags that are not given. *)
Definition defaultCreateOptions : createOptions :=
  mkCreateOptions (8 * Hour) 0 0 "" "" "" "" "" "" "" true false "preview-" "" true (2 * Minute) [] "" [].

(** [resource.MustParse] of k8s.io/apimachinery: it panics on a bad quantity. *)
Class QuantityParser `{QuantityAPI} := {
  MustParse : string -> option Quantity
}.

(** A Go call that returns, fails, or panics. *)
Inductive outcome (A : Type) := Done (a : A) | Failed (err : error) | Panicked.
Arguments Done {A} a.
Arguments Failed {A} err.
Arguments Panicked {A}.

Definition obind {A B} (o : outcome A) (f : A -> outcome B) : outcome B :=
  match o with Done a => f a | Failed err => Failed err | Panicked => Panicked end.

(** [strings.Cut] at one byte. *)
Fixpoint cutByte (c : ascii) (l : list ascii) : option (list ascii * list ascii) :=
  match l with
  | [] => None
  | d :: l' =>
      if Ascii.eqb c d then Some ([], l')
      else match cutByte c l' with Some (k, v) => Some (d :: k, v) | None => None end
  end.

Definition CutEq (s : string) : option (string * string) :=
  match cutByte "=" (chars s) with Some (k, v) => Some (of_chars k, of_chars v) | None => None end.

Section Build.
Context `{QuantityParser}.

(** The [--warning] flags. *)
Fixpoint parseWarnings (ws : list string) : outcome (list duration) :=
  match ws with
  | [] => Done []
  | w :: ws =>
      match ParseDuration w with
      | Err err => Failed (ErrorWrap ("invalid --warning " +:+ quote w) err)
      | Ok d => obind (parseWarnings ws) (fun ds => Done (d :: ds))
      end
  end.

(** [if opts.x != "" { list[res] = resource.MustParse(opts.x) }]. *)
Definition setQuantity (res s : string) (m : gmap string Quantity) : outcome (gmap string Quantity) :=
  if is_empty s then Done m
  else match MustParse s with Some q => Done (<[res := q]> m) | None => Panicked end.

Definition buildQuota (opts : createOptions) : outcome (option QuotaSpec) :=
  if negb (is_empty opts.(o_cpuRequest)) || negb (is_empty opts.(o_memoryRequest))
     || negb (is_empty opts.(o_cpuLimit)) || negb (is_empty opts.(o_memoryLimit))
  then
    obind (setQuantity "cpu" opts.(o_cpuRequest) ∅) (fun requests =>
    obind (setQuantity "memory" opts.(o_memoryRequest) requests) (fun requests =>
    obind (setQuantity "cpu" opts.(o_cpuLimit) ∅) (fun limits =>
    obind (setQuantity "memory" opts.(o_memoryLimit) limits) (fun limits =>
    Done (Some (mkQuotaSpec requests limits))))))
  else Done None.

(** The [--selector] flags; a later one replaces an earlier one of its key. *)
Fixpoint parseSelectors (selectors : list string) (match_ : labels) : outcome labels :=
  match selectors with
  | [] => Done match_
  | s :: ss =>
      match CutEq s with
      | Some (k, v) =>
          if is_empty k then Failed (ErrorString ("invalid --selector " +:+ quote s +:+ " (want key=value)"))
          else parseSelectors ss (<[k := v]> match_)
      | None => Failed (ErrorString ("invalid --selector " +:+ quote s +:+ " (want key=value)"))
      end
  end.

(** [if d > 0 { field = &d }]. *)
Definition positiveDuration (d : duration) : option duration := if 0 <? d then Some d else None.

Definition BuildLease (name : string) (opts : createOptions) : outcome EnvironmentLease :=
  if (opts.(o_ttl) <=? 0) && is_empty opts.(o_policy) then
    Failed (ErrorString "--ttl must be greater than zero (or set --policy with a default)")
  else
    let maxTTL := if (opts.(o_maxTTL) =? 0) && (0 <? opts.(o_ttl)) then opts.(o_ttl) else opts.(o_maxTTL) in
    if (0 <? opts.(o_ttl)) && (0 <? maxTTL) && (maxTTL <? opts.(o_ttl)) then
      Failed (ErrorString "--max-ttl must be >= --ttl")
    else
      obind (parseWarnings opts.(o_warnings)) (fun warnings =>
      obind (buildQuota opts) (fun quota =>
      if negb (is_empty opts.(o_clusterRef)) && negb (bool_decide (opts.(o_selectors) = [])) then
        Failed (ErrorString "--cluster-ref and --selector are mutually exclusive")
      else
        obind (if bool_decide (opts.(o_selectors) = []) then Done None
               else obind (parseSelectors opts.(o_selectors) ∅) (fun match_ =>
                      Done (Some (mkPlacementSpec (Some (mkLabelSelector match_ [])))))) (fun placement =>
        Done (mkEnvironmentLease (emptyMeta <| m_Name := name |>)
          (mkEnvironmentLeaseSpec
             (if is_empty opts.(o_policy) then None else Some opts.(o_policy))
             (if is_empty opts.(o_clusterRef) then None else Some opts.(o_clusterRef))
             placement None
             (positiveDuration opts.(o_ttl)) (positiveDuration maxTTL) (positiveDuration opts.(o_idleTTL))
             (Some opts.(o_renewable)) warnings
             (mkOwnerSpec opts.(o_owner) opts.(o_team))
             (mkNamespaceSpec opts.(o_generateName) opts.(o_namespaceName) {["environment" := "preview"]} ∅)
             quota None
             (if opts.(o_defaultDeny) then Some (mkNetworkPolicySpec true) else None))
          emptyStatus)))).

End Build.

(** ** output.go *)

(** [int(d.Hours())] and [int(d.Minutes())] truncate; on a duration rounded to
    seconds the floating-point quotients fall short of the next integer. *)
Definition formatDuration (d : duration) : string :=
  if d <? 0 then "expired"
  else
    let d := Round d Second in
    if d <? Minute then DurationString d
    else
      let h := d / Hour in
      let m := (d / Minute) mod 60 in
      if 0 <? h then Itoa h +:+ "h" +:+ Itoa m +:+ "m" else Itoa m +:+ "m".

Definition isMachineOutput (format : string) : bool := String.eqb format "json" || String.eqb format "yaml".

(** ** What create accepts, and what it makes of it *)

Section Flags.
Context `{QuantityParser}.

Implicit Types (opts : createOptions).

Definition quantityFlags opts : list string :=
  [opts.(o_cpuRequest); opts.(o_memoryRequest); opts.(o_cpuLimit); opts.(o_memoryLimit)].

(** A quantity flag is left out or is a quantity. *)
Definition goodQuantity (s : string) : Prop := s <> "" -> is_Some (MustParse s).

Definition goodSelector (s : string) : Prop := exists k v, CutEq s = Some (k, v) /\ k <> "".

(** The flags that are checked before the quantities are parsed. *)
Definition goodLifetime opts : Prop :=
  (0 < opts.(o_ttl) \/ opts.(o_policy) <> "") /\
  (0 < opts.(o_ttl) -> 0 < opts.(o_maxTTL) -> opts.(o_ttl) <= opts.(o_maxTTL)) /\
  Forall (fun w => is_ok (ParseDuration w) = true) opts.(o_warnings).

Definition goodPlacement opts : Prop :=
  (opts.(o_clusterRef) = "" \/ opts.(o_selectors) = []) /\ Forall goodSelector opts.(o_selectors).

Lemma parseWarnings_spec ws :
  match parseWarnings ws with
  | Done ds => Forall2 (fun w d => ParseDuration w = Ok d) ws ds
  | Failed _ => ~ Forall (fun w => is_ok (ParseDuration w) = true) ws
  | Panicked => False
  end.
Proof.
  induction ws as [|w ws IH]; simpl; [constructor|]. destruct (ParseDuration w) as [d|err] eqn:Hw; simpl.
  - destruct (parseWarnings ws); simpl; [by constructor|by intros [_ ?]%Forall_cons|done].
  - intros [Hbad _]%Forall_cons. by rewrite Hw in Hbad.
Qed.

Lemma parsed_ok ws ds :
  Forall2 (fun w d => ParseDuration w = Ok d) ws ds -> Forall (fun w => is_ok (ParseDuration w) = true) ws.
Proof. induction 1 as [|w d ws ds Hw]; constructor; [by rewrite Hw|done]. Qed.

Lemma setQuantity_spec res s m :
  match setQuantity res s m with
  | Done _ => goodQuantity s
  | Failed _ => False
  | Panicked => ~ goodQuantity s
  end.
Proof.
  unfold setQuantity, goodQuantity. destruct (is_empty s) eqn:He.
  - by apply is_empty_true in He.
  - apply is_empty_false in He. destruct (MustParse s); [by eexists|]. intros Hx. by destruct (Hx He).
Qed.

(** The next [setQuantity] of the goal: it succeeds, or the flags are bad. *)
Ltac setQuantity_step :=
  match goal with
  | |- context [setQuantity ?r ?s ?m] =>
      let Hq := fresh "Hq" in
      pose proof (setQuantity_spec r s m) as Hq; destruct (setQuantity r s m); cbn [obind];
      [|done|by rewrite !Forall_cons; tauto]
  end.

Lemma buildQuota_spec opts :
  match buildQuota opts with
  | Done _ => Forall goodQuantity (quantityFlags opts)
  | Failed _ => False
  | Panicked => ~ Forall goodQuantity (quantityFlags opts)
  end.
Proof.
  unfold buildQuota. destruct (_ || _ || _ || _) eqn:Hb.
  - unfold quantityFlags. repeat setQuantity_step. cbn. by repeat constructor.
  - zify_bool. unfold quantityFlags, goodQuantity.
    repeat match goal with Hx : is_empty _ = true |- _ => apply is_empty_true in Hx; rewrite Hx end.
    by repeat constructor.
Qed.

Lemma parseSelectors_spec ss match_ :
  match parseSelectors ss match_ with
  | Done _ => Forall goodSelector ss
  | Failed _ => ~ Forall goodSelector ss
  | Panicked => False
  end.
Proof.
  revert match_. induction ss as [|s ss IH]; intros match_; simpl; [constructor|]. unfold goodSelector at 1.
  destruct (CutEq s) as [[k v]|] eqn:Hs.
  - destruct (is_empty k) eqn:Hk.
    + apply is_empty_true in Hk as ->. intros [(k & v' & Heq & Hne) _]%Forall_cons. congruence.
    + apply is_empty_false in Hk. specialize (IH (<[k:=v]> match_)).
      destruct (parseSelectors _ _); [constructor; [by exists k, v|done]|by intros [_ ?]%Forall_cons|done].
  - intros [(k & v & Heq & _) _]%Forall_cons. congruence.
Qed.

(** What a lease that [create] built says, flag by flag. *)
Record builtFrom (name : string) opts (l : EnvironmentLease) : Prop := {
  bf_name : l.(lease_Meta) = emptyMeta <| m_Name := name |>;
  bf_status : l.(lease_Status) = emptyStatus;
  bf_policy : l.(lease_Spec).(spec_PolicyRef) = if is_empty opts.(o_policy) then None else Some opts.(o_policy);
  bf_ttl : l.(lease_Spec).(spec_TTL) = positiveDuration opts.(o_ttl);
  bf_maxTTL : l.(lease_Spec).(spec_MaxTTL) =
    positiveDuration (if (opts.(o_maxTTL) =? 0) && (0 <? opts.(o_ttl)) then opts.(o_ttl) else opts.(o_maxTTL));
  bf_idle : l.(lease_Spec).(spec_IdleTTL) = positiveDuration opts.(o_idleTTL);
  bf_renewable : l.(lease_Spec).(spec_Renewable) = Some opts.(o_renewable);
  bf_warnings : Forall2 (fun w d => ParseDuration w = Ok d) opts.(o_warnings) l.(lease_Spec).(spec_Warnings);
  bf_namespace : l.(lease_Spec).(spec_Namespace) =
    mkNamespaceSpec opts.(o_generateName) opts.(o_namespaceName) {["environment" := "preview"]} ∅;
  bf_network : l.(lease_Spec).(spec_NetworkPolicy) =
    if opts.(o_defaultDeny) then Some (mkNetworkPolicySpec true) else None;
  bf_placement : hasClusterRef l.(lease_Spec) = false \/ l.(lease_Spec).(spec_Placement) = None
}.

(** The conditions of [BuildLease] as propositions. *)
Definition cappedTTL opts : duration :=
  if (opts.(o_maxTTL) =? 0) && (0 <? opts.(o_ttl)) then opts.(o_ttl) else opts.(o_maxTTL).

Lemma ttl_check opts :
  (opts.(o_ttl) <=? 0) && is_empty opts.(o_policy) = false <-> 0 < opts.(o_ttl) \/ opts.(o_policy) <> "".
Proof. by rewrite andb_false_iff, Z.leb_gt, is_empty_false. Qed.

Lemma order_check opts :
  (0 <? opts.(o_ttl)) && (0 <? cappedTTL opts) && (cappedTTL opts <? opts.(o_ttl)) = false <->
  (0 < opts.(o_ttl) -> 0 < opts.(o_maxTTL) -> opts.(o_ttl) <= opts.(o_maxTTL)).
Proof.
  unfold cappedTTL. rewrite !andb_false_iff, !Z.ltb_ge.
  destruct (opts.(o_maxTTL) =? 0) eqn:E1, (0 <? opts.(o_ttl)) eqn:E2; cbn; zify_bool; lia.
Qed.

Lemma placement_check opts :
  negb (is_empty opts.(o_clusterRef)) && negb (bool_decide (opts.(o_selectors) = [])) = false <->
  opts.(o_clusterRef) = "" \/ opts.(o_selectors) = [].
Proof. by rewrite andb_false_iff, !negb_false_iff, is_empty_true, bool_decide_eq_true. Qed.

(** Every outcome of [BuildLease], with what it says of the flags. *)
Lemma BuildLease_outcome name opts :
  match BuildLease name opts with
  | Done l => goodLifetime opts /\ Forall goodQuantity (quantityFlags opts) /\ goodPlacement opts /\
      builtFrom name opts l
  | Panicked => goodLifetime opts /\ ~ Forall goodQuantity (quantityFlags opts)
  | Failed _ => ~ goodLifetime opts \/
      (Forall goodQuantity (quantityFlags opts) /\ ~ goodPlacement opts)
  end.
Proof.
  unfold BuildLease. cbv zeta. fold (cappedTTL opts).
  destruct (_ && is_empty (o_policy opts)) eqn:Ht.
  { left. intros [?%ttl_check _]. congruence. } apply ttl_check in Ht.
  destruct (_ && (cappedTTL opts <? _)) eqn:Ho.
  { left. intros (_ & Hle & _). apply (proj2 (order_check opts)) in Hle. congruence. } rewrite order_check in Ho.
  pose proof (parseWarnings_spec opts.(o_warnings)) as Hw.
  destruct (parseWarnings _) as [ws|err|]; cbn [obind]; [|by left; intros (_ & _ & ?)|done].
  assert (Hl : goodLifetime opts) by (split_and!; [done..|by eapply parsed_ok]).
  pose proof (buildQuota_spec opts) as Hq. destruct (buildQuota opts) as [q|err|]; cbn [obind]; [|done|done].
  destruct (negb (is_empty (o_clusterRef opts)) && _) eqn:Hx.
  { right. split; [done|]. intros [?%placement_check _]. congruence. } apply placement_check in Hx.
  case_bool_decide as Hsel; cbn [obind].
  - unfold goodPlacement. rewrite Hsel. split_and!; [done|done|by right|done|]. split; try done. by right.
  - destruct Hx as [Hx|Hx]; [|done]. pose proof (parseSelectors_spec opts.(o_selectors) ∅) as Hs.
    destruct (parseSelectors _ _) as [m|err|]; cbn [obind]; [|right; split; [done|by intros [_ ?]]|done].
    split_and!; try done; [split; [by left|done]|]. split; try done. left.
    unfold hasClusterRef. cbn. by rewrite Hx.
Qed.

Lemma within_unbounded d : 0 < d -> within None d.
Proof. by split. Qed.

(** An optional duration flag without a policy: its value, or 0. *)
Lemma positiveDuration_resolves d : duration_resolves (positiveDuration d) None false (Z.max 0 d).
Proof.
  unfold duration_resolves, positiveDuration. destruct (0 <? d) eqn:Hd; zify_bool; cbn.
  - split; [lia|by apply within_unbounded].
  - split; [done|lia].
Qed.

(** The flags of a good lifetime, resolved without a policy. *)
Lemma built_resolves name opts l :
  goodLifetime opts -> builtFrom name opts l -> opts.(o_policy) = "" ->
  exists r, Resolve l.(lease_Spec) None = Ok r /\
    r.(r_TTL) = opts.(o_ttl) /\
    r.(r_MaxTTL) = (if 0 <? opts.(o_maxTTL) then opts.(o_maxTTL) else opts.(o_ttl)) /\
    r.(r_IdleTTL) = Z.max 0 opts.(o_idleTTL) /\
    r.(r_Renewable) = opts.(o_renewable) /\ r.(r_DefaultDeny) = opts.(o_defaultDeny) /\
    r.(r_Quota) = l.(lease_Spec).(spec_Quota).
Proof.
  intros ([Hpos|Hp] & Hord & _) [_ _ _ Ht Hm Hi Hr _ _ Hn _] Hpol; [|done]. fold (cappedTTL opts) in Hm.
  set (mx := if 0 <? o_maxTTL opts then o_maxTTL opts else o_ttl opts).
  assert (Hmx : opts.(o_ttl) <= mx) by (subst mx; destruct (0 <? _) eqn:?; zify_bool; lia).
  exists (mkResolved "" opts.(o_ttl) mx (Z.max 0 opts.(o_idleTTL)) opts.(o_renewable)
            l.(lease_Spec).(spec_Quota) l.(lease_Spec).(spec_NetworkPolicy) opts.(o_defaultDeny)).
  split; [|done]. apply Resolve_Ok. split; cbn; try done.
  - rewrite Ht. unfold positiveDuration. rewrite (proj2 (Z.ltb_lt _ _) Hpos). by split; [|apply within_unbounded].
  - exists (Z.max 0 (cappedTTL opts)). rewrite Hm. split; [apply positiveDuration_resolves|].
    unfold cappedTTL. subst mx. repeat case_match; zify_bool; lia.
  - rewrite Hi. apply positiveDuration_resolves.
  - by rewrite Hr.
  - rewrite Hn. by destruct (o_defaultDeny opts).
Qed.

(** What [ValidateSpec] still looks at in a lease that [create] built. *)
Lemma built_valid name opts l :
  builtFrom name opts l ->
  ValidateSpec l = None <->
  Forall (fun w => 0 < w) l.(lease_Spec).(spec_Warnings) /\ NoDup l.(lease_Spec).(spec_Warnings) /\
  ValidateNamespaceSpec l.(lease_Spec).(spec_Namespace) = None.
Proof.
  intros [_ Hst _ _ _ _ _ _ _ _ Hpl]. unfold ValidateSpec. rewrite Hst. cbn.
  replace (_ && _) with false by (destruct Hpl as [-> | ->]; [done|by rewrite andb_false_r]).
  pose proof (ValidateWarnings_None l.(lease_Spec).(spec_Warnings)) as Hw.
  destruct (ValidateWarnings _); [naive_solver|]. destruct (ValidateNamespaceSpec _); naive_solver.
Qed.

(** Durations as the program prints them are read back. *)
Lemma printed_warnings ds ws :
  Forall in_i64 ds -> Forall2 (fun w d => ParseDuration w = Ok d) (DurationString <$> ds) ws -> ws = ds.
Proof.
  intros Hds. revert ws. induction Hds as [|d ds Hd Hds IH]; intros ws; cbn.
  - by intros ->%Forall2_nil_inv_l.
  - intros (w & ws' & Hw & Hws & ->)%Forall2_cons_inv_l. rewrite ParseDuration_String in Hw by done.
    injection Hw as <-. f_equal. by apply IH.
Qed.

(** What [create] makes of its flags.  A lease is built exactly when the
    TTL is positive or a policy is named, the maximum is not below the TTL, every
    warning is a duration, every quantity parses, and the placement is one cluster
    or a list of [key=value] selectors, not both; a quantity that does not parse
    panics instead, once the other flags before it are in order.  The lease built
    carries the flags one by one, with the TTL as its maximum when none is given; it
    never names both a cluster and a selector, so that the controller's validation
    is left with the namespace and with warnings that are positive and distinct,
    which [create] does not check; warnings given as the program prints durations
    arrive unchanged; and without a policy it always resolves, to the lifetime of
    the flags. *)
Theorem BuildLease_correct name opts :
  ((exists l, BuildLease name opts = Done l) <->
     goodLifetime opts /\ Forall goodQuantity (quantityFlags opts) /\ goodPlacement opts) /\
  (BuildLease name opts = Panicked <-> goodLifetime opts /\ ~ Forall goodQuantity (quantityFlags opts)) /\
  forall l, BuildLease name opts = Done l ->
    builtFrom name opts l /\
    (ValidateSpec l = None <->
       Forall (fun w => 0 < w) l.(lease_Spec).(spec_Warnings) /\ NoDup l.(lease_Spec).(spec_Warnings) /\
       ValidateNamespaceSpec l.(lease_Spec).(spec_Namespace) = None) /\
    (forall ds, Forall in_i64 ds -> opts.(o_warnings) = DurationString <$> ds ->
       l.(lease_Spec).(spec_Warnings) = ds) /\
    (opts.(o_policy) = "" -> exists r, Resolve l.(lease_Spec) None = Ok r /\
       r.(r_TTL) = opts.(o_ttl) /\
       r.(r_MaxTTL) = (if 0 <? opts.(o_maxTTL) then opts.(o_maxTTL) else opts.(o_ttl)) /\
       r.(r_IdleTTL) = Z.max 0 opts.(o_idleTTL) /\
       r.(r_Renewable) = opts.(o_renewable) /\ r.(r_DefaultDeny) = opts.(o_defaultDeny) /\
       r.(r_Quota) = l.(lease_Spec).(spec_Quota)).
Proof.
  pose proof (BuildLease_outcome name opts) as Ho.
  destruct (BuildLease name opts) as [l|err|]; (split_and!; [|naive_solver|]); try naive_solver.
  intros l' [= <-]. destruct Ho as (Hl & _ & _ & Hb). split_and!; [done|by apply (built_valid name opts)| |].
  - intros ds Hds Heq. apply printed_warnings; [done|]. rewrite <- Heq. apply Hb.
  - by apply (built_resolves name opts).
Qed.

End Flags.
