(* ===== verification/Cli.v ===== *)
(** * The commands of the client (internal/cli)

    create, extend, touch, expire, get, list and cluster, each from its arguments
    on.  The client of the kubeconfig is [HubClient].  A command that only reads
    returns the lines it prints; what the others print besides is left out, and so
    is the alignment of columns: a table is the rows given to its writer. *)

From S2P Require Import Prelude GoStrings GoTime GoErrors Api LeaseConditions Policy LeaseExpiration.
From S2P Require Import Programs Kube TargetController CliBuild.
From Stdlib Require Import Ascii.

(** The text of a phase. *)
Definition LeasePhaseString (p : LeasePhase) : string :=
  match p with
  | LeasePhaseUnset => ""
  | LeasePhasePending => "Pending"
  | LeasePhaseProvisioning => "Provisioning"
  | LeasePhaseActive => "Active"
  | LeasePhaseExpiring => "Expiring"
  | LeasePhaseCleaning => "Cleaning"
  | LeasePhaseExpired => "Expired"
  | LeasePhaseFailed => "Failed"
  end.

(** The JSON and YAML serializers of apimachinery. *)
Class Serializer := {
  encodeJSON : forall A : Type, A -> list string * option error;
  encodeYAML : forall A : Type, A -> list string * option error
}.

Definition printObject `{Serializer} {A} (obj : A) (format : string) : list string * option error :=
  if String.eqb format "json" then encodeJSON A obj
  else if String.eqb format "yaml" then encodeYAML A obj
  else ([], Some (ErrorString ("unsupported output format " +:+ quote format))).

(** [%v] of a [map[string]string]: fmt sorts the keys. *)
Definition key_le (a b : string * string) : Prop := String.leb a.1 b.1 = true.
#[export] Instance key_le_dec a b : Decision (key_le a b).
Proof. unfold key_le. apply _. Defined.

Definition mapText (m : labels) : string :=
  "map[" +:+ String.concat " " ((fun kv => kv.1 +:+ ":" +:+ kv.2) <$> merge_sort key_le (map_to_list m)) +:+ "]".

Section Commands.
Context `{QuantityParser} `{RetryAPI} `{ConditionsAPI} `{Serializer}.

(** ** create.go *)

Definition conditionMessage (leaseObj : EnvironmentLease) (condType : string) : string :=
  match find_first (fun c => String.eqb c.(c_Type) condType) leaseObj.(lease_Status).(st_Conditions) with
  | Some c => c.(c_Message)
  | None => "unknown failure"
  end.

(** The loop that waits for the environment; [None] when the fuel ends. *)
Fixpoint waitActive (fuel : nat) (name : string) (deadline : time) : prog kube (option (outcome unit)) :=
  match fuel with
  | O => Ret None
  | S fuel =>
      (t <- call WallClock ;;
       if Before t deadline then
         g <- cl_Get HubClient KLease (named name) ;;
         match g with
         | Err err => Ret (Some (Failed err))
         | Ok current =>
             let phase := current.(lease_Status).(st_Phase) in
             if bool_decide (phase = LeasePhaseActive) || bool_decide (phase = LeasePhaseExpiring) then
               when (bool_decide (is_Some current.(lease_Status).(st_ExpiresAt))) (_ <- call WallClock ;; Ret tt) ;;
               Ret (Some (Done tt))
             else if bool_decide (phase = LeasePhaseFailed) then
               Ret (Some (Failed (ErrorString ("lease failed: " +:+ conditionMessage current ConditionReady))))
             else
               call (Sleep Second) ;;
               waitActive fuel name deadline
         end
       else Ret (Some (Failed (ErrorString ("timed out waiting for EnvironmentLease/" +:+ name
                                              +:+ " to become Active")))))%prog
  end.

Definition runCreate (fuel : nat) (name : string) (opts : createOptions) : prog kube (option (outcome unit)) :=
  match BuildLease name opts with
  | Failed err => Ret (Some (Failed err))
  | Panicked => Ret (Some Panicked)
  | Done leaseObj =>
      (c <- cl_Create HubClient KLease leaseObj ;;
       match c with
       | Err err => Ret (Some (Failed (ErrorWrap "create EnvironmentLease" err)))
       | Ok _ =>
           if negb opts.(o_wait) then Ret (Some (Done tt))
           else
             t <- call WallClock ;;
             waitActive fuel name (Add t opts.(o_timeout))
       end)%prog
  end.

(** ** extend.go *)

Definition extendAttempt (name : string) (forDuration : duration) (_ : unit) : prog kube (unit * option error) :=
  (g <- cl_Get HubClient KLease (named name) ;;
   match g with
   | Err err => Ret (tt, Some err)
   | Ok leaseObj =>
       let st := leaseObj.(lease_Status) in
       match st.(st_CreatedAt), st.(st_ExpiresAt), st.(st_MaximumExpiresAt) with
       | Some createdAt, Some expiresAt, Some maximumExpiresAt =>
           match ComputeExtendedTTL createdAt expiresAt maximumExpiresAt forDuration
                   (IsRenewable leaseObj.(lease_Spec)) with
           | Err err => Ret (tt, Some err)
           | Ok (newTTL, newExpires) =>
               let patched := leaseObj <| lease_Spec := leaseObj.(lease_Spec) <| spec_TTL := Some newTTL |> |> in
               p <- cl_Patch HubClient KLease patched leaseObj ;;
               match p with
               | Err err => Ret (tt, Some err)
               | Ok _ => _ <- call WallClock ;; Ret (tt, None)
               end
           end
       | _, _, _ => Ret (tt, Some (ErrorString ("lease " +:+ name +:+ " has not been initialized by the controller yet")))
       end
   end)%prog.

Definition runExtend (name : string) (forDuration : duration) : prog kube (option error) :=
  (r <- RetryOnConflict (extendAttempt name forDuration) tt ;; Ret r.2)%prog.

(** ** touch.go *)

Definition idleTTLFromLease (leaseObj : EnvironmentLease) : duration :=
  let specTTL := default 0 leaseObj.(lease_Spec).(spec_IdleTTL) in
  match leaseObj.(lease_Status).(st_Effective) with
  | Some eff => match eff.(eff_IdleTTL) with Some d => d | None => specTTL end
  | None => specTTL
  end.

(** [touch] refuses the object the server stored if its hard expiration is not the
    one that was read. *)
Definition hardMoved (beforeHard : option time) (leaseObj : EnvironmentLease) : bool :=
  match beforeHard, leaseObj.(lease_Status).(st_ExpiresAt) with
  | Some b, Some e => negb (e =? b)
  | _, _ => false
  end.

Definition cliTouchAttempt (name : string) (now : time) (_ : unit) : prog kube (unit * option error) :=
  (g <- cl_Get HubClient KLease (named name) ;;
   match g with
   | Err err => Ret (tt, Some err)
   | Ok leaseObj =>
       let idleTTL := idleTTLFromLease leaseObj in
       let beforeHard := leaseObj.(lease_Status).(st_ExpiresAt) in
       let '(leaseObj, err) := RecordActivity leaseObj now idleTTL in
       match err with
       | Some err => Ret (tt, Some err)
       | None =>
           u <- cl_StatusUpdate HubClient KLease leaseObj ;;
           match u with
           | Err err => Ret (tt, Some err)
           | Ok leaseObj =>
               if hardMoved beforeHard leaseObj
               then Ret (tt, Some (ErrorString "internal error: touch must not change hard expiresAt"))
               else Ret (tt, None)
           end
       end
   end)%prog.

Definition runTouch (name : string) (now : time) : prog kube (option error) :=
  (r <- RetryOnConflict (cliTouchAttempt name now) tt ;; Ret r.2)%prog.

(** ** expire.go *)

Definition runExpire (name : string) : prog kube (option error) :=
  (g <- cl_Get HubClient KLease (named name) ;;
   match g with
   | Err err => Ret (Some err)
   | Ok leaseObj =>
       d <- cl_Delete HubClient KLease leaseObj ;;
       Ret (match d with Some err => Some (ErrorWrap "delete EnvironmentLease" err) | None => None end)
   end)%prog.

(** ** cluster.go: disable and drain *)

Definition runClusterSetEnabled (name : string) (enabled : bool) : prog kube (option error) :=
  (g <- cl_Get HubClient KTarget (named name) ;;
   match g with
   | Err err => Ret (Some err)
   | Ok target =>
       u <- cl_Update HubClient KTarget
              (target <| ct_Spec := target.(ct_Spec) <| ts_Enabled := Some enabled |> |>) ;;
       Ret (err_of u)
   end)%prog.

(** The leases [drain] lists as remaining on a target. *)
Definition remainsOn (name : string) (l : EnvironmentLease) : bool :=
  match l.(lease_Status).(st_Cluster) with
  | Some c => String.eqb c.(cs_Name) name && negb (bool_decide (l.(lease_Status).(st_Phase) = LeasePhaseExpired))
  | None => false
  end.

Definition drainCluster (name : string) : prog kube (result (list EnvironmentLease)) :=
  (e <- runClusterSetEnabled name false ;;
   match e with
   | Some err => Ret (Err err)
   | None =>
       ls <- cl_List HubClient KLease None ;;
       Ret (match ls with Err err => Err err | Ok items => Ok (filter (fun l => remainsOn name l = true) items) end)
   end)%prog.

(** ** get.go *)

Definition line (label value : string) : list string := [label +:+ value].
Definition lineIf (b : bool) (label value : string) : list string := if b then line label value else [].
Definition lineAt (t : option time) (label : string) (value : time -> string) : list string :=
  match t with Some t => line label (value t) | None => [] end.

Definition leaseLines (now : time) (leaseObj : EnvironmentLease) : list string :=
  let spec := leaseObj.(lease_Spec) in
  let st := leaseObj.(lease_Status) in
  let cluster := match st.(st_Cluster) with Some c => c.(cs_Name) | None => "" end in
  let clusterRef := default "" spec.(spec_ClusterRef) in
  let until t := "in " +:+ formatDuration (Sub t now) in
  let since t := formatDuration (Sub now t) +:+ " ago" in
  line "Name:               " (lease_Name leaseObj) ++
  line "Namespace:          " st.(st_Namespace) ++
  lineIf (negb (is_empty cluster)) "Cluster:            " cluster ++
  lineIf (negb (is_empty clusterRef)) "ClusterRef:         " clusterRef ++
  match spec.(spec_Placement) ≫= pl_Selector with
  | Some sel => line "Placement:          " (mapText sel.(ls_MatchLabels))
  | None => []
  end ++
  line "Owner:              " spec.(spec_Owner).(ow_Name) ++
  line "Team:               " spec.(spec_Owner).(ow_Team) ++
  line "Status:             " (LeasePhaseString st.(st_Phase)) ++
  lineAt st.(st_CreatedAt) "Created:            " since ++
  lineAt st.(st_ExpiresAt) "Hard expires:       " until ++
  lineAt st.(st_IdleExpiresAt) "Idle expires:       " until ++
  lineAt st.(st_EffectiveExpiresAt) "Effective expires:  " until ++
  lineAt st.(st_LastActivityAt) "Last activity:      " since ++
  lineIf (negb (bool_decide (st.(st_ExpirationReason) = ExpirationReasonUnset)))
    "Expiration reason:  " (ExpirationReasonString st.(st_ExpirationReason)) ++
  lineAt st.(st_MaximumExpiresAt) "Maximum expiration: " until ++
  line "Renewable:          " (if IsRenewable spec then "yes" else "no").

Definition runGet (output name : string) : prog kube (list string * option error) :=
  (g <- cl_Get HubClient KLease (named name) ;;
   match g with
   | Err err => Ret ([], Some err)
   | Ok leaseObj =>
       if isMachineOutput output then Ret (printObject leaseObj output)
       else
         now <- call WallClock ;;
         Ret (leaseLines now leaseObj, None)
   end)%prog.

(** ** list.go *)

Definition leaseRow (now : time) (item : EnvironmentLease) : list string :=
  let st := item.(lease_Status) in
  let ow := item.(lease_Spec).(spec_Owner) in
  let owner := if is_empty ow.(ow_Name) then ow.(ow_Team) else ow.(ow_Name) in
  let expires := match st.(st_ExpiresAt) with Some t => formatDuration (Sub t now) | None => "-" end in
  let phase := if is_empty (LeasePhaseString st.(st_Phase)) then "Pending" else LeasePhaseString st.(st_Phase) in
  let cluster := match st.(st_Cluster) with
                 | Some c => if is_empty c.(cs_Name) then "-" else c.(cs_Name)
                 | None => "-"
                 end in
  [lease_Name item; cluster; st.(st_Namespace); owner; expires; phase].

Definition noLeases : list (list string) :=
  [["No active EnvironmentLeases found."]; [""]; ["Create one with:"]; ["  kubectl kubelease create demo --ttl 30m"]].

(** The rows of the table, or what the serializer printed. *)
Definition runList (output : string) : prog kube (list (list string) * option error) :=
  (ls <- cl_List HubClient KLease None ;;
   match ls with
   | Err err => Ret ([], Some (ErrorWrap "list EnvironmentLeases" err))
   | Ok items =>
       if isMachineOutput output then
         let '(lines, err) := printObject items output in Ret ((fun l => [l]) <$> lines, err)
       else if bool_decide (length items = 0%nat) then Ret (noLeases, None)
       else
         now <- call WallClock ;;
         Ret (["NAME"; "CLUSTER"; "NAMESPACE"; "OWNER"; "EXPIRES IN"; "STATUS"] :: (leaseRow now <$> items), None)
   end)%prog.

(** ** cluster.go: list and get *)

Definition readyText (t : ClusterTarget) : string := if isReady t then "True" else "False".

Definition targetRow (t : ClusterTarget) : list string :=
  let lbls := SchedulingLabels t in
  let region := get lbls "kubelease.io/region" in
  let region := if is_empty region then get lbls "region" else region in
  let active := match t.(ct_Status).(tst_Capacity) with Some c => c.(cap_ActiveLeases) | None => 0 end in
  [t.(ct_Meta).(m_Name); readyText t; bool_string (IsEnabled t.(ct_Spec)); region; Itoa active].

Definition noTargets : list (list string) :=
  [["No ClusterTargets found."]; [""];
   ["Register a remote cluster, or omit placement to use the local cluster."]; ["See docs/multicluster.md"]].

Definition runClusterList (output : string) : prog kube (list (list string) * option error) :=
  (ls <- cl_List HubClient KTarget None ;;
   match ls with
   | Err err => Ret ([], Some err)
   | Ok items =>
       if isMachineOutput output then
         let '(lines, err) := printObject items output in Ret ((fun l => [l]) <$> lines, err)
       else if bool_decide (length items = 0%nat) then Ret (noTargets, None)
       else Ret (["NAME"; "READY"; "ENABLED"; "REGION"; "ACTIVE LEASES"] :: (targetRow <$> items), None)
   end)%prog.

(** The labels come in the undefined order of a Go map. *)
Definition targetLines (target : ClusterTarget) : list string :=
  line "Name:               " target.(ct_Meta).(m_Name) ++
  line "Ready:              " (readyText target) ++
  line "Enabled:            " (bool_string (IsEnabled target.(ct_Spec))) ++
  line "Kubernetes version: " target.(ct_Status).(tst_KubernetesVersion) ++
  match target.(ct_Status).(tst_Capacity) with
  | Some c =>
      line "Active leases:      " (Itoa c.(cap_ActiveLeases)) ++
      match c.(cap_MaxLeases) with
      | Some mx => line "Max leases:         " (Itoa mx +:+ " (soft)")
      | None => []
      end
  | None => []
  end ++
  let lbls := SchedulingLabels target in
  if bool_decide (size lbls = 0%nat) then []
  else "Scheduling labels:" :: ((fun kv => "  " +:+ kv.1 +:+ "=" +:+ kv.2) <$> map_to_list lbls).

Definition runClusterGet (output name : string) : prog kube (list string * option error) :=
  (g <- cl_Get HubClient KTarget (named name) ;;
   match g with
   | Err err => Ret ([], Some err)
   | Ok target =>
       if isMachineOutput output then Ret (printObject target output) else Ret (targetLines target, None)
   end)%prog.

(** ** root.go: the command tree *)

Inductive command :=
  | CmdCreate (name : string) (opts : createOptions)
  | CmdList
  | CmdGet (name : string)
  | CmdClusterList
  | CmdClusterGet (name : string)
  | CmdClusterDisable (name : string)
  | CmdClusterDrain (name : string)
  | CmdExtend (name : string) (forDuration : duration)
  | CmdTouch (name : string)
  | CmdExpire (name : string).

(** How the process ends: exit code 0, exit code 1, a panic, or (out of fuel) not yet. *)
Inductive exit := ExitOK | ExitError (err : error) | ExitPanic | StillRunning.

Definition exitOf (err : option error) : exit := match err with Some err => ExitError err | None => ExitOK end.

Definition exitOfOutcome (o : option (outcome unit)) : exit :=
  match o with
  | Some (Done _) => ExitOK
  | Some (Failed err) => ExitError err
  | Some Panicked => ExitPanic
  | None => StillRunning
  end.

(** The [RunE] of each command, from the client on. *)
Definition runCommand (fuel : nat) (output : string) (cmd : command) : prog kube exit :=
  match cmd with
  | CmdCreate name opts => (o <- runCreate fuel name opts ;; Ret (exitOfOutcome o))%prog
  | CmdList => (r <- runList output ;; Ret (exitOf r.2))%prog
  | CmdGet name => (r <- runGet output name ;; Ret (exitOf r.2))%prog
  | CmdClusterList => (r <- runClusterList output ;; Ret (exitOf r.2))%prog
  | CmdClusterGet name => (r <- runClusterGet output name ;; Ret (exitOf r.2))%prog
  | CmdClusterDisable name => (e <- runClusterSetEnabled name false ;; Ret (exitOf e))%prog
  | CmdClusterDrain name => (r <- drainCluster name ;; Ret (exitOf (err_of r)))%prog
  | CmdExtend name forDuration => (e <- runExtend name forDuration ;; Ret (exitOf e))%prog
  | CmdTouch name => (now <- call WallClock ;; e <- runTouch name now ;; Ret (exitOf e))%prog
  | CmdExpire name => (e <- runExpire name ;; Ret (exitOf e))%prog
  end.

End Commands.
