(* ===== verification/WebhookNames.v ===== *)
(** * Pull requests and lease names (internal/sourcewebhook/github_identity.go)

    A pull request is turned into the name of a lease and into labels: both have
    to be DNS-1123 labels, and the name has to tell pull requests apart. *)

From S2P Require Import Prelude GoStrings GoErrors Api Sha GoText.
From Stdlib Require Import Ascii.

(** [GitHubPRRef]. *)
Record GitHubPRRef := mkGitHubPRRef {
  pr_Owner : string;
  pr_Repo : string;
  pr_Number : Z;
  pr_SHA : string;
  pr_Branch : string;
  pr_Sender : string
}.

Definition FullName (r : GitHubPRRef) : string := r.(pr_Owner) +:+ "/" +:+ r.(pr_Repo).

(** The class of [nonDNSLabel], negated: [a-z0-9-]. *)
Definition labelByte (c : ascii) : bool :=
  ((97 <=? code c) && (code c <=? 122))%N || isDigit c || Ascii.eqb c "-".

Definition dnsLabel (s : string) : string :=
  let s := ToLower (TrimSpace s) in
  let l := replaceByte "_" "-" (chars s) in
  let l := replaceRuns labelByte "-" false l in
  let l := trimByte "-" l in
  of_chars (squeeze (length l) "-" l).

(** Only applied to results of [dnsLabel], which are ASCII: [unicode.IsLower] and
    [unicode.IsDigit] are the ASCII classes there. *)
Definition isDNS1123Label (s : string) : bool :=
  let l := chars s in
  if (String.length s =? 0)%nat || (63 <? String.length s)%nat then false
  else if bool_decide (head l = Some "-"%char) || bool_decide (last l = Some "-"%char) then false
  else forallb labelByte l.

Definition shortHash (s : string) : string :=
  String.substring 0 8 (EncodeToString (Sum1 (bytes_of_string s))).

Definition trimTo63 (s : string) : string :=
  if (String.length s <=? 63)%nat then s else TrimByte "-" (String.substring 0 63 s).

Definition LeaseName (ref : GitHubPRRef) : string :=
  let repo := dnsLabel ref.(pr_Repo) in
  let repo := if is_empty repo then "repo" else repo in
  let suffix := "-pr-" +:+ Itoa ref.(pr_Number) in
  let base := repo +:+ suffix in
  if (String.length base <=? 63)%nat && isDNS1123Label base then base
  else
    let hash := shortHash (FullName ref +:+ "#" +:+ Itoa ref.(pr_Number)) in
    let maxRepo := 63 - Z.of_nat (String.length suffix) - 1 - Z.of_nat (String.length hash) in
    if maxRepo <? 1 then trimTo63 (hash +:+ suffix)
    else
      let shortRepo :=
        if maxRepo <? Z.of_nat (String.length repo)
        then TrimByte "-" (String.substring 0 (Z.to_nat maxRepo) repo) else repo in
      let shortRepo := if is_empty shortRepo then "r" else shortRepo in
      trimTo63 (shortRepo +:+ "-" +:+ hash +:+ suffix).

(** One annotation that looks like it carries a secret. *)
Definition secretLike (kv : string * string) : bool :=
  let lk := ToLower kv.1 in
  let lv := ToLower kv.2 in
  Contains lk "token" || Contains lk "secret" || Contains lk "password" || Contains lv "ghp_".

(** Ranging over a Go map has no defined order; only the key the message names
    depends on it. *)
Definition AssertNoGitHubSecretInSpec (annotations : labels) : option error :=
  match find_first secretLike (map_to_list annotations) with
  | Some (k, _) => Some (ErrorString ("refusing to store secret-like annotation " +:+ quote k +:+ " on lease"))
  | None => None
  end.

Example LeaseName_plain : LeaseName (mkGitHubPRRef "acme" "My_Repo" 42 "" "" "") = "my-repo-pr-42".
Proof. vm_compute. reflexivity. Qed.

Example LeaseName_hashed :
  LeaseName (mkGitHubPRRef "acme" "a-very-long-repository-name-that-does-not-fit-into-a-dns-label" 7 "" "" "") =
  "a-very-long-repository-name-that-does-not-fit-int-" +:+
    shortHash "acme/a-very-long-repository-name-that-does-not-fit-into-a-dns-label#7" +:+ "-pr-7".
Proof. vm_compute. reflexivity. Qed.

(** ** Lemmas *)

Notation dash := ("-"%char) (only parsing).

Lemma labelByte_dash : labelByte dash = true.
Proof. done. Qed.

Lemma labelByte_digit c : isDigit c = true -> labelByte c = true.
Proof. unfold labelByte. intros ->. by rewrite orb_true_r. Qed.

Lemma digit_not_dash c : isDigit c = true -> c <> dash.
Proof. by intros Hc ->. Qed.

Lemma labelByte_hex v : (v < 16)%N -> labelByte (hex_digit v) = true.
Proof.
  intros Hv. assert (Hall : Forall (fun n => labelByte (hex_digit n) = true) (N.of_nat <$> seq 0 16))
    by (cbn; repeat constructor).
  rewrite Forall_forall in Hall. apply Hall, list_elem_of_In. rewrite <- (N2Z.id v). apply nibble_In. lia.
Qed.

(** A list of label bytes without a dash at either end. *)
Record labelChars (l : list ascii) : Prop := {
  lc_bytes : Forall (fun c => labelByte c = true) l;
  lc_head : head l <> Some dash;
  lc_last : last l <> Some dash
}.

Lemma trimByte_label l : Forall (fun c => labelByte c = true) l -> labelChars (trimByte dash l).
Proof.
  intros Hl. split; [|apply trimByte_head|apply trimByte_last].
  rewrite Forall_forall in Hl |- *. intros c Hc. apply Hl. eapply elem_of_sublist; [exact Hc|apply trimByte_sublist].
Qed.

Lemma dnsLabel_label s : labelChars (chars (dnsLabel s)).
Proof.
  unfold dnsLabel. rewrite chars_of_chars.
  set (l := replaceRuns _ _ _ _). assert (Hl : Forall (fun c => labelByte c = true) l)
    by (by apply replaceRuns_Forall).
  destruct (trimByte_label l Hl) as [Hb Hh Hla].
  destruct (squeeze_spec dash (length (trimByte dash l)) (trimByte dash l) ltac:(lia)) as (_ & Hh' & Hl' & HF).
  split; [by apply HF|by rewrite Hh'|by rewrite Hl'].
Qed.

Lemma isDNS1123Label_chars s :
  isDNS1123Label s = true <-> labelChars (chars s) /\ (0 < String.length s <= 63)%nat.
Proof.
  unfold isDNS1123Label. destruct (_ || _) eqn:E1.
  { split; [done|]. intros [_ Hlen]. apply orb_true_iff in E1 as [E1%Nat.eqb_eq|E1%Nat.ltb_lt]; lia. }
  apply orb_false_iff in E1 as [E1%Nat.eqb_neq E2%Nat.ltb_ge]. destruct (_ || _) eqn:E3.
  { split; [done|]. intros [[_ Hh Hla] _].
    apply orb_true_iff in E3 as [E3%bool_decide_eq_true|E3%bool_decide_eq_true]; done. }
  apply orb_false_iff in E3 as [E3%bool_decide_eq_false E4%bool_decide_eq_false].
  rewrite forallb_forall. split.
  - intros HF. split; [|lia]. split; [|done..]. apply Forall_forall. intros c Hc%list_elem_of_In. by apply HF.
  - intros [[HF _ _] _] c Hc%list_elem_of_In. rewrite Forall_forall in HF. by apply HF.
Qed.

(** A label, then a tail of label bytes that does not end in a dash. *)
Lemma labelChars_app l t :
  labelChars l -> l <> [] -> Forall (fun c => labelByte c = true) t -> last t <> Some dash -> t <> [] ->
  labelChars (l ++ t).
Proof.
  intros [Hb Hh _] Hne Ht Hlt Htn. split.
  - by apply Forall_app.
  - by destruct l.
  - destruct t as [|c t]; [done|]. by rewrite last_app_cons.
Qed.

Lemma hex_chars bs : Forall isByte bs -> Forall (fun c => labelByte c = true) (chars (EncodeToString bs)).
Proof.
  unfold EncodeToString. induction 1 as [|b bs Hb Hbs IH]; [constructor|]. cbn [fold_right].
  unfold hex_byte. cbn. unfold isByte in Hb. repeat constructor; [..|exact IH];
    apply labelByte_hex; apply N2Z.inj_lt; rewrite Z2N.id; Z.div_mod_to_equations; lia.
Qed.

Lemma Sum1_bytes msg : Forall isByte (Sum1 msg).
Proof.
  unfold Sum1. generalize (fold_left sha1_block (blocks msg)
    [1732584193; 4023233417; 2562383102; 271733878; 3285377520]). intros l.
  induction l as [|x l IH]; [constructor|]. rewrite bind_cons. apply Forall_app. split; [|done].
  generalize 4%nat. intros n. induction n as [|n IHn]; cbn [be_bytes]; constructor; [|done].
  change 255 with (Z.ones 8). rewrite Z.land_ones by lia. unfold isByte. apply Z.mod_pos_bound. lia.
Qed.

Lemma chars_substring0 n s : chars (String.substring 0 n s) = take n (chars s).
Proof. revert s. induction n as [|n IH]; intros [|c s]; simpl; try done. by rewrite IH. Qed.

Lemma shortHash_chars s :
  Forall (fun c => labelByte c = true) (chars (shortHash s)) /\ (String.length (shortHash s) <= 8)%nat.
Proof.
  unfold shortHash. rewrite <- length_chars, chars_substring0. split.
  - apply Forall_take, hex_chars, Sum1_bytes.
  - rewrite length_take. lia.
Qed.

Lemma suffix_chars (n : Z) : 0 < n < 2 ^ 63 ->
  let t := chars ("-pr-" +:+ Itoa n) in
  Forall (fun c => labelByte c = true) t /\ last t <> Some dash /\ (5 <= length t <= 23)%nat.
Proof.
  intros Hn. cbv zeta. destruct (Itoa_digits n 19) as [HF Hlen]; [lia..|]. rewrite <- length_chars in Hlen.
  rewrite chars_app. split; [|split].
  - apply Forall_app. split; [repeat constructor|]. eapply Forall_impl; [exact HF|]. apply labelByte_digit.
  - destruct (chars (Itoa n)) as [|c l] eqn:E; [simpl in Hlen; lia|]. rewrite last_app_cons.
    intros Hl%last_Some_elem_of. rewrite Forall_forall in HF. apply HF, digit_not_dash in Hl. done.
  - rewrite length_app. cbn. lia.
Qed.

Lemma labelChars_nonempty s d : labelChars (chars s) -> labelChars (chars d) -> d <> "" ->
  let s' := if is_empty s then d else s in labelChars (chars s') /\ s' <> "".
Proof. cbv zeta. intros Hs Hd Hne. destruct (is_empty s) eqn:E; [done|]. by apply is_empty_false in E. Qed.

Lemma labelChars_word s : chars s <> [] -> head (chars s) <> Some dash -> last (chars s) <> Some dash ->
  forallb labelByte (chars s) = true -> labelChars (chars s).
Proof. intros _ Hh Hl HF. split; [|done..]. apply Forall_forall. intros c Hc. rewrite forallb_forall in HF.
  apply HF. by apply list_elem_of_In. Qed.

Lemma trimTo63_id s : (String.length s <= 63)%nat -> trimTo63 s = s.
Proof. intros Hs. unfold trimTo63. by rewrite (proj2 (Nat.leb_le _ _) Hs). Qed.

(** The repository part of the long form. *)
Lemma shortRepo_label (repo : string) (m : Z) :
  labelChars (chars repo) -> 1 <= m ->
  let short := if m <? Z.of_nat (String.length repo)
               then TrimByte "-" (String.substring 0 (Z.to_nat m) repo) else repo in
  let short := if is_empty short then "r" else short in
  labelChars (chars short) /\ short <> "" /\ Z.of_nat (String.length short) <= m.
Proof.
  intros Hrepo Hm. cbv zeta. set (short := if _ <? _ then _ else _).
  assert (Hs : labelChars (chars short) /\ Z.of_nat (String.length short) <= m).
  { subst short. destruct (m <? _) eqn:E; zify_bool; [|done]. unfold TrimByte.
    rewrite <- length_chars, chars_of_chars, chars_substring0. split.
    - apply trimByte_label, Forall_take, Hrepo.
    - pose proof (sublist_length _ _ (trimByte_sublist dash (take (Z.to_nat m) (chars repo)))) as Hl.
      rewrite length_take in Hl. lia. }
  destruct Hs as [Hl Hlen].
  destruct (labelChars_nonempty short "r" Hl) as [H1 H2]; [by repeat constructor|done|].
  split; [done|]. split; [done|]. destruct (is_empty short); simpl; lia.
Qed.

(** A lease name is a label prefix followed by the number of the pull request. *)
Lemma LeaseName_shape (ref : GitHubPRRef) :
  0 < ref.(pr_Number) < 2 ^ 63 ->
  exists p, chars (LeaseName ref) = p ++ chars ("-pr-" +:+ Itoa ref.(pr_Number)) /\
    Forall (fun c => labelByte c = true) p /\ head p <> Some dash /\ p <> [] /\
    (length (chars (LeaseName ref)) <= 63)%nat.
Proof.
  intros Hn. destruct (suffix_chars _ Hn) as (Ht & Hlt & Hlen). unfold LeaseName.
  destruct (labelChars_nonempty (dnsLabel ref.(pr_Repo)) "repo") as [Hrepo Hne];
    [apply dnsLabel_label|by repeat constructor|done|]. cbv zeta in *.
  set (repo := if is_empty _ then _ else _) in *. set (suffix := "-pr-" +:+ _) in *.
  destruct (_ && _) eqn:E.
  - apply andb_true_iff in E as [E%Nat.leb_le _]. exists (chars repo). rewrite length_chars.
    split; [apply chars_app|]. destruct Hrepo. repeat split; try done. intros Hr. by destruct repo.
  - set (hash := shortHash _). destruct (shortHash_chars (FullName ref +:+ "#" +:+ Itoa ref.(pr_Number))) as [Hh Hhl].
    fold hash in Hh, Hhl. rewrite length_chars in Hlen. rewrite (proj2 (Z.ltb_ge _ _)) by lia.
    destruct (shortRepo_label repo (63 - Z.of_nat (String.length suffix) - 1 - Z.of_nat (String.length hash)) Hrepo
      ltac:(lia)) as (Hs & Hsn & Hsl). cbv zeta in *.
    clearbody repo suffix hash. set (short := if is_empty _ then _ else _) in *. clearbody short.
    assert (Hall : String.length (short +:+ "-" +:+ hash +:+ suffix) =
      (String.length short + 1 + String.length hash + String.length suffix)%nat)
      by (rewrite <- !length_chars, !chars_app, !length_app; simpl; lia).
    rewrite (trimTo63_id (short +:+ _)) by lia. cbv iota. exists (chars short ++ "-"%char :: chars hash).
    rewrite length_chars, !chars_app, <- app_assoc. split; [done|]. destruct Hs as [Hsb Hsh _].
    split; [apply Forall_app; split; [done|]; by constructor|].
    destruct short as [|c short]; [done|]. split; [done|]. split; [done|]. lia.
Qed.

(** The part of a string after its last dash. *)
Lemma after_dash_inj (p q ds es : list ascii) :
  Forall (fun c => isDigit c = true) ds -> Forall (fun c => isDigit c = true) es ->
  p ++ dash :: ds = q ++ dash :: es -> ds = es.
Proof.
  revert es. induction ds as [|d ds IH] using rev_ind; intros es Hd He Heq.
  - destruct es as [|e es _] using rev_ind; [done|].
    rewrite app_comm_cons, (app_assoc q) in Heq. apply app_inj_tail in Heq as [_ <-].
    apply Forall_app in He as [_ He]. by inversion He.
  - destruct es as [|e es _] using rev_ind.
    + rewrite app_comm_cons, (app_assoc p) in Heq. apply app_inj_tail in Heq as [_ ->].
      apply Forall_app in Hd as [_ Hd]. by inversion Hd.
    + rewrite !app_comm_cons, !app_assoc in Heq. apply app_inj_tail in Heq as [Heq ->].
      apply Forall_app in Hd as [Hd _]. apply Forall_app in He as [He _]. by rewrite (IH es).
Qed.

(** Claim C35.  Lease names of pull requests.  For every pull request number a
    64-bit integer can hold, and every owner and repository name whatever its
    bytes, the name is a valid DNS-1123 label of at most 63 bytes, so the API
    server accepts it; and two pull requests with the same name have the same
    number, so that the pull requests of one repository never share a lease. *)
Theorem LeaseName_correct (ref ref' : GitHubPRRef) :
  0 < ref.(pr_Number) < 2 ^ 63 -> 0 < ref'.(pr_Number) < 2 ^ 63 ->
  isDNS1123Label (LeaseName ref) = true /\
  (LeaseName ref = LeaseName ref' -> ref.(pr_Number) = ref'.(pr_Number)).
Proof.
  intros Hn Hn'. destruct (LeaseName_shape ref Hn) as (p & Hp & Hb & Hh & Hne & Hlen).
  destruct (suffix_chars _ Hn) as (Ht & Hlt & Htl). split.
  - apply isDNS1123Label_chars. rewrite <- length_chars. split; [|split; [|done]].
    + rewrite Hp. split.
      * by apply Forall_app.
      * by destruct p.
      * destruct (chars ("-pr-" +:+ _)) as [|c t]; [simpl in Htl; lia|]. by rewrite last_app_cons.
    + rewrite Hp, length_app. lia.
  - intros Heq. destruct (LeaseName_shape ref' Hn') as (q & Hq & _).
    rewrite Heq, Hq, !chars_app in Hp.
    apply Itoa_inj, chars_inj. symmetry. apply (after_dash_inj (q ++ chars "-pr") (p ++ chars "-pr")).
    + apply (Itoa_digits _ 19); lia.
    + apply (Itoa_digits _ 19); lia.
    + rewrite <- !app_assoc. exact Hp.
Qed.

Lemma LeaseName_correct_witness :
  isDNS1123Label (LeaseName (mkGitHubPRRef "acme" "web" 1 "" "" "")) = true /\
  (LeaseName (mkGitHubPRRef "acme" "web" 1 "" "" "") = LeaseName (mkGitHubPRRef "acme" "web" 12 "" "" "") -> 1 = 12).
Proof.
  apply (LeaseName_correct (mkGitHubPRRef "acme" "web" 1 "" "" "") (mkGitHubPRRef "acme" "web" 12 "" "" ""));
    cbn; lia.
Defined.
