(* ===== verification/WebhookAuth.v ===== *)
(** * Authentication of webhook requests (internal/sourcewebhook/auth.go, github_signature.go)

    The shared token of the generic endpoint and the HMAC signature of GitHub.
    [subtle.ConstantTimeCompare] and [hmac.Equal] are equality.  A
    [TokenProvider] is the program behind its one method. *)

From S2P Require Import Prelude GoStrings GoErrors Api Concrete Programs Kube World Sha GoText.
From Stdlib Require Import Ascii.

(** [strings.TrimPrefix] and [s[n:]]. *)
Definition dropString (n : nat) (s : string) : string := of_chars (drop n (chars s)).

Lemma HasPrefix_spec s p : HasPrefix s p = true <-> exists t, s = p +:+ t.
Proof.
  revert s. induction p as [|c p IH]; intros s; simpl.
  - split; [by exists s|]. by destruct s.
  - destruct s as [|d s]; simpl; [split; [done|by intros [t ?]]|].
    rewrite andb_true_iff, Ascii.eqb_eq, IH. split.
    + intros [-> [t ->]]. by exists t.
    + intros [t [= -> ->]]. split; [done|]. by exists t.
Qed.

Lemma dropString_app p t : dropString (String.length p) (p +:+ t) = t.
Proof.
  unfold dropString. rewrite chars_app, <- length_chars, drop_app_length. apply chars_inj, chars_of_chars.
Qed.

(** ** github_signature.go *)

Definition HeaderGitHubSignature256 : string := "X-Hub-Signature-256".

Definition VerifyGitHubSignature (secret body : list Z) (signatureHeader : string) : option error :=
  if bool_decide (secret = []) then Some (ErrorString "github webhook secret is empty")
  else
    let signatureHeader := TrimSpace signatureHeader in
    let prefix := "sha256=" in
    if negb (HasPrefix signatureHeader prefix) then
      Some (ErrorString ("missing or invalid " +:+ HeaderGitHubSignature256 +:+ " header"))
    else
      match DecodeString (dropString (String.length prefix) signatureHeader) with
      | None => Some (ErrorString "invalid signature encoding")
      | Some got =>
          if negb (bool_decide (got = hmacSHA256 secret body))
          then Some (ErrorString "invalid github webhook signature") else None
      end.

(** Claim C34.  The signature check accepts a request exactly when a secret is
    configured and the header is, up to surrounding white space, [sha256=]
    followed by the hexadecimal form, in either case, of the HMAC-SHA256 of the
    body under the secret.  Truncated, extended and badly encoded signatures are
    refused, and an empty secret never authenticates anything. *)
Theorem VerifyGitHubSignature_correct (secret body : list Z) (header : string) :
  VerifyGitHubSignature secret body header = None <->
  secret <> [] /\
  exists sig, TrimSpace header = "sha256=" +:+ sig /\ ToLower sig = EncodeToString (hmacSHA256 secret body).
Proof.
  unfold VerifyGitHubSignature. case_bool_decide as Hs; [naive_solver|].
  destruct (HasPrefix _ _) eqn:Hp; cbn [negb].
  - apply HasPrefix_spec in Hp as [sig Hsig]. rewrite Hsig, dropString_app.
    assert (Hdec : DecodeString sig = Some (hmacSHA256 secret body) <->
                   ToLower sig = EncodeToString (hmacSHA256 secret body)).
    { rewrite DecodeString_spec. pose proof (hmacSHA256_bytes secret body). naive_solver. }
    destruct (DecodeString sig) as [got|] eqn:Hd.
    + case_bool_decide as Hg; cbn [negb]; subst; split; try done.
      * intros _. split; [done|]. exists sig. split; [done|]. by apply Hdec.
      * intros [_ (sig' & Heq & Hl)]. simplify_eq. apply Hdec in Hl. congruence.
    + split; [done|]. intros [_ (sig' & Heq & Hl)]. simplify_eq. by apply Hdec in Hl.
  - split; [done|]. intros [_ (sig & Hsig & _)]. rewrite Hsig in Hp.
    rewrite (proj2 (HasPrefix_spec _ _)) in Hp; [done|]. by exists sig.
Qed.

(** ** auth.go *)

Section Auth.
Context `{QuantityAPI}.

Notation TokenProvider := (prog kube (result string)) (only parsing).

(** [SecretTokenProvider] without its cache. *)
Record SecretTokenProvider := mkSecretTokenProvider {
  stp_Namespace : string;
  stp_Name : string;
  stp_Key : string
}.

(** [SecretTokenProvider.Token]: [cached] is what the first critical section saw,
    the second component of the result what the last one stores. *)
Definition SecretToken (p : SecretTokenProvider) (cached : string)
    : prog kube (result string * option string) :=
  let where_ := p.(stp_Namespace) +:+ "/" +:+ p.(stp_Name) in
  if negb (is_empty cached) then Ret (Ok cached, None)
  else
    (g <- cl_Get HubClient KSecret (mkObjectKey p.(stp_Namespace) p.(stp_Name)) ;;
     match g with
     | Err err => Ret (Err (ErrorWrap ("get token secret " +:+ where_) err), None)
     | Ok secret =>
         let missing := Err (ErrorString ("token secret " +:+ where_ +:+ " missing key " +:+ quote p.(stp_Key))) in
         match secret.(sec_Data) !! p.(stp_Key) with
         | Some tok => if is_empty tok then Ret (missing, None) else Ret (Ok tok, Some tok)
         | None => Ret (missing, None)
         end
     end)%prog.

(** The provider as its callers see it. *)
Definition secretProvider (p : SecretTokenProvider) (cached : string) : TokenProvider :=
  (r <- SecretToken p cached ;; Ret r.1)%prog.

Definition staticProvider (Value : string) : TokenProvider := Ret (Ok Value).

Definition extractBearerToken (authorization headerToken : string) : string :=
  if negb (is_empty headerToken) then TrimSpace headerToken
  else
    let prefix := "Bearer " in
    if HasPrefix authorization prefix then TrimSpace (dropString (String.length prefix) authorization)
    else "".

Definition authorize (provider : option TokenProvider) (authorization headerToken : string)
    : prog kube (option error) :=
  match provider with
  | None => Ret (Some (ErrorString "token provider not configured"))
  | Some provider =>
      let provided := extractBearerToken authorization headerToken in
      if is_empty provided then Ret (Some (ErrorString "missing authentication token"))
      else
        (e <- provider ;;
         match e with
         | Err err => Ret (Some (ErrorWrap "authenticate" err))
         | Ok expected =>
             if negb (String.eqb provided expected)
             then Ret (Some (ErrorString "invalid authentication token")) else Ret None
         end)%prog
  end.

(** A token the provider can hand out in view of the calls of a run: the cached
    one, or else the non-empty value of the secret as the hub answered it. *)
Definition tokenIn (p : SecretTokenProvider) (cached : string) (h : trace kube) (tok : string) : Prop :=
  tok <> "" /\
  ((cached <> "" /\ tok = cached) \/
   (cached = "" /\ exists s : Secret,
      answered KSecret h HubClient (mkObjectKey p.(stp_Namespace) p.(stp_Name)) (Ok s) /\
      s.(sec_Data) !! p.(stp_Key) = Some tok)).

Lemma tokenIn_mono p cached h h' tok : h `suffix_of` h' -> tokenIn p cached h tok -> tokenIn p cached h' tok.
Proof.
  intros [t ->] [Hne [Hc|[Hc (s & Hs & Hk)]]]; (split; [done|]); [by left|]. right. split; [done|].
  exists s. split; [|done]. eapply answered_mono; [by eexists|exact Hs].
Qed.

(** The provider only reads its secret, and hands out tokens of this run. *)
Lemma secretProvider_safe p cached h :
  safe (fun X _ (e : kube X) => writes e = false) (secretProvider p cached) h (fun h' r =>
    h `suffix_of` h' /\ forall tok, r = Ok tok -> tokenIn p cached h' tok).
Proof.
  unfold secretProvider, SecretToken. rewrite safe_bind. destruct (is_empty cached) eqn:Hc; cbn [negb].
  - apply is_empty_true in Hc. rewrite safe_bind. split; [done|]. intros [s|err]; cbn [safe]; [|by split; [grown|]].
    destruct (_ !! _) as [tok|] eqn:Hk; [|by split; [grown|]].
    destruct (is_empty tok) eqn:Ht; [by split; [grown|]|]. apply is_empty_false in Ht.
    split; [grown|]. intros tok' [= <-]. split; [done|]. right. split; [done|]. exists s. split; [|done]. apply answered_here.
  - apply is_empty_false in Hc. split; [done|]. intros tok [= <-]. split; [done|]. by left.
Qed.

(** The token check writes nothing, and lets in only the token of this run. *)
Lemma authorize_safe p cached authorization headerToken h :
  safe (fun X _ (e : kube X) => writes e = false)
    (authorize (Some (secretProvider p cached)) authorization headerToken)
    h (fun h' e => e = None -> tokenIn p cached h' (extractBearerToken authorization headerToken)).
Proof.
  unfold authorize. cbv zeta. destruct (is_empty _); [done|]. rewrite safe_bind.
  eapply safe_post; [apply secretProvider_safe|]. intros h1 [tok|err] [_ Ht]; [|done].
  destruct (String.eqb_spec (extractBearerToken authorization headerToken) tok) as [->|]; cbn; [|done].
  intros _. by apply Ht.
Qed.

End Auth.

(** ** A token for the witnesses *)

Definition tokenSecret : Secret :=
  mkSecret (emptyMeta <| m_Name := "webhook-token" |> <| m_Namespace := "kubelease" |>) {["token" := "s3cr3t"]}.

Definition tokenWorld : @World milliQuantity :=
  @put milliQuantity HubClient KSecret tokenSecret (@emptyWorld milliQuantity 0).

Definition demoTokens : SecretTokenProvider := mkSecretTokenProvider "kubelease" "webhook-token" "token".
