(* ===== verification/TokenCache.v ===== *)
(** * The token cache under concurrency (internal/sourcewebhook/auth.go)

    WebhookAuth.v runs [SecretTokenProvider.Token] alone, given what its cache
    holds.  Here the calls of any number of requests run interleaved on one
    provider: the [sync.RWMutex] with its four operations, the two reads and
    the write of the field, and the Get of a Secret that is replaced or deleted at
    any time.  [perform] says what each operation may do to the shared state, and
    blocks where the mutex blocks.

    - [disciplined] types a program by the lock it holds.  Typed programs do not
      race on the cache, never unlock what they do not hold, and never deadlock
      ([token_calls_interleave]).
    - Every finished call of [Token] is a run of [WebhookAuth.SecretToken] for some
      contents of the cache ([token_calls_refine]): what WebhookAuth.v and
      WebhookSafety.v prove of a single request holds of a busy server.
    - A token that was read once is compared with for ever
      ([rotated_secret_ignored]), and an [Invalidate] can be overtaken by a call that
      read the old Secret before it ([invalidate_overtaken]). *)

From S2P Require Import Prelude GoStrings GoErrors Api Concrete Programs Threads Kube World WebhookAuth.

(** ** The operations on the shared state *)

Inductive tenv : Type -> Type :=
  | RLock : tenv unit
  | RUnlock : tenv unit
  | Lock : tenv unit
  | Unlock : tenv unit
  | ReadCache : tenv string
  | WriteCache (tok : string) : tenv unit
  | GetSecret (key : ObjectKey) : tenv (result Secret).

(** The mutex, the field [cache], the Secret as the API server has it, and every
    version of it so far. *)
Record shared := mkShared {
  sh_readers : nat;
  sh_writer : bool;
  sh_cache : string;
  sh_secret : option Secret;
  sh_versions : list Secret
}.
#[export] Instance eta_shared : Eta shared :=
  fun r => mkShared r.(sh_readers) r.(sh_writer) r.(sh_cache) r.(sh_secret) r.(sh_versions).

(** What an operation may answer, and the state after it.  The lock operations
    wait until they are possible; unlocking what is not locked never is. *)
Definition perform X (e : tenv X) (s : shared) : X -> shared -> Prop :=
  match e in tenv X return X -> shared -> Prop with
  | RLock => fun _ s' => s.(sh_writer) = false /\ s' = s <| sh_readers := S s.(sh_readers) |>
  | RUnlock => fun _ s' => s.(sh_readers) <> O /\ s' = s <| sh_readers := pred s.(sh_readers) |>
  | Lock => fun _ s' => s.(sh_writer) = false /\ s.(sh_readers) = O /\ s' = s <| sh_writer := true |>
  | Unlock => fun _ s' => s.(sh_writer) = true /\ s' = s <| sh_writer := false |>
  | ReadCache => fun tok s' => tok = s.(sh_cache) /\ s' = s
  | WriteCache tok => fun _ s' => s' = s <| sh_cache := tok |>
  | GetSecret _ => fun r s' => s' = s /\ forall v, r = Ok v -> s.(sh_secret) = Some v
  end.

(** ** auth.go *)

Section Provider.
Variable p : SecretTokenProvider.

Definition secretKey : ObjectKey := mkObjectKey p.(stp_Namespace) p.(stp_Name).

(** [SecretTokenProvider.Token], statement by statement. *)
Definition Token : prog tenv (result string) :=
  let where_ := p.(stp_Namespace) +:+ "/" +:+ p.(stp_Name) in
  (call RLock ;;
   seen <- call ReadCache ;;
   if negb (is_empty seen) then
     (tok <- call ReadCache ;;
      call RUnlock ;;
      Ret (Ok tok))
   else
     (call RUnlock ;;
      g <- call (GetSecret secretKey) ;;
      match g with
      | Err err => Ret (Err (ErrorWrap ("get token secret " +:+ where_) err))
      | Ok secret =>
          let missing := Err (ErrorString ("token secret " +:+ where_ +:+ " missing key " +:+ quote p.(stp_Key))) in
          match secret.(sec_Data) !! p.(stp_Key) with
          | Some tok =>
              if is_empty tok then Ret missing
              else (call Lock ;; call (WriteCache tok) ;; call Unlock ;; Ret (Ok tok))
          | None => Ret missing
          end
      end))%prog.

Definition Invalidate : prog tenv unit :=
  (call Lock ;; call (WriteCache "") ;; call Unlock)%prog.

(** ** Calls at work *)

Inductive Call := TokenCall | InvalidateCall.

Inductive outcome := Got (r : result string) | Invalidated.

Definition code (c : Call) : prog tenv outcome :=
  match c with
  | TokenCall => (r <- Token ;; Ret (Got r))%prog
  | InvalidateCall => (Invalidate ;; Ret Invalidated)%prog
  end.

Notation thread := (thread tenv outcome Call) (only parsing).
Notation process := (shared * list thread)%type (only parsing).
Notation act := (act (O:=outcome) (L:=Call) perform) (only parsing).

Definition started (c : Call) : thread := mkThread c (code c) [].

(** What happens: an operation, a new call, of those there may be, or a new state
    of the Secret. *)
Inductive step (may : Call -> Prop) : process -> process -> Prop :=
  | step_act pr pr' : act pr pr' -> step may pr pr'
  | step_start s ts c : may c -> step may (s, ts) (s, ts ++ [started c])
  | step_rotate s ts v :
      step may (s, ts)
        (s <| sh_secret := v |> <| sh_versions := from_option (fun x => [x]) [] v ++ s.(sh_versions) |>, ts).

Definition reaches : process -> process -> Prop := rtc (step (fun _ => True)).

(** As it runs: nothing calls [Invalidate]. *)
Definition reachesByTokens : process -> process -> Prop := rtc (step (eq TokenCall)).

(** A new provider: an empty cache, nothing locked. *)
Definition fresh (v : option Secret) : process :=
  (mkShared O false "" v (from_option (fun x => [x]) [] v), []).

(** ** The lock discipline *)

Inductive phase := Outside | Reading | Writing.

Definition samePhase (a b : phase) : bool :=
  match a, b with Outside, Outside | Reading, Reading | Writing, Writing => true | _, _ => false end.

Lemma samePhase_spec a b : samePhase a b = true <-> a = b.
Proof. by destruct a, b. Qed.

Lemma samePhase_refl a : samePhase a a = true.
Proof. by destruct a. Qed.

(** What each operation needs and leaves. *)
Definition lockStep {X} (ph : phase) (e : tenv X) : option phase :=
  match e, ph with
  | RLock, Outside => Some Reading
  | RUnlock, Reading => Some Outside
  | Lock, Outside => Some Writing
  | Unlock, Writing => Some Outside
  | ReadCache, (Reading | Writing) => Some ph
  | WriteCache _, Writing => Some Writing
  | GetSecret _, Outside => Some Outside
  | _, _ => None
  end.

(** A program that keeps the discipline, and returns with nothing locked. *)
Fixpoint disciplined {A} (ph : phase) (c : prog tenv A) : Prop :=
  match c with
  | Ret _ => ph = Outside
  | Act e k => exists ph', lockStep ph e = Some ph' /\ forall x, disciplined ph' (k x)
  end.

(** Follow a program through its branches. *)
Ltac follow :=
  repeat first
    [ exact I | reflexivity | progress intros | eexists; split; [reflexivity|]
    | progress cbn -[is_empty]
    | match goal with
      | |- context [is_empty ?t] => destruct (is_empty t) eqn:?
      | |- context [match ?r with Ok _ => _ | Err _ => _ end] => destruct r
      | |- context [?m !! ?k] => destruct (m !! k) eqn:?
      end ].

Lemma code_disciplined c : disciplined Outside (code c).
Proof. destruct c; follow. Qed.

Lemma code_within c : within 7 (code c).
Proof. destruct c; follow. Qed.

(** How many calls are in a phase. *)
Fixpoint count (ph : phase) (phs : list phase) : nat :=
  match phs with
  | [] => O
  | x :: phs => (if samePhase x ph then 1 else 0)%nat + count ph phs
  end.

Lemma count_insert ph phs i a b :
  phs !! i = Some a ->
  (count ph (<[i := b]> phs) + (if samePhase a ph then 1 else 0) =
   count ph phs + (if samePhase b ph then 1 else 0))%nat.
Proof.
  revert i. induction phs as [|x phs IH]; intros [|i]; simpl; intros H; simplify_eq; [lia|].
  specialize (IH i H). lia.
Qed.

Lemma count_app ph phs phs' : count ph (phs ++ phs') = (count ph phs + count ph phs')%nat.
Proof. induction phs as [|x phs IH]; cbn; [done|]. rewrite IH. lia. Qed.

Lemma count_pos ph phs i : phs !! i = Some ph -> (0 < count ph phs)%nat.
Proof.
  revert i. induction phs as [|x phs IH]; intros [|i]; cbn; intros H; simplify_eq.
  - rewrite samePhase_refl. lia.
  - specialize (IH i H). lia.
Qed.

Lemma count_some ph phs : count ph phs <> O -> exists i, phs !! i = Some ph.
Proof.
  induction phs as [|x phs IH]; cbn; [done|]. destruct (samePhase x ph) eqn:E.
  - apply samePhase_spec in E as ->. by exists O.
  - intros Hc. destruct (IH Hc) as [i Hi]. by exists (S i).
Qed.

Lemma count_zero ph phs : count ph phs = O -> Forall (fun x => x <> ph) phs.
Proof. induction phs as [|x phs IH]; cbn; [done|]. destruct (samePhase x ph) eqn:E; [done|]. intros Hc. constructor; [intros ->; by rewrite samePhase_refl in E|by apply IH]. Qed.

Lemma count_two ph phs i j : i <> j -> phs !! i = Some ph -> phs !! j = Some ph -> (1 < count ph phs)%nat.
Proof.
  revert i j. induction phs as [|x phs IH]; intros [|i] [|j] Hij; cbn; intros Hi Hj; simplify_eq.
  - rewrite samePhase_refl. apply count_pos in Hj. lia.
  - rewrite samePhase_refl. apply count_pos in Hi. lia.
  - enough (1 < count ph phs)%nat by lia. apply (IH i j); [by intros ->|done..].
Qed.

(** The mutex says who is inside: any number of readers, or one writer. *)
Record locks (s : shared) (phs : list phase) : Prop := {
  lk_readers : s.(sh_readers) = count Reading phs;
  lk_writer : count Writing phs = if s.(sh_writer) then 1%nat else 0%nat;
  lk_exclusive : s.(sh_writer) = true -> s.(sh_readers) = O
}.

(** Whoever writes is alone. *)
Lemma locks_alone s phs i j ph :
  locks s phs -> phs !! i = Some Writing -> phs !! j = Some ph -> i <> j -> ph = Outside.
Proof.
  intros [Hr Hw He] Hi Hj Hij. pose proof (count_pos _ _ _ Hi) as Hc.
  destruct (sh_writer s); [|lia]. specialize (He eq_refl). destruct ph; [done| |].
  - apply count_pos in Hj. lia.
  - pose proof (count_two _ _ _ _ Hij Hi Hj). lia.
Qed.

(** An operation that keeps the discipline keeps the mutex, and the cache unless
    it holds the write lock. *)
Lemma perform_locks s phs i ph ph' X (e : tenv X) x s' :
  locks s phs -> phs !! i = Some ph -> lockStep ph e = Some ph' -> perform X e s x s' ->
  locks s' (<[i := ph']> phs) /\ s'.(sh_versions) = s.(sh_versions) /\
  (s'.(sh_cache) = s.(sh_cache) \/ ph = Writing).
Proof.
  destruct s as [r w c sec vs]. intros [Hr Hw He] Hi Hl Hp. cbn in Hr, Hw, He.
  pose proof (count_insert Reading phs i ph ph' Hi) as HR. pose proof (count_insert Writing phs i ph ph' Hi) as HW.
  pose proof (count_pos ph phs i Hi) as Hpos.
  destruct e, ph; cbn in Hl; simplify_eq; cbn in Hp; destruct_and?; subst; cbn in *;
    (split; [|by auto]); try (destruct w; try discriminate); try specialize (He eq_refl);
    split; cbn; intros; try done; lia.
Qed.

(** ** What a call has seen *)

(** A version of the Secret gives a token; one of them did. *)
Definition gives (v : Secret) (tok : string) : Prop := v.(sec_Data) !! p.(stp_Key) = Some tok /\ tok <> "".
Definition given (vs : list Secret) (tok : string) : Prop := exists v, v ∈ vs /\ gives v tok.

Lemma given_mono vs vs' tok : vs ⊆ vs' -> given vs tok -> given vs' tok.
Proof. intros Hsub (v & Hv & Hg). exists v. auto. Qed.

(** What an operation answered, by kind. *)
Definition readOf (ev : event tenv) : option string :=
  match ev with
  | Ev e x => match e in tenv X return X -> option string with ReadCache => Some | _ => fun _ => None end x
  end.
Definition fetchOf (ev : event tenv) : option Secret :=
  match ev with
  | Ev e x =>
      match e in tenv X return X -> option Secret with
      | GetSecret _ => fun r => match r with Ok v => Some v | Err _ => None end
      | _ => fun _ => None
      end x
  end.

(** The cache is read empty or with a token that was given, the Secret in one of
    its versions. *)
Definition sound (vs : list Secret) (ev : event tenv) : Prop :=
  (forall tok, readOf ev = Some tok -> tok = "" \/ given vs tok) /\
  (forall v, fetchOf ev = Some v -> v ∈ vs).

(** Two reads in a row agree. *)
Definition repeated (ev : event tenv) (h : trace tenv) : Prop :=
  forall x y, readOf ev = Some x -> head h ≫= readOf = Some y -> x = y.
Fixpoint coherent (tr : trace tenv) : Prop :=
  match tr with [] => True | ev :: h => repeated ev h /\ coherent h end.

(** Only a token that was fetched is stored, or nothing. *)
Definition storesFetched : guarantee tenv := fun X h e =>
  match e with
  | WriteCache tok => tok = "" \/ exists v, Some v ∈ fetchOf <$> h /\ gives v tok
  | _ => True
  end.

Lemma code_storesFetched c : safe storesFetched (code c) [] (fun _ _ => True).
Proof.
  destruct c; cbn -[is_empty].
  - split; [done|]. intros []. split; [done|]. intros seen. destruct (is_empty seen); cbn -[is_empty].
    + split; [done|]. intros []. split; [done|]. intros [v|err]; [|done]. cbn -[is_empty].
      destruct (_ !! _) as [tok|] eqn:Hv; [|done]. destruct (is_empty tok) eqn:Ht; [done|].
      apply is_empty_false in Ht. cbn. split; [done|]. intros []. split; [|done].
      right. exists v. split; [|done]. right. left.
    + split; [done|]. intros tok. by split.
  - split; [done|]. intros []. split; [by left|done].
Qed.

(** ** The invariant *)

(** A call in a phase. *)
Record threadOk (s : shared) (th : thread) (ph : phase) : Prop := {
  to_disciplined : disciplined ph th.(th_code);
  to_within : within 7 th.(th_code);
  to_sound : Forall (sound s.(sh_versions)) th.(th_trace);
  to_coherent : coherent th.(th_trace);
  to_current : ph <> Outside -> forall x, head th.(th_trace) ≫= readOf = Some x -> x = s.(sh_cache);
  to_stores : safe storesFetched th.(th_code) th.(th_trace) (fun _ _ => True);
  to_runs : forall tr a, runs th.(th_code) th.(th_trace) tr a -> runs (code th.(th_label)) [] tr a
}.

Definition processOk (pr : process) : Prop :=
  exists phs, locks pr.1 phs /\ Forall2 (threadOk pr.1) pr.2 phs /\
    (pr.1.(sh_cache) = "" \/ given pr.1.(sh_versions) pr.1.(sh_cache)) /\
    (forall v, pr.1.(sh_secret) = Some v -> v ∈ pr.1.(sh_versions)).

Lemma provider_started_ok s c : threadOk s (started c) Outside.
Proof.
  split; cbn; try done; [apply code_disciplined|apply code_within|apply code_storesFetched].
Qed.

(** What the others do does not disturb a call. *)
Lemma threadOk_mono s s' th ph :
  s.(sh_versions) ⊆ s'.(sh_versions) -> (ph <> Outside -> s'.(sh_cache) = s.(sh_cache)) ->
  threadOk s th ph -> threadOk s' th ph.
Proof.
  intros Hv Hc [? ? Hs ? Hcur ? ?]. split; try done.
  - eapply Forall_impl; [exact Hs|]. intros ev [Hr Hf]. split; [|auto].
    intros tok Ht. destruct (Hr tok Ht); [by left|]. right. by eapply given_mono.
  - intros Hph x Hx. rewrite Hc by done. auto.
Qed.

(** An operation answers soundly, and the same as the read before it. *)
Lemma perform_sound s X (e : tenv X) x s' :
  (s.(sh_cache) = "" \/ given s.(sh_versions) s.(sh_cache)) ->
  (forall v, s.(sh_secret) = Some v -> v ∈ s.(sh_versions)) ->
  perform X e s x s' -> sound s.(sh_versions) (Ev e x).
Proof.
  intros Hc Hv Hp. split; intros y Hy; destruct e; cbn in *; try done; simplify_eq.
  - by destruct Hp as [-> _].
  - destruct x as [v|err]; [|done]. simplify_eq. destruct Hp as [_ Hp]. auto.
Qed.

Lemma perform_cache s X (e : tenv X) x s' :
  perform X e s x s' ->
  s'.(sh_secret) = s.(sh_secret) /\ s'.(sh_cache) = match e with WriteCache tok => tok | _ => s.(sh_cache) end.
Proof. destruct e; cbn; intros Hp; destruct_and?; subst; done. Qed.

(** One operation of a call keeps the call's part of the invariant. *)
Lemma threadOk_act s c X (e : tenv X) k tr x s' ph ph' :
  threadOk s (mkThread c (Act e k) tr) ph -> lockStep ph e = Some ph' -> perform X e s x s' ->
  s'.(sh_versions) = s.(sh_versions) -> sound s.(sh_versions) (Ev e x) ->
  threadOk s' (mkThread c (k x) (Ev e x :: tr)) ph'.
Proof.
  intros [Hd Hw Hs Hco Hcur Hst Hr] Hl Hp Hvs Hso. cbn [th_code th_trace th_label] in *.
  destruct Hd as (ph1 & Hl1 & Hk). simplify_eq. split; cbn [th_code th_trace th_label].
  - by apply Hk.
  - apply (within_S 6), Hw.
  - rewrite Hvs. by constructor.
  - split; [|done]. intros y z Hy Hz. destruct e; cbn in *; simplify_eq.
    destruct Hp as [-> _]. symmetry. apply Hcur; [|done]. by intros ->.
  - intros _ y Hy. destruct e; cbn in *; simplify_eq. by destruct Hp as [-> ->].
  - by destruct Hst.
  - intros tr' a Hrun. apply Hr. eapply runs_act. exact Hrun.
Qed.

Lemma provider_act_ok pr pr' : processOk pr -> act pr pr' -> processOk pr'.
Proof.
  intros (phs & Hl & Hts & Hc & Hv) Hact. destruct Hact as [s ts i c X e k tr x s' Hi Hp]. cbn [fst snd] in *.
  destruct (Forall2_lookup_l _ _ _ _ _ Hts Hi) as (ph & Hph & Hth).
  destruct (to_disciplined _ _ _ Hth) as (ph' & Hstep & _).
  destruct (perform_locks _ _ _ _ _ _ _ _ _ Hl Hph Hstep Hp) as (Hl' & Hvs & Hcache).
  destruct (perform_cache _ _ _ _ _ Hp) as [Hsec Hnew].
  pose proof (perform_sound _ _ _ _ _ Hc Hv Hp) as Hso.
  exists (<[i := ph']> phs). cbn [fst snd]. split_and!; [done| | |].
  - apply Forall2_lookup. intros j. destruct (decide (i = j)) as [<-|Hij].
    + rewrite !list_lookup_insert_eq by eauto using lookup_lt_Some. constructor. by eapply threadOk_act.
    + rewrite !list_lookup_insert_ne by done.
      pose proof (proj1 (Forall2_lookup _ _ _) Hts j) as Hj. inversion Hj as [th phj Hthj Htsj Hphj|]; constructor.
      apply (threadOk_mono s); [by rewrite Hvs| |done]. intros Hin. destruct Hcache as [Hcache| ->]; [done|].
      by destruct (Hin (locks_alone _ _ _ _ _ Hl Hph (eq_sym Hphj) Hij)).
  - rewrite Hvs, Hnew. destruct e; try done. destruct (to_stores _ _ _ Hth) as [[->|(v & Hf & Hg)] _]; [by left|].
    right. exists v. split; [|done]. apply list_elem_of_fmap in Hf as (ev & Hev & Hin).
    pose proof (to_sound _ _ _ Hth) as Hsound. rewrite Forall_forall in Hsound. by apply (Hsound ev).
  - rewrite Hvs, Hsec. done.
Qed.

Lemma provider_step_ok may pr pr' : processOk pr -> step may pr pr' -> processOk pr'.
Proof.
  intros Hok Hstep. destruct Hstep as [pr pr' Hact|s ts c _|s ts v]; [by eapply provider_act_ok| |];
    destruct Hok as (phs & Hl & Hts & Hc & Hv); cbn [fst snd] in *.
  - exists (phs ++ [Outside]). cbn [fst snd]. split_and!; [| |done|done].
    + destruct Hl as [Hr Hw He]. split; rewrite ?count_app; cbn; [lia|rewrite Hw; lia|done].
    + apply Forall2_app; [done|]. constructor; [apply provider_started_ok|constructor].
  - assert (Hsub : s.(sh_versions) ⊆ from_option (fun x => [x]) [] v ++ s.(sh_versions)) by (intros y ?; by apply elem_of_app; right).
    exists phs. cbn [fst snd]. split_and!.
    + by destruct Hl.
    + eapply Forall2_impl; [exact Hts|]. intros th ph. by apply threadOk_mono.
    + destruct Hc; [by left|]. right. by eapply given_mono.
    + cbn. intros y ->. left.
Qed.

Lemma fresh_ok v : processOk (fresh v).
Proof. exists []. split_and!; [done|constructor|by left|]. cbn. intros y ->. left. Qed.

Lemma provider_reaches_ok v pr : reaches (fresh v) pr -> processOk pr.
Proof.
  generalize (fresh_ok v). generalize (fresh v). intros pr0 Hok Hr.
  induction Hr as [pr|pr pr1 pr' Hs _ IH]; [done|]. by eapply IH, provider_step_ok.
Qed.

(** ** No races, no deadlock, an end *)

Definition touches {X} (e : tenv X) : Prop := match e with ReadCache | WriteCache _ => True | _ => False end.

Lemma next_phase s ts phs i X (e : tenv X) :
  Forall2 (threadOk s) ts phs -> next ts i e -> exists ph ph', phs !! i = Some ph /\ lockStep ph e = Some ph'.
Proof.
  intros Hts (c & k & tr & Hi). destruct (Forall2_lookup_l _ _ _ _ _ Hts Hi) as (ph & Hph & Hth).
  destruct (to_disciplined _ _ _ Hth) as (ph' & Hl & _). eauto.
Qed.

(** A call inside a critical section can go on. *)
Lemma inside_acts s ts phs i ph :
  locks s phs -> Forall2 (threadOk s) ts phs -> phs !! i = Some ph -> ph <> Outside -> exists pr', act (s, ts) pr'.
Proof.
  intros [Hr Hw He] Hts Hi Hph. destruct (Forall2_lookup_r _ _ _ _ _ Hts Hi) as ([c co tr] & Htsi & Hth).
  pose proof (to_disciplined _ _ _ Hth) as Hd. pose proof (count_pos _ _ _ Hi) as Hc. cbn in Hd.
  destruct co as [o|X e k]; [done|]. destruct Hd as (ph' & Hl & _).
  assert (Hn : next ts i e) by (by exists c, k, tr).
  destruct e, ph; cbn in Hl; try done.
  - eapply (can_act _ _ _ _ _ _ tt); [exact Hn|]. cbn. split; [|done]. lia.
  - eapply (can_act _ _ _ _ _ _ tt); [exact Hn|]. cbn. split; [|done]. destruct (sh_writer s); [done|lia].
  - by eapply (can_act _ _ _ _ _ _ s.(sh_cache)); [exact Hn|].
  - by eapply (can_act _ _ _ _ _ _ s.(sh_cache)); [exact Hn|].
  - by eapply (can_act _ _ _ _ _ _ tt); [exact Hn|].
Qed.

Lemma no_deadlock s ts : processOk (s, ts) -> Forall finished ts \/ exists pr', act (s, ts) pr'.
Proof.
  intros (phs & Hl & Hts & _ & _). cbn [fst snd] in *.
  destruct (decide (count Reading phs = O)) as [HR|[i Hi]%count_some]; [|right; by eapply inside_acts].
  destruct (decide (count Writing phs = O)) as [HW|[i Hi]%count_some]; [|right; by eapply inside_acts].
  destruct (unfinished ts) as [|(i & X & e & Hn)]; [by left|right].
  destruct (next_phase _ _ _ _ _ _ Hts Hn) as (ph & ph' & Hph & Hstep).
  apply count_zero in HR as HR'. apply count_zero in HW as HW'. rewrite Forall_lookup in HR', HW'.
  specialize (HR' _ _ Hph). specialize (HW' _ _ Hph). destruct Hl as [Hr Hw _]. rewrite HR in Hr. rewrite HW in Hw.
  destruct (sh_writer s) eqn:Hwr; [done|]. destruct ph; [|done..].
  destruct e; cbn in Hstep; try done.
  - by eapply (can_act _ _ _ _ _ _ tt); [exact Hn|].
  - by eapply (can_act _ _ _ _ _ _ tt); [exact Hn|].
  - eapply (can_act _ _ _ _ _ _ (Err (ErrorString "unavailable"))); [exact Hn|]. by cbn.
Qed.

Lemma ok_within pr : processOk pr -> Forall (fun th => within 7 th.(th_code)) pr.2.
Proof.
  intros (phs & _ & Hts & _). apply Forall_lookup. intros i th Hi.
  destruct (Forall2_lookup_l _ _ _ _ _ Hts Hi) as (ph & _ & Hth). by apply Hth.
Qed.

(** Claim C18.  Requests share one provider without harm.  However the calls of
    [Token] and [Invalidate] interleave, and whatever becomes of the Secret, no two
    of them are ever about to touch the cache when one of the two writes it; the
    mutex is never unlocked by a call that does not hold it, which would be fatal;
    some call can proceed as long as one has not returned; and every call returns
    after at most seven operations, so that after seven for each call at work all
    have returned. *)
Theorem token_calls_interleave (v : option Secret) (s : shared) (ts : list thread) :
  reaches (fresh v) (s, ts) ->
  (forall i j X (e : tenv X) tok, i <> j -> next ts i (WriteCache tok) -> next ts j e -> ~ touches e) /\
  (forall i, next ts i RUnlock -> s.(sh_readers) <> O) /\
  (forall i, next ts i Unlock -> s.(sh_writer) = true) /\
  (Forall finished ts \/ exists pr', act (s, ts) pr') /\
  (forall n pr', nsteps act n (s, ts) pr' -> (n <= 7 * length ts)%nat).
Proof.
  intros Hr. apply provider_reaches_ok in Hr as Hok. pose proof Hok as (phs & Hl & Hts & _). cbn [fst snd] in *.
  split_and!; [| | |by apply no_deadlock|].
  - intros i j X e tok Hij Hi Hj He.
    destruct (next_phase _ _ _ _ _ _ Hts Hi) as (ph & ? & Hphi & Hsi). destruct ph; try done.
    destruct (next_phase _ _ _ _ _ _ Hts Hj) as (ph & ? & Hphj & Hsj).
    rewrite (locks_alone _ _ _ _ _ Hl Hphi Hphj Hij) in Hsj. by destruct e.
  - intros i Hi. destruct (next_phase _ _ _ _ _ _ Hts Hi) as (ph & ? & Hphi & Hsi). destruct ph; try done.
    apply count_pos in Hphi. destruct Hl as [Hread _ _]. lia.
  - intros i Hi. destruct (next_phase _ _ _ _ _ _ Hts Hi) as (ph & ? & Hphi & Hsi). destruct ph; try done.
    apply count_pos in Hphi. destruct Hl as [_ Hw _]. destruct (sh_writer s); [done|lia].
  - intros n pr' Hn. eapply acts_bounded_each in Hn; [exact Hn|]. by apply ok_within.
Qed.

(** ** Every call is a call that runs alone *)

Section Refinement.
Context `{QuantityAPI}.

(** A result of [WebhookAuth.SecretToken] for a cache that is empty or holds a
    token that was given, reading a version of the Secret. *)
Definition asAlone (vs : list Secret) (r : result string) : Prop :=
  exists cached h stored,
    runs (SecretToken p cached) [] h (r, stored) /\ (cached = "" \/ given vs cached) /\
    (forall v, answered KSecret h HubClient secretKey (Ok v) -> v ∈ vs).

Lemma asAlone_cached vs tok : given vs tok -> asAlone vs (Ok tok).
Proof.
  intros Hg. pose proof Hg as (v & _ & _ & Hne). exists tok, [], None. split_and!; [|by right|].
  - unfold SecretToken. apply is_empty_false in Hne as ->. constructor.
  - intros v' Hin. by apply elem_of_nil in Hin.
Qed.

Lemma asAlone_fetched vs g r stored :
  (forall v, g = Ok v -> v ∈ vs) ->
  runs (SecretToken p "") [] [Ev (ClientGet HubClient KSecret secretKey) g] (r, stored) -> asAlone vs r.
Proof.
  intros Hg Hr. eexists "", _, _. split; [exact Hr|]. split; [by left|].
  intros v Hv. apply Hg. unfold answered in Hv. cbn in Hv. apply list_elem_of_singleton in Hv. by simplify_eq.
Qed.

Ltac alone_fetched g Hin Hv Ht :=
  eapply asAlone_fetched;
  [by apply Hin
  |unfold SecretToken; cbn -[is_empty quote]; apply (runs_act _ _ _ g); cbn -[is_empty quote]; rewrite ?Hv, ?Ht; by constructor].

Lemma token_alone vs :
  safe (fun _ _ _ => True) (code TokenCall) [] (fun tr o =>
    Forall (sound vs) tr -> coherent tr -> exists r, o = Got r /\ asAlone vs r).
Proof.
  cbn -[is_empty quote]. split; [done|]. intros []. split; [done|]. intros seen.
  destruct (is_empty seen) eqn:Hseen; cbn -[is_empty quote].
  - split; [done|]. intros []. split; [done|]. intros g.
    assert (Hin : forall t h, Forall (sound vs) (t ++ Ev (GetSecret secretKey) g :: h) -> forall v, g = Ok v -> v ∈ vs).
    { intros t h [_ [[_ Hf] _]%Forall_cons]%Forall_app v ->. by apply Hf. }
    destruct g as [v|err]; cbn -[is_empty quote].
    + destruct (_ !! _) as [tok|] eqn:Hv; [destruct (is_empty tok) eqn:Ht|]; cbn -[is_empty quote].
      * intros Hs _. specialize (Hin [] _ Hs). eexists. split; [done|]. alone_fetched (Ok v : result Secret) Hin Hv Ht.
      * split; [done|]. intros []. split; [done|]. intros []. split; [done|]. intros [] Hs _.
        specialize (Hin [_; _; _] _ Hs). eexists. split; [done|]. alone_fetched (Ok v : result Secret) Hin Hv Ht.
      * intros Hs _. specialize (Hin [] _ Hs). eexists. split; [done|]. alone_fetched (Ok v : result Secret) Hin Hv Hv.
    + intros Hs _. specialize (Hin [] _ Hs). eexists. split; [done|].
      eapply asAlone_fetched; [by apply Hin|]. unfold SecretToken. apply (runs_act _ _ _ (Err err)). by constructor.
  - split; [done|]. intros tok. split; [done|]. intros [] Hs (_ & Hrep & _).
    exists (Ok tok). split; [done|]. apply asAlone_cached. apply Forall_cons in Hs as [_ [[Hs _] _]%Forall_cons].
    specialize (Hrep tok seen eq_refl eq_refl) as ->. destruct (Hs seen eq_refl) as [->|]; [|done].
    done.
Qed.

Lemma asAlone_given vs tok : asAlone vs (Ok tok) -> given vs tok.
Proof.
  intros (cached & h & st & Hruns & Hc & Hv).
  pose proof (secretProvider_safe p cached []) as Hsafe. unfold secretProvider in Hsafe. apply safe_bind in Hsafe.
  destruct (proj2 (runs_post _ _ _ _ _ Hruns Hsafe) tok eq_refl) as [Hne [[Hcne ->]|[_ (v & Ha & Hd)]]].
  - by destruct Hc.
  - exists v. split; [by apply Hv|done].
Qed.

(** Claim C17.  A busy provider hands out what a provider on its own would.
    However the calls interleave, with each other, with [Invalidate] and with
    replacements of the Secret, every finished call of [Token] has the result of
    [WebhookAuth.SecretToken] run alone on an empty cache, or on a cache that holds
    a token the Secret contained, and reading a version the Secret had; so a token
    is only ever one that the Secret contained since the provider was made. *)
Theorem token_calls_refine (v : option Secret) (s : shared) (ts : list thread) (i : nat) (o : outcome) (tr : trace tenv) :
  reaches (fresh v) (s, ts) -> ts !! i = Some (mkThread TokenCall (Ret o) tr) ->
  exists r, o = Got r /\ asAlone s.(sh_versions) r /\ forall tok, r = Ok tok -> given s.(sh_versions) tok.
Proof.
  intros Hr Hi. apply provider_reaches_ok in Hr as (phs & _ & Hts & _). cbn [fst snd] in *.
  destruct (Forall2_lookup_l _ _ _ _ _ Hts Hi) as (ph & _ & Hth).
  pose proof (to_runs _ _ _ Hth tr o (runs_ret o tr)) as Hrun.
  destruct (runs_post _ _ _ _ _ Hrun (token_alone s.(sh_versions)) (to_sound _ _ _ Hth) (to_coherent _ _ _ Hth))
    as (r & -> & Ha).
  exists r. split; [done|]. split; [done|]. intros tok ->. by apply asAlone_given.
Qed.

End Refinement.

(** ** A token that was read stays *)

(** What a program does while the cache holds [tok]: it reads that, stores only
    that, and returns as [Q] says. *)
Fixpoint settles {A} (tok : string) (c : prog tenv A) (Q : A -> Prop) : Prop :=
  match c with
  | Ret a => Q a
  | Act e k =>
      match e in tenv X return (X -> Prop) -> Prop with
      | ReadCache => fun K => K tok
      | WriteCache t => fun K => t = tok /\ K tt
      | _ => fun K => forall x, K x
      end (fun x => settles tok (k x) Q)
  end.

Lemma token_settles tok : tok <> "" -> settles tok (code TokenCall) (fun o => o = Got (Ok tok)).
Proof. intros Hne%is_empty_false. cbn -[is_empty]. intros []. by rewrite Hne. Qed.

Lemma settles_perform {A} tok X (e : tenv X) (k : X -> prog tenv A) Q s x s' :
  s.(sh_cache) = tok -> settles tok (Act e k) Q -> perform X e s x s' -> settles tok (k x) Q /\ s'.(sh_cache) = tok.
Proof.
  intros Hc Hs Hp. destruct e; cbn in *; destruct_and?; subst; try done. by destruct x.
Qed.

(** Calls up to [n] may return anything, later ones return [tok]. *)
Definition settled (tok : string) (n : nat) (pr : process) : Prop :=
  pr.1.(sh_cache) = tok /\ (n <= length pr.2)%nat /\
  forall i th, pr.2 !! i = Some th -> settles tok th.(th_code) (fun o => (n <= i)%nat -> o = Got (Ok tok)).

Lemma settles_mono {A} tok (c : prog tenv A) (Q Q' : A -> Prop) :
  (forall a, Q a -> Q' a) -> settles tok c Q -> settles tok c Q'.
Proof.
  intros HQ. induction c as [a|X e k IH]; cbn; [apply HQ|].
  destruct e; [intros Hc x; by apply IH..|by apply IH| |intros Hc x; by apply IH]. intros [-> Hc]. split; [done|by apply IH].
Qed.

Lemma settled_step tok n pr pr' : tok <> "" -> settled tok n pr -> step (eq TokenCall) pr pr' -> settled tok n pr'.
Proof.
  intros Hne (Hc & Hn & Hts) Hstep. destruct Hstep as [pr pr' [s ts i c X e k tr x s' Hi Hp]|s ts c <-|s ts v]; cbn [fst snd] in *.
  - destruct (settles_perform _ _ _ _ _ _ _ _ Hc (Hts _ _ Hi) Hp) as [Hk Hc'].
    split_and!; [done|cbn; by rewrite length_insert|]. intros j th. cbn.
    rewrite list_lookup_insert. case_decide as Hij; [|apply Hts]. destruct Hij as [-> _]. by intros [= <-].
  - split_and!; [done|cbn; rewrite length_app; lia|]. cbn. intros j th [Hj|[_ [_ <-]%list_lookup_singleton_Some]]%lookup_app_Some.
    + by apply Hts.
    + eapply settles_mono; [|by apply token_settles]. done.
  - by split_and!.
Qed.

(** A rotated secret does not take effect.  Once a provider has a token
    and no call is at work, every later call returns that token, whatever is done
    to the Secret and however the calls interleave: nothing in the program calls
    [Invalidate], so the token is compared with until the process ends. *)
Theorem rotated_secret_ignored (s s' : shared) (ts ts' : list thread) (tok : string) :
  s.(sh_cache) = tok -> tok <> "" -> Forall finished ts -> reachesByTokens (s, ts) (s', ts') ->
  s'.(sh_cache) = tok /\
  forall i c o tr, (length ts <= i)%nat -> ts' !! i = Some (mkThread c (Ret o) tr) -> o = Got (Ok tok).
Proof.
  intros Hc Hne Hfin Hr.
  assert (Hset : settled tok (length ts) (s, ts)).
  { split_and!; [done|done|]. intros i th Hi. rewrite Forall_lookup in Hfin. destruct (Hfin _ _ Hi) as [o ->].
    apply lookup_lt_Some in Hi. cbn in *. lia. }
  revert Hset. generalize (length ts) as n. intros n Hset.
  assert (Hset' : settled tok n (s', ts')).
  { clear -Hne Hr Hset. induction Hr as [pr|pr pr1 pr' Hs _ IH]; [done|]. by eapply IH, settled_step. }
  destruct Hset' as (Hc' & _ & Hts). split; [done|]. intros i c o tr Hn Hi. by apply (Hts _ _ Hi).
Qed.

End Provider.

(** ** Schedules, executed *)

(** One answer an operation may give now, if it can be performed: the Secret as it
    is. *)
Definition attempt X (e : tenv X) (s : shared) : option (X * shared) :=
  match e in tenv X return option (X * shared) with
  | RLock => if s.(sh_writer) then None else Some (tt, s <| sh_readers := S s.(sh_readers) |>)
  | RUnlock => match s.(sh_readers) with O => None | S n => Some (tt, s <| sh_readers := n |>) end
  | Lock =>
      match s.(sh_writer), s.(sh_readers) with
      | false, O => Some (tt, s <| sh_writer := true |>)
      | _, _ => None
      end
  | Unlock => if s.(sh_writer) then Some (tt, s <| sh_writer := false |>) else None
  | ReadCache => Some (s.(sh_cache), s)
  | WriteCache tok => Some (tt, s <| sh_cache := tok |>)
  | GetSecret _ =>
      Some (match s.(sh_secret) with Some v => Ok v | None => Err (StatusError ReasonNotFound "secret") end, s)
  end.

Lemma attempt_perform X (e : tenv X) s x s' : attempt X e s = Some (x, s') -> perform X e s x s'.
Proof. destruct e, s as [r [] c [v|] vs]; cbn; try destruct r; intros; simplify_eq; try done; split; try done; by intros ? [= <-]. Qed.

(** What a scheduler decides. *)
Inductive move := Proceed (i : nat) | Begin (c : Call) | Rotate (v : Secret).

Definition moved (p : SecretTokenProvider) (pr : shared * list (thread tenv outcome Call)) (m : move) : shared * list (thread tenv outcome Call) :=
  match m with
  | Proceed i => proceed attempt pr i
  | Begin c => (pr.1, pr.2 ++ [started p c])
  | Rotate v => (pr.1 <| sh_secret := Some v |> <| sh_versions := v :: pr.1.(sh_versions) |>, pr.2)
  end.

Definition allowed (may : Call -> Prop) (m : move) : Prop := match m with Begin c => may c | _ => True end.

Definition schedule (p : SecretTokenProvider) (ms : list move) (pr : shared * list (thread tenv outcome Call)) : shared * list (thread tenv outcome Call) :=
  fold_left (moved p) ms pr.

Lemma schedule_steps p may ms pr : Forall (allowed may) ms -> rtc (step p may) pr (schedule p ms pr).
Proof.
  revert pr. induction ms as [|m ms IH]; intros [s ts] Hms; [done|]. apply Forall_cons in Hms as [Hm Hms].
  cbn [schedule fold_left]. etransitivity; [|by apply IH]. destruct m as [i|c|v]; cbn.
  - eapply (rtc_subrel (act perform)); [intros ? ?; apply step_act|]. apply proceed_acts, attempt_perform.
  - by apply rtc_once, step_start.
  - apply rtc_once. apply (step_rotate _ _ s ts (Some v)).
Qed.

(** Seven operations of a call. *)
Definition run (i : nat) : list move := replicate 7 (Proceed i).

Definition rotated : Secret := tokenSecret <| sec_Data := {["token" := "n3w"]} |>.

Lemma any_moves ms : Forall (allowed (fun _ => True)) ms.
Proof. apply Forall_forall. by intros [] _. Qed.

(** An [Invalidate] that comes after a rotation does not force a reload: a call
    that had read the old Secret stores its token afterwards, and a call that
    begins after all of it returns the old token. *)
Theorem invalidate_overtaken :
  exists pr1 pr2 tr,
    reaches demoTokens (fresh (Some tokenSecret)) pr1 /\ reaches demoTokens pr1 pr2 /\
    pr1.1.(sh_secret) = Some rotated /\ length pr1.2 = 2%nat /\
    (th_label <$> pr1.2 !! 1%nat) = Some InvalidateCall /\ (th_code <$> pr1.2 !! 1%nat) = Some (Ret Invalidated) /\
    pr2.2 !! 2%nat = Some (mkThread TokenCall (Ret (Got (Ok "s3cr3t"))) tr).
Proof.
  exists (schedule demoTokens ([Begin TokenCall] ++ replicate 4 (Proceed 0) ++ [Rotate rotated; Begin InvalidateCall] ++ run 1)
            (fresh (Some tokenSecret))).
  eexists (schedule demoTokens (run 0 ++ [Begin TokenCall] ++ run 2) _), _.
  split_and!; [apply schedule_steps, any_moves|apply schedule_steps, any_moves|vm_compute; reflexivity..].
Qed.

(** ** Witnesses *)

Lemma token_calls_refine_witness :
  exists s ts o tr r,
    reaches demoTokens (fresh (Some tokenSecret)) (s, ts) /\ ts !! 1%nat = Some (mkThread TokenCall (Ret o) tr) /\
    o = Got r /\ forall tok, r = Ok tok -> given demoTokens s.(sh_versions) tok.
Proof.
  pose (pr := schedule demoTokens ([Begin TokenCall; Begin TokenCall; Proceed 0; Proceed 1] ++ run 0 ++ [Rotate rotated] ++ run 1 ++ run 0)
            (fresh (Some tokenSecret))).
  assert (Hr : reaches demoTokens (fresh (Some tokenSecret)) (pr.1, pr.2))
    by (rewrite <- surjective_pairing; apply schedule_steps, any_moves).
  assert (Hi : pr.2 !! 1%nat = Some (mkThread TokenCall (Ret (Got (Ok "n3w"))) (default [] (th_trace <$> pr.2 !! 1%nat))))
    by (vm_compute; reflexivity).
  destruct (token_calls_refine (H := milliQuantity) demoTokens _ _ _ _ _ _ Hr Hi) as (r & Ho & _ & Hg).
  exists pr.1, pr.2, (Got (Ok "n3w")), (default [] (th_trace <$> pr.2 !! 1%nat)), r. by split_and!.
Defined.

Lemma token_calls_interleave_witness :
  exists s ts, reaches demoTokens (fresh (Some tokenSecret)) (s, ts) /\ ~ Forall finished ts /\
    exists pr', act perform (s, ts) pr'.
Proof.
  pose (pr := schedule demoTokens ([Begin TokenCall; Begin InvalidateCall; Begin TokenCall] ++ replicate 5 (Proceed 0) ++ replicate 2 (Proceed 1))
            (fresh (Some tokenSecret))).
  assert (Hr : reaches demoTokens (fresh (Some tokenSecret)) (pr.1, pr.2))
    by (rewrite <- surjective_pairing; apply schedule_steps, any_moves).
  destruct (token_calls_interleave demoTokens _ _ _ Hr) as (_ & _ & _ & Hd & _).
  exists pr.1, pr.2.
  assert (Hn : ~ Forall finished pr.2).
  { intros Hf. rewrite Forall_lookup in Hf. destruct (pr.2 !! 0%nat) as [th|] eqn:Hth; [|by vm_compute in Hth].
    destruct (Hf _ _ Hth) as [o Ho]. vm_compute in Hth. injection Hth as <-. discriminate Ho. }
  split_and!; [done|done|]. by destruct Hd.
Defined.

Lemma rotated_secret_ignored_witness :
  exists s s' ts ts' c o tr,
    s.(sh_cache) = "s3cr3t" /\ Forall finished ts /\ reachesByTokens demoTokens (s, ts) (s', ts') /\
    s'.(sh_secret) = Some rotated /\ ts' !! 1%nat = Some (mkThread c (Ret o) tr) /\ o = Got (Ok "s3cr3t").
Proof.
  pose (pr := schedule demoTokens ([Begin TokenCall] ++ run 0) (fresh (Some tokenSecret))).
  pose (pr' := schedule demoTokens ([Rotate rotated; Begin TokenCall] ++ run 1) pr).
  assert (Hr : reachesByTokens demoTokens (pr.1, pr.2) (pr'.1, pr'.2)).
  { rewrite <- !surjective_pairing. apply schedule_steps. repeat constructor. }
  assert (Hf : Forall finished pr.2) by (repeat constructor; by eexists).
  assert (Hi : pr'.2 !! 1%nat = Some (mkThread TokenCall (Ret (Got (Ok "s3cr3t"))) (default [] (th_trace <$> pr'.2 !! 1%nat))))
    by (vm_compute; reflexivity).
  destruct (rotated_secret_ignored demoTokens pr.1 pr'.1 pr.2 pr'.2 "s3cr3t") as [_ H]; [done..|].
  eexists pr.1, pr'.1, pr.2, pr'.2, _, _, _. split_and!; [done..|exact Hi|]. eapply H; [|exact Hi]. vm_compute. constructor.
Defined.
