(* ===== verification/WebhookActions.v ===== *)
(** * What webhook requests do (internal/sourcewebhook/actions.go, github_actions.go, config.go)

    Creating, expiring and touching leases for the generic endpoint, and the
    translation of pull request events for GitHub.  The webhook's client is
    [HubClient]. *)

From S2P Require Import Prelude GoStrings GoTime GoErrors Api Concrete Policy LeaseExpiration.
From S2P Require Import Programs Kube GoText WebhookNames.

(** ** config.go, the annotation keys *)

Definition AnnotationRequestID : string := "kubelease.io/webhook-request-id".
Definition AnnotationSource : string := "kubelease.io/source".
Definition SourceValue : string := "webhook".
Definition SourceGitHub : string := "github".
Definition AnnotationGitHubOwner : string := "kubelease.io/github-owner".
Definition AnnotationGitHubRepo : string := "kubelease.io/github-repo".
Definition AnnotationGitHubPR : string := "kubelease.io/github-pr".
Definition AnnotationGitHubSHA : string := "kubelease.io/github-sha".
Definition AnnotationGitHubBranch : string := "kubelease.io/github-branch".
Definition AnnotationGitHubDelivery : string := "kubelease.io/github-delivery".
Definition AnnotationGitHubFullName : string := "kubelease.io/github-full-name".
Definition LabelGitHubOwner : string := "kubelease.io/github-owner".
Definition LabelGitHubRepo : string := "kubelease.io/github-repo".
Definition LabelGitHubPR : string := "kubelease.io/github-pr".

(** [Config]. *)
Record Config := mkConfig {
  cfg_BindAddress : string;
  cfg_TokenSecretNamespace : string;
  cfg_TokenSecretName : string;
  cfg_TokenSecretKey : string;
  cfg_DefaultPolicy : string;
  cfg_NamespaceGenerateName : string;
  cfg_GitHubEnabled : bool;
  cfg_GitHubSecretName : string;
  cfg_GitHubSecretKey : string;
  cfg_GitHubRepoPolicies : gmap string string;
  cfg_GitHubMaxBodyBytes : Z;
  cfg_MaxBodyBytes : Z;
  cfg_ReadTimeout : duration;
  cfg_WriteTimeout : duration;
  cfg_IdleTimeout : duration;
  cfg_RequestTimeout : duration
}.
#[export] Instance eta_Config : Eta Config :=
  fun r => mkConfig r.(cfg_BindAddress) r.(cfg_TokenSecretNamespace) r.(cfg_TokenSecretName)
    r.(cfg_TokenSecretKey) r.(cfg_DefaultPolicy) r.(cfg_NamespaceGenerateName) r.(cfg_GitHubEnabled)
    r.(cfg_GitHubSecretName) r.(cfg_GitHubSecretKey) r.(cfg_GitHubRepoPolicies) r.(cfg_GitHubMaxBodyBytes)
    r.(cfg_MaxBodyBytes) r.(cfg_ReadTimeout) r.(cfg_WriteTimeout) r.(cfg_IdleTimeout) r.(cfg_RequestTimeout).

(** The zero value. *)
Definition emptyConfig : Config := mkConfig "" "" "" "" "" "" false "" "" ∅ 0 0 0 0 0 0.

Definition defaultMaxBodyBytes : Z := 65536.
Definition defaultReadTimeout : duration := 10 * Second.
Definition defaultWriteTimeout : duration := 10 * Second.
Definition defaultIdleTimeout : duration := 60 * Second.
Definition defaultRequestTimeout : duration := 10 * Second.

(** [if s == "" { s = d }] and [if n <= 0 { n = d }]. *)
Definition orString (s d : string) : string := if is_empty s then d else s.
Definition orPositive (n d : Z) : Z := if n <=? 0 then d else n.

(** [Config.Defaults]; no field but the secret name looks at another one. *)
Definition Defaults (c : Config) : Config :=
  mkConfig (orString c.(cfg_BindAddress) ":8082") c.(cfg_TokenSecretNamespace) c.(cfg_TokenSecretName)
    (orString c.(cfg_TokenSecretKey) "token") c.(cfg_DefaultPolicy)
    (orString c.(cfg_NamespaceGenerateName) "preview-") c.(cfg_GitHubEnabled)
    (orString c.(cfg_GitHubSecretName)
       (if negb (is_empty c.(cfg_TokenSecretName)) then c.(cfg_TokenSecretName) else "webhook-token"))
    (orString c.(cfg_GitHubSecretKey) "github-webhook-secret") c.(cfg_GitHubRepoPolicies)
    (orPositive c.(cfg_GitHubMaxBodyBytes) 1048576) (orPositive c.(cfg_MaxBodyBytes) defaultMaxBodyBytes)
    (orPositive c.(cfg_ReadTimeout) defaultReadTimeout) (orPositive c.(cfg_WriteTimeout) defaultWriteTimeout)
    (orPositive c.(cfg_IdleTimeout) defaultIdleTimeout) (orPositive c.(cfg_RequestTimeout) defaultRequestTimeout).

(** [ActionResult]. *)
Record ActionResult := mkActionResult {
  ar_StatusCode : Z;
  ar_Duplicate : bool;
  ar_Message : string;
  ar_LeaseName : string;
  ar_Namespace : string
}.

Definition answer (code : Z) (message leaseName : string) : ActionResult :=
  mkActionResult code false message leaseName "".
Definition duplicate (code : Z) (message leaseName : string) : ActionResult :=
  mkActionResult code true message leaseName "".

(** [Request] of request.go; an action is its string. *)
Record Request := mkRequest {
  rq_Action : string;
  rq_Name : string;
  rq_Owner : string;
  rq_Team : string;
  rq_RequestID : string
}.
#[export] Instance eta_Request : Eta Request :=
  fun r => mkRequest r.(rq_Action) r.(rq_Name) r.(rq_Owner) r.(rq_Team) r.(rq_RequestID).

Definition ActionCreate : string := "create".
Definition ActionExpire : string := "expire".
Definition ActionTouch : string := "touch".

Section Actions.
Context `{QuantityAPI} `{RetryAPI}.
Variable config : Config.

Notation outcome := (prog kube (result ActionResult)) (only parsing).

(** A new lease: what a struct literal leaves out is the zero value. *)
Definition newLease (name : string) (annotations lbls : labels) (policy : string) (owner : OwnerSpec)
    (nsLabels : labels) : EnvironmentLease :=
  mkEnvironmentLease
    (emptyMeta <| m_Name := name |> <| m_Annotations := annotations |> <| m_Labels := lbls |>)
    (mkEnvironmentLeaseSpec (Some policy) None None None None None None None [] owner
       (mkNamespaceSpec config.(cfg_NamespaceGenerateName) "" nsLabels ∅) None None None)
    emptyStatus.

(** ** actions.go *)

Definition validateAgainstPolicy (leaseObj : EnvironmentLease) (policyName : string) : prog kube (option error) :=
  let policyName := if is_empty policyName then config.(cfg_DefaultPolicy) else policyName in
  (g <- cl_Get HubClient KPolicy (named policyName) ;;
   Ret match g with
       | Err err =>
           if IsNotFound err then Some (ErrorString ("policy " +:+ quote policyName +:+ " not found"))
           else Some (ErrorWrap "get policy" err)
       | Ok pol =>
           match Resolve leaseObj.(lease_Spec) (Some pol) with
           | Err err => Some (ErrorWrap "policy violation" err)
           | Ok _ => None
           end
       end)%prog.

Definition buildLease (req : Request) : EnvironmentLease :=
  let name := TrimSpace req.(rq_Name) in
  let owner := TrimSpace req.(rq_Owner) in
  let team := TrimSpace req.(rq_Team) in
  let team := if is_empty team && negb (is_empty owner) then owner else team in
  let annotations : labels := {[AnnotationSource := SourceValue]} in
  let annotations := if negb (is_empty req.(rq_RequestID))
                     then <[AnnotationRequestID := req.(rq_RequestID)]> annotations else annotations in
  newLease name annotations {[LabelManagedBy := ManagedByValue]} config.(cfg_DefaultPolicy)
    (mkOwnerSpec owner team) (<["environment" := "preview"]> {["source" := SourceValue]}).

(** [Client.Create], after validation, with the answers of both endpoints;
    [answered] is the name the endpoint reports for the created lease. *)
Definition submitLease (leaseObj : EnvironmentLease) (policyName name : string)
    (answered : EnvironmentLease -> string) : outcome :=
  (e <- validateAgainstPolicy leaseObj policyName ;;
   match e with
   | Some err => Ret (Ok (answer 422 (Error err) ""))
   | None =>
       c <- cl_Create HubClient KLease leaseObj ;;
       Ret match c with
           | Err err =>
               if IsAlreadyExists err then Ok (duplicate 200 "lease already exists" name)
               else Err (ErrorWrap "create lease" err)
           | Ok leaseObj => Ok (answer 201 "lease created" (answered leaseObj))
           end
   end)%prog.

Definition createLease (req : Request) : outcome :=
  if is_empty config.(cfg_DefaultPolicy)
  then Ret (Ok (answer 500 "webhook default policy is not configured" ""))
  else
    let name := TrimSpace req.(rq_Name) in
    (g <- cl_Get HubClient KLease (named name) ;;
     match g with
     | Ok existing =>
         Ret (Ok (
           if negb (is_empty req.(rq_RequestID))
              && String.eqb (get existing.(lease_Meta).(m_Annotations) AnnotationRequestID) req.(rq_RequestID)
           then mkActionResult 200 true "lease already exists for requestId" (lease_Name existing)
                  existing.(lease_Status).(st_Namespace)
           else if is_empty req.(rq_RequestID)
           then mkActionResult 200 true "lease already exists" (lease_Name existing)
                  existing.(lease_Status).(st_Namespace)
           else answer 409 "lease already exists with a different requestId" (lease_Name existing)))
     | Err err =>
         if negb (IsNotFound err) then Ret (Err (ErrorWrap "get lease" err))
         else submitLease (buildLease req) config.(cfg_DefaultPolicy) name (fun l => lease_Name l)
     end)%prog.

(** [Client.Delete] with the answers of both endpoints. *)
Definition deleteLease (leaseObj : EnvironmentLease) (name message : string) : outcome :=
  (e <- cl_Delete HubClient KLease leaseObj ;;
   Ret match e with
       | Some err =>
           if IsNotFound err then Ok (duplicate 200 "lease already absent" name)
           else Err (ErrorWrap "delete lease" err)
       | None => Ok (answer 202 message name)
       end)%prog.

(** The check of the request id answers what the check below it answers. *)
Definition expireLease (req : Request) : outcome :=
  let name := TrimSpace req.(rq_Name) in
  (g <- cl_Get HubClient KLease (named name) ;;
   match g with
   | Err err =>
       if IsNotFound err then Ret (Ok (duplicate 200 "lease already absent" name))
       else Ret (Err (ErrorWrap "get lease" err))
   | Ok leaseObj =>
       let deleting := negb (IsZeroPtr leaseObj.(lease_Meta).(m_DeletionTimestamp)) in
       if negb (is_empty req.(rq_RequestID))
          && String.eqb (get leaseObj.(lease_Meta).(m_Annotations) AnnotationRequestID) req.(rq_RequestID)
          && deleting
       then Ret (Ok (duplicate 200 "expire already requested" name))
       else if deleting then Ret (Ok (duplicate 200 "expire already requested" name))
       else deleteLease leaseObj name "expire requested"
   end)%prog.

Definition idleTTLFrom (leaseObj : EnvironmentLease) : duration :=
  let specTTL := default 0 leaseObj.(lease_Spec).(spec_IdleTTL) in
  match leaseObj.(lease_Status).(st_Effective) with
  | Some eff => match eff.(eff_IdleTTL) with Some d => d | None => specTTL end
  | None => specTTL
  end.

(** One attempt of [touchLease]: the closure writes [result]. *)
Definition touchAttempt (name : string) (res : ActionResult) : prog kube (ActionResult * option error) :=
  (g <- cl_Get HubClient KLease (named name) ;;
   match g with
   | Err err =>
       if IsNotFound err then Ret (answer 404 "lease not found" name, None) else Ret (res, Some err)
   | Ok leaseObj =>
       let idleTTL := idleTTLFrom leaseObj in
       t <- call Now ;;
       let '(leaseObj, err) := RecordActivity leaseObj t idleTTL in
       match err with
       | Some err => Ret (answer 409 (Error err) name, None)
       | None =>
           u <- cl_StatusUpdate HubClient KLease leaseObj ;;
           match u with
           | Err err => Ret (res, Some err)
           | Ok leaseObj =>
               Ret (mkActionResult 200 false "activity recorded" name leaseObj.(lease_Status).(st_Namespace), None)
           end
       end
   end)%prog.

Definition touchLease (req : Request) : outcome :=
  let name := TrimSpace req.(rq_Name) in
  ('(res, err) <- RetryOnConflict (touchAttempt name) (mkActionResult 0 false "" "" "") ;;
   Ret match err with Some err => Err err | None => Ok res end)%prog.

Definition handleAction (req : Request) : outcome :=
  if String.eqb req.(rq_Action) ActionCreate then createLease req
  else if String.eqb req.(rq_Action) ActionExpire then expireLease req
  else if String.eqb req.(rq_Action) ActionTouch then touchLease req
  else Ret (Ok (answer 400 "unsupported action" "")).

(** ** github_actions.go *)

Definition PolicyForRepo (fullName : string) : string :=
  let fullName := ToLower (TrimSpace fullName) in
  match config.(cfg_GitHubRepoPolicies) !! fullName with
  | Some p => if negb (is_empty p) then p else config.(cfg_DefaultPolicy)
  | None => config.(cfg_DefaultPolicy)
  end.

Definition set_nonempty (k v : string) (m : labels) : labels := if is_empty v then m else <[k := v]> m.

Definition githubMetadataAnnotations (ref : GitHubPRRef) (deliveryID : string) : labels :=
  let out : labels :=
    <[AnnotationSource := SourceGitHub]> (<[AnnotationGitHubOwner := ref.(pr_Owner)]>
    (<[AnnotationGitHubRepo := ref.(pr_Repo)]> (<[AnnotationGitHubPR := Itoa ref.(pr_Number)]>
    {[AnnotationGitHubFullName := FullName ref]}))) in
  let out := set_nonempty AnnotationGitHubSHA ref.(pr_SHA) out in
  let out := set_nonempty AnnotationGitHubBranch ref.(pr_Branch) out in
  if negb (is_empty deliveryID)
  then <[AnnotationRequestID := "github:" +:+ deliveryID]> (<[AnnotationGitHubDelivery := deliveryID]> out)
  else out.

Definition githubMetadataLabels (ref : GitHubPRRef) : labels :=
  <[LabelManagedBy := ManagedByValue]> (<[LabelGitHubOwner := dnsLabel ref.(pr_Owner)]>
  (<[LabelGitHubRepo := dnsLabel ref.(pr_Repo)]> {[LabelGitHubPR := Itoa ref.(pr_Number)]})).

Definition githubIdentityConflict (existing : EnvironmentLease) (ref : GitHubPRRef) : string :=
  let anns := existing.(lease_Meta).(m_Annotations) in
  let full := get anns AnnotationGitHubFullName in
  let full :=
    if is_empty full then
      let owner := get anns AnnotationGitHubOwner in
      let repo := get anns AnnotationGitHubRepo in
      if negb (is_empty owner) && negb (is_empty repo) then owner +:+ "/" +:+ repo else full
    else full in
  if negb (is_empty full) && negb (String.eqb full (FullName ref))
  then "lease name collision: existing source " +:+ full +:+ " vs " +:+ FullName ref
  else "".

Definition buildGitHubLease (ref : GitHubPRRef) (name policyName deliveryID : string) : EnvironmentLease :=
  newLease name (githubMetadataAnnotations ref deliveryID) (githubMetadataLabels ref) policyName
    (mkOwnerSpec ref.(pr_Sender) ref.(pr_Owner))
    (<["environment" := "preview"]> (<["source" := SourceGitHub]>
     (<[LabelGitHubOwner := dnsLabel ref.(pr_Owner)]> (<[LabelGitHubRepo := dnsLabel ref.(pr_Repo)]>
     {[LabelGitHubPR := Itoa ref.(pr_Number)]})))).

Definition patchGitHubMetadata (leaseObj : EnvironmentLease) (ref : GitHubPRRef) (deliveryID : string)
    : prog kube (option error) :=
  let m := leaseObj.(lease_Meta) in
  let patched := leaseObj <| lease_Meta :=
    m <| m_Annotations := githubMetadataAnnotations ref deliveryID ∪ m.(m_Annotations) |>
      <| m_Labels := githubMetadataLabels ref ∪ m.(m_Labels) |> |> in
  match AssertNoGitHubSecretInSpec patched.(lease_Meta).(m_Annotations) with
  | Some err => Ret (Some err)
  | None => (p <- cl_Patch HubClient KLease patched leaseObj ;; Ret (err_of p))%prog
  end.

Definition ensureGitHubLease (ref : GitHubPRRef) (name deliveryID : string) : outcome :=
  let policyName := PolicyForRepo (FullName ref) in
  if is_empty policyName then Ret (Ok (answer 500 "no EnvironmentLeasePolicy configured for repository" ""))
  else
    (g <- cl_Get HubClient KLease (named name) ;;
     match g with
     | Ok existing =>
         let conflict := githubIdentityConflict existing ref in
         if negb (is_empty deliveryID)
            && String.eqb (get existing.(lease_Meta).(m_Annotations) AnnotationGitHubDelivery) deliveryID
         then Ret (Ok (mkActionResult 200 true "duplicate github delivery" (lease_Name existing)
                         existing.(lease_Status).(st_Namespace)))
         else if negb (is_empty conflict) then Ret (Ok (answer 409 conflict name))
         else if negb (IsZeroPtr existing.(lease_Meta).(m_DeletionTimestamp))
         then Ret (Ok (answer 409 "lease is expiring; retry after cleanup completes" name))
         else
           e <- patchGitHubMetadata existing ref deliveryID ;;
           match e with
           | Some err => Ret (Err err)
           | None => Ret (Ok (mkActionResult 200 false "lease ensured" (lease_Name existing)
                                existing.(lease_Status).(st_Namespace)))
           end
     | Err err =>
         if negb (IsNotFound err) then Ret (Err (ErrorWrap "get lease" err))
         else
           let leaseObj := buildGitHubLease ref name policyName deliveryID in
           match AssertNoGitHubSecretInSpec leaseObj.(lease_Meta).(m_Annotations) with
           | Some err => Ret (Ok (answer 500 (Error err) ""))
           | None => submitLease leaseObj policyName name (fun _ => name)
           end
     end)%prog.

(** The lease with the mark of its closed source. *)
Definition closedSource (leaseObj : EnvironmentLease) (deliveryID : string) (merged : bool) : EnvironmentLease :=
  let m := leaseObj.(lease_Meta) in
  let anns := m.(m_Annotations) in
  let anns := if negb (is_empty deliveryID)
              then <[AnnotationRequestID := "github:" +:+ deliveryID]> (<[AnnotationGitHubDelivery := deliveryID]> anns)
              else anns in
  let anns := if merged then <["kubelease.io/github-merged" := "true"]> anns else anns in
  (leaseObj <| lease_Meta := m <| m_Annotations := anns |> |>)
    <|@ st_ExpirationReason := ExpirationReasonSourceClosed |>.

Definition expireGitHubLease (ref : GitHubPRRef) (name deliveryID : string) (merged : bool) : outcome :=
  (g <- cl_Get HubClient KLease (named name) ;;
   match g with
   | Err err =>
       if IsNotFound err then Ret (Ok (duplicate 200 "lease already absent" name))
       else Ret (Err (ErrorWrap "get lease" err))
   | Ok leaseObj =>
       let deleting := negb (IsZeroPtr leaseObj.(lease_Meta).(m_DeletionTimestamp)) in
       let conflict := githubIdentityConflict leaseObj ref in
       if negb (is_empty deliveryID)
          && String.eqb (get leaseObj.(lease_Meta).(m_Annotations) AnnotationGitHubDelivery) deliveryID
          && deleting
       then Ret (Ok (duplicate 200 "duplicate github delivery" name))
       else if negb (is_empty conflict) then Ret (Ok (answer 409 conflict name))
       else if deleting then Ret (Ok (duplicate 200 "expire already requested" name))
       else
         u <- cl_StatusUpdate HubClient KLease (closedSource leaseObj deliveryID merged) ;;
         let leaseObj := match u with Ok stored => stored | Err _ => leaseObj end in
         deleteLease leaseObj name (if merged then "expire requested (merged)" else "expire requested")
   end)%prog.

(** [handleGitHubPREvent]; of the event it reads the action and [merged]. *)
Definition handleGitHubPREvent (action : string) (merged : bool) (ref : GitHubPRRef) (deliveryID : string)
    : outcome :=
  let name := LeaseName ref in
  if String.eqb action "opened" || String.eqb action "reopened" then ensureGitHubLease ref name deliveryID
  else if String.eqb action "closed" then expireGitHubLease ref name deliveryID merged
  else Ret (Ok (answer 200 ("ignored pull_request action " +:+ quote action) name)).

End Actions.
