(* ===== verification/WebhookServer.v ===== *)
(** * The webhook endpoints (internal/sourcewebhook/handler.go, github_handler.go, request.go, github_payload.go)

    From an HTTP request to a response.  A request is what the handlers read of
    it; a handler is a program that returns the response it writes.  Decoding of
    JSON documents is a parameter; request timeouts and logging are left out. *)

From S2P Require Import Prelude GoStrings GoTime GoErrors Api Concrete Policy LeaseExpiration.
From S2P Require Import Programs Kube World Sha GoText WebhookNames WebhookAuth WebhookActions Runtime.
From Stdlib Require Import Ascii.

(** ** Requests and responses *)

(** [http.Request]: what its body yields before the end or an error. *)
Record HttpRequest := mkHttpRequest {
  http_Method : string;
  http_Header : string -> string;
  http_Body : string;
  http_BodyErr : option error
}.

(** [io.ReadAll(io.LimitReader(r.Body, n))]: the reader stops by itself after
    [n] bytes, before it meets the error. *)
Definition readLimited (r : HttpRequest) (n : Z) : result string :=
  if n <=? Z.of_nat (String.length r.(http_Body)) then Ok (String.substring 0 (Z.to_nat n) r.(http_Body))
  else match r.(http_BodyErr) with Some err => Err err | None => Ok r.(http_Body) end.

(** [responseBody], with the status code of [writeJSON]. *)
Record Response := mkResponse {
  resp_Code : Z;
  resp_Status : string;
  resp_Message : string;
  resp_LeaseName : string;
  resp_Namespace : string;
  resp_Duplicate : bool
}.

Definition errorResponse (code : Z) (message : string) : Response :=
  mkResponse code "error" message "" "" false.
Definition okResponse (message : string) : Response := mkResponse 200 "ok" message "" "" false.

Definition resultOK : string := "ok".
Definition resultError : string := "error".
Definition resultInvalid : string := "invalid".
Definition resultUnauthorized : string := "unauthorized".
Definition resultDuplicate : string := "duplicate".
Definition resultPolicyViolation : string := "policy_violation".

(** ** github_payload.go *)

(** [githubPullRequestEvent]. *)
Record githubPullRequestEvent := mkEvent {
  ev_Action : string;
  ev_Number : Z;
  ev_PRNumber : Z;
  ev_Merged : bool;
  ev_HeadSHA : string;
  ev_HeadRef : string;
  ev_UserLogin : string;
  ev_RepoName : string;
  ev_OwnerLogin : string;
  ev_SenderLogin : string
}.

Definition toRef (ev : githubPullRequestEvent) : result GitHubPRRef :=
  let owner := TrimSpace ev.(ev_OwnerLogin) in
  let repo := TrimSpace ev.(ev_RepoName) in
  if is_empty owner || is_empty repo then Err (ErrorString "repository owner/name are required")
  else
    let number := if ev.(ev_Number) =? 0 then ev.(ev_PRNumber) else ev.(ev_Number) in
    if number <=? 0 then Err (ErrorString "pull request number is required")
    else
      let sender := TrimSpace ev.(ev_UserLogin) in
      let sender := if is_empty sender then TrimSpace ev.(ev_SenderLogin) else sender in
      Ok (mkGitHubPRRef owner repo number (TrimSpace ev.(ev_HeadSHA)) (TrimSpace ev.(ev_HeadRef)) sender).

(** ** request.go *)

(** [leaseNameRE]. *)
Definition leaseNameRE (s : string) : bool :=
  let l := chars s in
  let alnum c := labelByte c && negb (Ascii.eqb c "-") in
  match head l, last l with
  | Some a, Some z => alnum a && alnum z && forallb labelByte l
  | _, _ => false
  end.

Definition validate (req : Request) : option error :=
  let action := req.(rq_Action) in
  if is_empty action then Some (ErrorString "action is required")
  else if negb (String.eqb action ActionCreate) && negb (String.eqb action ActionExpire)
          && negb (String.eqb action ActionTouch)
  then Some (ErrorString ("unsupported action " +:+ quote action))
  else
    let name := TrimSpace req.(rq_Name) in
    if is_empty name then Some (ErrorString "name is required")
    else if (63 <? String.length name)%nat then Some (ErrorString "name must be at most 63 characters")
    else if negb (leaseNameRE name) then Some (ErrorString "name must be a valid DNS-1123 label")
    else None.

(** The JSON documents the endpoints accept.  [decodeJSON] is a decoder that
    disallows unknown fields, and whether it has more to read afterwards. *)
Class JSONAPI := {
  decodeJSON : string -> result (Request * bool);
  unmarshalEvent : string -> result githubPullRequestEvent
}.

(** ** internal/metrics *)

Definition mapSourceAction (action : string) : string :=
  let a := ToLower action in
  if String.eqb a ActionCreate then "create"
  else if String.eqb a ActionExpire then "expire"
  else if String.eqb a ActionTouch then "touch"
  else if String.eqb a "opened" || String.eqb a "reopened" then "create"
  else if String.eqb a "closed" then "expire"
  else "".

(** The outcome of a request in the metrics of the endpoints. *)
Definition resultLabelOf (out : ActionResult) : string :=
  let code := out.(ar_StatusCode) in
  if (200 <=? code) && (code <? 300) then if out.(ar_Duplicate) then resultDuplicate else resultOK
  else if code =? 401 then resultUnauthorized
  else if code =? 422 then resultPolicyViolation
  else if (400 <=? code) && (code <? 500) then resultInvalid
  else resultError.

Definition responseOf (out : ActionResult) : Response :=
  mkResponse out.(ar_StatusCode) (if 400 <=? out.(ar_StatusCode) then "error" else "ok")
    out.(ar_Message) out.(ar_LeaseName) out.(ar_Namespace) out.(ar_Duplicate).

Section Server.
Context `{QuantityAPI} `{RetryAPI} `{JSONAPI}.
Variable config : Config.

Notation TokenProvider := (prog kube (result string)) (only parsing).

Variable TokenProvider_ : option TokenProvider.
Variable GitHubSecretProvider : option TokenProvider.

Definition ObserveSource (provider action result : string) : prog kube unit :=
  (call (Metric (MetricInc "SourceEventsTotal" [provider; action; result])) ;;
   when (String.eqb result ResultFailure)
     (call (Metric (MetricInc "SourceErrorsTotal" [provider; action]))))%prog.

(** The source metric of a handled request. *)
Definition observeHandled (provider action : string) (statusCode : Z) : prog kube unit :=
  let mapped := mapSourceAction action in
  when (negb (is_empty mapped))
    (ObserveSource provider mapped (if 400 <=? statusCode then ResultFailure else ResultSuccess)).

(** The deferred metrics around a handler: the labels it ended with. *)
Definition measured (body : prog kube (string * string * Response)) : prog kube Response :=
  (start <- call WallClock ;;
   '(actionLabel, resultLabel, resp) <- body ;;
   call (Metric (MetricInc "webhookRequestsTotal" [actionLabel; resultLabel])) ;;
   stop <- call WallClock ;;
   call (Metric (MetricObserve "webhookRequestDuration" [actionLabel] (Sub stop start))) ;;
   Ret resp)%prog.

(** ** The generic endpoint *)

Definition decodeRequest (r : HttpRequest) (maxBody : Z) : result Request :=
  if negb (String.eqb r.(http_Method) "POST") then Err (ErrorString "method not allowed")
  else
    match readLimited r (wrap64 (maxBody + 1)) with
    | Err err => Err (ErrorWrap "read body" err)
    | Ok raw =>
        if maxBody <? Z.of_nat (String.length raw) then Err (ErrorString "request body too large")
        else if is_empty (TrimSpace raw) then Err (ErrorString "empty request body")
        else
          match decodeJSON raw with
          | Err err => Err (ErrorWrap "malformed JSON" err)
          | Ok (_, true) => Err (ErrorString "malformed JSON: trailing data")
          | Ok (req, false) => Ok req
          end
    end.

(** The request once it is authorized, decoded and valid. *)
Definition serveAction (req : Request) : prog kube (string * string * Response) :=
  (out <- handleAction config req ;;
   match out with
   | Err _ => Ret (req.(rq_Action), resultError, errorResponse 500 "internal error")
   | Ok out =>
       observeHandled ProviderWebhook req.(rq_Action) out.(ar_StatusCode) ;;
       Ret (req.(rq_Action), resultLabelOf out, responseOf out)
   end)%prog.

Definition handleLeases (r : HttpRequest) : prog kube Response :=
  measured
    (e <- authorize TokenProvider_ (r.(http_Header) "Authorization") (r.(http_Header) "X-KubeLease-Token") ;;
     match e with
     | Some _ => Ret ("unknown", resultUnauthorized, errorResponse 401 "unauthorized")
     | None =>
         match decodeRequest r config.(cfg_MaxBodyBytes) with
         | Err err =>
             let code := if negb (String.eqb r.(http_Method) "POST") then 405 else 400 in
             Ret ("unknown", resultInvalid, errorResponse code (Error err))
         | Ok req =>
             match validate req with
             | Some err => Ret (req.(rq_Action), resultInvalid, errorResponse 400 (Error err))
             | None =>
                 serveAction (if is_empty req.(rq_RequestID)
                              then req <| rq_RequestID := r.(http_Header) "Idempotency-Key" |> else req)
             end
         end
     end)%prog.

(** ** The GitHub endpoint *)

Definition parsePullRequestEvent (body : string) : result (githubPullRequestEvent * GitHubPRRef) :=
  match unmarshalEvent body with
  | Err err => Err (ErrorWrap "malformed JSON" err)
  | Ok ev => match toRef ev with Err err => Err err | Ok ref => Ok (ev, ref) end
  end.

Definition githubWebhookSecret : prog kube (result string) :=
  match GitHubSecretProvider with
  | Some provider => provider
  | None => Ret (Err (ErrorString "github webhook secret provider not configured"))
  end.

(** A verified delivery of an event. *)
Definition serveEvent (r : HttpRequest) (body : string) : prog kube (string * string * Response) :=
  let eventType := r.(http_Header) "X-GitHub-Event" in
  let deliveryID := r.(http_Header) "X-GitHub-Delivery" in
  let actionLabel := "github:" +:+ eventType in
  if String.eqb eventType "ping" then Ret (actionLabel, resultOK, okResponse "pong")
  else if is_empty eventType then Ret (actionLabel, resultInvalid, errorResponse 400 "missing X-GitHub-Event")
  else if negb (String.eqb eventType "pull_request")
  then Ret (actionLabel, resultOK, okResponse ("ignored event " +:+ eventType))
  else
    match parsePullRequestEvent body with
    | Err err => Ret (actionLabel, resultInvalid, errorResponse 400 (Error err))
    | Ok (ev, ref) =>
        let actionLabel := "github:pull_request:" +:+ ev.(ev_Action) in
        (out <- handleGitHubPREvent config ev.(ev_Action) ev.(ev_Merged) ref deliveryID ;;
         match out with
         | Err _ => Ret (actionLabel, resultError, errorResponse 500 "internal error")
         | Ok out =>
             observeHandled ProviderGitHub ev.(ev_Action) out.(ar_StatusCode) ;;
             Ret (actionLabel, resultLabelOf out, responseOf out)
         end)%prog
    end.

Definition githubMaxBody : Z :=
  if 0 <? config.(cfg_GitHubMaxBodyBytes) then config.(cfg_GitHubMaxBodyBytes) else config.(cfg_MaxBodyBytes).

Definition handleGitHub (r : HttpRequest) : prog kube Response :=
  measured
    (if negb (String.eqb r.(http_Method) "POST")
     then Ret ("github", resultInvalid, errorResponse 405 "method not allowed")
     else if negb config.(cfg_GitHubEnabled)
     then Ret ("github", resultInvalid, errorResponse 404 "github webhook is disabled")
     else
       match readLimited r (wrap64 (githubMaxBody + 1)) with
       | Err _ => Ret ("github", resultInvalid, errorResponse 400 "failed to read body")
       | Ok body =>
           if githubMaxBody <? Z.of_nat (String.length body)
           then Ret ("github", resultInvalid, errorResponse 413 "request body too large")
           else
             (secret <- githubWebhookSecret ;;
              match secret with
              | Err _ => Ret ("github", resultError, errorResponse 503 "webhook secret unavailable")
              | Ok secret =>
                  match VerifyGitHubSignature (bytes_of_string secret) (bytes_of_string body)
                          (r.(http_Header) HeaderGitHubSignature256) with
                  | Some _ => Ret ("github", resultUnauthorized, errorResponse 401 "invalid signature")
                  | None => serveEvent r body
                  end
              end)%prog
       end)%prog.

(** ** Health *)

(** [handleReadyz]: the status code and the message. *)
Definition handleReadyz : prog kube (Z * string) :=
  match TokenProvider_ with
  | None => Ret (503, "token provider not configured")
  | Some tokens =>
      (t <- tokens ;;
       match t with
       | Err _ => Ret (503, "token not ready")
       | Ok _ =>
           if config.(cfg_GitHubEnabled) then
             match GitHubSecretProvider with
             | None => Ret (503, "github secret provider not configured")
             | Some secrets =>
                 t <- secrets ;;
                 Ret match t with Err _ => (503, "github secret not ready") | Ok _ => (200, "ok") end
             end
           else Ret (200, "ok")
       end)%prog
  end.

End Server.
