(* ===== verification/WebhookSafety.v ===== *)
(** * What an HTTP request can do to the cluster

    The safety of the two webhook endpoints, over every run and every answer of
    the API server: nothing is written for a request that was not authenticated,
    decoded and validated, each action makes only its own calls, and a success is
    only reported for a write the API server acknowledged. *)

From S2P Require Import Prelude GoStrings GoTime GoErrors Api Concrete Policy LeaseExpiration.
From S2P Require Import Programs Kube World Sha GoText WebhookNames WebhookAuth WebhookActions WebhookServer Runtime.
From Stdlib Require Import Ascii.

(** ** Evidence in a history *)

Section Evidence.
Context `{QuantityAPI}.

Implicit Types (h : trace kube) (l : EnvironmentLease).

(** The lease the hub returned in this run, live. *)
Definition foundLive h (name : string) l : Prop :=
  answered KLease h HubClient (named name) (Ok l) /\ IsZeroPtr l.(lease_Meta).(m_DeletionTimestamp) = true.

(** The hub answered in this run that there is no such lease. *)
Definition leaseAbsent h (name : string) : Prop :=
  exists err, answered KLease h HubClient (named name) (Err err) /\ IsNotFound err = true.

(** A policy read in this run admits the lease. *)
Definition policyAdmits h (policyName : string) l : Prop :=
  exists pol p, answered KPolicy h HubClient (named policyName) (Ok pol) /\
    Resolve l.(lease_Spec) (Some pol) = Ok p.

(** The write a success code stands for was acknowledged. *)
Definition acknowledged h (statusCode : Z) : Prop :=
  (statusCode = 201 -> exists l l', Ev (ClientCreate HubClient KLease l) (Ok l') ∈ h) /\
  (statusCode = 202 -> exists l, Ev (ClientDelete HubClient KLease l) None ∈ h).

Lemma leaseAbsent_mono h h' name : h `suffix_of` h' -> leaseAbsent h name -> leaseAbsent h' name.
Proof. intros Hh (err & ? & ?). exists err. split; [by eapply answered_mono|done]. Qed.

Lemma foundLive_mono h h' name l : h `suffix_of` h' -> foundLive h name l -> foundLive h' name l.
Proof. intros Hh []. split; [by eapply answered_mono|done]. Qed.

Lemma acknowledged_mono h h' code : h `suffix_of` h' -> acknowledged h code -> acknowledged h' code.
Proof.
  intros Hh [Hc Hd]. split; intros Hcode.
  - destruct (Hc Hcode) as (l & l' & ?). exists l, l'. by eapply suffix_In.
  - destruct (Hd Hcode) as (l & ?). exists l. by eapply suffix_In.
Qed.

Lemma acknowledged_other h code : code <> 201 -> code <> 202 -> acknowledged h code.
Proof. by split. Qed.

(** The metrics around a handler. *)
Lemma measured_safe (G : guarantee kube) (body : prog kube (string * string * Response)) h
    (Q : trace kube -> Response -> Prop) :
  aboutWrites G ->
  (forall h1, h `suffix_of` h1 ->
     safe G body h1 (fun h2 x => forall h3, h2 `suffix_of` h3 -> Q h3 x.2)) ->
  safe G (measured body) h Q.
Proof.
  intros HG Hb. unfold measured. rewrite safe_bind. split; [by apply HG|]. intros start. cbn [safe].
  rewrite safe_bind. eapply safe_post; [apply Hb; grown|]. intros h2 [[a b] resp] HQ. cbn [call bind safe].
  split; [by apply HG|]. intros []. split; [by apply HG|]. intros stop. split; [by apply HG|]. intros [].
  apply HQ. grown.
Qed.

Lemma observeHandled_safe (G : guarantee kube) provider action code h :
  aboutWrites G -> safe G (observeHandled provider action code) h (fun _ _ => True).
Proof.
  intros HG. eapply (every_safe (fun X (e : kube X) => writes e = false)); [|by intros X h' e He; apply HG|done].
  unfold observeHandled, ObserveSource. every_tac.
Qed.

End Evidence.

(** ** Actions of the generic endpoint *)

Section Actions.
Context `{QuantityAPI} `{RetryLaws}.
Variable config : Config.

Implicit Types (h : trace kube) (l : EnvironmentLease).

(** What the generic endpoint may write for a request: creating the lease the
    request describes, where there is none and the configured policy admits it;
    deleting the live lease of that name as it was read; recording activity at
    the time the clock showed. *)
Definition actionWrites (req : Request) X h (e : kube X) : Prop :=
  let name := TrimSpace req.(rq_Name) in
  match e with
  | ClientCreate c k o =>
      c = HubClient /\ req.(rq_Action) = ActionCreate /\
      match k return Obj k -> Prop with
      | KLease => fun l => l = buildLease config req /\ leaseAbsent h name /\
                    policyAdmits h config.(cfg_DefaultPolicy) l
      | _ => fun _ => False
      end o
  | ClientDelete c k o =>
      c = HubClient /\ req.(rq_Action) = ActionExpire /\
      match k return Obj k -> Prop with
      | KLease => fun l => foundLive h name l
      | _ => fun _ => False
      end o
  | ClientStatusUpdate c k o =>
      c = HubClient /\ req.(rq_Action) = ActionTouch /\
      match k return Obj k -> Prop with
      | KLease => fun l' => exists l t, answered KLease h HubClient (named name) (Ok l) /\ Ev Now t ∈ h /\
                    RecordActivity l t (idleTTLFrom l) = (l', None)
      | _ => fun _ => False
      end o
  | ClientUpdate _ _ _ | ClientPatch _ _ _ _ | ClientStatusPatch _ _ _ _ => False
  | _ => True
  end.

Lemma actionWrites_about req : aboutWrites (actionWrites req).
Proof. by intros X h []. Qed.

Lemma validateAgainstPolicy_safe l policyName h :
  policyName <> "" ->
  safe (fun X _ (e : kube X) => writes e = false) (validateAgainstPolicy config l policyName) h
    (fun h' e => h `suffix_of` h' /\ (e = None -> policyAdmits h' policyName l)).
Proof.
  intros Hp%is_empty_false. unfold validateAgainstPolicy. rewrite Hp. cbv zeta. rewrite safe_bind. split; [done|].
  intros [pol|err]; cbn [safe]; (split; [grown|]).
  - destruct (Resolve _ _) as [p|err] eqn:Hr; [|done]. intros _. exists pol, p. split; [apply answered_here|done].
  - by destruct (IsNotFound err).
Qed.

(** The outcome of a request and the acknowledgement it claims. *)
Definition honest h (out : result ActionResult) : Prop :=
  match out with Ok out => acknowledged h out.(ar_StatusCode) | Err _ => True end.

(** What [submitLease] and [deleteLease] answer, and when. *)
Definition submitted l h (out : result ActionResult) : Prop :=
  match out with
  | Err _ => True
  | Ok out =>
      out.(ar_StatusCode) = 422 \/
      (out.(ar_StatusCode) = 201 /\ out.(ar_Duplicate) = false /\
       exists l', Ev (ClientCreate HubClient KLease l) (Ok l') ∈ h) \/
      (out.(ar_StatusCode) = 200 /\ out.(ar_Duplicate) = true /\
       exists err, Ev (ClientCreate HubClient KLease l) (Err err) ∈ h /\ IsAlreadyExists err = true)
  end.

Definition removed l h (out : result ActionResult) : Prop :=
  match out with
  | Err _ => True
  | Ok out =>
      (out.(ar_StatusCode) = 202 /\ out.(ar_Duplicate) = false /\ Ev (ClientDelete HubClient KLease l) None ∈ h) \/
      (out.(ar_StatusCode) = 200 /\ out.(ar_Duplicate) = true /\
       exists err, Ev (ClientDelete HubClient KLease l) (Some err) ∈ h /\ IsNotFound err = true)
  end.

Lemma submitted_honest l h out : submitted l h out -> honest h out.
Proof.
  destruct out as [out|]; [|done]. intros [Hc|[(Hc & _ & l' & Hl)|(Hc & _)]].
  - apply acknowledged_other; by rewrite Hc.
  - split; [by exists l, l'|by rewrite Hc].
  - apply acknowledged_other; by rewrite Hc.
Qed.

Lemma removed_honest l h out : removed l h out -> honest h out.
Proof.
  destruct out as [out|]; [|done]. intros [(Hc & _ & Hl)|(Hc & _)].
  - split; [by rewrite Hc|by exists l].
  - apply acknowledged_other; by rewrite Hc.
Qed.

Lemma submitLease_safe (G : guarantee kube) l policyName name f h :
  aboutWrites G -> policyName <> "" ->
  (forall h', h `suffix_of` h' -> policyAdmits h' policyName l -> G _ h' (ClientCreate HubClient KLease l)) ->
  safe G (submitLease config l policyName name f) h (submitted l).
Proof.
  intros HG Hp Hc. unfold submitLease. rewrite safe_bind.
  eapply safe_post; [apply (writeless_safe _ _ _ _ HG), (validateAgainstPolicy_safe _ _ _ Hp)|].
  intros h1 [err|] [Hh Ha]; [by left|].
  rewrite safe_bind. split; [apply (Hc _ Hh), (Ha eq_refl)|]. intros [l'|err]; cbn [safe].
  - right; left. split_and!; [done|done|]. exists l'. left.
  - destruct (IsAlreadyExists err) eqn:He; [|done]. right; right. split_and!; [done|done|]. exists err. split; [left|done].
Qed.

Lemma deleteLease_safe (G : guarantee kube) l name message h :
  G _ h (ClientDelete HubClient KLease l) -> safe G (deleteLease l name message) h (removed l).
Proof.
  intros HG. unfold deleteLease. rewrite safe_bind. split; [done|]. intros [err|]; cbn [safe].
  - destruct (IsNotFound err) eqn:He; [|done]. right. split_and!; [done|done|]. exists err. split; [left|done].
  - left. split_and!; [done|done|left].
Qed.

Lemma createLease_safe req h :
  req.(rq_Action) = ActionCreate -> safe (actionWrites req) (createLease config req) h honest.
Proof.
  intros Ha. unfold createLease. destruct (is_empty _) eqn:Hd; [by apply acknowledged_other|].
  apply is_empty_false in Hd. rewrite safe_bind. split; [done|]. intros [l|err]; cbn [safe].
  - repeat case_match; by apply acknowledged_other.
  - destruct (IsNotFound err) eqn:Hn; cbn [negb]; [|done].
    apply (safe_post _ _ _ (submitted (buildLease config req))); [|intros h' out; apply submitted_honest].
    apply submitLease_safe; [apply actionWrites_about|done|]. intros h' Hh Hadm. cbn. split_and!; try done.
    eapply leaseAbsent_mono; [exact Hh|]. exists err. split; [apply answered_here|done].
Qed.

Lemma expireLease_safe req h :
  req.(rq_Action) = ActionExpire -> safe (actionWrites req) (expireLease req) h honest.
Proof.
  intros Ha. unfold expireLease. rewrite safe_bind. split; [done|]. intros [l|err]; cbn [safe].
  - destruct (IsZeroPtr _) eqn:Hz; cbn [negb].
    + rewrite andb_false_r. apply (safe_post _ _ _ (removed l)); [|intros h' out; apply removed_honest].
      apply deleteLease_safe. split_and!; [done..|]. split; [apply answered_here|done].
    + destruct (_ && _ && _); by apply acknowledged_other.
  - destruct (IsNotFound err); [by apply acknowledged_other|done].
Qed.

Lemma touchLease_safe req h :
  req.(rq_Action) = ActionTouch -> safe (actionWrites req) (touchLease req) h honest.
Proof.
  intros Ha. unfold touchLease. cbv zeta. rewrite safe_bind.
  apply (safe_RetryOnConflict _ (fun h s => honest h (Ok s))); [by apply acknowledged_other|].
  intros h1 s Hs. unfold touchAttempt. rewrite safe_bind. split; [done|].
  assert (Hkeep : forall h2, h1 `suffix_of` h2 -> honest h2 (Ok s))
    by (intros h2 Hh; by eapply acknowledged_mono).
  intros [l|err]; cbn [safe].
  - rewrite safe_bind. split; [done|]. intros t. cbn [safe].
    destruct (RecordActivity _ _ _) as [l' [err|]] eqn:Hr.
    + split; [by apply acknowledged_other|done].
    + rewrite safe_bind. split.
      { split_and!; [done..|]. exists l, t. split_and!; [|left|done].
        eapply answered_mono; [|apply answered_here]. grown. }
      intros [u|err]; cbn [safe].
      * split; [by apply acknowledged_other|done].
      * split; [done|]. intros _ _ _. apply Hkeep. grown.
  - destruct (IsNotFound err); split; [by apply acknowledged_other|done|done|].
    intros _ _ _. apply Hkeep. grown.
Qed.

Lemma handleAction_safe req h : safe (actionWrites req) (handleAction config req) h honest.
Proof.
  unfold handleAction. repeat (case_match; zify_bool).
  - by apply createLease_safe, String.eqb_eq.
  - by apply expireLease_safe, String.eqb_eq.
  - by apply touchLease_safe, String.eqb_eq.
  - by apply acknowledged_other.
Qed.

End Actions.

(** ** The names the generic endpoint accepts *)

(** [leaseNameRE] and its length are the same class the names of the GitHub
    endpoint are in. *)
Lemma leaseNameRE_spec name :
  (String.length name <= 63)%nat -> name <> "" ->
  leaseNameRE name = isDNS1123Label name.
Proof.
  intros Hlen Hne. apply eq_true_iff_eq. rewrite isDNS1123Label_chars. unfold leaseNameRE.
  assert (Hl : (0 < String.length name)%nat) by (destruct name; [done|simpl; lia]).
  rewrite <- length_chars in Hl. cbv zeta.
  destruct (chars name) as [|a l] eqn:Hc; [simpl in Hl; lia|]. cbn [head].
  destruct (last (a :: l)) as [z|] eqn:Hz; [|by apply last_None in Hz].
  rewrite !andb_true_iff, !negb_true_iff, !Ascii.eqb_neq, forallb_forall.
  setoid_rewrite <- list_elem_of_In. rewrite <- Forall_forall. split.
  - intros [[[_ Ha] [_ Hz']] HF]. split; [|rewrite <- length_chars, Hc in *; lia]. split; [done|naive_solver..].
  - intros [[HF Hh Hla] _]. split_and!; try done.
    + by inversion HF.
    + intros ->. by apply Hh.
    + rewrite Forall_forall in HF. apply HF. by apply last_Some_elem_of.
    + intros ->. by apply Hla.
Qed.

Lemma validate_spec req :
  validate req = None <->
  (req.(rq_Action) = ActionCreate \/ req.(rq_Action) = ActionExpire \/ req.(rq_Action) = ActionTouch) /\
  isDNS1123Label (TrimSpace req.(rq_Name)) = true.
Proof.
  unfold validate. cbv zeta. set (name := TrimSpace _).
  assert (Hact : (negb (String.eqb (rq_Action req) ActionCreate) && negb (String.eqb (rq_Action req) ActionExpire)
            && negb (String.eqb (rq_Action req) ActionTouch)) = false <->
          (rq_Action req = ActionCreate \/ rq_Action req = ActionExpire \/ rq_Action req = ActionTouch)).
  { rewrite !andb_false_iff, !negb_false_iff, !String.eqb_eq. tauto. }
  destruct (is_empty (rq_Action req)) eqn:He.
  { apply is_empty_true in He. split; [done|]. rewrite He. naive_solver. }
  destruct (_ && negb (String.eqb (rq_Action req) ActionTouch)) eqn:Ha.
  { split; [done|]. intros [Hx _]. apply Hact in Hx. congruence. }
  apply proj1 in Hact. specialize (Hact eq_refl).
  destruct (is_empty name) eqn:Hn.
  { apply is_empty_true in Hn. split; [done|]. rewrite Hn. intros [_ Hx]. by vm_compute in Hx. }
  apply is_empty_false in Hn. destruct (_ <? _)%nat eqn:Hl; zify_bool.
  { split; [done|]. intros [_ [_ Hx]%isDNS1123Label_chars]. apply Nat.ltb_lt in Hl. lia. }
  apply Nat.ltb_ge in Hl. rewrite leaseNameRE_spec by done. destruct (isDNS1123Label _); naive_solver.
Qed.

(** ** The generic endpoint *)

Section Leases.
Context `{QuantityAPI} `{RetryLaws} `{JSONAPI}.
Variable config : Config.

Implicit Types (h : trace kube) (l : EnvironmentLease).

(** The request behind an HTTP request: decoded, valid, with its idempotency key. *)
Definition requestOf (r : HttpRequest) (req : Request) : Prop :=
  exists req0, decodeRequest r config.(cfg_MaxBodyBytes) = Ok req0 /\ validate req0 = None /\
    req = (if is_empty req0.(rq_RequestID) then req0 <| rq_RequestID := r.(http_Header) "Idempotency-Key" |> else req0).

Definition presentedToken (r : HttpRequest) : string :=
  extractBearerToken (r.(http_Header) "Authorization") (r.(http_Header) "X-KubeLease-Token").

(** A write needs the token, a valid request, and to be what that request asks. *)
Definition leasesGuard p cached (r : HttpRequest) X h (e : kube X) : Prop :=
  writes e = true ->
  tokenIn p cached h (presentedToken r) /\ exists req, requestOf r req /\ actionWrites config req X h e.

Lemma leasesGuard_about p cached r : aboutWrites (leasesGuard p cached r).
Proof. intros X h e He. unfold leasesGuard. by rewrite He. Qed.

(** What an answer of the generic endpoint tells the caller. *)
Definition leasesPost p cached (r : HttpRequest) h (resp : Response) : Prop :=
  (resp.(resp_Code) <> 401 -> tokenIn p cached h (presentedToken r)) /\ acknowledged h resp.(resp_Code).

Lemma leasesPost_mono p cached r h h' resp :
  h `suffix_of` h' -> leasesPost p cached r h resp -> leasesPost p cached r h' resp.
Proof.
  intros Hh [Ht Ha]. split; [|by eapply acknowledged_mono]. intros Hc. eapply tokenIn_mono; [exact Hh|by apply Ht].
Qed.

Lemma serveAction_safe req h :
  safe (actionWrites config req) (serveAction config req) h (fun h' x => acknowledged h' x.2.(resp_Code)).
Proof.
  unfold serveAction. rewrite safe_bind. eapply safe_post; [apply handleAction_safe|].
  intros h1 [out|err] Hout; [|by apply acknowledged_other]. rewrite safe_bind.
  eapply safe_post; [apply safe_extends, observeHandled_safe, actionWrites_about|].
  intros h2 [] [_ [t ->]]. eapply acknowledged_mono; [by eexists|exact Hout].
Qed.

(** Claim C16.  The generic endpoint, for every HTTP request, every run and every
    answer of the API server, against a token kept in a Secret.  Every write is
    made for a request that presented the token of this run (cached or just read,
    never empty), within the size limit, and whose JSON decoded to a request with
    a known action and a valid DNS-1123 name.  Then: a lease is only created for a
    create, it is exactly the lease the request describes, the API server had
    answered that there is none, and the configured policy was read and admits it;
    a lease is only deleted for an expire, as it was read under that name and not
    already on its way out; a status is only written for a touch, and is that lease
    with the activity recorded at the time of the clock, after [RecordActivity]
    accepted it; nothing else is ever written.  Any answer but 401 means that the
    token was right, and 201 and 202 are only answered after the API server
    acknowledged the creation or the deletion. *)
Theorem handleLeases_safe p cached (r : HttpRequest) (tr : trace kube) (resp : Response) :
  runs (handleLeases config (Some (secretProvider p cached)) r) [] tr resp ->
  guaranteed (leasesGuard p cached r) tr /\ leasesPost p cached r tr resp.
Proof.
  intros Hrun. refine (safe_sound (leasesGuard p cached r) _ [] tr resp _ I _ Hrun). unfold handleLeases.
  apply measured_safe; [apply leasesGuard_about|]. intros h1 _.
  apply (safe_post _ _ _ (fun h2 x => leasesPost p cached r h2 x.2));
    [|intros h2 x Hx h3 Hh; by eapply leasesPost_mono].
  rewrite safe_bind. eapply safe_post; [apply (writeless_safe _ _ _ _ (leasesGuard_about p cached r)), authorize_safe|].
  intros h2 [err|] Htok; [by split|]. specialize (Htok eq_refl).
  destruct (decodeRequest _ _) as [req0|err] eqn:Hd.
  2: { cbn. split; [done|]. apply acknowledged_other; by destruct (negb _). }
  destruct (validate req0) as [err|] eqn:Hv; [by split|]. set (req := if is_empty _ then _ else _).
  assert (Hreq : requestOf r req) by by exists req0.
  eapply safe_post; [apply safe_extends; apply (guard_within (actionWrites config req));
    [|apply serveAction_safe]|].
  - intros X h' e Hh Hw _. split; [by eapply tokenIn_mono|]. by exists req.
  - intros h3 x [Hx [t ->]]. split; [|done]. intros _. eapply tokenIn_mono; [by eexists|done].
Qed.

End Leases.

(** ** The GitHub endpoint *)

Section GitHub.
Context `{QuantityAPI} `{RetryLaws} `{JSONAPI}.
Variable config : Config.

Implicit Types (h : trace kube) (l : EnvironmentLease) (ref : GitHubPRRef).

(** The lease of a pull request as the hub returned it in this run, live and not
    recorded for another repository. *)
Definition ownedLive h ref l : Prop := foundLive h (LeaseName ref) l /\ githubIdentityConflict l ref = "".

Lemma ownedLive_mono h h' ref l : h `suffix_of` h' -> ownedLive h ref l -> ownedLive h' ref l.
Proof. intros Hh []. split; [by eapply foundLive_mono|done]. Qed.

(** A lease with the pull request and the delivery in its annotations and labels;
    its other ones, its specification and its status are kept. *)
Definition recordedPR l ref (deliveryID : string) : EnvironmentLease :=
  l <| lease_Meta := l.(lease_Meta)
         <| m_Annotations := githubMetadataAnnotations ref deliveryID ∪ l.(lease_Meta).(m_Annotations) |>
         <| m_Labels := githubMetadataLabels ref ∪ l.(lease_Meta).(m_Labels) |> |>.

(** What the GitHub endpoint may write for a pull request event. *)
Definition eventWrites (action : string) (merged : bool) ref (deliveryID : string) X h (e : kube X) : Prop :=
  let name := LeaseName ref in
  let policyName := PolicyForRepo config (FullName ref) in
  match e with
  | ClientCreate c k o =>
      c = HubClient /\ action ∈ ["opened"; "reopened"] /\
      match k return Obj k -> Prop with
      | KLease => fun l => l = buildGitHubLease config ref name policyName deliveryID /\ leaseAbsent h name /\
                    policyAdmits h policyName l /\ AssertNoGitHubSecretInSpec l.(lease_Meta).(m_Annotations) = None
      | _ => fun _ => False
      end o
  | ClientPatch c k patched base =>
      c = HubClient /\ action ∈ ["opened"; "reopened"] /\
      match k return Obj k -> Obj k -> Prop with
      | KLease => fun l' l => ownedLive h ref l /\ l' = recordedPR l ref deliveryID /\
                    AssertNoGitHubSecretInSpec l'.(lease_Meta).(m_Annotations) = None
      | _ => fun _ _ => False
      end patched base
  | ClientStatusUpdate c k o =>
      c = HubClient /\ action = "closed" /\
      match k return Obj k -> Prop with
      | KLease => fun l' => exists l, ownedLive h ref l /\ l' = closedSource l deliveryID merged
      | _ => fun _ => False
      end o
  | ClientDelete c k o =>
      c = HubClient /\ action = "closed" /\
      match k return Obj k -> Prop with
      | KLease => fun l' => exists l u, ownedLive h ref l /\
                    Ev (ClientStatusUpdate HubClient KLease (closedSource l deliveryID merged)) u ∈ h /\
                    l' = match u with Ok stored => stored | Err _ => l end
      | _ => fun _ => False
      end o
  | ClientUpdate _ _ _ | ClientStatusPatch _ _ _ _ => False
  | _ => True
  end.

Lemma eventWrites_about action merged ref d : aboutWrites (eventWrites action merged ref d).
Proof. by intros X h []. Qed.

(** What an event came to, by the code and the duplicate flag of its answer: the
    write that was acknowledged, or why there was nothing left to write. *)
Inductive accomplished (action : string) ref (deliveryID : string) h : Z -> bool -> Prop :=
  | acc_created l' :
      let l := buildGitHubLease config ref (LeaseName ref) (PolicyForRepo config (FullName ref)) deliveryID in
      action ∈ ["opened"; "reopened"] -> Ev (ClientCreate HubClient KLease l) (Ok l') ∈ h ->
      accomplished action ref deliveryID h 201 false
  | acc_recorded l l' :
      action ∈ ["opened"; "reopened"] -> ownedLive h ref l ->
      Ev (ClientPatch HubClient KLease (recordedPR l ref deliveryID) l) (Ok l') ∈ h ->
      accomplished action ref deliveryID h 200 false
  | acc_delivered l :
      action ∈ ["opened"; "reopened"] -> deliveryID <> "" ->
      answered KLease h HubClient (named (LeaseName ref)) (Ok l) ->
      get l.(lease_Meta).(m_Annotations) AnnotationGitHubDelivery = deliveryID ->
      accomplished action ref deliveryID h 200 true
  | acc_overtaken err :
      let l := buildGitHubLease config ref (LeaseName ref) (PolicyForRepo config (FullName ref)) deliveryID in
      action ∈ ["opened"; "reopened"] -> Ev (ClientCreate HubClient KLease l) (Err err) ∈ h ->
      IsAlreadyExists err = true -> accomplished action ref deliveryID h 200 true
  | acc_deleted l :
      action = "closed" -> Ev (ClientDelete HubClient KLease l) None ∈ h ->
      accomplished action ref deliveryID h 202 false
  | acc_absent :
      action = "closed" -> leaseAbsent h (LeaseName ref) -> accomplished action ref deliveryID h 200 true
  | acc_vanished l err :
      action = "closed" -> Ev (ClientDelete HubClient KLease l) (Some err) ∈ h -> IsNotFound err = true ->
      accomplished action ref deliveryID h 200 true
  | acc_leaving l :
      action = "closed" -> answered KLease h HubClient (named (LeaseName ref)) (Ok l) ->
      IsZeroPtr l.(lease_Meta).(m_DeletionTimestamp) = false -> accomplished action ref deliveryID h 200 true
  | acc_ignored :
      action ∉ ["opened"; "reopened"; "closed"] -> accomplished action ref deliveryID h 200 false.

Lemma accomplished_mono action ref d h h' code dup :
  h `suffix_of` h' -> accomplished action ref d h code dup -> accomplished action ref d h' code dup.
Proof.
  intros Hh. assert (Hin : forall ev, ev ∈ h -> ev ∈ h') by (intros ev; by apply suffix_In).
  intros [].
  - by eapply acc_created, Hin.
  - eapply acc_recorded; [done|by eapply ownedLive_mono|by apply Hin].
  - eapply acc_delivered; [done|done|by eapply answered_mono|done].
  - by eapply acc_overtaken; [|apply Hin|].
  - by eapply acc_deleted, Hin.
  - by eapply acc_absent, leaseAbsent_mono.
  - by eapply acc_vanished; [|apply Hin|].
  - eapply acc_leaving; [done|by eapply answered_mono|done].
  - by apply acc_ignored.
Qed.

(** An outcome that is a success is accounted for. *)
Definition accounted action ref d h (out : result ActionResult) : Prop :=
  match out with
  | Ok out => 200 <= out.(ar_StatusCode) < 300 -> accomplished action ref d h out.(ar_StatusCode) out.(ar_Duplicate)
  | Err _ => True
  end.

Lemma ensureGitHubLease_safe action merged ref d h :
  action ∈ ["opened"; "reopened"] ->
  safe (eventWrites action merged ref d) (ensureGitHubLease config ref (LeaseName ref) d) h (accounted action ref d).
Proof.
  intros Ha. unfold ensureGitHubLease. cbv zeta. destruct (is_empty _) eqn:Hp; [intros ?; cbn in *; lia|].
  apply is_empty_false in Hp. rewrite safe_bind. split; [done|]. intros [l|err]; cbn [safe].
  - destruct (_ && _) eqn:Hdup.
    { apply andb_true_iff in Hdup as [Hd%negb_true_iff%is_empty_false Hg%String.eqb_eq]. intros _.
      eapply acc_delivered; [done|done|apply answered_here|done]. }
    destruct (is_empty (githubIdentityConflict l ref)) eqn:Hc; cbn [negb]; [|intros ?; cbn in *; lia].
    apply is_empty_true in Hc. destruct (IsZeroPtr _) eqn:Hz; cbn [negb]; [|intros ?; cbn in *; lia].
    rewrite safe_bind. unfold patchGitHubMetadata. cbv zeta. destruct (AssertNoGitHubSecretInSpec _) eqn:Hs; [done|].
    rewrite safe_bind.
    assert (Hl : ownedLive (Ev (ClientGet HubClient KLease (named (LeaseName ref))) (Ok l) :: h) ref l)
      by (split; [|done]; split; [apply answered_here|done]).
    split; [by split_and!|]. intros [u|err]; cbn [safe err_of]; [|done]. intros _. eapply acc_recorded; [done| |left].
    eapply ownedLive_mono; [|exact Hl]. grown.
  - destruct (IsNotFound err) eqn:Hn; cbn [negb]; [|done]. destruct (AssertNoGitHubSecretInSpec _) eqn:Hs;
      [intros ?; cbn in *; lia|].
    eapply safe_post; [apply submitLease_safe; [apply eventWrites_about|done|]|].
    + intros h' Hh Hadm. split_and!; try done.
      eapply leaseAbsent_mono; [exact Hh|]. exists err. split; [apply answered_here|done].
    + intros h' [out|]; [|done]. intros [Hcode|[(Hcode & Hdup & l' & Hin)|(Hcode & Hdup & e & Hin & He)]];
        unfold accounted; rewrite Hcode; [lia|..]; intros _; rewrite Hdup; [by eapply acc_created|by eapply acc_overtaken].
Qed.

Lemma expireGitHubLease_safe ref d merged h :
  safe (eventWrites "closed" merged ref d) (expireGitHubLease ref (LeaseName ref) d merged) h (accounted "closed" ref d).
Proof.
  unfold expireGitHubLease. rewrite safe_bind. split; [done|]. intros [l|err]; cbn [safe].
  2: { destruct (IsNotFound err) eqn:Hn; [|done]. intros _. apply acc_absent; [done|]. exists err. split; [apply answered_here|done]. }
  cbv zeta. set (h1 := _ :: h).
  assert (Hgoing : forall m n, IsZeroPtr l.(lease_Meta).(m_DeletionTimestamp) = false ->
    accounted "closed" ref d h1 (Ok (duplicate 200 m n))).
  { intros m n Hz _. eapply acc_leaving; [done|apply answered_here|done]. }
  destruct (_ && _ && _) eqn:Hdel.
  { apply Hgoing. apply andb_true_iff in Hdel as [_ Hz]. by apply negb_true_iff in Hz. }
  destruct (is_empty (githubIdentityConflict l ref)) eqn:Hc; cbn [negb]; [|intros ?; cbn in *; lia].
  apply is_empty_true in Hc. destruct (IsZeroPtr _) eqn:Hz; cbn [negb]; [|by apply Hgoing].
  assert (Hl : ownedLive h1 ref l) by (split; [|done]; split; [apply answered_here|done]).
  rewrite safe_bind. split; [split_and!; try done; by exists l|]. intros u. cbn [safe].
  eapply safe_post; [apply deleteLease_safe|].
  - split_and!; [done..|]. exists l, u. split_and!; [|left|done].
    eapply ownedLive_mono; [|exact Hl]. grown.
  - intros h' [out|]; [|done]. intros [(Hcode & Hdup & Hin)|(Hcode & Hdup & e & Hin & He)];
      unfold accounted; rewrite Hcode, Hdup; intros _; [by eapply acc_deleted|by eapply acc_vanished].
Qed.

Lemma handleGitHubPREvent_safe action merged ref d h :
  safe (eventWrites action merged ref d) (handleGitHubPREvent config action merged ref d) h (accounted action ref d).
Proof.
  unfold handleGitHubPREvent. destruct (_ || _) eqn:Ho.
  - apply ensureGitHubLease_safe. apply orb_true_iff in Ho as [->%String.eqb_eq | ->%String.eqb_eq];
      [left|right; left].
  - destruct (String.eqb_spec action "closed") as [->|Hne]; [apply expireGitHubLease_safe|].
    intros _. apply acc_ignored. apply orb_false_iff in Ho as [Ho1%String.eqb_neq Ho2%String.eqb_neq].
    rewrite !elem_of_cons, elem_of_nil. tauto.
Qed.

(** A delivery of a pull request event that GitHub signed. *)
Definition signedBy (r : HttpRequest) (secret : string) : Prop :=
  exists body, readLimited r (wrap64 (githubMaxBody config + 1)) = Ok body /\
    Z.of_nat (String.length body) <= githubMaxBody config /\
    VerifyGitHubSignature (bytes_of_string secret) (bytes_of_string body)
      (r.(http_Header) HeaderGitHubSignature256) = None.

Definition eventOf (r : HttpRequest) (ev : githubPullRequestEvent) ref : Prop :=
  r.(http_Method) = "POST" /\ config.(cfg_GitHubEnabled) = true /\
  r.(http_Header) "X-GitHub-Event" = "pull_request" /\
  exists body, readLimited r (wrap64 (githubMaxBody config + 1)) = Ok body /\
    parsePullRequestEvent body = Ok (ev, ref).

Definition githubGuard p cached (r : HttpRequest) X h (e : kube X) : Prop :=
  writes e = true ->
  (exists secret, tokenIn p cached h secret /\ signedBy r secret) /\
  exists ev ref, eventOf r ev ref /\
    eventWrites ev.(ev_Action) ev.(ev_Merged) ref (r.(http_Header) "X-GitHub-Delivery") X h e.

Lemma githubGuard_about p cached r : aboutWrites (githubGuard p cached r).
Proof. intros X h e He. unfold githubGuard. by rewrite He. Qed.

(** What a delivery that is answered with success came to: a ping, an event that
    is not about pull requests, or one that was dealt with. *)
Definition dealtWith (r : HttpRequest) h (resp : Response) : Prop :=
  let kind := r.(http_Header) "X-GitHub-Event" in
  (kind = "ping" /\ resp = okResponse "pong") \/
  (kind <> "" /\ kind <> "ping" /\ kind <> "pull_request" /\ resp = okResponse ("ignored event " +:+ kind)) \/
  exists ev ref, eventOf r ev ref /\
    accomplished ev.(ev_Action) ref (r.(http_Header) "X-GitHub-Delivery") h resp.(resp_Code) resp.(resp_Duplicate).

Definition githubPost p cached (r : HttpRequest) h (resp : Response) : Prop :=
  200 <= resp.(resp_Code) < 300 ->
  (exists secret, tokenIn p cached h secret /\ signedBy r secret) /\ dealtWith r h resp.

Lemma dealtWith_mono r h h' resp : h `suffix_of` h' -> dealtWith r h resp -> dealtWith r h' resp.
Proof.
  intros Hh [?|[?|(ev & ref & ? & ?)]]; [by left|by right; left|right; right]. exists ev, ref.
  split; [done|by eapply accomplished_mono].
Qed.

Lemma githubPost_mono p cached r h h' resp :
  h `suffix_of` h' -> githubPost p cached r h resp -> githubPost p cached r h' resp.
Proof.
  intros Hh Hp Hc. destruct (Hp Hc) as [(s & Hs & ?) Hd]. split; [|by eapply dealtWith_mono].
  exists s. split; [by eapply tokenIn_mono|done].
Qed.

(** A refusal. *)
Lemma githubPost_refused p cached r h resp : 400 <= resp.(resp_Code) -> githubPost p cached r h resp.
Proof. intros Hc ?. lia. Qed.

(** From the verified signature on. *)
Lemma serveEvent_safe p cached r body secret h :
  r.(http_Method) = "POST" -> config.(cfg_GitHubEnabled) = true ->
  readLimited r (wrap64 (githubMaxBody config + 1)) = Ok body ->
  tokenIn p cached h secret -> signedBy r secret ->
  safe (githubGuard p cached r) (serveEvent config r body) h (fun h' x => githubPost p cached r h' x.2).
Proof.
  intros Hm He Hb Htok Hsig.
  assert (Hin : forall h' resp, h `suffix_of` h' -> dealtWith r h' resp -> githubPost p cached r h' resp).
  { intros h' resp Hh Hd _. split; [|done]. exists secret. split; [by eapply tokenIn_mono|done]. }
  unfold serveEvent. cbv zeta. destruct (String.eqb_spec (http_Header r "X-GitHub-Event") "ping") as [Hping|Hping];
    [apply Hin; [done|by left]|].
  destruct (is_empty _) eqn:Hemp; [by apply githubPost_refused|]. apply is_empty_false in Hemp.
  destruct (String.eqb_spec (http_Header r "X-GitHub-Event") "pull_request") as [Hev|]; cbn [negb];
    [|apply Hin; [done|by right; left]].
  destruct (parsePullRequestEvent body) as [[ev ref]|err] eqn:Hp; [|by apply githubPost_refused].
  assert (Hof : eventOf r ev ref) by (split_and!; try done; by exists body).
  rewrite safe_bind.
  eapply safe_post; [apply safe_extends, (guard_within (eventWrites (ev_Action ev) (ev_Merged ev) ref
    (http_Header r "X-GitHub-Delivery"))); [|apply handleGitHubPREvent_safe]|].
  - intros X h' e Hh Hw _. split; [exists secret; split; [by eapply tokenIn_mono|done]|]. by exists ev, ref.
  - intros h1 [out|err] [Hout [t ->]]; [|by apply githubPost_refused]. rewrite safe_bind.
    eapply safe_post; [apply safe_extends, observeHandled_safe, githubGuard_about|].
    intros h2 [] [_ [t2 ->]] Hcode. apply Hin; [grown| |done]. right; right. exists ev, ref. split; [done|].
    eapply accomplished_mono; [by eexists|by apply Hout].
Qed.

(** Claim C15.  The GitHub endpoint, for every HTTP request, every run and every
    answer of the API server, against a signing secret kept in a Secret.  Every
    write is made for a POST whose body, read whole within the limit, carries a
    valid signature under the secret of this run, and that parsed as a pull request
    event; the lease it touches is the one named after that pull request.  Then:
    opening creates exactly the lease built for the pull request, where the API
    server had answered that there is none, the policy of the repository was read
    and admits it, and none of its annotations looks like a credential; opening
    again only records the pull request and the delivery in the annotations and
    labels, leaving all else as it was; closing writes the reason and deletes the lease, always in this order.
    An existing lease is only written if it was read in this run, is not on its
    way out and is not recorded for another repository.  A 2xx answer means that
    the signature was valid, and one of these: the delivery is a ping or another
    kind of event; the API server acknowledged the creation (201), the deletion
    (202) or the metadata patch (200); it is a duplicate (200), of a delivery that
    the lease records, of a creation that the API server had made already, or of a
    deletion, of a lease that is gone or on its way out; or the action of the event
    is none that is acted on. *)
Theorem handleGitHub_safe p cached (r : HttpRequest) (tr : trace kube) (resp : Response) :
  runs (handleGitHub config (Some (secretProvider p cached)) r) [] tr resp ->
  guaranteed (githubGuard p cached r) tr /\ githubPost p cached r tr resp.
Proof.
  intros Hrun. refine (safe_sound (githubGuard p cached r) _ [] tr resp _ I _ Hrun). unfold handleGitHub.
  apply measured_safe; [apply githubGuard_about|]. intros h1 _.
  apply (safe_post _ _ _ (fun h2 x => githubPost p cached r h2 x.2));
    [|intros h2 x Hx h3 Hh; by eapply githubPost_mono].
  destruct (String.eqb_spec (http_Method r) "POST") as [Hm|]; cbn [negb]; [|by apply githubPost_refused].
  destruct (cfg_GitHubEnabled config) eqn:He; cbn [negb]; [|by apply githubPost_refused].
  destruct (readLimited _ _) as [body|err] eqn:Hb; [|by apply githubPost_refused].
  destruct (_ <? _) eqn:Hlen; [by apply githubPost_refused|]. apply Z.ltb_ge in Hlen.
  unfold githubWebhookSecret. rewrite safe_bind.
  eapply safe_post; [apply (writeless_safe _ _ _ _ (githubGuard_about p cached r)), secretProvider_safe|].
  intros h2 [secret|err] [_ Htok]; [|by apply githubPost_refused]. specialize (Htok _ eq_refl).
  destruct (VerifyGitHubSignature _ _ _) as [err|] eqn:Hv; [by apply githubPost_refused|].
  apply (serveEvent_safe p cached r body secret); try done. by exists body.
Qed.

End GitHub.

(** ** Witnesses *)

Section Demo.

#[local] Existing Instance milliQuantity.

(** A codec of two documents. *)
Definition demoCodec : JSONAPI := {|
  decodeJSON s :=
    if String.eqb s "create shop" then Ok (mkRequest "create" " shop " "ann" "" "", false)
    else Err (ErrorString "invalid character");
  unmarshalEvent s :=
    if String.eqb s "closed web 7" then Ok (mkEvent "closed" 7 7 true "c0ffee" "topic" "ann" "web" "acme" "ann")
    else if String.eqb s "opened web 7" then Ok (mkEvent "opened" 7 7 false "c0ffee" "topic" "ann" "web" "acme" "ann")
    else Err (ErrorString "invalid character")
|}.

Definition demoConfig : Config := Defaults (emptyConfig <| cfg_DefaultPolicy := "small" |> <| cfg_GitHubEnabled := true |>).

Definition smallPolicy : EnvironmentLeasePolicy :=
  mkEnvironmentLeasePolicy (emptyMeta <| m_Name := "small" |>)
    (mkEnvironmentLeasePolicySpec (Some (mkDurationPolicy (Some Hour) None None)) None None None None None None).

Definition webhookWorld : World := put HubClient KPolicy smallPolicy tokenWorld.

Definition demoHeader (headers : gmap string string) (k : string) : string := default "" (headers !! k).

Definition createShop : HttpRequest :=
  mkHttpRequest "POST" (demoHeader {["Authorization" := "Bearer s3cr3t"; "Idempotency-Key" := "k1"]})
    "create shop" None.

Definition demoLeases (r : HttpRequest) : prog (@kube milliQuantity) Response :=
  @handleLeases milliQuantity fourAttempts demoCodec demoConfig (Some (secretProvider demoTokens "")) r.

(** A delivery as GitHub signs it. *)
Definition delivery (id body : string) : HttpRequest :=
  mkHttpRequest "POST" (demoHeader {["X-GitHub-Event" := "pull_request"; "X-GitHub-Delivery" := id;
    HeaderGitHubSignature256 := "sha256=" +:+ EncodeToString (hmacSHA256 (bytes_of_string "s3cr3t") (bytes_of_string body))]})
    body None.

Definition demoGitHub (r : HttpRequest) : prog (@kube milliQuantity) Response :=
  @handleGitHub milliQuantity demoCodec demoConfig (Some (secretProvider demoTokens "")) r.

Definition hubLease (w : World) (name : string) : option EnvironmentLease :=
  w.(w_leases) !! slot HubClient (named name).

(** A lease made by hand under the name of a pull request. *)
Definition handmadeWorld : World :=
  put HubClient KLease (sampleLease <| lease_Meta := sampleLease.(lease_Meta) <| m_Name := "web-pr-7" |> |>)
    webhookWorld.

End Demo.

(** An authorized request creates its lease. *)
Lemma handleLeases_safe_witness :
  let out := in_world (demoLeases createShop) webhookWorld in
  out.1.1 = mkResponse 201 "ok" "lease created" "shop" "" false /\
  bool_decide (is_Some (hubLease out.1.2 "shop")) = true /\
  guaranteed (@leasesGuard milliQuantity demoCodec demoConfig demoTokens "" createShop) out.2.
Proof.
  split; [vm_compute; reflexivity|]. split; [vm_compute; reflexivity|].
  exact (proj1 (@handleLeases_safe milliQuantity fourAttempts fourAttempts_laws demoCodec demoConfig demoTokens ""
    createShop _ _ (@in_world_runs milliQuantity _ (demoLeases createShop) webhookWorld))).
Defined.

(** The world after an opened pull request, as the controller would leave the
    lease: with its finalizer. *)
Definition openedWorld : World :=
  let w := (in_world (demoGitHub (delivery "d1" "opened web 7")) webhookWorld).1.2 in
  match hubLease w "web-pr-7" with
  | Some l => put HubClient KLease (l <| lease_Meta := l.(lease_Meta) <| m_Finalizers := [FinalizerName] |> |>) w
  | None => w
  end.

Definition closedWorld : World := (in_world (demoGitHub (delivery "d2" "closed web 7")) openedWorld).1.2.

(** A merged pull request expires its lease. *)
Lemma handleGitHub_safe_witness :
  let out := in_world (demoGitHub (delivery "d2" "closed web 7")) openedWorld in
  out.1.1 = mkResponse 202 "ok" "expire requested (merged)" "web-pr-7" "" false /\
  guaranteed (@githubGuard milliQuantity demoCodec demoConfig demoTokens "" (delivery "d2" "closed web 7")) out.2.
Proof.
  split; [vm_compute; reflexivity|].
  exact (proj1 (@handleGitHub_safe milliQuantity demoCodec demoConfig demoTokens ""
    (delivery "d2" "closed web 7") _ _
    (@in_world_runs milliQuantity _ (demoGitHub (delivery "d2" "closed web 7")) openedWorld))).
Defined.

(** Against a status subresource that keeps the metadata, the closing delivery
    leaves its reason but not its annotations: they only travel in the status
    update. *)
Lemma closing_annotations_lost :
  match hubLease closedWorld "web-pr-7" with
  | Some l =>
      bool_decide (l.(lease_Status).(st_ExpirationReason) = ExpirationReasonSourceClosed)
      && String.eqb (get l.(lease_Meta).(m_Annotations) AnnotationGitHubDelivery) "d1"
      && bool_decide (l.(lease_Meta).(m_Annotations) !! "kubelease.io/github-merged" = None)
  | None => false
  end = true.
Proof. vm_compute. reflexivity. Qed.

(** A signed delivery stays valid: replayed once its lease is gone, the opening of
    a closed pull request creates the lease again. *)
Lemma opening_replayed :
  let gone := set_objects KLease (delete (slot HubClient (named "web-pr-7")) (objects KLease closedWorld)) closedWorld in
  (in_world (demoGitHub (delivery "d1" "opened web 7")) gone).1.1
  = mkResponse 201 "ok" "lease created" "web-pr-7" "" false.
Proof. vm_compute. reflexivity. Qed.

(** It records no source, so it conflicts with none, and closing that pull request
    deletes it. *)
Lemma unrecorded_lease_expired :
  let out := in_world (demoGitHub (delivery "d2" "closed web 7")) handmadeWorld in
  match hubLease handmadeWorld "web-pr-7", hubLease out.1.2 "web-pr-7" with
  | Some _, None => true
  | _, _ => false
  end = true.
Proof. vm_compute. reflexivity. Qed.

(** The lease of a pull request of a repository with a long name has a valid name
    but a label value above the 63 bytes Kubernetes accepts. *)
Lemma long_repository_label :
  let ref := mkGitHubPRRef "acme" "a-very-long-repository-name-that-does-not-fit-into-a-dns-label-at-all" 7 "" "" "" in
  isDNS1123Label (LeaseName ref) = true /\
  (63 < String.length (get (githubMetadataLabels ref) LabelGitHubRepo))%nat.
Proof. split; [vm_compute; reflexivity|]. apply Nat.ltb_lt. vm_compute. reflexivity. Qed.
