(* ===== verification/WebhookMain.v ===== *)
(** * The webhook's start (cmd/kubelease-webhook/main.go, config.go, server.go)

    From the flags and the environment to a server that listens: the
    configuration with its defaults, the policies of repositories, the providers
    of the two secrets, and which handler serves which path. *)

From S2P Require Import Prelude GoStrings GoTime GoErrors Api Concrete Policy LeaseExpiration.
From S2P Require Import Programs Kube World Sha GoText WebhookNames WebhookAuth WebhookActions WebhookServer.
From S2P Require Import Runtime WebhookSafety.

(** ** Flags *)

Record webhookFlags := mkWebhookFlags {
  fl_bind_address : string;
  fl_token_secret_namespace : string;
  fl_token_secret_name : string;
  fl_token_secret_key : string;
  fl_default_policy : string;
  fl_namespace_generate_name : string;
  fl_max_body_bytes : Z;
  fl_github_enabled : bool;
  fl_github_secret_name : string;
  fl_github_secret_key : string;
  fl_github_repo_policies : string
}.
#[export] Instance eta_webhookFlags : Eta webhookFlags :=
  fun r => mkWebhookFlags r.(fl_bind_address) r.(fl_token_secret_namespace) r.(fl_token_secret_name)
    r.(fl_token_secret_key) r.(fl_default_policy) r.(fl_namespace_generate_name) r.(fl_max_body_bytes)
    r.(fl_github_enabled) r.(fl_github_secret_name) r.(fl_github_secret_key) r.(fl_github_repo_policies).

(** The values of flags that are not given. *)
Definition webhookFlagDefaults : webhookFlags :=
  mkWebhookFlags ":8082" "" "webhook-token" "token" "" "preview-" 65536 false "" "github-webhook-secret" "".

(** The configuration the flags are parsed into. *)
Definition flagConfig (f : webhookFlags) : Config :=
  mkConfig f.(fl_bind_address) f.(fl_token_secret_namespace) f.(fl_token_secret_name) f.(fl_token_secret_key)
    f.(fl_default_policy) f.(fl_namespace_generate_name) f.(fl_github_enabled) f.(fl_github_secret_name)
    f.(fl_github_secret_key) ∅ 0 f.(fl_max_body_bytes) 0 0 0 0.

(** ** Outside the program *)

(** [json.Unmarshal] into a [map[string]string]. *)
Class PoliciesAPI := { unmarshalPolicies : string -> result (gmap string string) }.

(** What the process finds: the variable POD_NAMESPACE, and the outcomes of
    loading the kubeconfig and of building the client. *)
Record Environment := mkEnvironment {
  env_POD_NAMESPACE : string;
  env_GetConfig : option error;
  env_New : option error
}.

(** ** main *)

Record Server := mkServer {
  srv_Client : option Client;
  srv_Config : Config;
  srv_TokenProvider : option SecretTokenProvider;
  srv_GitHubSecretProvider : option SecretTokenProvider
}.
#[export] Instance eta_Server : Eta Server :=
  fun r => mkServer r.(srv_Client) r.(srv_Config) r.(srv_TokenProvider) r.(srv_GitHubSecretProvider).

Section Main.
Context `{PoliciesAPI}.

(** [for k, v := range m]: some enumeration of the map. *)
Variable range : gmap string string -> list (string * string).

Definition repoKey (name : string) : string := ToLower (TrimSpace name).

Definition addPolicy (m : gmap string string) (kv : string * string) : gmap string string :=
  <[repoKey kv.1 := TrimSpace kv.2]> m.

Definition repoPolicies (entries : list (string * string)) : gmap string string := fold_left addPolicy entries ∅.

(** Up to the configuration of the server. *)
Definition loadConfig (f : webhookFlags) (env : Environment) : result Config :=
  let cfg := Defaults (flagConfig f) in
  let cfg := if is_empty cfg.(cfg_TokenSecretNamespace)
             then cfg <| cfg_TokenSecretNamespace := env.(env_POD_NAMESPACE) |> else cfg in
  if is_empty cfg.(cfg_TokenSecretNamespace)
  then Err (ErrorString "token-secret-namespace or POD_NAMESPACE is required")
  else if is_empty cfg.(cfg_DefaultPolicy) then Err (ErrorString "default-policy is required")
  else if negb (is_empty f.(fl_github_repo_policies)) then
    match unmarshalPolicies f.(fl_github_repo_policies) with
    | Err err => Err (ErrorWrap "invalid --github-repo-policies JSON" err)
    | Ok m => Ok (cfg <| cfg_GitHubRepoPolicies := repoPolicies (range m) |>)
    end
  else Ok cfg.

Definition newServer (cfg : Config) : Server :=
  mkServer (Some HubClient) cfg
    (Some (mkSecretTokenProvider cfg.(cfg_TokenSecretNamespace) cfg.(cfg_TokenSecretName) cfg.(cfg_TokenSecretKey)))
    (if cfg.(cfg_GitHubEnabled)
     then Some (mkSecretTokenProvider cfg.(cfg_TokenSecretNamespace) cfg.(cfg_GitHubSecretName)
                  cfg.(cfg_GitHubSecretKey))
     else None).

(** [main] up to [ListenAndServe]; an error is logged and the process exits
    with 1. *)
Definition webhookMain (f : webhookFlags) (env : Environment) : result Server :=
  match loadConfig f env with
  | Err err => Err err
  | Ok cfg =>
      match env.(env_GetConfig) with
      | Some err => Err (ErrorWrap "unable to get kubeconfig" err)
      | None =>
          match env.(env_New) with
          | Some err => Err (ErrorWrap "unable to create kubernetes client" err)
          | None => Ok (newServer cfg)
          end
      end
  end.

(** ** ListenAndServe *)

(** What is set on the [http.Server]. *)
Record HTTPServer := mkHTTPServer {
  hs_Addr : string;
  hs_ReadHeaderTimeout : duration;
  hs_ReadTimeout : duration;
  hs_WriteTimeout : duration;
  hs_IdleTimeout : duration;
  hs_MaxHeaderBytes : Z
}.

(** [ListenAndServe] up to the listening: the checks, and the server whose handler
    reads the defaulted configuration. *)
Definition ListenAndServe (s : Server) : result (HTTPServer * Server) :=
  let s := s <| srv_Config := Defaults s.(srv_Config) |> in
  match s.(srv_TokenProvider) with
  | None => Err (ErrorString "token provider is required")
  | Some _ =>
      match s.(srv_Client) with
      | None => Err (ErrorString "client is required")
      | Some _ =>
          let c := s.(srv_Config) in
          if is_empty c.(cfg_DefaultPolicy) then Err (ErrorString "default policy is required")
          else Ok (mkHTTPServer c.(cfg_BindAddress) (5 * Second) c.(cfg_ReadTimeout) c.(cfg_WriteTimeout)
                     c.(cfg_IdleTimeout) 1048576, s)
      end
  end.

(** ** Handler: the paths *)

Inductive Endpoint := Healthz | Readyz | Leases | GitHubHooks.

Definition Handler (path : string) : option Endpoint :=
  if String.eqb path "/healthz" then Some Healthz
  else if String.eqb path "/readyz" then Some Readyz
  else if String.eqb path "/v1/leases" then Some Leases
  else if String.eqb path "/v1/github/hooks" then Some GitHubHooks
  else None.

Context `{QuantityAPI} `{RetryAPI} `{JSONAPI}.

(** The status a request on a path is answered with; [token] and [secret] are what
    the providers hold in their caches. *)
Definition serve (s : Server) (token secret path : string) (r : HttpRequest) : prog kube Z :=
  let tokens := (fun p => secretProvider p token) <$> s.(srv_TokenProvider) in
  let secrets := (fun p => secretProvider p secret) <$> s.(srv_GitHubSecretProvider) in
  match Handler path with
  | Some Healthz => Ret 200
  | Some Readyz => (x <- handleReadyz s.(srv_Config) tokens secrets ;; Ret x.1)%prog
  | Some Leases => (x <- handleLeases s.(srv_Config) tokens r ;; Ret x.(resp_Code))%prog
  | Some GitHubHooks => (x <- handleGitHub s.(srv_Config) secrets r ;; Ret x.(resp_Code))%prog
  | None => Ret 404
  end.

End Main.

(** ** The configuration of a started server *)

Lemma orString_idem s d : orString (orString s d) d = orString s d.
Proof. unfold orString. destruct (is_empty s) eqn:He; [by destruct (is_empty d)|by rewrite He]. Qed.

Lemma orString_givenOr s d : orString s d = if decide (s = "") then d else s.
Proof.
  unfold orString. destruct (is_empty s) eqn:He; case_decide; try done.
  - by apply is_empty_true in He.
  - by apply is_empty_false in He.
Qed.

Lemma orString_nonempty s d : d <> "" -> orString s d <> "".
Proof. intros Hd. unfold orString. destruct (is_empty s) eqn:He; [done|by apply is_empty_false]. Qed.

Lemma orPositive_given n d : orPositive n d = if decide (0 < n) then n else d.
Proof. unfold orPositive. by_cases. Qed.

Lemma orPositive_idem n d : orPositive (orPositive n d) d = orPositive n d.
Proof. unfold orPositive. by_cases. Qed.

(** [ListenAndServe] fills the defaults again: it changes nothing. *)
Lemma Defaults_idem c : Defaults (Defaults c) = Defaults c.
Proof. destruct c. unfold Defaults. cbn. by rewrite !orString_idem, !orPositive_idem. Qed.

(** Policies of repositories, over any enumeration without ambiguous keys. *)
Lemma repoPolicies_from entries (m0 : gmap string string) k v :
  NoDup (repoKey <$> entries.*1) ->
  (forall kv, kv ∈ entries -> m0 !! repoKey kv.1 = None) ->
  fold_left addPolicy entries m0 !! k = Some v <->
  m0 !! k = Some v \/ exists kv, kv ∈ entries /\ repoKey kv.1 = k /\ TrimSpace kv.2 = v.
Proof.
  revert m0. induction entries as [|[k1 v1] es IH]; cbn [fold_left fmap list_fmap fst snd]; intros m0 Hnd Hnew.
  { split; [by left|]. intros [?|(kv & Hin & _)]; [done|]. by apply elem_of_nil in Hin. }
  apply NoDup_cons in Hnd as [Hk1 Hnd]. rewrite IH; unfold addPolicy; cbn [fst snd]; [|done|].
  - rewrite lookup_insert_Some. split.
    + intros [[[<- <-]|[Hne Hm]]|(kv & Hin & ? & ?)]; [right; exists (k1, v1)|by left|right; exists kv].
      * split; [left|done].
      * split; [by right|done].
    + intros [Hm|(kv & [->|Hin]%elem_of_cons & <- & <-)].
      * left. right. split; [|done]. intros <-. specialize (Hnew (k1, v1) ltac:(left)). cbn [fst] in Hnew. by rewrite Hnew in Hm.
      * left. by left.
      * right. by exists kv.
  - intros kv Hin. rewrite lookup_insert_ne; [apply Hnew; by right|]. intros Heq. apply Hk1. rewrite Heq.
    by apply list_elem_of_fmap_2, list_elem_of_fmap_2.
Qed.

Lemma repoPolicies_lookup entries k v :
  NoDup (repoKey <$> entries.*1) ->
  repoPolicies entries !! k = Some v <-> exists kv, kv ∈ entries /\ repoKey kv.1 = k /\ TrimSpace kv.2 = v.
Proof.
  intros Hnd. unfold repoPolicies. rewrite repoPolicies_from; [|done|]; [|intros; apply lookup_empty].
  rewrite lookup_empty. naive_solver.
Qed.

(** A policy found is one of the entries', ambiguous or not. *)
Lemma repoPolicies_origin entries k v :
  repoPolicies entries !! k = Some v -> exists kv, kv ∈ entries /\ repoKey kv.1 = k.
Proof.
  unfold repoPolicies. enough (Hen : forall m0 : gmap string string, fold_left addPolicy entries m0 !! k = Some v ->
    is_Some (m0 !! k) \/ exists kv, kv ∈ entries /\ repoKey kv.1 = k).
  { intros Hf. destruct (Hen _ Hf) as [[? Hx]|?]; [by rewrite lookup_empty in Hx|done]. }
  induction entries as [|kv es IH]; cbn [fold_left]; intros m0 Hf; [left; by eexists|].
  destruct (IH _ Hf) as [[x Hx]|(kv' & ? & ?)]; [|right; exists kv'; split; [by right|done]].
  unfold addPolicy in Hx. apply lookup_insert_Some in Hx as [[? _]|[_ ?]].
  - right. exists kv. split; [left|done].
  - left. by eexists.
Qed.

Section Started.
Context `{PoliciesAPI}.
Variable range : gmap string string -> list (string * string).
Hypothesis range_spec : forall m, range m ≡ₚ map_to_list m.

(** The policies given by the flag. *)
Definition flagPolicies (f : webhookFlags) (m : gmap string string) : Prop :=
  if is_empty f.(fl_github_repo_policies) then m = ∅ else unmarshalPolicies f.(fl_github_repo_policies) = Ok m.

(** No two names of the flag mean the same repository. *)
Definition unambiguous (m : gmap string string) : Prop :=
  forall k1 k2, is_Some (m !! k1) -> is_Some (m !! k2) -> repoKey k1 = repoKey k2 -> k1 = k2.

(** Where the webhook looks for its secrets. *)
Definition secretNamespace (f : webhookFlags) (env : Environment) : string :=
  if decide (f.(fl_token_secret_namespace) = "") then env.(env_POD_NAMESPACE) else f.(fl_token_secret_namespace).

(** A value that was given, or else the default. *)
Definition givenOr (v d : string) : string := if decide (v = "") then d else v.

(** The server the flags ask for, and what it listens with. *)
Record startedAs (f : webhookFlags) (env : Environment) (hs : HTTPServer) (s : Server) : Prop := {
  sa_client : s.(srv_Client) = Some HubClient;
  sa_policy : s.(srv_Config).(cfg_DefaultPolicy) = f.(fl_default_policy) /\ f.(fl_default_policy) <> "";
  sa_prefix : s.(srv_Config).(cfg_NamespaceGenerateName) = givenOr f.(fl_namespace_generate_name) "preview-";
  sa_tokens : secretNamespace f env <> "" /\
    s.(srv_TokenProvider) = Some (mkSecretTokenProvider (secretNamespace f env) f.(fl_token_secret_name)
                                    (givenOr f.(fl_token_secret_key) "token"));
  sa_github : s.(srv_Config).(cfg_GitHubEnabled) = f.(fl_github_enabled) /\
    s.(srv_GitHubSecretProvider) =
      if f.(fl_github_enabled)
      then Some (mkSecretTokenProvider (secretNamespace f env)
                   (givenOr f.(fl_github_secret_name) (givenOr f.(fl_token_secret_name) "webhook-token"))
                   (givenOr f.(fl_github_secret_key) "github-webhook-secret"))
      else None;
  sa_bodies : s.(srv_Config).(cfg_MaxBodyBytes) = (if decide (0 < f.(fl_max_body_bytes)) then f.(fl_max_body_bytes) else 65536) /\
    githubMaxBody s.(srv_Config) = 1048576;
  sa_listens : ListenAndServe s = Ok (hs, s) /\
    hs = mkHTTPServer (givenOr f.(fl_bind_address) ":8082") (5 * Second) (10 * Second) (10 * Second) (60 * Second) 1048576 /\
    s.(srv_Config).(cfg_RequestTimeout) = 10 * Second;
  sa_configured : forall m name k v,
    flagPolicies f m -> unambiguous m -> m !! k = Some v -> repoKey k = repoKey name ->
    PolicyForRepo s.(srv_Config) name = givenOr (TrimSpace v) f.(fl_default_policy);
  sa_unconfigured : forall m name,
    flagPolicies f m -> (forall k, is_Some (m !! k) -> repoKey k <> repoKey name) ->
    PolicyForRepo s.(srv_Config) name = f.(fl_default_policy)
}.

(** What keeps the webhook from starting. *)
Definition cannotStart (f : webhookFlags) (env : Environment) : Prop :=
  secretNamespace f env = "" \/ f.(fl_default_policy) = "" \/
  (f.(fl_github_repo_policies) <> "" /\ exists err, unmarshalPolicies f.(fl_github_repo_policies) = Err err) \/
  env.(env_GetConfig) <> None \/ env.(env_New) <> None.

Lemma range_lookup m k v : (k, v) ∈ range m <-> m !! k = Some v.
Proof. rewrite range_spec. apply elem_of_map_to_list. Qed.

Lemma range_unambiguous m : unambiguous m -> NoDup (repoKey <$> (range m).*1).
Proof.
  intros Hm. apply NoDup_fmap_2_strong.
  - intros k1 k2 [[? v1] [-> H1]]%list_elem_of_fmap [[? v2] [-> H2]]%list_elem_of_fmap.
    apply range_lookup in H1, H2. by apply Hm; eexists.
  - rewrite range_spec. apply NoDup_fst_map_to_list.
Qed.

(** The configuration [main] ends with. *)
Definition startedConfig (f : webhookFlags) (env : Environment) (m : gmap string string) : Config :=
  (Defaults (flagConfig f)) <| cfg_TokenSecretNamespace := secretNamespace f env |>
    <| cfg_GitHubRepoPolicies := repoPolicies (range m) |>.

Lemma repoPolicies_empty : repoPolicies (range ∅) = ∅.
Proof.
  assert (Hr : range ∅ = []) by (apply Permutation_nil_r; by rewrite range_spec, map_to_list_empty).
  by rewrite Hr.
Qed.

Lemma loadConfig_spec f env :
  match loadConfig range f env with
  | Ok cfg => secretNamespace f env <> "" /\ f.(fl_default_policy) <> "" /\
      exists m, flagPolicies f m /\ cfg = startedConfig f env m
  | Err _ => secretNamespace f env = "" \/ f.(fl_default_policy) = "" \/
      (f.(fl_github_repo_policies) <> "" /\ exists err, unmarshalPolicies f.(fl_github_repo_policies) = Err err)
  end.
Proof.
  unfold loadConfig, startedConfig, flagPolicies. cbv zeta.
  set (cfg := if is_empty (cfg_TokenSecretNamespace (Defaults _)) then _ else _).
  assert (Hcfg : cfg = (Defaults (flagConfig f)) <| cfg_TokenSecretNamespace := secretNamespace f env |>).
  { unfold cfg, secretNamespace. rewrite <- orString_givenOr. unfold orString.
    change (cfg_TokenSecretNamespace (Defaults (flagConfig f))) with (fl_token_secret_namespace f).
    by destruct (is_empty _). }
  clearbody cfg.
  replace (cfg_TokenSecretNamespace cfg) with (secretNamespace f env) by by rewrite Hcfg.
  replace (cfg_DefaultPolicy cfg) with (fl_default_policy f) by by rewrite Hcfg.
  destruct (is_empty (secretNamespace f env)) eqn:Hns; [left; by apply is_empty_true|]. apply is_empty_false in Hns.
  destruct (is_empty (fl_default_policy f)) eqn:Hp; [right; left; by apply is_empty_true|]. apply is_empty_false in Hp.
  destruct (is_empty (fl_github_repo_policies f)) eqn:Hj; cbn [negb].
  - split_and!; [done..|]. exists ∅. by rewrite repoPolicies_empty, Hcfg.
  - apply is_empty_false in Hj. destruct (unmarshalPolicies _) as [m|err]; [|right; right; eauto].
    split_and!; [done..|]. exists m. by rewrite Hcfg.
Qed.

Lemma PolicyForRepo_started f env m name :
  PolicyForRepo (startedConfig f env m) name
  = match repoPolicies (range m) !! repoKey name with
    | Some p => orString p f.(fl_default_policy) | None => f.(fl_default_policy) end.
Proof. unfold PolicyForRepo, orString. cbn. fold (repoKey name). case_match; [by destruct (is_empty _)|done]. Qed.

Lemma ListenAndServe_new cfg :
  Defaults cfg = cfg -> cfg.(cfg_DefaultPolicy) <> "" ->
  ListenAndServe (newServer cfg) =
    Ok (mkHTTPServer cfg.(cfg_BindAddress) (5 * Second) cfg.(cfg_ReadTimeout) cfg.(cfg_WriteTimeout)
          cfg.(cfg_IdleTimeout) 1048576, newServer cfg).
Proof.
  intros Hd Hp%is_empty_false. unfold ListenAndServe, newServer, modify. cbv zeta. cbn -[Defaults is_empty].
  by rewrite Hd, Hp.
Qed.

(** What the server listens with. *)
Definition askedServer (f : webhookFlags) : HTTPServer :=
  mkHTTPServer (givenOr f.(fl_bind_address) ":8082") (5 * Second) (10 * Second) (10 * Second) (60 * Second) 1048576.

Lemma ListenAndServe_started f env m :
  f.(fl_default_policy) <> "" ->
  ListenAndServe (newServer (startedConfig f env m)) = Ok (askedServer f, newServer (startedConfig f env m)).
Proof.
  intros Hp. rewrite ListenAndServe_new; [|unfold startedConfig, Defaults; cbn; by rewrite !orString_idem, !orPositive_idem|done].
  unfold askedServer, givenOr. by rewrite <- orString_givenOr.
Qed.

Lemma newServer_startedAs f env m :
  secretNamespace f env <> "" -> f.(fl_default_policy) <> "" -> flagPolicies f m ->
  startedAs f env (askedServer f) (newServer (startedConfig f env m)).
Proof.
  intros Hns Hp Hm.
  assert (Hfun : forall m', flagPolicies f m' -> m' = m).
  { intros m'. revert Hm. unfold flagPolicies. destruct (is_empty _); [by intros -> ->|]. by intros -> [= ->]. }
  constructor.
  - done.
  - done.
  - apply (orString_givenOr (fl_namespace_generate_name f)).
  - split; [done|]. unfold givenOr. by rewrite <- orString_givenOr.
  - split; [done|]. unfold newServer. change (cfg_GitHubEnabled (startedConfig f env m)) with (fl_github_enabled f).
    destruct (fl_github_enabled f); [|done]. unfold givenOr. rewrite <- !orString_givenOr.
    assert (Hname : orString (fl_token_secret_name f) "webhook-token" =
      if negb (is_empty (fl_token_secret_name f)) then fl_token_secret_name f else "webhook-token")
      by (unfold orString; by destruct (is_empty _)).
    rewrite Hname. reflexivity.
  - split; [|done]. apply (orPositive_given (fl_max_body_bytes f)).
  - split; [by apply ListenAndServe_started|done].
  - intros m' name k v Hm' Hu Hk Hkey. apply Hfun in Hm' as ->. unfold newServer. cbn [srv_Config].
    rewrite PolicyForRepo_started. replace (repoPolicies _ !! _) with (Some (TrimSpace v)); [apply orString_givenOr|]. symmetry.
    apply repoPolicies_lookup; [by apply range_unambiguous|]. exists (k, v). split; [by apply range_lookup|done].
  - intros m' name Hm' Hk. apply Hfun in Hm' as ->. cbn [srv_Config newServer].
    rewrite PolicyForRepo_started. destruct (repoPolicies _ !! _) as [p|] eqn:Hl; [|done]. exfalso.
    apply repoPolicies_origin in Hl as ([k v] & Hin%range_lookup & Hkey). by apply (Hk k); [eexists|].
Qed.

(** A started server always has a policy and a prefix to create leases with. *)
Lemma webhookMain_servable f env s :
  webhookMain range f env = Ok s ->
  s.(srv_Config).(cfg_DefaultPolicy) <> "" /\ s.(srv_Config).(cfg_NamespaceGenerateName) <> "".
Proof.
  unfold webhookMain. pose proof (loadConfig_spec f env) as Hl. destruct (loadConfig range f env) as [cfg|err]; [|done].
  destruct Hl as (_ & Hp & m & _ & ->). destruct (env_GetConfig env), (env_New env); try done. intros [= <-].
  split; [done|]. by apply (orString_nonempty _ "preview-").
Qed.

(** The webhook starts exactly when it can serve.  It refuses to start
    exactly when neither the flag nor POD_NAMESPACE names the namespace of the
    secrets, no default policy is given, the policies of repositories are not a
    JSON object of strings, or the cluster configuration or client cannot be had.
    Otherwise the server has that policy and reads its token from the configured
    secret, has a provider of the configured signing secret exactly when the GitHub
    endpoint is enabled, the limits and timeouts asked for or their defaults, and
    passes every check of [ListenAndServe], which changes nothing any more.  Whatever order the map is
    enumerated in, a repository gets the policy configured under any spelling of its
    name, blanks and case aside, unless two entries are spellings of one another,
    and the default policy if there is none or it is blank. *)
Theorem webhookMain_correct (f : webhookFlags) (env : Environment) :
  (forall s, webhookMain range f env = Ok s -> exists hs, startedAs f env hs s) /\
  ((exists err, webhookMain range f env = Err err) <-> cannotStart f env).
Proof.
  unfold webhookMain, cannotStart. pose proof (loadConfig_spec f env) as Hl.
  destruct (loadConfig range f env) as [cfg|err].
  - destruct Hl as (Hns & Hp & m & Hm & ->). split.
    + intros s. destruct (env_GetConfig env), (env_New env); try done. intros [= <-].
      eexists. by apply newServer_startedAs.
    + split.
      * intros [err Herr]. right; right; right. destruct (env_GetConfig env); [by left|].
        right. by destruct (env_New env).
      * intros [?|[?|[(Hne & err & Herr)|Hout]]]; [done|done| |].
        -- unfold flagPolicies in Hm. apply is_empty_false in Hne. rewrite Hne in Hm. congruence.
        -- destruct (env_GetConfig env); [by eexists|]. destruct (env_New env); [by eexists|]. by destruct Hout.
  - split; [done|]. split; [intros _; tauto|by eexists].
Qed.

End Started.

(** ** The probes *)

Section Probes.
Context `{QuantityAPI} `{RetryAPI} `{JSONAPI}.

Implicit Types (h : trace kube).

(** The secret a provider stands for can be used: its value, cached or just read,
    is not empty. *)
Definition usable (provider : option SecretTokenProvider) (cached : string) h : Prop :=
  exists p tok, provider = Some p /\ tokenIn p cached h tok.

Definition readOnly X h (e : kube X) : Prop := writes e = false.

Lemma readOnly_trace (tr : trace kube) : guaranteed readOnly tr -> Forall (fun ev => writes ev.(ev_eff) = false) tr.
Proof. induction tr as [|ev tr IH]; [constructor|]. intros [? ?]. constructor; [done|by apply IH]. Qed.

Lemma handleReadyz_safe config tokens secrets token secret :
  safe readOnly
    (handleReadyz config ((fun p => secretProvider p token) <$> tokens) ((fun p => secretProvider p secret) <$> secrets))
    [] (fun h x => x.1 = 200 ->
      usable tokens token h /\ (config.(cfg_GitHubEnabled) = true -> usable secrets secret h)).
Proof.
  unfold handleReadyz. destruct tokens as [p|]; [|done]. cbn [fmap option_fmap option_map]. rewrite safe_bind.
  eapply safe_post; [apply secretProvider_safe|]. intros h1 [tok|err] [_ Ht]; [|done].
  specialize (Ht tok eq_refl). assert (Hu : usable (Some p) token h1) by by exists p, tok.
  destruct (cfg_GitHubEnabled config); [|done]. destruct secrets as [q|]; [|done]. cbn [fmap option_fmap option_map].
  rewrite safe_bind. eapply safe_post; [apply secretProvider_safe|]. intros h2 [sec|err] [Hh Hs]; [|done].
  intros _. split; [|intros _; exists q, sec; split; [done|by apply Hs]].
  exists p, tok. split; [done|]. by eapply tokenIn_mono.
Qed.

(** Only the two endpoints ever write, and the webhook reports itself ready only
    when it can check what it will be sent: the token, and the signing secret when
    the GitHub endpoint is enabled. *)
Theorem probes_correct (s : Server) token secret path (r : HttpRequest) (tr : trace kube) (code : Z) :
  runs (serve s token secret path r) [] tr code ->
  Handler path <> Some Leases -> Handler path <> Some GitHubHooks ->
  Forall (fun ev => writes ev.(ev_eff) = false) tr /\
  (Handler path = Some Readyz -> code = 200 ->
     usable s.(srv_TokenProvider) token tr /\
     (s.(srv_Config).(cfg_GitHubEnabled) = true -> usable s.(srv_GitHubSecretProvider) secret tr)) /\
  (Handler path = Some Healthz -> code = 200) /\ (Handler path = None -> code = 404).
Proof.
  intros Hr Hl Hg.
  destruct (safe_sound readOnly (serve s token secret path r) [] tr code (fun h code =>
    (Handler path = Some Readyz -> code = 200 -> usable s.(srv_TokenProvider) token h /\
      (s.(srv_Config).(cfg_GitHubEnabled) = true -> usable s.(srv_GitHubSecretProvider) secret h)) /\
    (Handler path = Some Healthz -> code = 200) /\ (Handler path = None -> code = 404)) I) as [Hro Hpost];
    [|done|by split; [apply readOnly_trace|]].
  unfold serve. cbv zeta. destruct (Handler path) as [[]|]; try done. rewrite safe_bind.
  eapply safe_post; [apply handleReadyz_safe|]. intros h x Hx. cbn. split_and!; [by intros _|done..].
Qed.

End Probes.

(** ** Witnesses *)

Section Demo.

(** A decoder of two documents, and the enumeration of [map_to_list]. *)
Definition demoPolicies : PoliciesAPI := {|
  unmarshalPolicies s :=
    if String.eqb s "web" then Ok {[" Acme/Web " := "large "]}
    else if String.eqb s "twice" then Ok {["Acme/Web" := "large"; "acme/web" := "small"]}
    else Err (ErrorString "invalid character")
|}.

#[local] Existing Instance demoPolicies.

Definition demoFlags : webhookFlags :=
  webhookFlagDefaults <| fl_default_policy := "small" |> <| fl_github_enabled := true |>
    <| fl_github_repo_policies := "web" |>.

Definition demoEnvironment : Environment := mkEnvironment "kubelease" None None.

End Demo.

(** A repository with a policy of its own, and one without. *)
Lemma webhookMain_correct_witness :
  match @webhookMain demoPolicies map_to_list demoFlags demoEnvironment with
  | Ok s =>
      PolicyForRepo s.(srv_Config) "acme/WEB" = "large" /\ PolicyForRepo s.(srv_Config) "acme/api" = "small" /\
      exists hs, @startedAs demoPolicies demoFlags demoEnvironment hs s
  | Err _ => False
  end.
Proof.
  destruct (@webhookMain demoPolicies map_to_list demoFlags demoEnvironment) as [s|err] eqn:Hs.
  - split; [|split].
    + revert Hs. vm_compute. intros [= <-]. vm_compute. reflexivity.
    + revert Hs. vm_compute. intros [= <-]. vm_compute. reflexivity.
    + exact (proj1 (@webhookMain_correct demoPolicies map_to_list (fun m => reflexivity _) demoFlags demoEnvironment) s Hs).
  - vm_compute in Hs. discriminate Hs.
Defined.

(** Two spellings of one repository: which policy it gets depends on the order in
    which the map happens to be enumerated. *)
Lemma ambiguous_repository :
  let policy range :=
    match @webhookMain demoPolicies range (demoFlags <| fl_github_repo_policies := "twice" |>) demoEnvironment with
    | Ok s => PolicyForRepo s.(srv_Config) "acme/web" | Err _ => "" end in
  [policy map_to_list; policy (fun m => reverse (map_to_list m))] = ["small"; "large"] \/
  [policy map_to_list; policy (fun m => reverse (map_to_list m))] = ["large"; "small"].
Proof. vm_compute. first [left; reflexivity|right; reflexivity]. Qed.
