(* ===== verification/WebhookController.v ===== *)
(** * From the webhook to the controller

    What one component hands to the other: the leases the started webhook creates
    are leases the lease controller accepts, under the policy the webhook checked
    them against. *)

From S2P Require Import Prelude GoStrings GoTime GoErrors Api LeaseConditions Concrete Resources Policy LeaseExpiration Lifetime.
From S2P Require Import Programs Kube World GoText WebhookNames WebhookAuth WebhookActions WebhookServer.
From S2P Require Import LeaseCommon LeaseReconcile Runtime WebhookSafety WebhookMain.

Section Handover.
Context `{QuantityAPI} `{ConditionsAPI} `{RetryLaws}.

Implicit Types (h : trace kube) (l : EnvironmentLease).

(** What the controller computes for a lease of this resolved policy, on every
    clock: its deadlines are set, no renewal is refused, and it expires exactly at
    the end of its TTL or of its idle time. *)
Definition livesFor (p : Resolved) l : Prop :=
  forall now, exists stamps,
    EnsureTimestamps (l <|@ st_Effective := Some (ToEffectiveStatus p) |>) p.(r_TTL) p.(r_MaxTTL) p.(r_Renewable) now
      = Ok stamps /\
    stamps.(ts_renewalRejected) = false /\
    forall t, IsExpired (SyncExpirationStatus (stampedLease stamps) p.(r_IdleTTL) t) t = true <->
      deadlineOf (startOf l now + p.(r_TTL)) (startOf l now) p.(r_IdleTTL) <= t.

(** A lease the controller takes over under a policy of that name. *)
Record handedOver (name : string) (pol : EnvironmentLeasePolicy) l : Prop := {
  ho_policy : l.(lease_Spec).(spec_PolicyRef) = Some name /\ name <> "";
  ho_valid : ValidateSpec l = None;
  ho_lives : exists p, Resolve l.(lease_Spec) (Some pol) = Ok p /\ livesFor p l
}.

(** The lease as the API server stores it: metadata of its own, no status yet. *)
Definition storedAs l l' : Prop := l'.(lease_Spec) = l.(lease_Spec) /\ l'.(lease_Status) = emptyStatus.

(** Whatever is created, the controller takes over, under a policy read in this
    run. *)
Definition createsAccepted X h (e : kube X) : Prop :=
  match e with
  | ClientCreate c k o =>
      match k return Obj k -> Prop with
      | KLease => fun l => exists name pol, answered KPolicy h HubClient (named name) (Ok pol) /\
                    forall l', storedAs l l' -> handedOver name pol l'
      | _ => fun _ => False
      end o
  | _ => True
  end.

Lemma fresh_livesFor spec pol p l :
  Resolve spec (Some pol) = Ok p -> l.(lease_Status) = emptyStatus -> livesFor p l.
Proof.
  intros Hr Hst now. apply resolved_lifetime in Hr as Hlife. destruct l as [m s st]. cbn in Hst. subst st.
  set (l := mkEnvironmentLease m s emptyStatus).
  rewrite EnsureTimestamps_eq by done. cbv zeta. eexists. split; [done|]. split; [done|]. intros t.
  set (start := startOf l now).
  set (l1 := stampedLease _).
  assert (Hh : hard_of l1 = Some (start + p.(r_TTL))).
  { change (hard_of l1) with (Some (cappedHard (start + p.(r_TTL)) (Some (start + p.(r_MaxTTL))))).
    f_equal. unfold cappedHard, After. by_cases. }
  assert (Ha : lastActivity_of l1 = Some start) by done.
  unfold IsExpired. rewrite (EffectiveDeadline_Sync l1 _ t _ _ Hh Ha). unfold Before. by rewrite negb_true_iff, Z.ltb_ge.
Qed.

(** The leases of both endpoints, without a namespace name and without warnings. *)
Lemma newLease_handedOver config name annotations lbls policy owner nsLabels pol p l' :
  config.(cfg_NamespaceGenerateName) <> "" -> policy <> "" ->
  let l := newLease config name annotations lbls policy owner nsLabels in
  Resolve l.(lease_Spec) (Some pol) = Ok p -> storedAs l l' -> handedOver policy pol l'.
Proof.
  intros Hg%is_empty_false Hp l Hr [Hspec Hst]. constructor.
  - by rewrite Hspec.
  - unfold ValidateSpec. rewrite Hspec, Hst. cbn -[is_empty]. unfold ValidateNamespaceSpec. cbn -[is_empty]. by rewrite Hg.
  - exists p. rewrite Hspec. split; [done|]. by eapply fresh_livesFor.
Qed.

Variable config : Config.
Hypothesis config_generates : config.(cfg_NamespaceGenerateName) <> "".
Hypothesis config_policy : config.(cfg_DefaultPolicy) <> "".

Lemma PolicyForRepo_nonempty name : PolicyForRepo config name <> "".
Proof.
  unfold PolicyForRepo. destruct (_ !! _) as [p|]; [|done]. destruct (is_empty p) eqn:He; [done|by apply is_empty_false].
Qed.

Lemma actionWrites_accepted req X h (e : kube X) : actionWrites config req X h e -> createsAccepted X h e.
Proof.
  destruct e; try done. intros (-> & _ & Hl). destruct k; try done. destruct Hl as (-> & _ & pol & p & Ha & Hr).
  exists config.(cfg_DefaultPolicy), pol. split; [done|]. intros l'. by apply (newLease_handedOver _ _ _ _ _ _ _ _ p).
Qed.

Lemma eventWrites_accepted action merged ref d X h (e : kube X) :
  eventWrites config action merged ref d X h e -> createsAccepted X h e.
Proof.
  destruct e; try done. intros (-> & _ & Hl). destruct k; try done. destruct Hl as (-> & _ & (pol & p & Ha & Hr) & _).
  exists (PolicyForRepo config (FullName ref)), pol. split; [done|]. intros l'.
  apply (newLease_handedOver _ _ _ _ _ _ _ _ p); [done|apply PolicyForRepo_nonempty|done].
Qed.

End Handover.

(** Claim C26.  The controller takes over what the webhook creates.  In every run of
    a server [main] started, for a request or a pull request event and whatever the
    API server answers, a lease is only created under a policy read in that run; as
    the API server stores it, with metadata of its own, the lease names this policy,
    is valid, and resolves under it, so the controller refuses it neither for its
    specification nor for its policy; and on every clock its deadlines are set and
    it expires exactly at the end of the TTL, or of the idle time, of that policy. *)
Theorem webhook_leases_accepted `{PoliciesAPI} `{QuantityAPI} `{ConditionsAPI} `{RetryLaws} range f env (s : Server) :
  (forall m, range m ≡ₚ map_to_list m) -> webhookMain range f env = Ok s ->
  (forall req tr out, runs (handleAction s.(srv_Config) req) [] tr out -> guaranteed createsAccepted tr) /\
  (forall action merged ref d tr out,
     runs (handleGitHubPREvent s.(srv_Config) action merged ref d) [] tr out -> guaranteed createsAccepted tr).
Proof.
  intros Hrange Hs. destruct (webhookMain_servable range Hrange f env s Hs) as [Hp Hg]. split.
  - intros req tr out Hr. eapply (runs_guaranteed _ _ _ _ _ Hr), safe_mono; [| |apply handleAction_safe]; [|done].
    intros X h e. by apply actionWrites_accepted.
  - intros action merged ref d tr out Hr.
    eapply (runs_guaranteed _ _ _ _ _ Hr), safe_mono; [| |apply handleGitHubPREvent_safe]; [|done].
    intros X h e. by apply eventWrites_accepted.
Qed.

(** ** Witness *)

Section Witness.

#[local] Existing Instances milliQuantity listConditions fourAttempts fourAttempts_laws demoPolicies.

Definition demoServer : Server :=
  match webhookMain map_to_list demoFlags demoEnvironment with Ok s => s | Err _ => newServer emptyConfig end.

Lemma demoServer_started : webhookMain map_to_list demoFlags demoEnvironment = Ok demoServer.
Proof. vm_compute. reflexivity. Qed.

Definition demoAction : prog kube (result ActionResult) :=
  handleAction demoServer.(srv_Config) (mkRequest "create" "shop" "ann" "" "k1").

(** A started server creates the lease of a request. *)
Lemma webhook_leases_accepted_witness :
  let out := in_world demoAction webhookWorld in
  existsb (fun ev => match ev_eff ev with ClientCreate _ _ _ => true | _ => false end) out.2 = true /\
  guaranteed createsAccepted out.2.
Proof.
  intros out. split; [vm_compute; reflexivity|].
  exact (proj1 (webhook_leases_accepted map_to_list demoFlags demoEnvironment demoServer (fun m => reflexivity _)
    demoServer_started) _ _ _ (in_world_runs demoAction webhookWorld)).
Defined.

End Witness.
