(* ===== verification/CliSafety.v ===== *)
(** * What the commands of the client do

    Over every run and every answer of the API server: each command makes only the
    write it is for, at most once, and reports success only for a write that was
    acknowledged; [create --wait] ends; and the TTL that [extend] stores brings the
    controller to the promised expiration. *)

From S2P Require Import Prelude GoStrings GoTime GoErrors Api LeaseConditions Concrete Policy LeaseExpiration Lifetime.
From S2P Require Import Programs Kube World GoText GoDuration TargetController CliBuild Cli Runtime.
From Stdlib Require Import Ascii.

(** ** Writes, and the time that has passed *)

Section Histories.
Context `{QuantityAPI}.

Implicit Types (h : trace kube) (ev : event kube).

(** No write of this history was carried out. *)
Definition untouched h : Prop := Forall (fun ev => acked ev = false) h.

Lemma untouched_cons ev h : untouched (ev :: h) <-> acked ev = false /\ untouched h.
Proof. unfold untouched. by rewrite Forall_cons. Qed.

Lemma untouched_nil : untouched [].
Proof. constructor. Qed.

(** Exactly one write was carried out, and it was [ev]. *)
Definition onlyAcked ev h : Prop := exists t1 t2, h = t1 ++ ev :: t2 /\ acked ev = true /\ untouched t1 /\ untouched t2.

Lemma onlyAcked_here ev h : acked ev = true -> untouched h -> onlyAcked ev (ev :: h).
Proof. intros Ha Hh. by exists [], h; split_and!; [|done|constructor|]. Qed.

Lemma onlyAcked_cons ev ev' h : acked ev' = false -> onlyAcked ev h -> onlyAcked ev (ev' :: h).
Proof. intros Ha (t1 & t2 & -> & ? & ? & ?). exists (ev' :: t1), t2. split_and!; try done. by constructor. Qed.

(** A run without writes carries nothing out. *)
Lemma reads_untouched {A} (p : prog kube A) h :
  every (fun X (e : kube X) => writes e = false) p -> untouched h ->
  safe (fun X _ (e : kube X) => writes e = false) p h (fun h' _ => untouched h').
Proof.
  intros Hp. apply (every_inv _ _ untouched p h Hp). intros X h' e Hh' He. split; [done|]. intros x.
  constructor; [|done]. by destruct e.
Qed.

(** What a reading of the clock shows. *)
Definition reading ev : option time :=
  match ev.(ev_eff) in kube X return X -> option time with
  | Now => fun t => Some t
  | WallClock => fun t => Some t
  | _ => fun _ => None
  end ev.(ev_resp).

Definition slept ev : duration := match ev.(ev_eff) with Sleep d => d | _ => 0 end.

(** The instant before which it cannot be now: the last reading and the sleep since. *)
Fixpoint notBefore h : option time :=
  match h with
  | [] => None
  | ev :: h => match reading ev with Some t => Some t | None => (fun t => t + slept ev) <$> notBefore h end
  end.

(** The clock of a history is monotonic, and [time.Sleep] "pauses the current
    goroutine for at least the duration d". *)
Fixpoint clockTrue h : Prop :=
  match h with
  | [] => True
  | ev :: h =>
      clockTrue h /\
      match reading ev, notBefore h with Some t, Some b => b <= t | _, _ => True end
  end.

Lemma clockTrue_suffix h h' : h `suffix_of` h' -> clockTrue h' -> clockTrue h.
Proof. intros [t ->]. induction t as [|ev t IH]; [done|]. intros [? _]. auto. Qed.

End Histories.

(** ** One write per command *)

Section Safety.
Context `{QuantityParser} `{RetryLaws} `{ConditionsAPI} `{Serializer}.

Implicit Types (h : trace kube) (cmd : command).

(** The lease read, with the TTL that extends it. *)
Inductive extended (by_ : duration) (base : EnvironmentLease) : EnvironmentLease -> Prop :=
  | extended_intro c cur mx ttl newExp :
      base.(lease_Status).(st_CreatedAt) = Some c ->
      base.(lease_Status).(st_ExpiresAt) = Some cur ->
      base.(lease_Status).(st_MaximumExpiresAt) = Some mx ->
      ComputeExtendedTTL c cur mx by_ (IsRenewable base.(lease_Spec)) = Ok (ttl, newExp) ->
      extended by_ base (base <| lease_Spec := base.(lease_Spec) <| spec_TTL := Some ttl |> |>).

(** The write a command is for, given what it has read. *)
Inductive intended : command -> trace kube -> forall X, kube X -> Prop :=
  | int_create name opts h l :
      BuildLease name opts = Done l ->
      intended (CmdCreate name opts) h _ (ClientCreate HubClient KLease l)
  | int_extend name by_ h base l :
      answered KLease h HubClient (named name) (Ok base) -> extended by_ base l ->
      intended (CmdExtend name by_) h _ (ClientPatch HubClient KLease l base)
  | int_touch name h now base l :
      Ev WallClock now ∈ h -> answered KLease h HubClient (named name) (Ok base) ->
      RecordActivity base now (idleTTLFromLease base) = (l, None) ->
      intended (CmdTouch name) h _ (ClientStatusUpdate HubClient KLease l)
  | int_expire name h l :
      answered KLease h HubClient (named name) (Ok l) ->
      intended (CmdExpire name) h _ (ClientDelete HubClient KLease l)
  | int_disable name h t :
      answered KTarget h HubClient (named name) (Ok t) ->
      intended (CmdClusterDisable name) h _ (ClientUpdate HubClient KTarget
        (t <| ct_Spec := t.(ct_Spec) <| ts_Enabled := Some false |> |>))
  | int_drain name h t :
      answered KTarget h HubClient (named name) (Ok t) ->
      intended (CmdClusterDrain name) h _ (ClientUpdate HubClient KTarget
        (t <| ct_Spec := t.(ct_Spec) <| ts_Enabled := Some false |> |>)).

(** A command writes only what it is for, and only as long as no write of its own
    was carried out. *)
Definition commandGuard cmd X h (e : kube X) : Prop := writes e = true -> untouched h /\ intended cmd h X e.

Lemma commandGuard_about cmd : aboutWrites (commandGuard cmd).
Proof. intros X h e He. unfold commandGuard. by rewrite He. Qed.

Definition onlyReads cmd : bool :=
  match cmd with CmdList | CmdGet _ | CmdClusterList | CmdClusterGet _ => true | _ => false end.

(** What the end of a command says about the cluster. *)
Definition commandPost cmd h (x : exit) : Prop :=
  if onlyReads cmd then untouched h
  else untouched h /\ x <> ExitOK \/ exists ev, onlyAcked ev h.

(** A piece of a command that only reads keeps what holds of the writes so far. *)
Lemma reads_keep {A} cmd (I : trace kube -> Prop) (p : prog kube A) h :
  every (fun X (e : kube X) => writes e = false) p ->
  (forall ev h, acked ev = false -> I h -> I (ev :: h)) -> I h ->
  safe (commandGuard cmd) p h (fun h' _ => I h').
Proof.
  intros Hp HI. apply (every_inv _ _ I p h Hp). intros X h' e Hh' He. split; [by apply commandGuard_about|].
  intros x. apply HI; [|done]. by destruct e.
Qed.

Lemma untouched_step ev h : acked ev = false -> untouched h -> untouched (ev :: h).
Proof. by constructor. Qed.

Lemma every_waitActive fuel name deadline :
  every (fun X (e : kube X) => writes e = false) (waitActive fuel name deadline).
Proof.
  induction fuel as [|fuel IH]; cbn [waitActive]; [done|]. unfold cl_Get. every_tac.
Qed.

Lemma runCreate_safe fuel name opts h :
  untouched h ->
  safe (commandGuard (CmdCreate name opts)) (runCreate fuel name opts) h
    (fun h' o => untouched h' /\ o <> Some (Done tt) \/
       exists l l', BuildLease name opts = Done l /\ onlyAcked (Ev (ClientCreate HubClient KLease l) (Ok l')) h').
Proof.
  intros Hh. unfold runCreate. destruct (BuildLease name opts) as [l|err|] eqn:Hb; [|by left..].
  unfold cl_Create. rewrite safe_bind. split; [intros _; split; [done|by constructor]|].
  intros [l'|err]; cbn [safe]; [|by left; split; [constructor|]].
  set (ev := Ev _ _). assert (Hev : onlyAcked ev (ev :: h)) by by apply onlyAcked_here.
  destruct (o_wait opts); cbn [negb]; [|right; by exists l, l'].
  rewrite safe_bind. split; [by apply commandGuard_about|]. intros t. cbn [safe].
  eapply safe_post; [apply (reads_keep _ (onlyAcked ev)); [apply every_waitActive| |by apply onlyAcked_cons]|].
  - intros ev' h'. apply onlyAcked_cons.
  - intros h' o Ho. right. by exists l, l'.
Qed.

Lemma runExtend_safe name by_ h :
  untouched h ->
  safe (commandGuard (CmdExtend name by_)) (runExtend name by_) h
    (fun h' err => match err with
       | Some _ => untouched h'
       | None => exists base l l', answered KLease h' HubClient (named name) (Ok base) /\ extended by_ base l /\
                   onlyAcked (Ev (ClientPatch HubClient KLease l base) (Ok l')) h'
       end).
Proof.
  intros Hh. unfold runExtend. rewrite safe_bind.
  apply (safe_RetryOnConflict _ (fun h _ => untouched h)); [done|]. clear h Hh. intros h [] Hh.
  unfold extendAttempt, cl_Get. rewrite safe_bind. split; [by apply commandGuard_about|].
  intros [base|err]; cbn [safe]; [|by split; [constructor|constructor]]. cbv zeta.
  set (h1 := _ :: h). assert (Hh1 : untouched h1) by by constructor.
  assert (Hb : answered KLease h1 HubClient (named name) (Ok base)) by apply answered_here.
  destruct (st_CreatedAt (lease_Status base)) as [c|] eqn:Hc; [|done].
  destruct (st_ExpiresAt (lease_Status base)) as [cur|] eqn:He; [|done].
  destruct (st_MaximumExpiresAt (lease_Status base)) as [mx|] eqn:Hm; [|done].
  destruct (ComputeExtendedTTL _ _ _ _ _) as [[ttl newExp]|err] eqn:Hx; [|done].
  assert (Hext : extended by_ base (base <| lease_Spec := base.(lease_Spec) <| spec_TTL := Some ttl |> |>))
    by by eapply extended_intro.
  unfold cl_Patch. rewrite safe_bind. split; [by intros _; split; [|constructor]|].
  intros [l'|err]; cbn [safe bind call]; [|by split; [constructor|constructor]].
  split; [by apply commandGuard_about|]. intros t. split; [|done]. eexists _, _, l'. split_and!; [|exact Hext|].
  - eapply answered_mono; [|exact Hb]. grown.
  - apply onlyAcked_cons; [done|]. by apply onlyAcked_here.
Qed.

Lemma runTouch_safe name now h :
  untouched h -> Ev WallClock now ∈ h ->
  safe (commandGuard (CmdTouch name)) (runTouch name now) h (fun h' err => commandPost (CmdTouch name) h' (exitOf err)).
Proof.
  intros Hh Hnow. unfold runTouch. rewrite safe_bind.
  apply (safe_RetryOnConflict _ (fun h _ => untouched h /\ Ev WallClock now ∈ h)); [done|].
  clear h Hh Hnow. intros h [] [Hh Hnow].
  unfold cliTouchAttempt, cl_Get. rewrite safe_bind. split; [by apply commandGuard_about|].
  assert (Hno : forall X (e : kube X) x err, acked (Ev e x) = false ->
    commandPost (CmdTouch name) (Ev e x :: h) (exitOf (Some err)) /\
    (forall err', Some err = Some err' -> IsConflict err' = true -> untouched (Ev e x :: h) /\ Ev WallClock now ∈ Ev e x :: h)).
  { intros X e x err Ha. assert (untouched (Ev e x :: h)) by by constructor. split; [by left|]. split; [done|by right]. }
  intros [base|err]; cbn [safe]; [|by apply Hno]. cbv zeta.
  destruct (RecordActivity _ _ _) as [l [err|]] eqn:Hr; [by apply Hno|].
  unfold cl_StatusUpdate. rewrite safe_bind. split.
  { intros _. split; [by constructor|]. eapply int_touch; [by right|apply answered_here|exact Hr]. }
  intros [l'|err]; cbn [safe bind].
  - assert (Hak : forall err, commandPost (CmdTouch name)
      (Ev (ClientStatusUpdate HubClient KLease l) (Ok l') :: Ev (ClientGet HubClient KLease (named name)) (Ok base) :: h) (exitOf err)).
    { intros err. right. eexists. apply onlyAcked_here; [done|by constructor]. }
    by destruct (hardMoved _ _); (split; [apply Hak|]); [intros err [= <-]|].
  - assert (untouched (Ev (ClientStatusUpdate HubClient KLease l) (Err err) ::
                       Ev (ClientGet HubClient KLease (named name)) (Ok base) :: h)) by (by repeat constructor).
    split; [by left|]. split; [done|]. by do 2 right.
Qed.

Lemma runExpire_safe name h :
  untouched h ->
  safe (commandGuard (CmdExpire name)) (runExpire name) h (fun h' err => commandPost (CmdExpire name) h' (exitOf err)).
Proof.
  intros Hh. unfold runExpire, cl_Get. rewrite safe_bind. split; [by apply commandGuard_about|].
  intros [l|err]; cbn [safe]; [|left; by split; [constructor|]]. unfold cl_Delete. rewrite safe_bind. split.
  { intros _. split; [by constructor|]. constructor. apply answered_here. }
  intros [err|]; cbn [safe].
  - left. by split; [repeat constructor|].
  - right. eexists. apply onlyAcked_here; [done|by constructor].
Qed.

(** [disable], and the first step of [drain]. *)
Lemma disable_safe cmd name h :
  (forall h t, answered KTarget h HubClient (named name) (Ok t) ->
     intended cmd h _ (ClientUpdate HubClient KTarget (t <| ct_Spec := t.(ct_Spec) <| ts_Enabled := Some false |> |>))) ->
  untouched h ->
  safe (commandGuard cmd) (runClusterSetEnabled name false) h
    (fun h' err => match err with Some _ => untouched h' | None => exists ev, onlyAcked ev h' end).
Proof.
  intros Hint Hh. unfold runClusterSetEnabled, cl_Get. rewrite safe_bind. split; [by apply commandGuard_about|].
  intros [t|err]; cbn [safe]; [|by constructor]. unfold cl_Update. rewrite safe_bind. split.
  { intros _. split; [by constructor|]. apply Hint, answered_here. }
  intros [t'|err]; cbn [safe err_of]; [|by repeat constructor].
  eexists. apply onlyAcked_here; [done|by constructor].
Qed.

Lemma reading_safe {A} cmd (p : prog kube A) (f : A -> exit) :
  onlyReads cmd = true -> every (fun X (e : kube X) => writes e = false) p ->
  safe (commandGuard cmd) (bind p (fun a => Ret (f a))) [] (commandPost cmd).
Proof.
  intros Hr Hp. rewrite safe_bind. unfold commandPost. rewrite Hr. cbn.
  apply reads_keep; [done|apply untouched_step|constructor].
Qed.

Lemma every_printing output : 
  every (fun X (e : kube X) => writes e = false) (runList output) /\
  every (fun X (e : kube X) => writes e = false) (runClusterList output) /\
  forall name,
  every (fun X (e : kube X) => writes e = false) (runGet output name) /\
  every (fun X (e : kube X) => writes e = false) (runClusterGet output name).
Proof.
  unfold runList, runClusterList, runGet, runClusterGet, cl_Get, cl_List. split_and!; [| |split]; every_tac.
Qed.

Lemma runCommand_safe fuel output cmd :
  safe (commandGuard cmd) (runCommand fuel output cmd) [] (commandPost cmd).
Proof.
  destruct (every_printing output) as (Hlist & Hclist & Hget).
  assert (Hnil : untouched []) by constructor.
  destruct cmd; cbn [runCommand]; try (by apply reading_safe; first [done|apply Hget]); rewrite safe_bind.
  - eapply safe_post; [by apply runCreate_safe|]. intros h o [[? Ho]|(l & l' & _ & ?)].
    + left. split; [done|]. intros Hx. apply Ho. by destruct o as [[[]| |]|].
    + right. by eexists.
  - eapply safe_post; [apply (disable_safe _ name); [intros; by constructor|done]|].
    intros h [err|] Hx; [left|right]; done.
  - unfold drainCluster. rewrite safe_bind.
    eapply safe_post; [apply (disable_safe _ name); [intros; by constructor|done]|].
    intros h [err|] Hx; cbn [safe]; [by left|]. destruct Hx as [ev Hx].
    unfold cl_List. rewrite safe_bind. split; [by apply commandGuard_about|]. intros ls. cbn [safe].
    right. exists ev. by apply onlyAcked_cons.
  - eapply safe_post; [by apply runExtend_safe|]. intros h [err|]; [by left|].
    intros (base & l & l' & _ & _ & ?). right. by eexists.
  - split; [by apply commandGuard_about|]. intros now. cbn [safe]. rewrite safe_bind.
    eapply safe_post; [apply runTouch_safe; [by constructor|left]|]. by intros h err.
  - eapply safe_post; [by apply runExpire_safe|]. by intros h err.
Qed.

(** Claim C22.  What a command may do to the cluster, over every run and every answer
    of the API server.  Each command writes only what it is for: [create] the lease
    its flags describe; [extend] the lease it read with the TTL that extends it, if
    the extension is allowed; [touch] the lease it read with the activity recorded at
    the time of the clock, if the heartbeat is accepted; [expire] deletes the lease
    it read; [cluster disable] and [drain] turn off [enabled] of the target they
    read, and delete nothing; the others write nothing.  Whatever is retried, at
    most one write is ever carried out, and a command that changes something ends
    with exit code 0 only if exactly one was. *)
Theorem cli_safe fuel output cmd (tr : trace kube) (x : exit) :
  runs (runCommand fuel output cmd) [] tr x ->
  guaranteed (commandGuard cmd) tr /\ commandPost cmd tr x.
Proof. intros Hr. by eapply safe_sound; [|apply runCommand_safe|exact Hr]. Qed.

(** ** extend, up to the controller *)

(** A lease that carries the TTL of an extension, under any policy the controller
    resolves it with. *)
Lemma extended_arrives by_ base l pol r now :
  extended by_ base l ->
  Resolve l.(lease_Spec) pol = Ok r -> r.(r_MaxTTL) <= maxDuration ->
  forall c cur mx,
    base.(lease_Status).(st_CreatedAt) = Some c ->
    base.(lease_Status).(st_ExpiresAt) = Some cur ->
    base.(lease_Status).(st_MaximumExpiresAt) = Some mx ->
    c < cur -> mx = c + r.(r_MaxTTL) ->
    exists ts, EnsureTimestamps l r.(r_TTL) r.(r_MaxTTL) r.(r_Renewable) now = Ok ts /\
      ts.(ts_lease).(lease_Status).(st_ExpiresAt) = Some (if r.(r_Renewable) then Z.min (cur + by_) mx else cur) /\
      ts.(ts_renewalRejected) = negb r.(r_Renewable) /\ cur < Z.min (cur + by_) mx.
Proof.
  intros [c0 cur0 mx0 ttl newExp Hc0 He0 Hm0 Hx] Hres Hmax c cur mx Hc He Hm Hlt Hmx.
  rewrite Hc0 in Hc. rewrite He0 in He. rewrite Hm0 in Hm. injection Hc as <-. injection He as <-. injection Hm as <-.
  apply Resolve_Ok in Hres. destruct Hres as [_ _ [Httl _] _ _ _ _ _ _ _ _]. cbn in Httl. rewrite Httl.
  pose proof Hx as (? & _ & ? & Hn & _)%ComputeExtendedTTL_Ok.
  destruct (ComputeExtendedTTL_arrives
    (base <| lease_Spec := base.(lease_Spec) <| spec_TTL := Some ttl |> |>) now c0 cur0 mx0 by_
    r.(r_MaxTTL) ttl newExp (IsRenewable base.(lease_Spec)) r.(r_Renewable)) as (ts & Hts & Hexp & _ & Hrej); try done.
  exists ts. rewrite <- Hn. split_and!; try done. lia.
Qed.

(** Renewability as the client sees it and as the policy resolves it. *)
Lemma resolved_renewable spec pol r :
  Resolve spec pol = Ok r -> IsRenewable spec = true -> r.(r_Renewable) = false ->
  spec.(spec_Renewable) = None /\ boolPolicy (policy_Spec <$> pol) ≫= bp_Default = Some false.
Proof.
  intros [_ _ _ _ _ _ _ Hr _ _ _]%Resolve_Ok Hi Hf. rewrite Hr in Hf. unfold requested, IsRenewable in *.
  destruct (spec_Renewable spec) as [[]|]; try done. by destruct (_ ≫= _) as [[]|].
Qed.

(** Claim C25.  [extend], from the command to the controller.  If it fails, no write
    was carried out.  If it succeeds, exactly one was: the patch of a lease it read,
    changing the TTL and nothing else.  Whenever the controller then resolves that
    lease to the maximum it had recorded, its next [EnsureTimestamps] moves the
    expiration to min(current expiration + extension, maximum), which is later than
    before.  The exception is a lease that leaves [renewable] to a policy whose
    default is false: the client takes it for renewable and reports the new
    expiration, the controller rejects the renewal and keeps the old one. *)
Theorem runExtend_correct name by_ (tr : trace kube) (err : option error) :
  runs (runExtend name by_) [] tr err ->
  match err with
  | Some _ => untouched tr
  | None => exists base l l',
      answered KLease tr HubClient (named name) (Ok base) /\
      onlyAcked (Ev (ClientPatch HubClient KLease l base) (Ok l')) tr /\
      (exists ttl, l = base <| lease_Spec := base.(lease_Spec) <| spec_TTL := Some ttl |> |>) /\
      forall pol r now c cur mx,
        Resolve l.(lease_Spec) pol = Ok r -> r.(r_MaxTTL) <= maxDuration ->
        base.(lease_Status).(st_CreatedAt) = Some c ->
        base.(lease_Status).(st_ExpiresAt) = Some cur ->
        base.(lease_Status).(st_MaximumExpiresAt) = Some mx ->
        c < cur -> mx = c + r.(r_MaxTTL) ->
        exists ts, EnsureTimestamps l r.(r_TTL) r.(r_MaxTTL) r.(r_Renewable) now = Ok ts /\
          ts.(ts_lease).(lease_Status).(st_ExpiresAt) = Some (if r.(r_Renewable) then Z.min (cur + by_) mx else cur) /\
          ts.(ts_renewalRejected) = negb r.(r_Renewable) /\ cur < Z.min (cur + by_) mx /\
          (r.(r_Renewable) = false -> base.(lease_Spec).(spec_Renewable) = None /\
             boolPolicy (policy_Spec <$> pol) ≫= bp_Default = Some false)
  end.
Proof.
  intros Hr. by_safe (commandGuard (CmdExtend name by_)) Hr.
  eapply safe_post; [apply runExtend_safe; constructor|].
  intros h [e|]; [done|]. intros (base & l & l' & Hb & Hx & Ha). exists base, l, l'. split_and!; [done..|by destruct Hx; eexists|].
  intros pol r now c cur mx Hres Hmax Hc He Hm Hlt Hmx.
  destruct (extended_arrives by_ base l pol r now Hx Hres Hmax c cur mx) as (ts & ? & ? & ? & ?); try done.
  exists ts. split_and!; try done; intros Hf; destruct Hx as [? ? ? ? ? ? ? ? [_ [Hren _]]%ComputeExtendedTTL_Ok];
    by apply (resolved_renewable _ _ _ Hres).
Qed.

(** ** create --wait ends *)

Lemma waitActive_ends fuel name deadline h b :
  notBefore h = Some b ->
  safe (fun _ _ _ => True) (waitActive fuel name deadline) h (fun h' o =>
    match o with
    | None => clockTrue h' -> fuel = 0%nat \/ b + (Z.of_nat fuel - 1) * Second < deadline
    | Some (Done _) => exists l, answered KLease h' HubClient (named name) (Ok l) /\
        (l.(lease_Status).(st_Phase) = LeasePhaseActive \/ l.(lease_Status).(st_Phase) = LeasePhaseExpiring)
    | Some (Failed _) => True
    | Some Panicked => False
    end).
Proof.
  revert h b. induction fuel as [|fuel IH]; intros h b Hb; cbn [waitActive]; [cbn; by left|].
  rewrite safe_bind. split; [done|]. intros t. cbn [safe]. set (h1 := _ :: h).
  destruct (Before t deadline) eqn:Ht; [|done]. unfold Before in Ht. zify_bool.
  unfold cl_Get. rewrite safe_bind. split; [done|]. intros [l|err]; cbn [safe]; [|done]. cbv zeta.
  assert (Hl : forall h', (Ev (ClientGet HubClient KLease (named name)) (Ok l) :: h1) `suffix_of` h' ->
            answered KLease h' HubClient (named name) (Ok l))
    by (intros h' Hh'; eapply answered_mono; [exact Hh'|apply answered_here]).
  destruct (_ || _) eqn:Hp.
  - rewrite safe_bind. eapply safe_post; [apply safe_any|]. intros h' [] Hh'. exists l. split; [by apply Hl|].
    apply orb_true_iff in Hp as [Hp|Hp]; apply bool_decide_eq_true in Hp; auto.
  - destruct (bool_decide (_ = LeasePhaseFailed)); [done|]. rewrite safe_bind. split; [done|]. intros []. cbn [safe].
    eapply safe_post; [apply safe_conj; [apply safe_any|apply (IH _ (t + Second)); cbn; f_equal; unfold slept; cbn; lia]|].
    intros h' [o|] [Hh' Ho]; [done|]. intros Hclock. right. specialize (Ho Hclock).
    assert (Htb : b <= t).
    { eapply (clockTrue_suffix h1) in Hclock; [|etrans; [|exact Hh']; grown]. destruct Hclock as [_ Hc].
      subst h1. cbn in Hc. by rewrite Hb in Hc. }
    destruct Ho as [->|Ho]; [cbn; lia|]. unfold Second in *. lia.
Qed.

(** The result of [create], with the waiting it claims. *)
Lemma runCreate_ends fuel name opts :
  safe (fun _ _ _ => True) (runCreate fuel name opts) [] (fun h o =>
    match o with
    | None => clockTrue h -> (Z.of_nat fuel - 1) * Second < Z.max 0 opts.(o_timeout)
    | Some (Done _) => opts.(o_wait) = true -> exists current, answered KLease h HubClient (named name) (Ok current) /\
        (current.(lease_Status).(st_Phase) = LeasePhaseActive \/
         current.(lease_Status).(st_Phase) = LeasePhaseExpiring)
    | Some (Failed _) => True
    | Some Panicked => h = []
    end).
Proof.
  unfold runCreate. destruct (BuildLease name opts) as [l|err|]; [|done|done].
  unfold cl_Create. rewrite safe_bind. split; [done|]. intros [l'|err]; cbn [safe]; [|done].
  destruct (o_wait opts) eqn:Hw; cbn [negb]; [|done].
  rewrite safe_bind. split; [done|]. intros t. cbn [safe].
  eapply safe_post; [by apply (waitActive_ends _ _ _ _ t)|]. unfold Add.
  intros h' [[u|err|]|] Ho; try done.
  intros Hclock. unfold Second in *. destruct (Ho Hclock) as [->|Hlt]; lia.
Qed.

(** The readings of the command's clock, the latest first. *)
Definition wallClocks h : list time := omap reading h.

(** The clock as it was read when the waiting began, and last. *)
Definition waitedFrom h (t0 t : time) : Prop := last (wallClocks h) = Some t0 /\ head (wallClocks h) = Some t.

(** A poll, and the second until the next, only begin within the timeout. *)
Definition pollsInTime (opts : createOptions) X h (e : kube X) : Prop :=
  match e with
  | ClientGet _ _ _ => exists t0 t, waitedFrom h t0 t /\ t < t0 + opts.(o_timeout)
  | Sleep d => d = Second /\ exists t0 t, waitedFrom h t0 t /\ t < t0 + opts.(o_timeout)
  | _ => True
  end.

(** Why [create] fails: the flags, the creation, or the waiting; there a read that
    failed, a lease that did, or the timeout. *)
Inductive createFailed name opts h : error -> Prop :=
  | cf_flags err : BuildLease name opts = Failed err -> createFailed name opts h err
  | cf_create l err :
      Ev (ClientCreate HubClient KLease l) (Err err) ∈ h ->
      createFailed name opts h (ErrorWrap "create EnvironmentLease" err)
  | cf_read err :
      opts.(o_wait) = true -> answered KLease h HubClient (named name) (Err err) -> createFailed name opts h err
  | cf_lease current :
      opts.(o_wait) = true -> answered KLease h HubClient (named name) (Ok current) ->
      current.(lease_Status).(st_Phase) = LeasePhaseFailed ->
      createFailed name opts h (ErrorString ("lease failed: " +:+ conditionMessage current ConditionReady))
  | cf_timeout t0 t :
      opts.(o_wait) = true -> waitedFrom h t0 t -> t0 + opts.(o_timeout) <= t ->
      createFailed name opts h (ErrorString ("timed out waiting for EnvironmentLease/" +:+ name +:+ " to become Active")).

Lemma waitedFrom_now h t0 (t : time) : last (wallClocks h) = Some t0 -> waitedFrom (Ev WallClock t :: h) t0 t.
Proof.
  intros Hl. split; [|done]. unfold wallClocks in *. cbn. destruct (omap reading h); [done|exact Hl].
Qed.

Lemma waitActive_inTime fuel name opts t0 h :
  opts.(o_wait) = true -> last (wallClocks h) = Some t0 ->
  safe (pollsInTime opts) (waitActive fuel name (t0 + opts.(o_timeout))) h (fun h' o =>
    forall err, o = Some (Failed err) -> createFailed name opts h' err).
Proof.
  intros Hw. revert h. induction fuel as [|fuel IH]; intros h Hl; cbn [waitActive]; [done|].
  rewrite safe_bind. split; [done|]. intros t. cbn [safe].
  pose proof (waitedFrom_now h t0 t Hl) as Hf. destruct (Before t _) eqn:Ht; unfold Before in Ht; zify_bool.
  2: { intros err [= <-]. by eapply cf_timeout. }
  unfold cl_Get. rewrite safe_bind. split; [by exists t0, t|]. intros [l|err]; cbn [safe].
  2: { intros err' [= <-]. apply cf_read; [done|apply answered_here]. }
  cbv zeta. destruct (_ || _).
  { rewrite safe_bind. eapply safe_post; [|intros h' [] _; by cbn; intros err].
    eapply (every_safe (fun X e => forall h, pollsInTime opts X h e) _ _ _ (fun _ _ => True)); [|done|done].
    unfold when. destruct (bool_decide _); [|done]. by cbn. }
  destruct (bool_decide (_ = LeasePhaseFailed)) eqn:Hp.
  { intros err [= <-]. apply (cf_lease _ _ _ l); [done|apply answered_here|by apply bool_decide_eq_true in Hp]. }
  rewrite safe_bind. split; [split; [done|by exists t0, t]|]. intros []. cbn [safe]. apply IH. exact (proj1 Hf).
Qed.

Lemma runCreate_inTime fuel name opts :
  safe (pollsInTime opts) (runCreate fuel name opts) [] (fun h o =>
    forall err, o = Some (Failed err) -> createFailed name opts h err).
Proof.
  unfold runCreate. destruct (BuildLease name opts) as [l|err|] eqn:Hb; [|intros e [= <-]; by apply cf_flags|done].
  unfold cl_Create. rewrite safe_bind. split; [done|]. intros [l'|err]; cbn [safe].
  2: { intros e [= <-]. apply (cf_create _ _ _ l). left. }
  destruct (o_wait opts) eqn:Hw; cbn [negb]; [|done].
  rewrite safe_bind. split; [done|]. intros t. cbn [safe]. by apply waitActive_inTime.
Qed.

(** Claim C24.  [create], and how long it waits.  If the clock never goes back and a
    sleep takes at least its time, then with one more iteration than the timeout has
    seconds the command always returns, whatever the API server answers: an error, a
    panic on quantities, or success.  The timeout bounds what is begun: a poll or
    the sleep of a second after it only begins while the clock, read right before,
    shows less than the timeout since the waiting began; what the last poll and the
    last sleep take comes on top.  Nothing is written but the lease its flags
    describe.  Success means that the creation was acknowledged, and with [--wait]
    that a lease of that name was read as Active or Expiring; an error is that of
    the flags, of the creation, of a read, of a lease that failed, or the timeout,
    and then the clock showed that it had passed; a panic means that nothing was
    called at all. *)
Theorem runCreate_correct fuel name opts (tr : trace kube) (o : option (outcome unit)) :
  runs (runCreate fuel name opts) [] tr o ->
  guaranteed (commandGuard (CmdCreate name opts)) tr /\
  (clockTrue tr -> Z.max 0 opts.(o_timeout) <= (Z.of_nat fuel - 1) * Second -> o <> None) /\
  guaranteed (pollsInTime opts) tr /\
  (forall u, o = Some (Done u) ->
     exists l l', BuildLease name opts = Done l /\ onlyAcked (Ev (ClientCreate HubClient KLease l) (Ok l')) tr /\
       (opts.(o_wait) = true -> exists current, answered KLease tr HubClient (named name) (Ok current) /\
          (current.(lease_Status).(st_Phase) = LeasePhaseActive \/
           current.(lease_Status).(st_Phase) = LeasePhaseExpiring))) /\
  (forall err, o = Some (Failed err) -> createFailed name opts tr err) /\
  (o = Some Panicked -> tr = []).
Proof.
  intros Hr. split; [by eapply runs_guaranteed; [exact Hr|apply runCreate_safe; constructor]|].
  pose proof (runs_post _ _ _ _ _ Hr (runCreate_ends fuel name opts)) as Hend.
  pose proof (runs_post _ _ _ _ _ Hr (runCreate_safe fuel name opts [] untouched_nil)) as Hsafe.
  split_and!.
  - intros Hclock Hle ->. specialize (Hend Hclock). lia.
  - eapply runs_guaranteed; [exact Hr|apply runCreate_inTime].
  - intros [] ->. destruct Hsafe as [[_ Hx]|(l & l' & Hb & Ha)]; [done|]. exists l, l'. by split_and!.
  - exact (runs_post _ _ _ _ _ Hr (runCreate_inTime fuel name opts)).
  - by intros ->.
Qed.

End Safety.

(** ** Witnesses *)

Section Witnesses.

#[local] Existing Instance milliQuantity.
#[local] Existing Instance listConditions.
#[local] Existing Instance fourAttempts.
#[local] Existing Instance fourAttempts_laws.

(** Whole numbers of units as quantities. *)
#[local] Instance wholeQuantities : QuantityParser := {|
  MustParse s := match chars s with
                 | [] => None
                 | cs => if forallb isDigit cs then Some (1000 * decimal 0 cs) else None
                 end
|}.

#[local] Instance textSerializer : Serializer := {|
  encodeJSON A _ := (["{}"], None);
  encodeYAML A _ := (["{}"], None)
|}.

Definition demoOptions : createOptions :=
  defaultCreateOptions <| o_ttl := Hour |> <| o_maxTTL := 4 * Hour |> <| o_cpuRequest := "2" |>
    <| o_warnings := ["10m"; "1h30m0s"] |> <| o_selectors := ["region=eu"] |> <| o_timeout := 2 * Second |>.

Lemma BuildLease_correct_witness :
  exists l, BuildLease "demo" demoOptions = Done l /\
    l.(lease_Spec).(spec_Warnings) = [10 * Minute; 90 * Minute] /\
    exists r, Resolve l.(lease_Spec) None = Ok r /\ r.(r_TTL) = Hour /\ r.(r_MaxTTL) = 4 * Hour.
Proof.
  destruct (BuildLease_correct "demo" demoOptions) as (_ & _ & Hl).
  assert (Hb : exists l, BuildLease "demo" demoOptions = Done l) by (eexists; vm_compute; reflexivity).
  destruct Hb as [l Hb]. destruct (Hl l Hb) as (_ & _ & _ & Hr). exists l. split; [exact Hb|]. split.
  - vm_compute in Hb. injection Hb as <-. reflexivity.
  - destruct (Hr eq_refl) as (r & H1 & H2 & H3 & _). exists r. split; [exact H1|]. rewrite H2, H3. split; reflexivity.
Defined.

(** The lease is created and waited for, but nobody reconciles it. *)
Lemma runCreate_correct_witness :
  let p := runCreate 3 "demo" demoOptions in
  let w := emptyWorld (100 * Second) in
  (in_world p w).1.1 <> None.
Proof.
  intros p w. destruct (runCreate_correct 3 "demo" demoOptions _ _ (in_world_runs p w)) as (_ & Hend & _).
  apply Hend; [|vm_compute; discriminate].
  vm_compute. intuition discriminate.
Defined.

(** A world in which the lease has been created and reconciled twice. *)
Definition createdWorld : World :=
  (in_world (runCommand 0 "" (CmdCreate "demo"
     (demoOptions <| o_wait := false |> <| o_selectors := [] |>))) (emptyWorld (100 * Second))).1.2.

Definition standingWorld : World := rounds 2 createdWorld.

(** [extend --for 30m] in it, and the reconcile that follows. *)
Example extend_moves_deadline :
  let deadline w := leaseIn w ≫= (fun l => l.(lease_Status).(st_ExpiresAt)) in
  let w := (in_world (runCommand 0 "" (CmdExtend "demo" (30 * Minute))) standingWorld).1.2 in
  (deadline standingWorld, deadline w, deadline (rounds 1 w)) =
  (Some (3700 * Second), Some (3700 * Second), Some (5500 * Second)).
Proof. vm_compute. reflexivity. Qed.

Lemma runExtend_correct_witness :
  let p := runExtend "demo" (30 * Minute) in
  exists base l l', onlyAcked (Ev (ClientPatch HubClient KLease l base) (Ok l')) (in_world p standingWorld).2.
Proof.
  intros p. pose proof (runExtend_correct "demo" (30 * Minute) _ _ (in_world_runs p standingWorld)) as Hw.
  assert (Hn : (in_world p standingWorld).1.1 = None) by (vm_compute; reflexivity).
  rewrite Hn in Hw. destruct Hw as (base & l & l' & _ & Ha & _). exists base, l, l'. exact Ha.
Defined.

Lemma cli_safe_witness :
  let p := runCommand 0 "" (CmdExpire "demo") in
  (in_world p standingWorld).1.1 = ExitOK /\ exists ev, onlyAcked ev (in_world p standingWorld).2.
Proof.
  intros p. assert (Hx : (in_world p standingWorld).1.1 = ExitOK) by (vm_compute; reflexivity). split; [exact Hx|].
  destruct (cli_safe 0 "" (CmdExpire "demo") _ _ (in_world_runs p standingWorld)) as [_ [[_ Hbad]|Hev]];
    [destruct (Hbad Hx)|exact Hev].
Defined.

(** A policy whose default is not renewable, and a lease that leaves it to that
    policy: [extend] succeeds, and the controller keeps the old expiration. *)
Definition fixedPolicy : EnvironmentLeasePolicy :=
  mkEnvironmentLeasePolicy (emptyMeta <| m_Name := "fixed" |>)
    (mkEnvironmentLeasePolicySpec None None None (Some (mkBoolPolicy (Some false) None)) None None None).

Definition fixedWorld : World :=
  let l := demoLease <| lease_Spec := demoLease.(lease_Spec) <| spec_PolicyRef := Some "fixed" |>
                          <| spec_MaxTTL := Some (4 * Hour) |> |> in
  rounds 2 (put HubClient KPolicy fixedPolicy (put HubClient KLease l (emptyWorld (100 * Second)))).

Example extend_ignores_policy_default :
  let '(x, w, _) := in_world (runCommand 0 "" (CmdExtend "demo" (30 * Minute))) fixedWorld in
  let deadline w := leaseIn w ≫= (fun l => l.(lease_Status).(st_ExpiresAt)) in
  match x with ExitOK => true | _ => false end = true /\
  (deadline fixedWorld, deadline (rounds 2 w)) = (Some (3700 * Second), Some (3700 * Second)).
Proof. vm_compute. split; reflexivity. Qed.

End Witnesses.
