(* ===== verification/MetricLabels.v ===== *)
(** * What is counted, and under which labels

    Over every run of the controllers, the webhook and the client provider: every
    report goes to a declared collector of its type with one value for each label,
    a documented one wherever values are documented ([Metrics]); every request of
    the webhook is counted exactly once, under an action that is the caller's and
    that nothing bounds; and the health gauge of a target follows its Ready
    condition whenever it is set. *)

From S2P Require Import Prelude GoStrings GoTime GoErrors Api LeaseConditions LeaseStatus Policy LeaseExpiration Programs Kube World.
From S2P Require Import Concrete Identity Placement Remote Provider LeaseReconcile Runtime LeasePaths TargetController.
From S2P Require Import CliBuild Cli GoText WebhookAuth WebhookActions WebhookServer WebhookSafety LeaseCommon.

(** ** Reports *)

Section Reports.
Context `{QuantityAPI}.

(** A call is no report, or one that keeps the promises of the collectors. *)
Definition wellReported X (e : kube X) : Prop :=
  match e with Metric m => reportsWell m = true | _ => True end.

Definition wellCounted X (_ : trace kube) (e : kube X) : Prop := wellReported X e.

Lemma wellReported_harmless X (e : kube X) : harmless e = true -> wellReported X e.
Proof. by destruct e. Qed.

Lemma every_counted {A} (p : prog kube A) tr a : every wellReported p -> runs p [] tr a -> onlyWith wellReported tr.
Proof.
  intros Hp Hr. by_safe (fun X (_ : trace kube) (_ : kube X) => True) Hr. by apply every_onlyWith; [|constructor].
Qed.

Lemma wellCounted_onlyWith (tr : trace kube) : guaranteed wellCounted tr -> onlyWith wellReported tr.
Proof. induction tr as [|ev tr IH]; [constructor|]. intros [? ?]. constructor; [done|by apply IH]. Qed.

(** The requests the endpoints have counted: their labels. *)
Definition requestCount (ev : event kube) : option (list string) :=
  match ev.(ev_eff) with
  | Metric (MetricInc name labels) => if String.eqb name "webhookRequestsTotal" then Some labels else None
  | _ => None
  end.

Definition requestCounts (tr : trace kube) : list (list string) := omap requestCount tr.

(** A call that keeps the promises and counts no request. *)
Definition quiet X (e : kube X) : Prop :=
  wellReported X e /\ String.eqb match e with Metric m => metricName m | _ => "" end "webhookRequestsTotal" = false.

Lemma quiet_counts {A} (p : prog kube A) h n :
  every quiet p -> requestCounts h = n -> safe wellCounted p h (fun h' _ => requestCounts h' = n).
Proof.
  intros Hp. apply (every_inv quiet wellCounted (fun h => requestCounts h = n) p h Hp). intros X h' e Hh [He Hn].
  split; [done|]. intros x. unfold requestCounts in *. cbn. unfold requestCount at 1. cbn. destruct e; try done.
  destruct m; try done. cbn in Hn. by rewrite Hn.
Qed.

(** The outcomes of a request. *)
Definition endpointOutcome (result : string) : bool := allowed "webhookRequestsTotal" "result" result.

Lemma resultLabelOf_outcome out : endpointOutcome (resultLabelOf out) = true.
Proof. unfold resultLabelOf. by repeat case_match. Qed.

(** What a handler ends with, before its request is counted. *)
Definition handled (Q : string -> Response -> Prop) (h : trace kube) (x : string * string * Response) : Prop :=
  requestCounts h = [] /\ endpointOutcome x.1.2 = true /\ Q x.1.1 x.2.

(** What the counters say of a run that handled one request. *)
Definition countedOnce (Q : string -> Response -> Prop) (h : trace kube) (resp : Response) : Prop :=
  exists action result, requestCounts h = [[action; result]] /\ endpointOutcome result = true /\ Q action resp.

Lemma measured_counts (body : prog kube (string * string * Response)) Q :
  (forall h, requestCounts h = [] -> safe wellCounted body h (handled Q)) ->
  safe wellCounted (measured body) [] (countedOnce Q).
Proof.
  intros Hb. unfold measured. rewrite safe_bind. split; [done|]. intros start. cbn [safe]. rewrite safe_bind.
  eapply safe_post; [by apply Hb|]. intros h [[al rl] resp] (Hh & Hr & HQ). cbn [call bind safe]. split.
  { unfold wellCounted, wellReported, reportsWell, reports. cbn -[oneOf]. unfold endpointOutcome, allowed in Hr.
    cbn -[oneOf] in Hr. by rewrite Hr. }
  intros []. split; [done|]. intros stop. split; [done|]. intros []. exists al, rl.
  split; [|done]. unfold requestCounts in *. cbn. by rewrite Hh.
Qed.

Lemma mapSourceAction_values action :
  mapSourceAction action = "" \/ oneOf (mapSourceAction action) ["create"; "expire"; "touch"] = true.
Proof. unfold mapSourceAction. repeat case_match; auto. Qed.

Lemma observeHandled_quiet provider action code :
  oneOf provider [ProviderGitHub; ProviderWebhook] = true -> every quiet (observeHandled provider action code).
Proof.
  intros Hp. unfold observeHandled, ObserveSource, when. cbv zeta.
  destruct (mapSourceAction_values action) as [->|Ha]; [done|].
  assert (Hr : reports (MetricInc "SourceErrorsTotal" [provider; mapSourceAction action]) = true).
  { unfold reports. cbn -[oneOf]. by rewrite Hp, Ha. }
  assert (Hs : forall res : string, outcomeLabel res = true ->
    reports (MetricInc "SourceEventsTotal" [provider; mapSourceAction action; res]) = true).
  { intros res Hres. unfold outcomeLabel in Hres. unfold reports. cbn -[oneOf]. by rewrite Hp, Ha, Hres. }
  destruct (negb _); [|done]. apply every_bind.
  - apply every_call. split; [|done]. cbn. unfold reportsWell. rewrite Hs; [done|]. by destruct (400 <=? code).
  - intros []. destruct (String.eqb _ _); [|done]. apply every_call. split; [|done]. cbn. unfold reportsWell. by rewrite Hr.
Qed.

End Reports.

(** ** The endpoints *)

Section Endpoints.
Context `{QuantityAPI} `{RetryLaws} `{JSONAPI}.
Variable config : Config.

(** Nothing below the endpoints reports anything. *)
Lemma secretProvider_quiet p cached : every quiet (secretProvider p cached).
Proof. unfold secretProvider, SecretToken, cl_Get. every_tac. Qed.

Lemma authorize_quiet p cached a t : every quiet (authorize (Some (secretProvider p cached)) a t).
Proof.
  unfold authorize. cbv zeta. destruct (is_empty _); [done|]. apply every_bind; [apply secretProvider_quiet|].
  intros [tok|err]; [|done]. by destruct (negb _).
Qed.

Lemma submitLease_quiet l pol name f : every quiet (submitLease config l pol name f).
Proof. unfold submitLease, validateAgainstPolicy, cl_Get, cl_Create. every_tac. Qed.

Lemma deleteLease_quiet l name m : every quiet (deleteLease l name m).
Proof. unfold deleteLease, cl_Delete. every_tac. Qed.

Hint Resolve submitLease_quiet deleteLease_quiet : every.

Lemma handleAction_quiet req : every quiet (handleAction config req).
Proof.
  unfold handleAction, createLease, expireLease, touchLease, touchAttempt, cl_Get, cl_StatusUpdate. every_tac.
Qed.

Lemma handleGitHubPREvent_quiet action merged ref id : every quiet (handleGitHubPREvent config action merged ref id).
Proof.
  unfold handleGitHubPREvent, ensureGitHubLease, expireGitHubLease, patchGitHubMetadata, cl_Get, cl_Patch,
    cl_StatusUpdate. every_tac.
Qed.

(** The action label of the generic endpoint: "unknown" for a caller that is
    refused; else what the request says, as it is, once it decodes. *)
Definition leasesLabel (r : HttpRequest) (action : string) (resp : Response) : Prop :=
  (resp.(resp_Code) = 401 /\ action = "unknown") \/
  action = match decodeRequest r config.(cfg_MaxBodyBytes) with Ok req => req.(rq_Action) | Err _ => "unknown" end.

Lemma serveAction_counts req h Q :
  requestCounts h = [] -> (forall resp, Q req.(rq_Action) resp) ->
  safe wellCounted (serveAction config req) h (handled Q).
Proof.
  intros Hh HQ. unfold serveAction. rewrite safe_bind.
  eapply safe_post; [apply quiet_counts; [apply handleAction_quiet|exact Hh]|].
  intros h1 [out|err] Hh1; [|by split_and!]. rewrite safe_bind.
  eapply safe_post; [apply quiet_counts; [by apply observeHandled_quiet|exact Hh1]|].
  intros h2 [] Hh2. split_and!; [done|apply resultLabelOf_outcome|apply HQ].
Qed.

Lemma handleLeases_counts p cached r :
  safe wellCounted (handleLeases config (Some (secretProvider p cached)) r) [] (countedOnce (leasesLabel r)).
Proof.
  unfold handleLeases. apply measured_counts. intros h Hh. rewrite safe_bind.
  eapply safe_post; [apply quiet_counts; [apply authorize_quiet|exact Hh]|]. intros h1 [err|] Hh1; [by split_and!; [..|left]|].
  assert (Hd : forall resp, leasesLabel r match decodeRequest r config.(cfg_MaxBodyBytes) with
    Ok req => req.(rq_Action) | Err _ => "unknown" end resp) by by right.
  revert Hd. destruct (decodeRequest _ _) as [req|err]; intros Hd; [|by split_and!].
  destruct (validate req) as [err|]; [by split_and!|]. apply serveAction_counts; [done|]. by destruct (is_empty _).
Qed.

(** The action label of the GitHub endpoint: the event type of the delivery, and
    the action of the event, as they were sent. *)
Definition githubLabel (r : HttpRequest) (action : string) (_ : Response) : Prop :=
  action = "github" \/ action = "github:" +:+ r.(http_Header) "X-GitHub-Event" \/
  exists body ev, unmarshalEvent body = Ok ev /\ action = "github:pull_request:" +:+ ev.(ev_Action).

Lemma serveEvent_counts r body h :
  requestCounts h = [] -> safe wellCounted (serveEvent config r body) h (handled (githubLabel r)).
Proof.
  intros Hh. unfold serveEvent. cbv zeta. assert (Hl : forall resp, githubLabel r ("github:" +:+ http_Header r "X-GitHub-Event") resp)
    by (by right; left).
  destruct (String.eqb _ "ping"); [by split_and!|]. destruct (is_empty _); [by split_and!|].
  destruct (negb _); [by split_and!|]. destruct (parsePullRequestEvent body) as [[ev ref]|err] eqn:Hp; [|by split_and!].
  assert (Hev : forall resp, githubLabel r ("github:pull_request:" +:+ ev_Action ev) resp).
  { right; right. exists body, ev. split; [|done]. unfold parsePullRequestEvent in Hp. by repeat case_match; simplify_eq. }
  rewrite safe_bind. eapply safe_post; [apply quiet_counts; [apply handleGitHubPREvent_quiet|exact Hh]|].
  intros h1 [out|err] Hh1; [|by split_and!]. rewrite safe_bind.
  eapply safe_post; [apply quiet_counts; [by apply observeHandled_quiet|exact Hh1]|].
  intros h2 [] Hh2. split_and!; [done|apply resultLabelOf_outcome|apply Hev].
Qed.

Lemma handleGitHub_counts p cached r :
  safe wellCounted (handleGitHub config (Some (secretProvider p cached)) r) [] (countedOnce (githubLabel r)).
Proof.
  unfold handleGitHub. apply measured_counts. intros h Hh. assert (Hl : forall resp, githubLabel r "github" resp) by by left.
  repeat (case_match; [by split_and!|]). unfold githubWebhookSecret. case_match; [|by split_and!].
  case_match; [by split_and!|]. rewrite safe_bind.
  eapply safe_post; [apply quiet_counts; [apply secretProvider_quiet|exact Hh]|].
  intros h1 [secret|err] Hh1; [|by split_and!]. destruct (VerifyGitHubSignature _ _ _); [by split_and!|].
  by apply serveEvent_counts.
Qed.

End Endpoints.

(** ** The health gauge *)

Section Health.
Context `{QuantityAPI} `{ConditionsLaws} `{!ControllerutilAPI} `{RetryLaws}.

Implicit Types (h : trace kube) (t : ClusterTarget).

(** The hub was sent a status of a target that says whether it is Ready. *)
Definition statusSent h (ready : bool) : Prop :=
  exists t a, Ev (ClientStatusUpdate HubClient KTarget t) a ∈ h /\ isReady t = ready.

(** The hub stored a Ready status of the target of that name. *)
Definition readyStored h (name : string) : Prop :=
  exists t t', Ev (ClientStatusUpdate HubClient KTarget t) (Ok t') ∈ h /\ isReady t = true /\
    t'.(ct_Meta).(m_Name) = name.

(** When the gauge may be set. *)
Definition gaugeRule X h (e : kube X) : Prop :=
  match e with
  | Metric (MetricSet name labels v) =>
      name = "ClusterHealth" ->
      exists cluster, labels = [cluster] /\
        ((v = 1 /\ readyStored h cluster) \/ (v = 0 /\ statusSent h false))
  | _ => True
  end.

(** A call that leaves the gauge alone. *)
Definition noGauge X (e : kube X) : Prop :=
  match e with Metric (MetricSet name _ _) => String.eqb name "ClusterHealth" = false | _ => True end.

Lemma noGauge_safe {A} (p : prog kube A) h : every noGauge p -> safe gaugeRule p h (fun _ _ => True).
Proof.
  intros Hp. eapply every_safe; [exact Hp| |done]. intros X h' e He. destruct e; try done. destruct m; try done.
  intros ->. done.
Qed.

Lemma lower_gauge t h (k : prog kube (CtrlResult * option error)) :
  statusSent h false -> every noGauge k ->
  safe gaugeRule (setHealth t.(ct_Meta).(m_Name) 0 ;; k)%prog h (fun _ _ => True).
Proof.
  intros Hs Hk. split; [|intros []; by apply noGauge_safe]. intros _. eexists. split; [done|]. by right.
Qed.

Lemma tryUpdate_sent t h :
  safe gaugeRule (tryUpdateStatus (observeTarget t)) h (fun h' _ => statusSent h' (isReady t)).
Proof. split; [done|]. intros a. eexists _, a. split; [left|done]. Qed.

Lemma unhealthy_gauge t auth reason m hl h : safe gaugeRule (unhealthy t auth reason m hl) h (fun _ _ => True).
Proof.
  unfold unhealthy. cbv zeta. rewrite safe_bind. eapply safe_post; [apply tryUpdate_sent|]. intros h1 t1 Hs.
  rewrite isReady_setTargetConditions in Hs. destruct hl; [by apply lower_gauge|done].
Qed.

Lemma unreachable_gauge t m h : safe gaugeRule (unreachable t m) h (fun _ _ => True).
Proof.
  unfold unreachable. cbv zeta. rewrite safe_bind. eapply safe_post; [apply tryUpdate_sent|]. intros h1 t1 Hs.
  rewrite setTargetCondition_ready_other, isReady_setTargetConditions in Hs by done.
  split; [done|]. intros []. apply lower_gauge; [|done].
  destruct Hs as (t' & a & Hin & ?). exists t', a. split; [by right|done].
Qed.

Lemma identityDrift_gauge t id h : safe gaugeRule (identityDrift t id) h (fun _ _ => True).
Proof.
  unfold identityDrift. cbv zeta. rewrite safe_bind. eapply safe_post; [apply tryUpdate_sent|]. intros h1 t1 Hs.
  rewrite setTargetCondition_ready_other, isReady_setTargetConditions in Hs by done.
  apply lower_gauge; [done|]. every_tac.
Qed.

Lemma refreshCapacity_gauge t h :
  safe gaugeRule (refreshCapacity t) h (fun _ t' => isReady t' = isReady t).
Proof.
  unfold refreshCapacity. cbv zeta. rewrite safe_bind. split; [done|]. intros a. cbn [safe]. rewrite safe_bind.
  destruct a as [items|err]; [done|]. rewrite safe_bind. unfold CountActiveLeases. rewrite safe_bind.
  split; [done|]. intros c. done.
Qed.

Lemma healthy_gauge t ver h : safe gaugeRule (healthy t ver) h (fun _ _ => True).
Proof.
  unfold healthy. cbv zeta. rewrite safe_bind. eapply safe_post; [apply refreshCapacity_gauge|]. intros h1 t1 Hr.
  rewrite setTargetCondition_ready_other, isReady_setTargetConditions in Hr by done.
  rewrite safe_bind. split; [done|]. intros [t2|err]; cbn [safe]; [|done]. split; [|by intros []].
  intros _. eexists. split; [done|]. left. split; [done|]. eexists _, t2. split; [left|done].
Qed.

Lemma checkHealth_gauge t h : safe gaugeRule (checkHealth t) h (fun _ _ => True).
Proof.
  unfold checkHealth. destruct (IsEnabled _); cbn [negb].
  2: { apply noGauge_safe. unfold updateStatus, cl_StatusUpdate. every_tac. }
  rewrite safe_bind. split; [done|]. intros [cfg|err]; cbn [safe]; [|apply unhealthy_gauge].
  rewrite safe_bind. split; [done|]. intros [ver|err]; cbn [safe]; [|apply unreachable_gauge].
  rewrite safe_bind. split; [done|]. intros [cl|err]; cbn [safe]; [|apply unhealthy_gauge].
  rewrite safe_bind. apply safe_Probe; [done|..]; [|intros ? ?; apply unhealthy_gauge].
  intros ks _. cbv zeta. destruct (is_empty _); [apply healthy_gauge|].
  destruct (negb _); [apply identityDrift_gauge|apply healthy_gauge].
Qed.

(** Claim C13.  The health gauge of a target follows its Ready condition.  In every
    run of the target controller, whatever is answered, the gauge is set to 1 only
    after the hub stored a status of that very target that says Ready, and to 0
    only after a status that says not Ready was sent; it is set to nothing else. *)
Theorem health_gauge_follows (req : string) (tr : trace kube) (res : CtrlResult * option error) :
  runs (TargetReconcile req) [] tr res -> guaranteed gaugeRule tr.
Proof.
  intros Hrun. eapply (runs_guaranteed _ _ _ _ (fun _ _ => True) Hrun).
  unfold TargetReconcile. rewrite safe_bind. split; [done|]. intros [t|err]; cbn [safe]; [|done]. cbv zeta.
  destruct (negb _).
  { apply noGauge_safe. unfold targetReconcileDelete, countReferencingLeases, removeTargetFinalizerAttempt,
      tryUpdateStatus, updateStatus, cl_List, cl_Get, cl_Update, cl_StatusUpdate. every_tac. }
  destruct (negb _); [apply noGauge_safe; unfold cl_Update; every_tac|].
  unfold reconcileHealth. rewrite safe_bind. eapply safe_post; [apply checkHealth_gauge|]. intros h1 a _.
  apply noGauge_safe. unfold refreshClusterTargetMetrics, cl_List. every_tac.
Qed.

(** A report of the target controller. *)
Lemma TargetReconcile_reports req : every wellReported (TargetReconcile req).
Proof.
  unfold TargetReconcile, targetReconcileDelete, countReferencingLeases, removeTargetFinalizerAttempt, reconcileHealth,
    checkHealth, healthy, unhealthy, unreachable, identityDrift, refreshCapacity, CountActiveLeases,
    refreshClusterTargetMetrics, ProbeRemoteIdentity, setHealth, tryUpdateStatus, updateStatus, inc,
    cl_List, cl_Get, cl_Update, cl_StatusUpdate. every_tac.
Qed.

End Health.

(** ** Everything that reports *)

Section All.
Context `{QuantityAPI} `{ConditionsAPI} `{SelectorAPI} `{!ControllerutilAPI} `{RetryLaws} `{JSONAPI} `{ClientcmdAPI}.

(** A counter of the client provider, which has effects of its own. *)
Definition wellIncremented X (e : penv X) : Prop :=
  match e with Inc name => reportsWell (MetricInc name []) = true | _ => True end.

Lemma configAndClient_reports range n target : every wellIncremented (configAndClient range n target).
Proof.
  unfold configAndClient, loadKubeconfig. cbv zeta. destruct (negb _); [done|]. apply every_bind; [every_tac|].
  intros [[secret data]|err]; [|every_tac]. every_tac.
Qed.

(** Every HTTP request of the two endpoints is counted exactly once, with one of
    the six documented results. *)
Lemma requests_counted_once config p cached (r : HttpRequest) :
  (forall tr resp, runs (handleLeases config (Some (secretProvider p cached)) r) [] tr resp ->
     countedOnce (leasesLabel config r) tr resp) /\
  (forall tr resp, runs (handleGitHub config (Some (secretProvider p cached)) r) [] tr resp ->
     countedOnce (githubLabel r) tr resp).
Proof.
  split; intros tr resp Hr.
  - exact (runs_post _ _ _ _ _ Hr (handleLeases_counts config p cached r)).
  - exact (runs_post _ _ _ _ _ Hr (handleGitHub_counts config p cached r)).
Qed.


End All.

(** ** Witnesses *)

Section Witnesses.

#[local] Existing Instance milliQuantity.
#[local] Existing Instance listConditions.
#[local] Existing Instance listConditions_laws.
#[local] Existing Instance exactSelectors.
#[local] Existing Instance listControllerutil.
#[local] Existing Instance fourAttempts.
#[local] Existing Instance fourAttempts_laws.
#[local] Existing Instance demoCodec.
#[local] Instance noKubeconfig : ClientcmdAPI := {| RESTConfigFromKubeConfig _ := Err (ErrorString "no") |}.


(** A codec that reads the whole body as the action. *)
Definition plainCodec : JSONAPI := {|
  decodeJSON s := Ok (mkRequest s "shop" "ann" "" "", false);
  unmarshalEvent _ := Err (ErrorString "invalid character")
|}.

Definition oddRequest (action : string) : HttpRequest :=
  mkHttpRequest "POST" (demoHeader {["Authorization" := "Bearer s3cr3t"]}) action None.

(** A refused request is a series of its own under whatever action it asks for. *)
Lemma refused_actions_counted :
  forallb (fun action =>
    let out := in_world (@handleLeases milliQuantity fourAttempts plainCodec demoConfig
                           (Some (secretProvider demoTokens "")) (oddRequest action)) webhookWorld in
    (resp_Code out.1.1 =? 400) && bool_decide (requestCounts out.2 = [[action; "invalid"]]))
  ["lease-4711"; "ann@example.com"; "acme/web#7"] = true.
Proof. vm_compute. reflexivity. Qed.

(** A first health check raises the gauge. *)
Definition gaugeOf (tr : trace kube) : list (list string * Z) :=
  omap (fun ev => match ev_eff ev with
    | Metric (MetricSet name labels v) => if String.eqb name "ClusterHealth" then Some (labels, v) else None
    | _ => None end) tr.

Definition healthyWorld : World := (in_world (demoTargetReconcile "edge") edgeWorld).1.2.

Lemma health_gauge_follows_witness :
  let out := in_world (demoTargetReconcile "edge") edgeWorld in
  gaugeOf out.2 = [(["edge"], 1)] /\ guaranteed gaugeRule out.2.
Proof.
  split; [vm_compute; reflexivity|].
  exact (health_gauge_follows "edge" _ _ (in_world_runs (demoTargetReconcile "edge") edgeWorld)).
Defined.

(** The gauge is not lowered when a target is disabled: the target is no longer
    Ready, and the gauge still says 1. *)
Lemma disabled_target_keeps_gauge :
  match targetIn healthyWorld "edge" with
  | Some t =>
      let w := put HubClient KTarget (t <| ct_Spec := t.(ct_Spec) <| ts_Enabled := Some false |> |>) healthyWorld in
      let out := in_world (demoTargetReconcile "edge") w in
      isReady t && bool_decide (gaugeOf out.2 = [])
      && match targetIn out.1.2 "edge" with Some t' => negb (isReady t') | None => false end
  | None => false
  end = true.
Proof. vm_compute. reflexivity. Qed.

End Witnesses.
