(* ===== verification/StatusInvariant.v ===== *)
(** * Leases stay well-formed

    A type discipline for programs: the answers a program gets are assumed to be
    well-formed, and what it sends has to be.  Under it the lease controller and the
    commands only ever write well-formed leases: one condition of each type, no
    warning recorded twice, and an expiration that comes with its creation and its
    maximum and never exceeds it. *)

From S2P Require Import Prelude GoStrings GoTime GoErrors Api LeaseConditions LeaseStatus Resources.
From S2P Require Import Policy LeaseExpiration Lifetime LeaseWarnings Concrete Programs Kube World Identity Placement Outage Remote.
From S2P Require Import LeaseCommon LeaseProvision LeaseCleanup LeaseReconcile Runtime LeasePaths TargetController GoText CliBuild Cli WebhookNames WebhookActions.

(** ** Typed programs *)

Section Typed.
Context {E : Type -> Type}.
Variable sends : forall X, E X -> Prop.
Variable answers : forall X, E X -> X -> Prop.

(** Every call sends what it may, as long as the answers are as promised, and the
    result satisfies [Q]. *)
Fixpoint typed {A} (p : prog E A) (Q : A -> Prop) : Prop :=
  match p with
  | Ret a => Q a
  | Act e k => sends _ e /\ forall x, answers _ e x -> typed (k x) Q
  end.

Lemma typed_bind {A B} (p : prog E A) (f : A -> prog E B) (P : A -> Prop) Q :
  typed p P -> (forall a, P a -> typed (f a) Q) -> typed (bind p f) Q.
Proof.
  intros Hp Hf. induction p as [a|X e k IH]; simpl in *; [by apply Hf|].
  destruct Hp as [He Hk]. split; [done|]. intros x Hx. apply IH, Hk, Hx.
Qed.

Lemma typed_post {A} (p : prog E A) (P Q : A -> Prop) : typed p P -> (forall a, P a -> Q a) -> typed p Q.
Proof.
  intros Hp HQ. induction p as [a|X e k IH]; simpl in *; [by apply HQ|].
  destruct Hp as [He Hk]. split; [done|]. intros x Hx. apply IH, Hk, Hx.
Qed.

Lemma typed_every {A} (p : prog E A) : every sends p -> typed p (fun _ => True).
Proof.
  induction p as [a|X e k IH]; simpl; [done|]. intros [He Hk]. split; [done|]. intros x _. apply IH, Hk.
Qed.

Lemma typed_call {X} (e : E X) : sends _ e -> typed (call e) (answers _ e).
Proof. by split. Qed.

Lemma typed_RetryOnConflict `{RetryLaws} {S} (f : S -> prog E (S * option error)) s (I : S -> Prop) :
  I s -> (forall s, I s -> typed (f s) (fun p => I p.1)) -> typed (RetryOnConflict f s) (fun p => I p.1).
Proof.
  intros Hs Hf. rewrite RetryOnConflict_spec. revert s Hs. induction retry_steps as [|n IH]; intros s Hs;
    cbn [retry]; (eapply typed_bind; [by apply Hf|]); intros [s' [e|]] Hs'; try done; destruct (IsConflict e); try done.
  by apply IH.
Qed.

(** A typed program makes typed runs. *)
Lemma typed_sound {A} (p : prog E A) Q h tr a :
  typed p Q -> runs p h tr a ->
  Forall (fun ev => answers _ ev.(ev_eff) ev.(ev_resp)) tr ->
  Forall (fun ev => sends _ ev.(ev_eff)) h -> Forall (fun ev => sends _ ev.(ev_eff)) tr /\ Q a.
Proof.
  intros Ht Hr Hall. revert Ht. induction Hr as [a h|X e k x h tr a Hr IH]; simpl; [done|].
  intros [He Hk] Hh. apply IH; [done| |by constructor]. apply Hk.
  assert (Hin : Ev e x ∈ tr).
  { clear - Hr. remember (Ev e x :: h) as h1 eqn:Hh1. assert (Hin : Ev e x ∈ h1) by (subst h1; left). clear Hh1.
    induction Hr as [|Y e' k' y h1 tr a Hr IH]; [done|]. apply IH. by right. }
  rewrite Forall_forall in Hall. exact (Hall _ Hin).
Qed.

End Typed.

(** ** Well-formed leases *)

Section WellFormed.
Context `{QuantityAPI} `{ConditionsLaws}.

Implicit Types (l : EnvironmentLease).

Record wellFormed l : Prop := {
  wf_conditions : NoDup (map c_Type l.(lease_Status).(st_Conditions));
  wf_warnings : NoDup l.(lease_Status).(st_WarningsDelivered);
  wf_times : forall e, l.(lease_Status).(st_ExpiresAt) = Some e ->
    exists c m, l.(lease_Status).(st_CreatedAt) = Some c /\ l.(lease_Status).(st_MaximumExpiresAt) = Some m /\ e <= m
}.

(** What a lease may lose or gain without being looked at here. *)
Lemma wellFormed_ext l l' :
  l'.(lease_Status).(st_Conditions) = l.(lease_Status).(st_Conditions) ->
  l'.(lease_Status).(st_WarningsDelivered) = l.(lease_Status).(st_WarningsDelivered) ->
  l'.(lease_Status).(st_ExpiresAt) = l.(lease_Status).(st_ExpiresAt) ->
  l'.(lease_Status).(st_CreatedAt) = l.(lease_Status).(st_CreatedAt) ->
  l'.(lease_Status).(st_MaximumExpiresAt) = l.(lease_Status).(st_MaximumExpiresAt) ->
  wellFormed l -> wellFormed l'.
Proof. intros E1 E2 E3 E4 E5 [? ? ?]. split; rewrite ?E1, ?E2, ?E3, ?E4, ?E5; done. Qed.

Lemma wellFormed_fresh m s : wellFormed (mkEnvironmentLease m s emptyStatus).
Proof. split; cbn; [constructor|constructor|done]. Qed.

Lemma wellFormed_SetCondition l t s reason m : wellFormed l -> wellFormed (SetCondition l t s reason m).
Proof. intros [? ? ?]. split; cbn; [by apply SetStatusCondition_nodup|done|done]. Qed.

(** Close [wellFormed] goals: conditions are set, other fields change. *)
Ltac wellFormed_tac :=
  repeat first [ assumption | apply wellFormed_SetCondition
               | apply wellFormed_fresh
               | match goal with Hw : wellFormed ?l |- wellFormed _ => apply (wellFormed_ext l); reflexivity || exact Hw end
               | match goal with
                 | |- wellFormed (modify (proj:=lease_Status) _ ?l) => apply (wellFormed_ext l); [reflexivity..|]
                 | |- wellFormed (match ?x with _ => _ end) => destruct x
                 end ].

Lemma wellFormed_Mark l :
  wellFormed l ->
  (forall m, wellFormed (MarkProvisioning l m)) /\ (forall b, wellFormed (MarkReady l b)) /\
  (forall x m, wellFormed (MarkPending l x m)) /\ (forall x m, wellFormed (MarkFailed l x m)) /\
  (forall x, wellFormed (MarkExpired l x)) /\ (forall m, wellFormed (MarkCleaning l m)) /\
  wellFormed (MarkCleanupComplete l) /\ (forall m, wellFormed (MarkCleanupFailed l m)) /\
  wellFormed (EnsureObservedGeneration l).
Proof.
  intros Hl. split_and!; intros;
    unfold MarkProvisioning, MarkReady, MarkPending, MarkFailed, MarkExpired, MarkCleaning, MarkCleanupComplete,
      MarkCleanupFailed, EnsureObservedGeneration; cbv zeta; wellFormed_tac.
Qed.

Lemma wellFormed_delivered l d :
  wellFormed l -> wellFormed (l <|@ st_WarningsDelivered := MarkWarningDelivered l.(lease_Status).(st_WarningsDelivered) d |>).
Proof. intros [? ? ?]. split; cbn; [done|by apply MarkWarningDelivered_NoDup|done]. Qed.

Lemma wellFormed_stamped l ttl maxTTL renewable now stamps :
  EnsureTimestamps l ttl maxTTL renewable now = Ok stamps -> wellFormed l -> wellFormed (stampedLease stamps).
Proof.
  intros Hst [? ? ?]. apply EnsureTimestamps_Ok_inv in Hst as [Ht Hl].
  assert (Hw : wellFormed stamps.(ts_lease)).
  { rewrite Hl. split; cbn; [done|done|]. intros e [= <-]. eexists _, _. split_and!; [done..|].
    pose proof (hardOf_le renewable (st_ExpiresAt (lease_Status l)) (startOf l now + ttl)). lia. }
  unfold stampedLease. by destruct (ts_renewalRejected stamps); [apply wellFormed_SetCondition|].
Qed.

Lemma SyncExpirationStatus_lists l idle now :
  (SyncExpirationStatus l idle now).(lease_Status).(st_Conditions) = l.(lease_Status).(st_Conditions) /\
  (SyncExpirationStatus l idle now).(lease_Status).(st_WarningsDelivered) = l.(lease_Status).(st_WarningsDelivered).
Proof. unfold SyncExpirationStatus. cbv zeta. by repeat case_match. Qed.

Lemma wellFormed_Sync l idle now : wellFormed l -> wellFormed (SyncExpirationStatus l idle now).
Proof.
  destruct (SyncExpirationStatus_frame l idle now) as (? & ? & ? & _ & _), (SyncExpirationStatus_lists l idle now).
  by apply wellFormed_ext.
Qed.

Lemma wellFormed_RecordActivity l now idle : wellFormed l -> wellFormed (RecordActivity l now idle).1.
Proof.
  intros Hl. unfold RecordActivity. cbv zeta. repeat case_match; cbn; try done; try by apply wellFormed_Sync.
  all: apply wellFormed_Sync, (wellFormed_ext (SyncExpirationStatus l idle now)); try done; by apply wellFormed_Sync.
Qed.

(** What is sent, and what is assumed of the answers. *)
Definition leaseSent X (e : kube X) : Prop :=
  match e with
  | ClientCreate _ k o | ClientUpdate _ k o | ClientStatusUpdate _ k o
  | ClientPatch _ k o _ | ClientStatusPatch _ k o _ =>
      match k return Obj k -> Prop with KLease => fun l => wellFormed l | _ => fun _ => True end o
  | _ => True
  end.

Definition leaseOk (res : result EnvironmentLease) : Prop := match res with Ok l => wellFormed l | Err _ => True end.

Definition leaseAnswered X (e : kube X) : X -> Prop :=
  match e in kube X return X -> Prop with
  | ClientGet _ k _ | ClientCreate _ k _ | ClientUpdate _ k _ | ClientStatusUpdate _ k _
  | ClientPatch _ k _ _ | ClientStatusPatch _ k _ _ =>
      match k return result (Obj k) -> Prop with KLease => leaseOk | _ => fun _ => True end
  | _ => fun _ => True
  end.

Lemma leaseSent_harmless X (e : kube X) : harmless e = true -> leaseSent X e.
Proof. by destruct e. Qed.

End WellFormed.

Notation welltyped := (typed leaseSent leaseAnswered).

(** Close [wellFormed] goals: conditions are set, other fields change. *)
Ltac wellFormed_tac :=
  cbn [fst snd] in *;
  repeat first [ assumption | apply wellFormed_SetCondition
               | match goal with
                 | |- wellFormed (MarkReady _ _) => apply wellFormed_Mark
                 | |- wellFormed (MarkProvisioning _ _) => apply wellFormed_Mark
                 | |- wellFormed (MarkPending _ _ _) => apply wellFormed_Mark
                 | |- wellFormed (MarkFailed _ _ _) => apply wellFormed_Mark
                 | |- wellFormed (MarkExpired _ _) => apply wellFormed_Mark
                 | |- wellFormed (MarkCleaning _ _) => apply wellFormed_Mark
                 | |- wellFormed (MarkCleanupComplete _) => apply wellFormed_Mark
                 | |- wellFormed (MarkCleanupFailed _ _) => apply wellFormed_Mark
                 | |- wellFormed (EnsureObservedGeneration _) => apply wellFormed_Mark
                 | |- wellFormed (SyncExpirationStatus _ _ _) => apply wellFormed_Sync
                 | |- wellFormed (match ?x with _ => _ end) => destruct x
                 | |- wellFormed (modify (proj:=lease_Status) _ ?l) => apply (wellFormed_ext l); [reflexivity..|]
                 | |- wellFormed (modify (proj:=lease_Spec) _ ?l) => apply (wellFormed_ext l); [reflexivity..|]
                 | |- wellFormed (modify (proj:=lease_Meta) _ ?l) => apply (wellFormed_ext l); [reflexivity..|]
                 end ].

(** ** The lease controller *)

Section Controller.
Context `{QuantityAPI} `{ConditionsLaws} `{SelectorAPI} `{!ControllerutilAPI} `{RetryLaws}.
Variable r : EnvironmentLeaseReconciler.

Implicit Types (l : EnvironmentLease) (sess : TargetSession).

(** The result of a step that returns a lease first. *)
Notation okFirst := (fun p => wellFormed p.1) (only parsing).

Create HintDb typed discriminated.

(** A step whose calls send nothing of a lease. *)
Ltac plain lem := eapply typed_bind; [apply typed_every, lem; try apply leaseSent_harmless; done|].

(** Metrics hold nothing of a lease. *)
Lemma sent_inc n : every leaseSent (inc n).
Proof. by apply every_call. Qed.

Lemma sent_observeClusterOp sess op err s : every leaseSent (observeClusterOp sess op err s).
Proof. unfold observeClusterOp, ObserveClusterOp, ObserveRemote. every_tac. Qed.

Lemma sent_observeOp sess op err : every leaseSent (observeOp sess op err).
Proof. apply sent_observeClusterOp. Qed.

Lemma sent_timedOp {A} sess op (p : prog kube A) f : every leaseSent p -> every leaseSent (timedOp sess op p f).
Proof. intros Hp. unfold timedOp. every_tac; apply sent_observeClusterOp. Qed.

Lemma typed_patchStatus l before : wellFormed l -> welltyped (patchStatusIfChanged l before) okFirst.
Proof.
  intros Hl. unfold patchStatusIfChanged. cbv zeta. destruct (StatusEqual _ _); [done|].
  apply (typed_RetryOnConflict _ _ _ _ wellFormed); [done|]. intros s Hs.
  unfold patchStatusAttempt, cl_Get, cl_StatusUpdate. eapply typed_bind; [by apply typed_call|].
  intros [latest|err] Ha; [|done]. cbv zeta. eapply typed_bind; [apply typed_call|].
  - by apply (wellFormed_ext l).
  - intros [u|err] Hu; [|done]. cbn. by apply (wellFormed_ext u).
Qed.

Lemma typed_removeFinalizer l : welltyped (removeLeaseFinalizer l) (fun _ => True).
Proof.
  unfold removeLeaseFinalizer. eapply typed_bind; [apply (typed_RetryOnConflict _ _ _ _ (fun _ => True)); [done|]|done].
  intros [] _. unfold removeFinalizerAttempt, cl_Get, cl_Update. eapply typed_bind; [by apply typed_call|].
  intros [cur|err] Ha; cbv zeta; [|by destruct (IsNotFound err)]. destruct (negb _); [done|].
  eapply typed_bind; [apply typed_call|done]. by apply (wellFormed_ext cur).
Qed.

Lemma typed_handleTargetError l err : wellFormed l -> welltyped (handleTargetError r l err) okFirst.
Proof.
  intros Hl. unfold handleTargetError. cbv zeta. destruct (match AsTargetError err with Some _ => _ | None => _ end).
  plain sent_inc. intros [] _. eapply typed_bind; [apply typed_every|].
  - destruct (_ && _); [|done]. apply every_bind; [by apply every_now, leaseSent_harmless|done].
  - intros w _. cbn. wellFormed_tac.
Qed.

Lemma typed_openSession l d : wellFormed l -> welltyped (openSession r l d) okFirst.
Proof.
  intros Hl. unfold openSession. cbv zeta. eapply typed_bind; [apply typed_every|].
  - destruct (rec_Outages r); [|done]. apply every_bind; [by apply every_now, leaseSent_harmless|done].
  - intros wait _. destruct (0 <? wait); [cbn; wellFormed_tac|].
    plain every_Resolve. intros [sess|err] _; [|cbn; wellFormed_tac]. destruct (ses_Local sess); [cbn; wellFormed_tac|].
    eapply (typed_bind _ _ _ _ okFirst).
    + unfold captureIdentity, cl_Get. cbv zeta. eapply typed_bind; [by apply typed_call|]. intros g _.
      destruct (is_empty _); [|cbn; wellFormed_tac]. plain every_Probe. intros [id|err] _; cbn; wellFormed_tac.
    + intros [l' [err|]] Hl'; [done|]. eapply typed_bind; [apply typed_every|].
      * unfold when. by destruct (rec_Outages r).
      * by intros [] _.
Qed.

Lemma typed_resolveForProvision l pol : wellFormed l -> welltyped (resolveTargetSessionForProvision r l pol) okFirst.
Proof.
  intros Hl. unfold resolveTargetSessionForProvision. plain sent_inc. intros [] _. plain every_Count.
  intros [counts|err] _; [|done]. plain every_Decide. intros [d|err] _.
  - destruct (Pending d); [|by apply typed_openSession]. plain sent_inc. intros [] _. cbn. wellFormed_tac.
  - destruct (Contains _ _); [|done]. cbv zeta. plain sent_inc. intros [] _. plain sent_inc. intros [] _. cbn. wellFormed_tac.
Qed.

Lemma typed_persistAndReload l resolved n what : wellFormed l -> welltyped (persistAndReload l resolved n what) okFirst.
Proof.
  intros Hl. unfold persistAndReload, cl_StatusUpdate, cl_Get. eapply typed_bind; [by apply typed_call|].
  intros [u|err] Hu; [|done]. eapply typed_bind; [by apply typed_call|]. intros [g|err] Hg; [|done].
  cbn in *. wellFormed_tac.
Qed.

Lemma typed_warnLoop l d ws : wellFormed l -> welltyped (warnLoop r l d ws) wellFormed.
Proof.
  revert l. induction ws as [|w ws IH]; intros l Hl; cbn [warnLoop]; [done|].
  plain every_now. intros t _. cbv zeta. plain every_emit. intros [] _. plain sent_inc. intros [] _.
  by apply IH, wellFormed_delivered.
Qed.

Lemma typed_finishActive sess l ph wr n : wellFormed l -> welltyped (finishActive r sess l ph wr n) okFirst.
Proof.
  intros Hl. unfold finishActive. eapply (typed_bind _ _ _ _ wellFormed).
  { unfold emitWarnings. destruct (EffectiveDeadline l); [|done]. plain every_now. intros t _. by apply typed_warnLoop. }
  intros l1 Hl1. plain every_now. intros t _. cbv zeta. eapply typed_bind; [apply typed_every|].
  { unfold when. destruct (_ && _); [|done]. apply every_bind; [by apply sent_inc|].
    intros _. by apply every_emit, leaseSent_harmless. }
  intros [] _. destruct (EffectiveDeadline _).
  - plain every_now. intros t2 _. cbn. wellFormed_tac.
  - destruct (negb _); cbn; wellFormed_tac.
Qed.

(** Creating and patching what is not a lease sends no lease. *)
Lemma leaseSent_create c k (o : Obj k) : k <> KLease -> leaseSent _ (ClientCreate c k o).
Proof. by destruct k. Qed.

Lemma leaseSent_patch c k (o b : Obj k) : k <> KLease -> leaseSent _ (ClientPatch c k o b).
Proof. by destruct k. Qed.

Ltac plain_writes lem :=
  eapply typed_bind; [apply typed_every, lem; auto using leaseSent_harmless, leaseSent_create, leaseSent_patch|].

Lemma typed_provisionFailed sess l op reason err :
  wellFormed l -> welltyped (provisionFailed sess l op reason err) okFirst.
Proof.
  intros Hl. unfold provisionFailed. plain sent_observeOp. intros [] _. cbv zeta. plain sent_inc. intros [] _.
  cbn. wellFormed_tac.
Qed.

Lemma typed_provisionNamespace sess l ph res wr :
  wellFormed l -> welltyped (provisionNamespace r sess l ph res wr) okFirst.
Proof.
  intros Hl. unfold provisionNamespace. cbv zeta.
  set (l1 := if negb wr && _ then _ else _). assert (Hl1 : wellFormed l1) by (subst l1; wellFormed_tac). clearbody l1.
  plain_writes every_ensureNamespace. intros [[n c]|err] _; [|by apply typed_provisionFailed].
  plain sent_observeOp. intros [] _. eapply (typed_bind _ _ _ _ okFirst).
  { destruct (negb _); [|done]. apply typed_persistAndReload. wellFormed_tac. }
  intros [l2 [err|]] Hl2; [done|]. plain_writes every_ensureObjects.
  intros [[reason err]|] _; [by apply typed_provisionFailed|by apply typed_finishActive].
Qed.

Lemma typed_provisionOn sess l ph res wr : wellFormed l -> welltyped (provisionOn r sess l ph res wr) okFirst.
Proof.
  intros Hl. unfold provisionOn. cbv zeta. eapply (typed_bind _ _ _ _ okFirst).
  { destruct (_ && _); [apply typed_persistAndReload|cbn]; wellFormed_tac. }
  intros [l2 [err|]] Hl2; [done|]. by apply typed_provisionNamespace.
Qed.

Lemma typed_gated {A} sess (body : prog kube A) Q : welltyped body Q -> welltyped (gated r sess body) Q.
Proof.
  intros Hb. unfold gated, with_release. destruct (rec_Gate r); [|done].
  eapply typed_bind; [by apply typed_call|]. intros [] _. eapply typed_bind; [exact Hb|]. intros a Ha.
  eapply typed_bind; [by apply typed_call|]. by intros [] _.
Qed.

Lemma typed_reconcileActive l ph res pol : wellFormed l -> welltyped (reconcileActive r l ph res pol) okFirst.
Proof.
  intros Hl. unfold reconcileActive. cbv zeta. eapply typed_bind; [by apply typed_resolveForProvision|].
  intros [l1 [sess|x|err]] Hl1; cbn in Hl1; [by apply typed_gated, typed_provisionOn|done|by apply typed_handleTargetError].
Qed.

(** ** The paths that clean up *)

Lemma typed_cleanupOn sess l n : wellFormed l -> welltyped (cleanupOn r sess l n) okFirst.
Proof.
  intros Hl. unfold cleanupOn. eapply (typed_bind _ _ _ _ okFirst).
  { unfold verifyTarget. cbv zeta. destruct (_ && _); [|done]. plain every_Probe.
    intros [id|err] _; [|done]. destruct (VerifyLiveTargetIdentity _ _); [cbn; wellFormed_tac|done]. }
  intros [l1 [err|]] Hl1; [done|]. cbn in Hl1. unfold cleanupNamespace.
  eapply typed_bind; [apply typed_every, sent_timedOp; by apply every_Get, leaseSent_harmless|].
  intros [ns|err] _; [|by destruct (IsNotFound err), (bestEffort l1)].
  destruct (VerifyNamespaceOwnership _ _ _); [cbn; wellFormed_tac|]. unfold deleteNamespace.
  destruct (IsZeroPtr _); [|done].
  eapply typed_bind; [apply typed_every, sent_timedOp; by apply every_call|].
  intros [err|] _; [|done]. by destruct (IsNotFound err).
Qed.

Lemma typed_cleanupEnvironment l : wellFormed l -> welltyped (cleanupEnvironment r l) okFirst.
Proof.
  intros Hl. unfold cleanupEnvironment, resolveTargetSession. cbv zeta.
  destruct (is_empty _); [done|]. destruct (IsProtectedNamespace _); [done|].
  destruct (ForceCleanupAcknowledged _); [done|]. plain every_Resolve.
  intros [sess|err] _; [by apply typed_gated, typed_cleanupOn|]. destruct (bestEffort l); cbn; wellFormed_tac.
Qed.

Lemma typed_cleanupErr l before err f :
  (forall l, wellFormed l -> wellFormed (f l)) -> wellFormed l -> welltyped (cleanupErr r l before err f) (fun _ => True).
Proof.
  intros Hf Hl. unfold cleanupErr. cbv zeta. destruct (IsOwnershipMismatch err).
  - eapply typed_bind; [apply typed_patchStatus, Hf; wellFormed_tac|]. by intros [].
  - plain sent_inc. intros [] _. plain every_emit. intros [] _.
    eapply typed_bind; [apply typed_patchStatus, Hf; wellFormed_tac|]. by intros [? []].
Qed.

Lemma typed_finishExpired l before b : wellFormed l -> welltyped (finishExpired r l before b) (fun _ => True).
Proof.
  intros Hl. unfold finishExpired. cbv zeta. eapply typed_bind; [apply typed_patchStatus; wellFormed_tac|].
  intros [l1 [err|]] Hl1; [done|]. eapply typed_bind; [apply typed_every|].
  { unfold when. destruct b; [by apply every_emit, leaseSent_harmless|done]. }
  intros [] _. eapply typed_bind; [apply typed_removeFinalizer|]. intros [err|] _; [done|].
  eapply typed_bind; [by apply typed_call|]. intros [err|] _; [|done]. by destruct (IsNotFound err).
Qed.

Lemma typed_finishDelete l before : wellFormed l -> welltyped (finishDelete r l before) (fun _ => True).
Proof.
  intros Hl. unfold finishDelete. cbv zeta. eapply typed_bind; [apply typed_patchStatus; wellFormed_tac|].
  intros [l1 [err|]] Hl1; [done|]. plain every_emit. intros [] _.
  eapply typed_bind; [apply typed_removeFinalizer|]. by intros [err|] _.
Qed.

Lemma typed_when b (p : prog kube unit) : every leaseSent p -> welltyped (when b p) (fun _ => True).
Proof. intros Hp. apply typed_every. by destruct b. Qed.

Lemma typed_reconcileExpired l before ph : wellFormed l -> welltyped (reconcileExpired r l before ph) (fun _ => True).
Proof.
  intros Hl. unfold reconcileExpired. cbv zeta. plain every_expiryReason. intros reason _.
  eapply typed_bind; [by apply typed_when, every_announceExpiry, leaseSent_harmless|]. intros [] _.
  eapply typed_bind; [apply typed_cleanupEnvironment; wellFormed_tac|].
  intros [l1 [[]|err]] Hl1; cbn in Hl1; [by apply typed_finishExpired| |].
  - eapply typed_bind; [apply typed_patchStatus; wellFormed_tac|]. by intros [? []].
  - apply typed_cleanupErr; [|done]. intros l' Hl'. wellFormed_tac.
Qed.

Lemma typed_reconcileDelete l : wellFormed l -> welltyped (reconcileDelete r l) (fun _ => True).
Proof.
  intros Hl. unfold reconcileDelete. destruct (negb _); [done|]. cbv zeta.
  eapply typed_bind; [by apply typed_when, every_announceDelete, leaseSent_harmless|]. intros [] _.
  eapply typed_bind; [apply typed_cleanupEnvironment; wellFormed_tac|].
  intros [l1 [[]|err]] Hl1; cbn in Hl1; [by apply typed_finishDelete| |by apply typed_cleanupErr].
  eapply typed_bind; [by apply typed_patchStatus|]. by intros [? []].
Qed.

(** ** Reconcile *)

Lemma typed_rejectLease l before reason err m :
  every leaseSent m -> wellFormed l -> welltyped (rejectLease l before reason err m) (fun _ => True).
Proof.
  intros Hm Hl. unfold rejectLease. cbv zeta. eapply typed_bind; [apply typed_patchStatus; wellFormed_tac|].
  intros [l1 [e|]] _; [done|]. eapply typed_bind; [by apply typed_every|]. by intros [] _.
Qed.

Lemma typed_reconcileStamped l before ph pe res pol :
  wellFormed l -> welltyped (reconcileStamped r l before ph pe res pol) (fun _ => True).
Proof.
  intros Hl. unfold reconcileStamped. plain every_now. intros t _. cbv zeta. plain every_announceRenewal.
  intros [] _. plain every_now. intros t2 _. destruct (IsExpired _ _); [apply typed_reconcileExpired; wellFormed_tac|].
  eapply typed_bind; [apply typed_reconcileActive; wellFormed_tac|]. intros [l1 x] Hl1.
  eapply typed_bind; [apply typed_patchStatus; wellFormed_tac|]. by intros [l2 [e|]] _; destruct x as [? []].
Qed.

Lemma typed_reconcileLive l : wellFormed l -> welltyped (reconcileLive r l) (fun _ => True).
Proof.
  intros Hl. pose proof sent_inc as Hinc.
  unfold reconcileLive. cbv zeta. destruct (ValidateSpec l); [by apply typed_rejectLease|].
  plain every_fetchPolicy. intros [pol|err] _; [|by apply typed_rejectLease].
  unfold reconcileResolved. destruct (Resolve _ _); [|by apply typed_rejectLease; [apply every_bind|]].
  plain every_now. intros t _. destruct (EnsureTimestamps _ _ _ _ _) eqn:Hst.
  - apply typed_reconcileStamped, (wellFormed_stamped _ _ _ _ _ _ Hst). wellFormed_tac.
  - apply typed_rejectLease; [done|]. wellFormed_tac.
Qed.

Lemma typed_Reconcile req : welltyped (Reconcile r req) (fun _ => True).
Proof.
  unfold Reconcile, cl_Get. eapply typed_bind; [by apply typed_call|]. intros [l|err] Hl; [|by destruct (IsNotFound err)].
  cbn in Hl. cbv zeta. destruct (negb _); [by apply typed_reconcileDelete|].
  destruct (negb _); [|by apply typed_reconcileLive]. unfold cl_Update.
  eapply typed_bind; [apply typed_call; by apply (wellFormed_ext l)|]. by intros [].
Qed.

End Controller.

(** ** The commands and the webhook *)

Section Writers.
Context `{QuantityParser} `{ConditionsLaws} `{RetryLaws} `{Serializer}.

Notation anyResult := (fun _ => True) (only parsing).

Lemma typed_runCreate fuel name opts : welltyped (runCreate fuel name opts) anyResult.
Proof.
  unfold runCreate. pose proof (BuildLease_outcome name opts) as Hb. destruct (BuildLease name opts) as [l|err|]; [|done|done].
  destruct Hb as (_ & _ & _ & Hb). unfold cl_Create. eapply typed_bind; [apply typed_call|].
  { pose proof (bf_status _ _ _ Hb) as Hst. destruct l as [m s st]. cbn in Hst. subst st. apply wellFormed_fresh. }
  intros [l'|err] _; [|done]. destruct (negb _); [done|]. eapply typed_bind; [by apply typed_call|]. intros t _.
  apply typed_every. generalize (Add t (o_timeout opts)). intros deadline.
  induction fuel as [|fuel IH]; cbn [waitActive]; [done|]. unfold cl_Get. every_tac.
Qed.

Lemma typed_runExtend name by_ : welltyped (runExtend name by_) anyResult.
Proof.
  unfold runExtend. eapply typed_bind; [apply (typed_RetryOnConflict _ _ _ _ (fun _ => True)); [done|]|done].
  intros [] _. unfold extendAttempt, cl_Get, cl_Patch. eapply typed_bind; [by apply typed_call|].
  intros [l|err] Hl; [|done]. cbv zeta. repeat case_match; try done.
  eapply typed_bind; [apply typed_call; by apply (wellFormed_ext l)|]. intros [l'|err] _; [|done].
  by split.
Qed.

Lemma wellFormed_touched l now idle l' err : RecordActivity l now idle = (l', err) -> wellFormed l -> wellFormed l'.
Proof. intros Hr Hl. pose proof (wellFormed_RecordActivity l now idle Hl) as Hw. by rewrite Hr in Hw. Qed.

Lemma typed_runTouch name now : welltyped (runTouch name now) anyResult.
Proof.
  unfold runTouch. eapply typed_bind; [apply (typed_RetryOnConflict _ _ _ _ (fun _ => True)); [done|]|done].
  intros [] _. unfold cliTouchAttempt, cl_Get, cl_StatusUpdate. eapply typed_bind; [by apply typed_call|].
  intros [l|err] Hl; [|done]. cbv zeta. destruct (RecordActivity _ _ _) as [l1 [err|]] eqn:Hr; [done|].
  eapply typed_bind; [apply typed_call; by apply (wellFormed_touched _ _ _ _ _ Hr)|].
  intros [l2|err] _; [|done]. by destruct (hardMoved _ _).
Qed.

Lemma typed_setEnabled name b : welltyped (runClusterSetEnabled name b) anyResult.
Proof. apply typed_every. unfold runClusterSetEnabled, cl_Get, cl_Update. every_tac. Qed.

Lemma typed_runCommand fuel output cmd : welltyped (runCommand fuel output cmd) anyResult.
Proof.
  destruct cmd; cbn [runCommand].
  - by eapply typed_bind; [apply typed_runCreate|].
  - apply typed_every. unfold runList, cl_List. every_tac.
  - apply typed_every. unfold runGet, cl_Get. every_tac.
  - apply typed_every. unfold runClusterList, cl_List. every_tac.
  - apply typed_every. unfold runClusterGet, cl_Get. every_tac.
  - by eapply typed_bind; [apply typed_setEnabled|].
  - eapply (typed_bind _ _ _ _ (fun _ => True)); [|done]. unfold drainCluster. eapply typed_bind; [apply typed_setEnabled|].
    intros [e|] _; [done|]. apply typed_every. unfold cl_List. every_tac.
  - by eapply typed_bind; [apply typed_runExtend|].
  - eapply typed_bind; [by apply typed_call|]. intros now _. by eapply typed_bind; [apply typed_runTouch|].
  - apply typed_every. unfold runExpire, cl_Get, cl_Delete. every_tac.
Qed.

(** The two endpoints of the webhook. *)
Lemma typed_submitLease config l pol name f : wellFormed l -> welltyped (submitLease config l pol name f) anyResult.
Proof.
  intros Hl. unfold submitLease. eapply typed_bind.
  { apply typed_every. unfold validateAgainstPolicy, cl_Get. every_tac. }
  intros [e|] _; [done|]. unfold cl_Create. by eapply typed_bind; [apply typed_call|].
Qed.

Lemma typed_deleteLease l name m : welltyped (deleteLease l name m) anyResult.
Proof. apply typed_every. unfold deleteLease, cl_Delete. every_tac. Qed.

Lemma typed_handleAction config req : welltyped (handleAction config req) anyResult.
Proof.
  unfold handleAction. destruct (String.eqb _ _).
  { unfold createLease. destruct (is_empty _); [done|]. cbv zeta. unfold cl_Get. eapply typed_bind; [by apply typed_call|].
    intros [l|err] _; [done|]. destruct (negb _); [done|]. apply typed_submitLease, wellFormed_fresh. }
  destruct (String.eqb _ _).
  { unfold expireLease. cbv zeta. unfold cl_Get. eapply typed_bind; [by apply typed_call|].
    intros [l|err] _; [|by destruct (IsNotFound err)]. destruct (_ && _ && _); [done|]. destruct (negb _); [done|].
    apply typed_deleteLease. }
  destruct (String.eqb _ _); [|done]. unfold touchLease. cbv zeta.
  eapply typed_bind; [apply (typed_RetryOnConflict _ _ _ _ (fun _ => True)); [done|]|by intros [? []]].
  intros s _. unfold touchAttempt, cl_Get, cl_StatusUpdate. eapply typed_bind; [by apply typed_call|].
  intros [l|err] Hl; [|by destruct (IsNotFound err)]. cbv zeta. eapply typed_bind; [by apply typed_call|]. intros t _.
  destruct (RecordActivity _ _ _) as [l1 [err|]] eqn:Hr; [done|].
  eapply typed_bind; [apply typed_call; by apply (wellFormed_touched _ _ _ _ _ Hr)|]. by intros [].
Qed.

Lemma typed_handleGitHubPREvent config action merged ref id :
  welltyped (handleGitHubPREvent config action merged ref id) anyResult.
Proof.
  unfold handleGitHubPREvent. cbv zeta. destruct (_ || _).
  { unfold ensureGitHubLease. cbv zeta. destruct (is_empty _); [done|]. unfold cl_Get.
    eapply typed_bind; [by apply typed_call|]. intros [l|err] Hl.
    - destruct (_ && _); [done|]. destruct (negb (is_empty _)); [done|]. destruct (negb _); [done|].
      eapply (typed_bind _ _ _ _ (fun _ => True)); [|by intros [] _]. unfold patchGitHubMetadata. cbv zeta.
      destruct (AssertNoGitHubSecretInSpec _); [done|]. unfold cl_Patch.
      eapply typed_bind; [apply typed_call; by apply (wellFormed_ext l)|done].
    - destruct (negb _); [done|]. destruct (AssertNoGitHubSecretInSpec _); [done|].
      apply typed_submitLease, wellFormed_fresh. }
  destruct (String.eqb _ _); [|done]. unfold expireGitHubLease, cl_Get. eapply typed_bind; [by apply typed_call|].
  intros [l|err] Hl; [|by destruct (IsNotFound err)]. cbv zeta. repeat (case_match; [done|]).
  unfold cl_StatusUpdate. eapply typed_bind; [apply typed_call; by apply (wellFormed_ext l)|].
  intros u _. apply typed_deleteLease.
Qed.

End Writers.

(** ** The invariant *)

Section Invariant.
Context `{QuantityParser} `{ConditionsLaws} `{RetryLaws} `{Serializer} `{SelectorAPI} `{!ControllerutilAPI}.

(** As long as the leases a run reads are well-formed, so are those it writes. *)
Definition writesWellFormed {A} (p : prog kube A) : Prop :=
  forall tr a, runs p [] tr a ->
    Forall (fun ev => leaseAnswered _ ev.(ev_eff) ev.(ev_resp)) tr ->
    Forall (fun ev => leaseSent _ ev.(ev_eff)) tr.

Lemma welltyped_writes {A} (p : prog kube A) : welltyped p (fun _ => True) -> writesWellFormed p.
Proof. intros Hp tr a Hr Ha. by apply (typed_sound _ _ p (fun _ => True) [] tr a Hp Hr Ha). Qed.

(** Claim C9.  Leases stay well-formed.  A lease is well-formed when it has one
    condition of each type, no warning recorded twice, and an expiration only
    together with its creation and its maximum, which it does not exceed.  A new
    lease is well-formed; and whatever the API server answers with well-formed
    leases, every lease that the lease controller, any command of the client, the
    generic webhook or the GitHub webhook creates, updates or patches is well-formed
    again: along retries, after stale reads, and on every error path. *)
Theorem leases_stay_well_formed :
  (forall m s, wellFormed (mkEnvironmentLease m s emptyStatus)) /\
  (forall r req, writesWellFormed (Reconcile r req)) /\
  (forall fuel output cmd, writesWellFormed (runCommand fuel output cmd)) /\
  (forall config req, writesWellFormed (handleAction config req)) /\
  (forall config action merged ref id, writesWellFormed (handleGitHubPREvent config action merged ref id)).
Proof.
  split_and!; [apply wellFormed_fresh|intros; apply welltyped_writes..].
  - apply typed_Reconcile.
  - apply typed_runCommand.
  - apply typed_handleAction.
  - apply typed_handleGitHubPREvent.
Qed.

End Invariant.

(** ** Witness *)

(** Well-formedness can be decided, and so can the answers of a finished run. *)
Definition timesInOrder `{QuantityAPI} (l : EnvironmentLease) : bool :=
  match l.(lease_Status).(st_ExpiresAt), l.(lease_Status).(st_CreatedAt), l.(lease_Status).(st_MaximumExpiresAt) with
  | Some e, Some _, Some m => e <=? m
  | Some _, _, _ => false
  | None, _, _ => true
  end.

Lemma wellFormed_iff `{QuantityAPI} (l : EnvironmentLease) :
  NoDup (map c_Type l.(lease_Status).(st_Conditions)) /\ NoDup l.(lease_Status).(st_WarningsDelivered) /\
  timesInOrder l = true <-> wellFormed l.
Proof.
  unfold timesInOrder. split.
  - intros (? & ? & Ht). split; [done|done|]. intros e He. rewrite He in Ht.
    destruct (st_CreatedAt _) as [c|], (st_MaximumExpiresAt _) as [m|]; try done. exists c, m. by zify_bool.
  - intros [? ? Ht]. split_and!; [done|done|]. destruct (st_ExpiresAt _) as [e|]; [|done].
    destruct (Ht e eq_refl) as (c & m & -> & -> & ?). by apply Z.leb_le.
Qed.

#[export] Instance wellFormed_dec `{QuantityAPI} (l : EnvironmentLease) : base.Decision (wellFormed l).
Proof.
  refine (cast_if (decide (NoDup (map c_Type l.(lease_Status).(st_Conditions)) /\
    NoDup l.(lease_Status).(st_WarningsDelivered) /\ timesInOrder l = true))).
  - by apply wellFormed_iff.
  - by rewrite <- wellFormed_iff.
Defined.

Definition answeredOk `{QuantityAPI} (ev : event kube) : bool :=
  match ev.(ev_eff) in kube X return X -> bool with
  | ClientGet _ k _ | ClientCreate _ k _ | ClientUpdate _ k _ | ClientStatusUpdate _ k _
  | ClientPatch _ k _ _ | ClientStatusPatch _ k _ _ =>
      match k return result (Obj k) -> bool with
      | KLease => fun res => match res with Ok l => bool_decide (wellFormed l) | Err _ => true end
      | _ => fun _ => true
      end
  | _ => fun _ => true
  end ev.(ev_resp).

Lemma answeredOk_spec `{QuantityAPI} (tr : trace kube) :
  forallb answeredOk tr = true -> Forall (fun ev => leaseAnswered _ ev.(ev_eff) ev.(ev_resp)) tr.
Proof.
  rewrite forallb_forall, Forall_forall. intros Hall ev Hin. apply list_elem_of_In, Hall in Hin. clear Hall.
  destruct ev as [X e x]. unfold answeredOk in Hin. cbn in *.
  destruct e; try done; destruct k; try done; destruct x; try done; by apply bool_decide_eq_true in Hin.
Qed.

Section Witness.

#[local] Existing Instance milliQuantity.
#[local] Existing Instance listConditions.
#[local] Existing Instance listConditions_laws.
#[local] Existing Instance exactSelectors.
#[local] Existing Instance listControllerutil.
#[local] Existing Instance fourAttempts.
#[local] Existing Instance fourAttempts_laws.
#[local] Instance noQuantities : QuantityParser := {| MustParse _ := None |}.
#[local] Instance noText : Serializer := {| encodeJSON _ _ := ([], None); encodeYAML _ _ := ([], None) |}.

(** The reconcile that provisions the environment: all that it reads is well-formed,
    and so is all that it writes. *)
Lemma leases_stay_well_formed_witness :
  let tr := (in_world (demoReconcile "demo") (rounds 1 demoWorld)).2 in
  Forall (fun ev => leaseAnswered _ ev.(ev_eff) ev.(ev_resp)) tr /\
  Forall (fun ev => leaseSent _ ev.(ev_eff)) tr.
Proof.
  intros tr.
  assert (Ha : Forall (fun ev => leaseAnswered _ ev.(ev_eff) ev.(ev_resp)) tr)
    by (apply answeredOk_spec; vm_compute; reflexivity).
  split; [exact Ha|].
  destruct leases_stay_well_formed as (_ & Hrec & _).
  exact (Hrec demoReconciler "demo" _ _ (in_world_runs (demoReconcile "demo") (rounds 1 demoWorld)) Ha).
Defined.

End Witness.
