(* ===== verification/GoHeap.v ===== *)
(** * Go's memory: addresses, allocation, and what a deep copy is

    The part of the Go memory model the generated deep copies need: objects
    at locations, addresses inside an object ([&x.f], [&s[i]]), slices as
    windows of a backing array, maps as tables behind a reference; loads,
    stores, [new] and [make] as a state monad over the heap in which a nil
    dereference is a panic ([None]).  The second half says what a deep copy
    is ([copied]: the same value, every location of it satisfying a
    predicate) and when a statement makes one ([copies], [refreshes]), with
    one rule per shape of statement the generator emits.  DeepCopy.v applies
    the rules to the generated code. *)

From S2P Require Import Prelude.

(** ** Values, addresses, heaps *)

Abbreviation loc := positive.

(** A step from an object into a part of it. *)
Inductive step : Type :=
  | Fld (f : string)
  | Idx (n : nat).

(** The address of a part of an object: [&x.Spec.Labels], [&s[3]]. *)
Definition addr : Type := loc * list step.

Definition addrField (a : addr) (f : string) : addr := (a.1, a.2 ++ [Fld f]).
Definition addrIndex (a : addr) (n : nat) : addr := (a.1, a.2 ++ [Idx n]).

Inductive scalar : Type :=
  | SBool (b : bool)
  | SInt (z : Z)
  | SString (s : string).

(** A slice is the backing array's location, an offset and a length. *)
Definition sliceHeader : Type := loc * nat * nat.

Inductive value : Type :=
  | Scalar (s : scalar)
  | Pointer (p : option addr)
  | SliceV (s : option sliceHeader)
  | MapV (m : option loc)
  | StructV (fs : list (string * value))
  | ArrayV (ws : list value)
  | TableV (m : gmap string value).

Abbreviation heap := (gmap loc value).

Fixpoint assoc {A} (f : string) (fs : list (string * A)) : option A :=
  match fs with
  | [] => None
  | (g, a) :: fs => if decide (f = g) then Some a else assoc f fs
  end.

Fixpoint assocSet {A} (f : string) (a : A) (fs : list (string * A)) : list (string * A) :=
  match fs with
  | [] => []
  | (g, b) :: fs => if decide (f = g) then (g, a) :: fs else (g, b) :: assocSet f a fs
  end.

(** The part of [v] at the end of a path, and [v] with that part replaced. *)
Fixpoint getAt (p : list step) (v : value) : option value :=
  match p, v with
  | [], _ => Some v
  | Fld f :: p, StructV fs => assoc f fs ≫= getAt p
  | Idx n :: p, ArrayV ws => ws !! n ≫= getAt p
  | _, _ => None
  end.

Fixpoint setAt (p : list step) (w : value) (v : value) : option value :=
  match p, v with
  | [], _ => Some w
  | Fld f :: p, StructV fs =>
      u ← assoc f fs; u' ← setAt p w u; Some (StructV (assocSet f u' fs))
  | Idx n :: p, ArrayV ws =>
      u ← ws !! n; u' ← setAt p w u; Some (ArrayV (<[n := u']> ws))
  | _, _ => None
  end.

Definition readAt (h : heap) (a : addr) : option value := h !! a.1 ≫= getAt a.2.

(** The elements a slice shows: its window of the backing array. *)
Definition elements (h : heap) (s : sliceHeader) : option (list value) :=
  match h !! s.1.1 with
  | Some (ArrayV ws) =>
      if decide (s.1.2 + s.2 <= length ws)%nat
      then Some (take s.2 (drop s.1.2 ws)) else None
  | _ => None
  end.

Definition table (h : heap) (l : loc) : option (gmap string value) :=
  match h !! l with Some (TableV m) => Some m | _ => None end.

(** ** The statements: a state monad with panics *)

Definition Go (A : Type) : Type := heap -> option (A * heap).

#[export] Instance Go_ret : MRet Go := fun A a h => Some (a, h).
#[export] Instance Go_bind : MBind Go :=
  fun A B k m h => match m h with Some (a, h') => k a h' | None => None end.

Definition panic {A} : Go A := fun _ => None.

Definition load (a : addr) : Go value :=
  fun h => match readAt h a with Some v => Some (v, h) | None => None end.

Definition store (a : addr) (w : value) : Go unit :=
  fun h => match h !! a.1 ≫= setAt a.2 w with
           | Some c => Some (tt, <[a.1 := c]> h)
           | None => None
           end.

Definition alloc (w : value) : Go loc :=
  fun h => let l := fresh (dom h) in Some (l, <[l := w]> h).

Definition deref (v : value) : Go addr :=
  match v with Pointer (Some a) => mret a | _ => panic end.

(** [*a] where [a] holds a pointer. *)
Definition loadPointer (a : addr) : Go addr := v ← load a; deref v.

Definition loadSlice (a : addr) : Go sliceHeader :=
  v ← load a; match v with SliceV (Some s) => mret s | _ => panic end.

Definition loadMap (a : addr) : Go loc :=
  v ← load a; match v with MapV (Some l) => mret l | _ => panic end.

Definition loadTable (l : loc) : Go (gmap string value) :=
  fun h => match table h l with Some m => Some (m, h) | None => None end.

(** [&s[k]]; an index past the length panics. *)
Definition element (s : sliceHeader) (k : nat) : Go addr :=
  if decide (k < s.2)%nat then mret (s.1.1, [Idx (s.1.2 + k)%nat]) else panic.

(** The assignment of [val] to [key] in the map [a] holds. *)
Definition mapAssign (a : addr) (key : string) (val : value) : Go unit :=
  l ← loadMap a;
  m ← loadTable l;
  store (l, []) (TableV (<[key := val]> m)).

Fixpoint forRange (k n : nat) (body : nat -> Go unit) : Go unit :=
  match n with
  | O => mret tt
  | S n => _ ← body k; forRange (S k) n body
  end.

Fixpoint forPairs (kvs : list (string * value)) (body : string -> value -> Go unit) : Go unit :=
  match kvs with
  | [] => mret tt
  | (key, val) :: kvs => _ ← body key val; forPairs kvs body
  end.

(** The order in which [range] visits a map is unspecified: a parameter that
    visits every entry once. *)
Class MapRange := {
  rangeOf : gmap string value -> list (string * value);
  rangeOf_perm : forall m, rangeOf m ≡ₚ map_to_list m
}.

(** ** Types and zero values *)

Inductive kind : Type := KBool | KInt | KString.

#[export] Instance kind_eq_dec : EqDecision kind.
Proof. solve_decision. Defined.

(** [Field f t r] is the struct whose first field is [f] of type [t] and
    whose other fields are those of the struct [r]. *)
Inductive ty : Type :=
  | Prim (k : kind)
  | Ptr (t : ty)
  | Slice (t : ty)
  | MapOf (t : ty)
  | Field (f : string) (t : ty) (r : ty)
  | NoField.

Definition struct (fs : list (string * ty)) : ty :=
  foldr (fun '(f, t) r => Field f t r) NoField fs.

Definition kindOf (s : scalar) : kind :=
  match s with SBool _ => KBool | SInt _ => KInt | SString _ => KString end.


Fixpoint zeroOf (t : ty) : value :=
  match t with
  | Prim KBool => Scalar (SBool false)
  | Prim KInt => Scalar (SInt 0)
  | Prim KString => Scalar (SString "")
  | Ptr _ => Pointer None
  | Slice _ => SliceV None
  | MapOf _ => MapV None
  | NoField => StructV []
  | Field f t r =>
      match zeroOf r with
      | StructV fs => StructV ((f, zeroOf t) :: fs)
      | v => v
      end
  end.

(** [&x] for a local variable [x], [new(T)] and [make([]T, n)] *)
Definition addressOf (x : value) : Go value := l ← alloc x; mret (Pointer (Some (l, []))).
Definition new (t : ty) : Go value := addressOf (zeroOf t).
Definition makeSlice (t : ty) (n : nat) : Go value :=
  l ← alloc (ArrayV (replicate n (zeroOf t))); mret (SliceV (Some (l, O, n))).
Definition makeMap : Go value := l ← alloc (TableV ∅); mret (MapV (Some l)).

(** A type without references: copied whole by an assignment. *)
Fixpoint plain (t : ty) : bool :=
  match t with
  | Prim _ | NoField => true
  | Ptr _ | Slice _ | MapOf _ => false
  | Field _ t r => plain t && plain r
  end.

Fixpoint fieldType (f : string) (t : ty) : option ty :=
  match t with
  | Field g t r => if decide (f = g) then Some t else fieldType f r
  | _ => None
  end.

(** ** The statements the generator emits *)

(** A statement over the addresses [in] and [out]. *)
Definition stmt : Type := addr -> addr -> Go unit.

(** [*out = *in] *)
Definition assign : stmt := fun i o => v ← load i; store o v.

(** One statement after the other. *)
Definition andThen (s s' : stmt) : stmt := fun i o => _ ← s i o; s' i o.

(** A statement on [&in.f] and [&out.f]. *)
Definition onField (f : string) (s : stmt) : stmt :=
  fun i o => s (addrField i f) (addrField o f).

Definition isNil (v : value) : bool :=
  match v with Pointer None | SliceV None | MapV None => true | _ => false end.

(** [if *in != nil { ... }] *)
Definition unlessNil (s : stmt) : stmt :=
  fun i o => v ← load i; if isNil v then mret tt else s i o.

(** [if in.f != nil { in, out := &in.f, &out.f; ... }] *)
Definition ifSet (f : string) (s : stmt) : stmt := onField f (unlessNil s).

(** [*out = new(T); into( *in, *out)] *)
Definition newDeep (t : ty) (into : stmt) : stmt := fun i o =>
  p ← new t;
  _ ← store o p;
  i' ← loadPointer i;
  o' ← loadPointer o;
  into i' o'.

(** [*out = new(T); **out = **in] *)
Definition newCopy (t : ty) : stmt := newDeep t assign.

(** [*out = make([]T, len( *in)); copy( *out, *in)]: the built-in [copy]
    moves as many elements as the shorter slice has. *)
Definition sliceCopy (t : ty) : stmt := fun i o =>
  s ← loadSlice i;
  v ← makeSlice t s.2;
  _ ← store o v;
  src ← loadSlice i;
  dst ← loadSlice o;
  forRange O (Nat.min dst.2 src.2) (fun k =>
    a ← element src k; b ← element dst k; assign a b).

(** [*out = make([]T, len( *in)); for i := range *in { into(&( *in)[i], &( *out)[i]) }] *)
Definition sliceDeep (t : ty) (into : stmt) : stmt := fun i o =>
  s ← loadSlice i;
  v ← makeSlice t s.2;
  _ ← store o v;
  s ← loadSlice i;
  forRange O s.2 (fun k =>
    src ← loadSlice i; a ← element src k;
    dst ← loadSlice o; b ← element dst k;
    into a b).

(** [*out = make(map[string]T, len( *in));
     for key, val := range *in { ( *out)[key] = q(val) }] *)
Definition mapDeep `{MapRange} (q : value -> Go value) : stmt := fun i o =>
  l ← loadMap i;
  m ← makeMap;
  _ ← store o m;
  l ← loadMap i;
  kvs ← loadTable l;
  forPairs (rangeOf kvs) (fun key val => v ← q val; mapAssign o key v).

Definition mapCopy `{MapRange} : stmt := mapDeep mret.

(** [*out = q( *in)], for a [q] that copies a pointer with what it points to *)
Definition viaPointer (q : value -> Go value) : stmt := fun i o =>
  v ← load i; w ← q v; store o w.

(** [x := q( **in); *out = &x] *)
Definition viaValue (q : value -> Go value) : stmt := fun i o =>
  a ← loadPointer i; v ← load a; x ← q v; p ← addressOf x; store o p.

(** [func (in *T) DeepCopy() *T], over the type's [DeepCopyInto] *)
Definition deepCopy (t : ty) (into : stmt) (receiver : value) : Go value :=
  if isNil receiver then mret (Pointer None)
  else
    out ← new t;
    i ← deref receiver;
    o ← deref out;
    _ ← into i o;
    mret out.

(** An interface holding a pointer of a named type. *)
Inductive object : Type :=
  | NilObject
  | ObjectOf (typeName : string) (pointer : value).

(** [func (in *T) DeepCopyObject() runtime.Object]: the nil interface for a
    nil receiver, never an interface that holds a nil pointer. *)
Definition deepCopyObject (typeName : string) (copy : value -> Go value) (receiver : value)
  : Go object :=
  c ← copy receiver;
  if isNil c then mret NilObject else mret (ObjectOf typeName c).

(** ** What a deep copy is *)

(** [v] is a value of type [t] in [h], and every location it reaches
    satisfies [P]. *)
Fixpoint ofType (P : loc -> Prop) (t : ty) (h : heap) (v : value) : Prop :=
  match t with
  | Prim k => exists s, v = Scalar s /\ kindOf s = k
  | Ptr t =>
      v = Pointer None \/
      exists a w, v = Pointer (Some a) /\ P a.1 /\ readAt h a = Some w /\ ofType P t h w
  | Slice t =>
      v = SliceV None \/
      exists s ws, v = SliceV (Some s) /\ P s.1.1 /\ elements h s = Some ws /\
        Forall (ofType P t h) ws
  | MapOf t =>
      v = MapV None \/
      exists l m, v = MapV (Some l) /\ P l /\ table h l = Some m /\
        forall k w, m !! k = Some w -> ofType P t h w
  | NoField => v = StructV []
  | Field f t r =>
      exists w fs, v = StructV ((f, w) :: fs) /\ ofType P t h w /\ ofType P r h (StructV fs)
  end.

(** The type of a value, checked. *)
Fixpoint ofTypeb (t : ty) (h : heap) (v : value) : bool :=
  match t, v with
  | Prim k, Scalar s => bool_decide (kindOf s = k)
  | Ptr _, Pointer None | Slice _, SliceV None | MapOf _, MapV None => true
  | Ptr t, Pointer (Some a) => from_option (ofTypeb t h) false (readAt h a)
  | Slice t, SliceV (Some s) => from_option (forallb (ofTypeb t h)) false (elements h s)
  | MapOf t, MapV (Some l) =>
      from_option (fun m => forallb (fun kv => ofTypeb t h kv.2) (map_to_list m)) false (table h l)
  | NoField, StructV [] => true
  | Field f t r, StructV ((g, w) :: fs) =>
      bool_decide (f = g) && ofTypeb t h w && ofTypeb r h (StructV fs)
  | _, _ => false
  end.

(** [v'] in [h'] is the value [v] is in [h], read through the references,
    and every location [v'] reaches satisfies [P]. *)
Fixpoint copied (P : loc -> Prop) (t : ty) (h : heap) (v : value) (h' : heap) (v' : value)
  : Prop :=
  match t with
  | Prim _ => exists s, v = Scalar s /\ v' = Scalar s
  | Ptr t =>
      (v = Pointer None /\ v' = Pointer None) \/
      exists a w a' w', v = Pointer (Some a) /\ v' = Pointer (Some a') /\ P a'.1 /\
        readAt h a = Some w /\ readAt h' a' = Some w' /\ copied P t h w h' w'
  | Slice t =>
      (v = SliceV None /\ v' = SliceV None) \/
      exists s ws s' ws', v = SliceV (Some s) /\ v' = SliceV (Some s') /\ P s'.1.1 /\
        elements h s = Some ws /\ elements h' s' = Some ws' /\
        Forall2 (fun w w' => copied P t h w h' w') ws ws'
  | MapOf t =>
      (v = MapV None /\ v' = MapV None) \/
      exists l m l' m', v = MapV (Some l) /\ v' = MapV (Some l') /\ P l' /\
        table h l = Some m /\ table h' l' = Some m' /\
        forall k, option_Forall2 (fun w w' => copied P t h w h' w') (m !! k) (m' !! k)
  | NoField => v = StructV [] /\ v' = StructV []
  | Field f t r =>
      exists w fs w' fs', v = StructV ((f, w) :: fs) /\ v' = StructV ((f, w') :: fs') /\
        copied P t h w h' w' /\ copied P r h (StructV fs) h' (StructV fs')
  end.

(** Two heaps agree on the locations of a predicate. *)
Definition agree (P : loc -> Prop) (h h' : heap) : Prop :=
  forall l, P l -> is_Some (h !! l) -> h' !! l = h !! l.

Definition newIn (h : heap) : loc -> Prop := fun l => h !! l = None.

(** [h'] is [h] with [v] written at [o], and perhaps new objects. *)
Definition holding (h : heap) (o : addr) (h' : heap) (v : value) : Prop :=
  agree (fun l => l <> o.1) h h' /\
  exists c c', h !! o.1 = Some c /\ setAt o.2 v c = Some c' /\ h' !! o.1 = Some c'.

(** Run on a value [v] of type [t] that does not reach [out]'s object, where
    [out] holds [u], the statement succeeds, writes nothing but [out] and new
    objects, and leaves in [out] a copy that reaches only new objects.  [C] is
    what the statement needs of [v] and [u]. *)
Definition makes (C : value -> value -> Prop) (t : ty) (s : stmt) : Prop :=
  forall h i o v u, readAt h i = Some v -> ofType (fun l => l <> o.1) t h v -> i.1 <> o.1 ->
    readAt h o = Some u -> C v u ->
    exists h' v', s i o h = Some (tt, h') /\ holding h o h' v' /\
      copied (newIn h) t h v h' v'.

(** A whole [DeepCopyInto]; a statement that runs after [*out = *in]; one
    that runs under [if *in != nil]. *)
Definition copies : ty -> stmt -> Prop := makes (fun _ _ => True).
Definition refreshes : ty -> stmt -> Prop := makes (fun v u => u = v).
Definition renews : ty -> stmt -> Prop := makes (fun v _ => isNil v = false).

(** The same for a function that returns the copy. *)
Definition duplicates (t : ty) (q : value -> Go value) : Prop :=
  forall h v P, ofType P t h v ->
    exists h' v', q v h = Some (v', h') /\ h ⊆ h' /\ copied (newIn h) t h v h' v'.

(** ** Paths *)

Lemma assoc_assocSet {A} f (a b : A) fs :
  assoc f fs = Some b -> assoc f (assocSet f a fs) = Some a.
Proof.
  induction fs as [|[g c] fs IH]; simpl; [done|].
  destruct (decide (f = g)) as [-> |]; intros Hf; simpl; [by rewrite decide_True|].
  rewrite decide_False by done. auto.
Qed.

Lemma assoc_assocSet_ne {A} f g (a : A) fs :
  f <> g -> assoc f (assocSet g a fs) = assoc f fs.
Proof.
  intros Hfg. induction fs as [|[g' c] fs IH]; simpl; [done|].
  destruct (decide (g = g')) as [-> |]; simpl.
  - by rewrite !decide_False.
  - by rewrite IH.
Qed.

Lemma assocSet_twice {A} f (a b : A) fs :
  assocSet f b (assocSet f a fs) = assocSet f b fs.
Proof.
  induction fs as [|[g c] fs IH]; simpl; [done|].
  destruct (decide (f = g)) as [-> |] eqn:Hd; simpl; rewrite Hd; [done|]. by rewrite IH.
Qed.

Lemma getAt_app p q v : getAt (p ++ q) v = getAt p v ≫= getAt q.
Proof.
  revert v. induction p as [|[f|n] p IH]; intros v; [done| |]; destruct v; simpl; try done.
  - destruct (assoc f fs); simpl; auto.
  - destruct (ws !! n); simpl; auto.
Qed.

Lemma setAt_is_Some p w v u : getAt p v = Some u -> is_Some (setAt p w v).
Proof.
  revert v. induction p as [|[f|n] p IH]; intros v; [by eauto| |]; destruct v; simpl; try done.
  - destruct (assoc f fs) as [x|]; simpl; [|done].
    intros Hg. destruct (IH _ Hg) as [y ->]. by eauto.
  - destruct (ws !! n) as [x|]; simpl; [|done].
    intros Hg. destruct (IH _ Hg) as [y ->]. by eauto.
Qed.

Lemma assocSet_same {A} f (a : A) fs : assoc f fs = Some a -> assocSet f a fs = fs.
Proof.
  induction fs as [|[g c] fs IH]; simpl; [done|].
  destruct (decide (f = g)); intros Hf; [by simplify_eq|]. by rewrite IH.
Qed.

Lemma setAt_same p v u : getAt p v = Some u -> setAt p u v = Some v.
Proof.
  revert v. induction p as [|[f|n] p IH]; intros v; simpl; [congruence| |];
    destruct v; simpl; try done.
  - destruct (assoc f fs) as [x|] eqn:Hx; simpl; [|done]. intros Hg.
    rewrite (IH _ Hg). simpl. by rewrite assocSet_same.
  - destruct (ws !! n) as [x|] eqn:Hx; simpl; [|done]. intros Hg.
    rewrite (IH _ Hg). simpl. by rewrite list_insert_id.
Qed.

Lemma getAt_setAt p w v v' : setAt p w v = Some v' -> getAt p v' = Some w.
Proof.
  revert v v'. induction p as [|[f|n] p IH]; intros v v'; simpl; [congruence| |];
    destruct v; simpl; try done.
  - destruct (assoc f fs) as [x|] eqn:Hx; simpl; [|done].
    destruct (setAt p w x) as [y|] eqn:Hy; simpl; intros; simplify_eq/=.
    rewrite (assoc_assocSet _ _ _ _ Hx). simpl. eauto.
  - destruct (ws !! n) as [x|] eqn:Hx; simpl; [|done].
    destruct (setAt p w x) as [y|] eqn:Hy; simpl; intros; simplify_eq/=.
    rewrite list_lookup_insert_eq by (by eapply lookup_lt_Some). simpl. eauto.
Qed.

Lemma setAt_twice p w w' v v' : setAt p w v = Some v' -> setAt p w' v' = setAt p w' v.
Proof.
  revert v v'. induction p as [|[f|n] p IH]; intros v v'; simpl; [done| |];
    destruct v; simpl; try done.
  - destruct (assoc f fs) as [x|] eqn:Hx; simpl; [|done].
    destruct (setAt p w x) as [y|] eqn:Hy; simpl; intros; simplify_eq/=.
    rewrite (assoc_assocSet _ _ _ _ Hx). simpl. rewrite (IH _ _ Hy).
    destruct (setAt p w' x); simpl; [by rewrite assocSet_twice|done].
  - destruct (ws !! n) as [x|] eqn:Hx; simpl; [|done].
    destruct (setAt p w x) as [y|] eqn:Hy; simpl; intros; simplify_eq/=.
    rewrite list_lookup_insert_eq by (by eapply lookup_lt_Some). simpl.
    rewrite (IH _ _ Hy). destruct (setAt p w' x); simpl; [by rewrite list_insert_insert_eq|done].
Qed.

Lemma setAt_app p q w v u u' :
  getAt p v = Some u -> setAt q w u = Some u' -> setAt (p ++ q) w v = setAt p u' v.
Proof.
  revert v. induction p as [|[f|n] p IH]; intros v; simpl; [congruence| |];
    destruct v; simpl; try done.
  - destruct (assoc f fs) as [x|] eqn:Hx; simpl; [|done]. intros Hg Hs. by rewrite (IH _ Hg Hs).
  - destruct (ws !! n) as [x|] eqn:Hx; simpl; [|done]. intros Hg Hs. by rewrite (IH _ Hg Hs).
Qed.

(** ** Agreement *)

Lemma agree_subseteq (P : loc -> Prop) h h' : h ⊆ h' -> agree P h h'.
Proof.
  intros Hs l _ [c Hc]. rewrite Hc. by eapply lookup_weaken.
Qed.

Lemma agree_readAt (P : loc -> Prop) h h' a v :
  agree P h h' -> P a.1 -> readAt h a = Some v -> readAt h' a = Some v.
Proof.
  unfold readAt. intros Ha HP Hr. destruct (h !! a.1) as [c|] eqn:Hc; [|done].
  by rewrite (Ha _ HP), Hc by eauto.
Qed.

Lemma agree_elements (P : loc -> Prop) h h' s ws :
  agree P h h' -> P s.1.1 -> elements h s = Some ws -> elements h' s = Some ws.
Proof.
  unfold elements. intros Ha HP Hr. destruct (h !! s.1.1) as [c|] eqn:Hc; [|done].
  by rewrite (Ha _ HP), Hc by eauto.
Qed.

Lemma agree_table (P : loc -> Prop) h h' l m :
  agree P h h' -> P l -> table h l = Some m -> table h' l = Some m.
Proof.
  unfold table. intros Ha HP Hr. destruct (h !! l) as [c|] eqn:Hc; [|done].
  by rewrite (Ha _ HP), Hc by eauto.
Qed.

Lemma agree_weaken (P Q : loc -> Prop) h h' :
  agree Q h h' -> (forall l, is_Some (h !! l) -> P l -> Q l) -> agree P h h'.
Proof. intros Ha HPQ l HP Hl. by apply Ha; auto. Qed.

Lemma agree_trans (P : loc -> Prop) h h1 h2 : agree P h h1 -> agree P h1 h2 -> agree P h h2.
Proof.
  intros H1 H2 l HP Hl. rewrite <- (H1 l HP Hl). apply H2; [done|]. by rewrite (H1 l HP Hl).
Qed.

(** A value keeps its type in a heap that agrees on what it reaches. *)
Lemma ofType_agree P Q t h h' v :
  agree P h h' -> ofType P t h v -> (forall l, is_Some (h !! l) -> P l -> Q l) ->
  ofType Q t h' v.
Proof.
  intros Ha Ht HQ. revert v Ht. induction t as [k|t IH|t IH|t IH|f t IH1 r IH2|]; simpl; intros v.
  - done.
  - intros [?|(a & w & -> & HP & Hr & Ht)]; [by left|right].
    exists a, w. repeat split; [|by eapply agree_readAt|auto].
    apply HQ; [|done]. unfold readAt in Hr. destruct (h !! a.1); [by eauto|done].
  - intros [?|(s & ws & -> & HP & Hr & Ht)]; [by left|right].
    exists s, ws. repeat split; [|by eapply agree_elements|].
    + apply HQ; [|done]. unfold elements in Hr. destruct (h !! s.1.1); [by eauto|done].
    + eapply Forall_impl; [exact Ht|auto].
  - intros [?|(l & m & -> & HP & Hr & Ht)]; [by left|right].
    exists l, m. repeat split; [|by eapply agree_table|eauto].
    apply HQ; [|done]. unfold table in Hr. destruct (h !! l); [by eauto|done].
  - intros (w & fs & -> & H1 & H2). exists w, fs. eauto.
  - done.
Qed.

Lemma ofTypeb_sound t h v : ofTypeb t h v = true -> ofType (fun _ => True) t h v.
Proof.
  revert v. induction t as [k|t IH|t IH|t IH|f t IH1 r IH2|]; intros v;
    destruct v as [s|[a|]|[s|]|[l|]|[|[g w] fs]|ws|m]; simpl; try done; auto.
  - intros Hk%bool_decide_eq_true. eauto.
  - destruct (readAt h a) as [w|] eqn:Hr; [simpl|done]. intros Hw. right. eauto 10.
  - destruct (elements h s) as [ws|] eqn:Hr; [simpl|done]. intros Hw. right.
    exists s, ws. repeat split; [done|]. apply Forall_forall. intros w Hin.
    apply IH. rewrite forallb_forall in Hw. by apply Hw, list_elem_of_In.
  - destruct (table h l) as [m|] eqn:Hr; [simpl|done]. intros Hw. right.
    exists l, m. repeat split; [done|]. intros k w Hk. apply IH.
    rewrite forallb_forall in Hw. apply (Hw (k, w)).
    by apply list_elem_of_In, elem_of_map_to_list.
  - intros [[<-%bool_decide_eq_true Hw]%andb_true_iff Hr]%andb_true_iff. eauto 10.
Qed.

(** What a value is read to be does not change in such a heap: for the
    original ... *)
Lemma copied_original P Q t h h0 v h' v' :
  agree Q h0 h -> ofType Q t h0 v -> copied P t h v h' v' -> copied P t h0 v h' v'.
Proof.
  intros Ha. revert v v'. induction t as [k|t IH|t IH|t IH|f t IH1 r IH2|]; simpl; intros v v' Ht.
  - done.
  - intros [?|(a & w & a' & w' & -> & -> & HP & Hr & Hr' & Hc)]; [by left|right].
    destruct Ht as [?|(b & u & ? & HQ & Hb & Ht)]; simplify_eq.
    pose proof (agree_readAt _ _ _ _ _ Ha HQ Hb). simplify_eq.
    do 4 eexists. repeat split; eauto.
  - intros [?|(s & ws & s' & ws' & -> & -> & HP & Hr & Hr' & Hc)]; [by left|right].
    destruct Ht as [?|(b & u & ? & HQ & Hb & Ht)]; simplify_eq.
    pose proof (agree_elements _ _ _ _ _ Ha HQ Hb). simplify_eq.
    do 4 eexists. repeat split; eauto.
    clear -Hc Ht IH. induction Hc; [constructor|]. inversion Ht; subst.
    constructor; [by apply IH|auto].
  - intros [?|(l & m & l' & m' & -> & -> & HP & Hr & Hr' & Hc)]; [by left|right].
    destruct Ht as [?|(b & u & ? & HQ & Hb & Ht)]; simplify_eq.
    pose proof (agree_table _ _ _ _ _ Ha HQ Hb). simplify_eq.
    do 4 eexists. repeat split; eauto.
    intros k. specialize (Hc k). specialize (Ht k).
    destruct (m !! k); inversion Hc; constructor; eauto.
  - intros (w & fs & w' & fs' & -> & -> & H1 & H2).
    destruct Ht as (u & us & ? & Ht1 & Ht2). simplify_eq. do 4 eexists. repeat split; eauto.
  - done.
Qed.

(** ... and for the copy. *)
Lemma copied_agree P Q t h v h1 h2 v' :
  copied P t h v h1 v' -> agree P h1 h2 -> (forall l, is_Some (h1 !! l) -> P l -> Q l) ->
  copied Q t h v h2 v'.
Proof.
  intros Hc Ha HQ. revert v v' Hc.
  induction t as [k|t IH|t IH|t IH|f t IH1 r IH2|]; simpl; intros v v'.
  - done.
  - intros [?|(a & w & a' & w' & -> & -> & HP & Hr & Hr' & Hc)]; [by left|right].
    do 4 eexists. repeat split; eauto using agree_readAt.
    apply HQ; [|done]. unfold readAt in Hr'. destruct (h1 !! a'.1); [by eauto|done].
  - intros [?|(s & ws & s' & ws' & -> & -> & HP & Hr & Hr' & Hc)]; [by left|right].
    do 4 eexists. repeat split; eauto using agree_elements, Forall2_impl.
    apply HQ; [|done]. unfold elements in Hr'. destruct (h1 !! s'.1.1); [by eauto|done].
  - intros [?|(l & m & l' & m' & -> & -> & HP & Hr & Hr' & Hc)]; [by left|right].
    do 4 eexists. repeat split; eauto using agree_table.
    + apply HQ; [|done]. unfold table in Hr'. destruct (h1 !! l'); [by eauto|done].
    + intros k. destruct (Hc k); constructor; eauto.
  - intros (w & fs & w' & fs' & -> & -> & H1 & H2). do 4 eexists. repeat split; eauto.
  - done.
Qed.

(** A plain value is copied whole by an assignment. *)
Lemma copied_plain P Q t h v h' :
  plain t = true -> ofType Q t h v -> copied P t h v h' v.
Proof.
  revert v. induction t as [k|t IH|t IH|t IH|f t IH1 r IH2|]; simpl; intros v Hp; try done.
  - intros (s & -> & _). eauto.
  - intros (w & fs & -> & H1 & H2). apply andb_true_iff in Hp as [? ?]. do 4 eexists. repeat split; eauto.
Qed.

Lemma copied_nil P Q t h v h' :
  isNil v = true -> ofType Q t h v -> copied P t h v h' v.
Proof.
  destruct t; simpl; intros Hn Ht.
  - destruct Ht as (? & -> & _). done.
  - destruct Ht as [-> |(? & ? & -> & _)]; [by left|done].
  - destruct Ht as [-> |(? & ? & -> & _)]; [by left|done].
  - destruct Ht as [-> |(? & ? & -> & _)]; [by left|done].
  - destruct Ht as (? & ? & -> & _). done.
  - by subst.
Qed.

(** ** Heaps that hold a value *)

Lemma load_read h a v : readAt h a = Some v -> load a h = Some (v, h).
Proof. unfold load. by intros ->. Qed.

Lemma newIn_weaken h h1 (P : loc -> Prop) l : agree P h h1 -> P l -> newIn h1 l -> newIn h l.
Proof.
  unfold newIn. intros Ha HP Hn.
  destruct (h !! l) as [c|] eqn:Hl; [|done].
  rewrite (Ha l HP ltac:(eauto)) in Hn. congruence.
Qed.

Lemma holding_read h o h' v : holding h o h' v -> readAt h' o = Some v.
Proof.
  intros [_ (c & c' & _ & Hs & Hh)]. unfold readAt. rewrite Hh. simpl. by eapply getAt_setAt.
Qed.

Lemma holding_dom h o h' v l : holding h o h' v -> newIn h' l -> newIn h l.
Proof.
  intros [Ha (c & c' & _ & _ & Ho)] Hn. destruct (decide (l = o.1)) as [-> |Hne].
  - unfold newIn in Hn. congruence.
  - by eapply (newIn_weaken h h' (fun l => l <> o.1)).
Qed.

Lemma store_holding h o u v :
  readAt h o = Some u -> exists h', store o v h = Some (tt, h') /\ holding h o h' v.
Proof.
  unfold readAt, store. destruct (h !! o.1) as [c|] eqn:Hc; [simpl|done]. intros Hg.
  destruct (setAt_is_Some _ v _ _ Hg) as [c' Hs]. rewrite Hs.
  eexists. split; [done|]. split.
  - intros l Hl _. by rewrite lookup_insert_ne.
  - exists c, c'. by rewrite lookup_insert_eq.
Qed.

Lemma holding_extend h o h1 h2 v : holding h o h1 v -> h1 ⊆ h2 -> holding h o h2 v.
Proof.
  intros [Ha (c & c' & Hc & Hs & Hh)] Hsub. split.
  - eapply agree_trans; [exact Ha|]. by apply agree_subseteq.
  - exists c, c'. repeat split; try done. by eapply lookup_weaken.
Qed.

Lemma holding_trans h o h1 h2 v1 v2 :
  holding h o h1 v1 -> holding h1 o h2 v2 -> holding h o h2 v2.
Proof.
  intros [Ha (c & c' & Hc & Hs & Hh)] [Ha' (d & d' & Hd & Hs' & Hh')].
  split; [by eapply agree_trans|].
  exists c, d'. simplify_eq. repeat split; try done.
  by rewrite <- (setAt_twice _ _ v2 _ _ Hs).
Qed.

(** Writing a part of the value held. *)
Lemma holding_part h o h1 h2 q w v1 v2 :
  holding h o h1 v1 -> holding h1 (o.1, o.2 ++ q) h2 w -> setAt q w v1 = Some v2 ->
  holding h o h2 v2.
Proof.
  intros Hold [Ha' (d & d' & Hd & Hs' & Hh')] Hq.
  pose proof (holding_read _ _ _ _ Hold) as Hr. unfold readAt in Hr.
  destruct Hold as [Ha (c & c' & Hc & Hs & Hh)]. simpl in *. simplify_eq.
  split; [by eapply agree_trans|].
  exists c, d'. repeat split; try done.
  rewrite Hh in Hr. simpl in Hr. rewrite (setAt_app _ _ _ _ _ _ Hr Hq) in Hs'.
  by rewrite <- (setAt_twice _ _ v2 _ _ Hs).
Qed.

(** Writing to an object that was not there. *)
Lemma holding_new h o h1 h2 a v w :
  holding h o h1 v -> holding h1 a h2 w -> newIn h a.1 -> holding h o h2 v.
Proof.
  unfold newIn. intros [Ha (c & c' & Hc & Hs & Hh)] [Ha' _] Hn.
  assert (o.1 <> a.1) by congruence. split.
  - intros l Hl [e He]. assert (l <> a.1) by congruence.
    rewrite <- (Ha l Hl ltac:(eauto)). apply Ha'; [done|]. rewrite (Ha l Hl); eauto.
  - exists c, c'. repeat split; try done. rewrite <- Hh. apply Ha'; eauto.
Qed.

Lemma alloc_new h w :
  exists l, alloc w h = Some (l, <[l := w]> h) /\ newIn h l.
Proof. exists (fresh (dom h)). split; [done|]. apply not_elem_of_dom, is_fresh. Qed.

(** ** A rule per statement *)

Lemma run_bind {A B} (m : Go A) (k : A -> Go B) h a h1 :
  m h = Some (a, h1) -> (m ≫= k) h = k a h1.
Proof. unfold mbind, Go_bind. by intros ->. Qed.

Lemma run_loadPointer h a b : readAt h a = Some (Pointer (Some b)) -> loadPointer a h = Some (b, h).
Proof. intros Hr. unfold loadPointer. by rewrite (run_bind _ _ _ _ _ (load_read _ _ _ Hr)). Qed.

Lemma run_loadSlice h a s : readAt h a = Some (SliceV (Some s)) -> loadSlice a h = Some (s, h).
Proof. intros Hr. unfold loadSlice. by rewrite (run_bind _ _ _ _ _ (load_read _ _ _ Hr)). Qed.

Lemma run_loadMap h a l : readAt h a = Some (MapV (Some l)) -> loadMap a h = Some (l, h).
Proof. intros Hr. unfold loadMap. by rewrite (run_bind _ _ _ _ _ (load_read _ _ _ Hr)). Qed.

Lemma run_loadTable h l m : table h l = Some m -> loadTable l h = Some (m, h).
Proof. unfold loadTable. by intros ->. Qed.

Lemma run_element s k h : (k < s.2)%nat -> element s k h = Some ((s.1.1, [Idx (s.1.2 + k)%nat]), h).
Proof. intros Hk. unfold element. by rewrite decide_True. Qed.

(** Executes the next statement with what is known of it. *)
Ltac run H := rewrite (run_bind _ _ _ _ _ H).

Lemma makes_weaken (C D : value -> value -> Prop) t s :
  (forall v u, D v u -> C v u) -> makes C t s -> makes D t s.
Proof. intros HCD Hs h i o v u ? ? ? ? ?. eapply Hs; eauto. Qed.

Lemma copies_makes C t s : copies t s -> makes C t s.
Proof. by apply makes_weaken. Qed.

Lemma copies_assign t : plain t = true -> copies t assign.
Proof.
  intros Hp h i o v u Hi Ht Hio Ho _. unfold assign. run (load_read _ _ _ Hi).
  destruct (store_holding h o u v Ho) as (h' & Hs & Hh).
  exists h', v. split; [done|]. split; [done|]. by eapply copied_plain.
Qed.

Lemma refreshes_unlessNil t s : renews t s -> refreshes t (unlessNil s).
Proof.
  intros Hs h i o v u Hi Ht Hio Ho ->. unfold unlessNil. run (load_read _ _ _ Hi).
  destruct (isNil v) eqn:Hn; [|by eapply Hs].
  exists h, v. split; [done|]. split; [|by eapply copied_nil].
  split; [by intros ? _ _|]. pose proof Ho as Hr. unfold readAt in Hr.
  destruct (h !! o.1) as [c|] eqn:Hc; [simpl in Hr|done].
  exists c, c. repeat split; auto. by apply setAt_same.
Qed.

Lemma holding_before h o h1 h2 v u :
  readAt h o = Some u -> h ⊆ h1 -> holding h1 o h2 v -> holding h o h2 v.
Proof.
  unfold readAt. destruct (h !! o.1) as [c|] eqn:Hc; [|done].
  intros _ Hsub [Ha (d & d' & Hd & Hs & Hh)]. split.
  - eapply agree_trans; [by apply agree_subseteq|done].
  - pose proof (lookup_weaken _ _ _ _ Hc Hsub). simplify_eq. by exists d, d'.
Qed.

(** A new object whose reference is stored in [out]: the common start. *)
Lemma alloc_store h o u w (ref : loc -> value) :
  readAt h o = Some u ->
  exists l h1 h2, (l ← alloc w; mret (ref l)) h = Some (ref l, h1) /\
    store o (ref l) h1 = Some (tt, h2) /\ newIn h l /\ l <> o.1 /\ h2 !! l = Some w /\
    holding h o h2 (ref l).
Proof.
  intros Ho. destruct (alloc_new h w) as (l & Ha & Hl).
  assert (h ⊆ <[l := w]> h) as Hsub by by apply insert_subseteq.
  assert (readAt (<[l := w]> h) o = Some u) as Ho1.
  { by eapply agree_readAt; [by apply (agree_subseteq (fun _ => True))| |]. }
  destruct (store_holding _ o u (ref l) Ho1) as (h2 & Hst & Hh2).
  assert (l <> o.1) as Hlo.
  { intros ->. unfold readAt in Ho. unfold newIn in Hl. by rewrite Hl in Ho. }
  exists l, (<[l := w]> h), h2. repeat split; try done.
  - by run Ha.
  - destruct Hh2 as [Hag _]. rewrite Hag; [by rewrite lookup_insert_eq|done|].
    rewrite lookup_insert_eq. eauto.
  - by eapply holding_before.
  - by eapply holding_before.
Qed.

(** What [in] reaches is still there, away from the new object. *)
Lemma ofType_new t h o h2 x l v :
  holding h o h2 x -> newIn h l -> ofType (fun l => l <> o.1) t h v ->
  ofType (fun l' => l' <> l) t h2 v.
Proof.
  intros [Ha _] Hl Ht. eapply ofType_agree; [exact Ha|exact Ht|].
  intros l' [c Hc] _ ->. unfold newIn in Hl. congruence.
Qed.

(** A copy made later of what [in] reached at the start. *)
Lemma copied_later t h o h2 x v h' v' :
  holding h o h2 x -> ofType (fun l => l <> o.1) t h v ->
  copied (newIn h2) t h2 v h' v' -> copied (newIn h) t h v h' v'.
Proof.
  intros Hh Ht Hc. eapply copied_original; [apply Hh|exact Ht|].
  eapply copied_agree; [exact Hc|by intros ? _ _|]. intros l _. by eapply holding_dom.
Qed.

(** A new object, then a copy into it of what the pointer points to. *)
Lemma renews_newDeep t s : copies t s -> renews (Ptr t) (newDeep t s).
Proof.
  intros Hs h i o v u Hi Ht Hio Ho Hn.
  pose proof Ht as Ht'. destruct Ht' as [-> |(a & w & -> & HP & Hr & Hw)]; [done|].
  destruct (alloc_store h o u (zeroOf t) (fun l => Pointer (Some (l, []))) Ho)
    as (l & h1 & h2 & Hnew & Hst & Hl & Hlo & Hl2 & Hh2).
  unfold newDeep, new, addressOf. run Hnew. run Hst.
  run (run_loadPointer _ _ _ (agree_readAt _ _ _ _ _ (proj1 Hh2) Hio Hi)).
  run (run_loadPointer _ _ _ (holding_read _ _ _ _ Hh2)).
  destruct (Hs h2 a (l, []) w (zeroOf t)) as (h3 & w' & Hrun & Hh3 & Hc); try done.
  - by eapply agree_readAt; [apply Hh2| |].
  - by eapply ofType_new.
  - simpl. intros E. unfold readAt, newIn in *. by rewrite E, Hl in Hr.
  - unfold readAt. simpl. by rewrite Hl2.
  - exists h3, (Pointer (Some (l, []))). split; [done|].
    split; [by eapply holding_new|]. right.
    exists a, w, (l, []), w'. repeat split; try done; [by eapply holding_read|].
    by eapply copied_later.
Qed.

Lemma renews_newCopy t : plain t = true -> renews (Ptr t) (newCopy t).
Proof. intros Hp. by apply renews_newDeep, copies_assign. Qed.

(** Writing [out] does not touch what is new since before. *)
Lemma holding_agree_new h o u h1 h2 v :
  readAt h o = Some u -> holding h1 o h2 v -> agree (newIn h) h1 h2.
Proof.
  intros Ho [Ha _]. eapply agree_weaken; [exact Ha|].
  unfold newIn, readAt in *. intros l _ Hl ->. by rewrite Hl in Ho.
Qed.

Lemma renews_viaPointer t q : duplicates t q -> renews t (viaPointer q).
Proof.
  intros Hq h i o v u Hi Ht Hio Ho Hn. unfold viaPointer. run (load_read _ _ _ Hi).
  destruct (Hq _ _ _ Ht) as (h1 & v' & Hrun & Hsub & Hc). run Hrun.
  assert (readAt h1 o = Some u) as Ho1.
  { by eapply agree_readAt; [by apply (agree_subseteq (fun _ => True))| |]. }
  destruct (store_holding _ o u v' Ho1) as (h2 & Hst & Hh2).
  exists h2, v'. split; [done|]. split; [by eapply holding_before|].
  eapply copied_agree; [exact Hc|by eapply holding_agree_new|done].
Qed.

Lemma renews_viaValue t q : duplicates t q -> renews (Ptr t) (viaValue q).
Proof.
  intros Hq h i o v u Hi Ht Hio Ho Hn.
  destruct Ht as [-> |(a & w & -> & HP & Hr & Hw)]; [done|].
  unfold viaValue. run (run_loadPointer _ _ _ Hi). run (load_read _ _ _ Hr).
  destruct (Hq _ _ _ Hw) as (h1 & x & Hrun & Hsub & Hc). run Hrun.
  assert (readAt h1 o = Some u) as Ho1.
  { by eapply agree_readAt; [by apply (agree_subseteq (fun _ => True))| |]. }
  destruct (alloc_store h1 o u x (fun l => Pointer (Some (l, []))) Ho1)
    as (l & h2 & h3 & Hnew & Hst & Hl & Hlo & Hl3 & Hh3).
  unfold addressOf. run Hnew. exists h3, (Pointer (Some (l, []))). split; [done|].
  split; [by eapply holding_before|]. right.
  exists a, w, (l, []), x. repeat split; try done.
  - simpl. unfold newIn in *. destruct (h !! l) eqn:E; [|done].
    by rewrite (lookup_weaken _ _ _ _ E Hsub) in Hl.
  - unfold readAt. simpl. by rewrite Hl3.
  - eapply copied_agree; [exact Hc|by eapply holding_agree_new|done].
Qed.

(** *** Slices *)

Lemma elements_read h s ws k w :
  elements h s = Some ws -> ws !! k = Some w ->
  (k < s.2)%nat /\ readAt h (s.1.1, [Idx (s.1.2 + k)%nat]) = Some w.
Proof.
  unfold elements, readAt. simpl. destruct (h !! s.1.1) as [[| | | | |us|]|]; try done.
  destruct (decide _); [|done]. intros [= <-] Hk.
  apply lookup_take_Some in Hk as [Hk Hlt]. rewrite lookup_drop in Hk. simpl. by rewrite Hk.
Qed.

Lemma elements_length h s ws : elements h s = Some ws -> length ws = s.2.
Proof.
  unfold elements. destruct (h !! s.1.1) as [[| | | | |us|]|]; try done.
  destruct (decide _); [|done]. intros [= <-]. rewrite length_take, length_drop. lia.
Qed.

Section SliceLoop.
Context (t : ty) (into : stmt) (h0 : heap) (o : addr).
Context (src : sliceHeader) (ws : list value) (l : loc) (n : nat).
Context (Hinto : copies t into) (Hsrc : elements h0 src = Some ws) (Hn : length ws = n).
Context (Hfar : src.1.1 <> o.1) (Hws : Forall (ofType (fun l => l <> o.1) t h0) ws).
Context (Hl : newIn h0 l).

Let dst : sliceHeader := (l, O, n).

(** After [k] rounds: the first [k] elements are copies that do not reach
    the new array itself. *)
Let inv (k : nat) (h : heap) : Prop :=
  holding h0 o h (SliceV (Some dst)) /\
  exists ws', h !! l = Some (ArrayV ws') /\ length ws' = n /\
    Forall2 (fun w w' => copied (fun l' => newIn h0 l' /\ l' <> l) t h0 w h w')
      (take k ws) (take k ws').

Lemma slice_round k h :
  (k < n)%nat -> inv k h ->
  exists h', into (src.1.1, [Idx (src.1.2 + k)%nat]) (l, [Idx k]) h = Some (tt, h') /\
    inv (S k) h'.
Proof.
  intros Hk [Hh (ws' & Hl' & Hlen & Hc)].
  destruct (lookup_lt_is_Some_2 ws k) as [w Hw]; [lia|].
  destruct (lookup_lt_is_Some_2 ws' k) as [u Hu]; [lia|].
  pose proof (agree_elements _ _ _ _ _ (proj1 Hh) Hfar Hsrc) as Hel.
  destruct (elements_read _ _ _ _ _ Hel Hw) as [_ Hread].
  pose proof (proj1 (Forall_lookup _ _) Hws _ _ Hw) as Hty.
  destruct (Hinto h (src.1.1, [Idx (src.1.2 + k)%nat]) (l, [Idx k]) w u)
    as (h' & w' & Hrun & Hh' & Hc'); try done.
  - by eapply ofType_new.
  - simpl. intros E. unfold elements, newIn in *. by rewrite E, Hl in Hsrc.
  - unfold readAt. simpl. rewrite Hl'. simpl. by rewrite Hu.
  - exists h'. split; [done|]. split; [by eapply holding_new|].
    exists (<[k := w']> ws').
    destruct Hh' as [Hag (c & c' & Hlc & Hset & Hlc')]. simpl in *.
    rewrite Hl' in Hlc. injection Hlc as <-. simpl in Hset. rewrite Hu in Hset.
    simpl in Hset. injection Hset as <-.
    split; [done|]. split; [by rewrite length_insert|].
    rewrite (take_S_r _ _ _ Hw), (take_S_r _ k w') by (apply list_lookup_insert_eq; lia).
    rewrite take_insert_ge by lia. apply Forall2_app; [|constructor; [|constructor]].
    + eapply Forall2_impl; [exact Hc|]. intros x y Hxy. eapply copied_agree; [exact Hxy| |done].
      intros l' [_ ?] ?. by apply Hag.
    + eapply copied_original; [apply Hh|exact Hty|].
      eapply copied_agree; [exact Hc'|by intros ? _ _|].
      intros l' _ Hnew. split; [by eapply holding_dom|].
      intros ->. unfold newIn in Hnew. congruence.
Qed.

Lemma slice_loop (body : nat -> Go unit) m k h :
  (forall j h, (j < n)%nat -> inv j h ->
     body j h = into (src.1.1, [Idx (src.1.2 + j)%nat]) (l, [Idx j]) h) ->
  (k + m = n)%nat -> inv k h ->
  exists h', forRange k m body h = Some (tt, h') /\ inv n h'.
Proof.
  intros Hbody. revert k h. induction m as [|m IH]; intros k h Hkm Hi; simpl.
  - exists h. split; [done|]. by replace n with k by lia.
  - destruct (slice_round k h) as (h1 & Hrun & Hi1); [lia|done|].
    rewrite <- Hbody in Hrun by (lia || done). run Hrun. apply IH; [lia|done].
Qed.

Lemma slice_copied h :
  inv n h ->
  exists v', holding h0 o h v' /\ copied (newIn h0) (Slice t) h0 (SliceV (Some src)) h v'.
Proof using Hsrc Hn Hfar Hl.
  intros [Hh (ws' & Hl' & Hlen & Hc)]. exists (SliceV (Some dst)). split; [done|]. right.
  exists src, ws, dst, ws'. repeat split; try done.
  - unfold elements. simpl. rewrite Hl', decide_True by lia. f_equal.
    by rewrite drop_0, take_ge by lia.
  - rewrite !take_ge in Hc by lia. eapply Forall2_impl; [exact Hc|].
    intros x y Hxy. eapply copied_agree; [exact Hxy|by intros ? _ _|by intros ? _ []].
Qed.
End SliceLoop.

Lemma slice_start t h l n o h2 :
  h2 !! l = Some (ArrayV (replicate n (zeroOf t))) ->
  holding h o h2 (SliceV (Some (l, O, n))) ->
  holding h o h2 (SliceV (Some (l, O, n))) /\
  exists ws' : list value, h2 !! l = Some (ArrayV ws') /\ length ws' = n /\
    Forall2 (fun w w' => copied (fun l' => newIn h l' /\ l' <> l) t h w h2 w')
      [] (take 0 ws').
Proof.
  intros Hl Hh. split; [done|]. exists (replicate n (zeroOf t)).
  rewrite length_replicate, take_0. auto using Forall2_nil.
Qed.

Lemma renews_sliceDeep t s : copies t s -> renews (Slice t) (sliceDeep t s).
Proof.
  intros Hs h i o v u Hi Ht Hio Ho Hn.
  destruct Ht as [-> |(src & ws & -> & HP & Hr & Hw)]; [done|].
  pose proof (elements_length _ _ _ Hr) as Hlen.
  destruct (alloc_store h o u (ArrayV (replicate src.2 (zeroOf t)))
              (fun l => SliceV (Some (l, O, src.2))) Ho)
    as (l & h1 & h2 & Hnew & Hst & Hl & Hlo & Hl2 & Hh2).
  pose proof (run_loadSlice _ _ _ (agree_readAt _ _ _ _ _ (proj1 Hh2) Hio Hi)) as Hi2.
  unfold sliceDeep, makeSlice. run (run_loadSlice _ _ _ Hi). run Hnew. run Hst. run Hi2.
  destruct (slice_loop t s h o src ws l src.2 Hs Hr Hlen HP Hw Hl
    (fun k => src ← loadSlice i; a ← element src k;
              dst ← loadSlice o; b ← element dst k; s a b) src.2 O h2) as (h3 & Hrun & Hinv).
  - intros j h' Hj [Hh' _].
    run (run_loadSlice _ _ _ (agree_readAt _ _ _ _ _ (proj1 Hh') Hio Hi)).
    run (run_element src j h' Hj).
    run (run_loadSlice _ _ _ (holding_read _ _ _ _ Hh')).
    by run (run_element (l, O, src.2) j h' Hj).
  - lia.
  - by apply slice_start.
  - destruct (slice_copied t h o src ws l src.2 Hr Hlen HP Hl h3 Hinv) as (v' & Hv' & Hc).
    by exists h3, v'.
Qed.

Lemma renews_sliceCopy t : plain t = true -> renews (Slice t) (sliceCopy t).
Proof.
  intros Hp h i o v u Hi Ht Hio Ho Hn.
  destruct Ht as [-> |(src & ws & -> & HP & Hr & Hw)]; [done|].
  pose proof (elements_length _ _ _ Hr) as Hlen.
  destruct (alloc_store h o u (ArrayV (replicate src.2 (zeroOf t)))
              (fun l => SliceV (Some (l, O, src.2))) Ho)
    as (l & h1 & h2 & Hnew & Hst & Hl & Hlo & Hl2 & Hh2).
  pose proof (run_loadSlice _ _ _ (agree_readAt _ _ _ _ _ (proj1 Hh2) Hio Hi)) as Hi2.
  unfold sliceCopy, makeSlice. run (run_loadSlice _ _ _ Hi). run Hnew. run Hst. run Hi2.
  run (run_loadSlice _ _ _ (holding_read _ _ _ _ Hh2)).
  simpl. rewrite Nat.min_id.
  destruct (slice_loop t assign h o src ws l src.2 (copies_assign t Hp) Hr Hlen HP Hw Hl
    (fun k => a ← element src k; b ← element (l, O, src.2) k; assign a b) src.2 O h2)
    as (h3 & Hrun & Hinv).
  - intros j h' Hj _. run (run_element src j h' Hj).
    by run (run_element (l, O, src.2) j h' Hj).
  - lia.
  - by apply slice_start.
  - destruct (slice_copied t h o src ws l src.2 Hr Hlen HP Hl h3 Hinv) as (v' & Hv' & Hc).
    by exists h3, v'.
Qed.

(** *** Maps *)

Definition entered (m : gmap string value) (kvs : list (string * value)) : gmap string value :=
  foldl (fun m kv => <[kv.1 := kv.2]> m) m kvs.

Lemma entered_lookup kvs m k :
  entered m kvs !! k =
  match (list_to_map (reverse kvs) : gmap string value) !! k with
  | Some w => Some w | None => m !! k end.
Proof.
  revert m. induction kvs as [|[k' w'] kvs IH]; intros m.
  - done.
  - rewrite reverse_cons, list_to_map_app. simpl. rewrite IH, lookup_union. simpl.
    destruct (list_to_map (reverse kvs) !! k) as [w|] eqn:E; [by rewrite union_Some_l|].
    rewrite (left_id_L None _). destruct (decide (k = k')) as [-> |Hne].
    + by rewrite !lookup_insert_eq.
    + by rewrite !lookup_insert_ne, lookup_empty.
Qed.

Lemma entered_all m kvs : kvs ≡ₚ map_to_list m -> entered ∅ kvs = m.
Proof.
  intros Hp. apply map_eq. intros k. rewrite entered_lookup, lookup_empty.
  rewrite (list_to_map_proper (M := gmap string) (reverse kvs) (map_to_list m)).
  - rewrite list_to_map_to_list. by destruct (m !! k).
  - rewrite (fmap_Permutation fst _ _ (reverse_Permutation kvs)), Hp.
    apply NoDup_fst_map_to_list.
  - by rewrite reverse_Permutation.
Qed.

Section MapLoop.
Context (t : ty) (q : value -> Go value) (h0 : heap) (o : addr) (l : loc).
Context (Hq : duplicates t q) (Hl : newIn h0 l).

(** The entries of [seen] have been copied into the new table. *)
Let inv (seen : gmap string value) (h : heap) : Prop :=
  holding h0 o h (MapV (Some l)) /\
  exists m', h !! l = Some (TableV m') /\
    forall k, option_Forall2
      (fun w w' => copied (fun l' => newIn h0 l' /\ l' <> l) t h0 w h w') (seen !! k) (m' !! k).

Lemma map_round seen h key val :
  inv seen h -> ofType (fun l => l <> o.1) t h0 val ->
  exists h', (v ← q val; mapAssign o key v) h = Some (tt, h') /\
    inv (<[key := val]> seen) h'.
Proof.
  intros [Hh (m' & Hl' & Hc)] Hty.
  destruct (Hq h val (fun l' => l' <> l)) as (h1 & v1 & Hrun & Hsub & Hc1).
  { by eapply ofType_new. }
  run Hrun. unfold mapAssign.
  pose proof (holding_extend _ _ _ _ _ Hh Hsub) as Hh1.
  pose proof (lookup_weaken _ _ _ _ Hl' Hsub) as Hl1.
  run (run_loadMap _ _ _ (holding_read _ _ _ _ Hh1)).
  run (run_loadTable h1 l m' ltac:(unfold table; by rewrite Hl1)).
  destruct (store_holding h1 (l, []) (TableV m') (TableV (<[key := v1]> m'))) as (h2 & Hst & Hh2).
  { unfold readAt. simpl. by rewrite Hl1. }
  exists h2. split; [done|]. split; [by eapply holding_new|].
  destruct Hh2 as [Hag (c & c' & _ & [= <-] & Hl2)]. simpl in *.
  exists (<[key := v1]> m'). split; [done|].
  assert (agree (fun l' => newIn h0 l' /\ l' <> l) h1 h2) as Hag'.
  { eapply agree_weaken; [exact Hag|]. by intros l' _ [_ ?]. }
  intros k. destruct (decide (k = key)) as [-> |Hne].
  - rewrite !lookup_insert_eq. constructor.
    eapply copied_original; [apply Hh|exact Hty|].
    eapply copied_agree; [|exact Hag'|by intros ? ? ?].
    eapply copied_agree; [exact Hc1|by intros ? _ _|].
    intros l' _ Hnew. split; [exact (holding_dom _ _ _ _ _ Hh Hnew)|].
    intros ->. unfold newIn in Hnew. congruence.
  - rewrite !lookup_insert_ne by done. specialize (Hc k).
    destruct Hc as [w w' Hww'|]; constructor.
    eapply copied_agree; [|exact Hag'|by intros ? ? ?].
    eapply copied_agree; [exact Hww'|by apply agree_subseteq|by intros ? ? ?].
Qed.

Lemma map_loop kvs seen h :
  inv seen h -> Forall (fun kv => ofType (fun l => l <> o.1) t h0 kv.2) kvs ->
  exists h', forPairs kvs (fun key val => v ← q val; mapAssign o key v) h = Some (tt, h') /\
    inv (entered seen kvs) h'.
Proof.
  revert seen h. induction kvs as [|[key val] kvs IH]; intros seen h Hi Hkvs.
  - by exists h.
  - inversion Hkvs; subst. destruct (map_round seen h key val Hi) as (h1 & Hrun & Hi1); [done|].
    simpl. rewrite (run_bind _ _ _ _ _ Hrun). by apply IH.
Qed.
End MapLoop.

Lemma renews_mapDeep `{MapRange} t q : duplicates t q -> renews (MapOf t) (mapDeep q).
Proof.
  intros Hq h i o v u Hi Ht Hio Ho Hn.
  destruct Ht as [-> |(ml & m & -> & HP & Hr & Hw)]; [done|].
  destruct (alloc_store h o u (TableV ∅) (fun l => MapV (Some l)) Ho)
    as (l & h1 & h2 & Hnew & Hst & Hl & Hlo & Hl2 & Hh2).
  unfold mapDeep, makeMap. run (run_loadMap _ _ _ Hi). run Hnew. run Hst.
  run (run_loadMap _ _ _ (agree_readAt _ _ _ _ _ (proj1 Hh2) Hio Hi)).
  run (run_loadTable _ _ _ (agree_table _ _ _ _ _ (proj1 Hh2) HP Hr)).
  destruct (map_loop t q h o l Hq Hl (rangeOf m) ∅ h2) as (h3 & Hrun & Hh3 & m' & Hl3 & Hc).
  - split; [done|]. exists ∅. split; [done|]. intros k. rewrite lookup_empty. constructor.
  - apply Forall_forall. intros [k w] Hkw. rewrite rangeOf_perm in Hkw.
    apply elem_of_map_to_list in Hkw. by eapply Hw.
  - exists h3, (MapV (Some l)). split; [done|]. split; [done|]. right.
    exists ml, m, l, m'. rewrite (entered_all m) in Hc by apply rangeOf_perm.
    repeat split; try done.
    + unfold table. by rewrite Hl3.
    + intros k. destruct (Hc k); constructor.
      eapply copied_agree; [eassumption|by intros ? _ _|by intros ? _ []].
Qed.

Lemma duplicates_plain t : plain t = true -> duplicates t mret.
Proof. intros Hp h v P Ht. exists h, v. repeat split; [done|]. by eapply copied_plain. Qed.

Lemma renews_mapCopy `{MapRange} t : plain t = true -> renews (MapOf t) mapCopy.
Proof. intros Hp. by apply renews_mapDeep, duplicates_plain. Qed.

(** ** Structs: [*out = *in], then the fields that hold references *)

Fixpoint fieldNames (t : ty) : list string :=
  match t with Field f _ r => f :: fieldNames r | _ => [] end.

(** Every field is among [D] or holds no references. *)
Fixpoint covers (D : list string) (t : ty) : bool :=
  match t with
  | Field f t r => (bool_decide (f ∈ D) || plain t) && covers D r
  | NoField => true
  | _ => false
  end.

(** The struct [v'] in the making: the fields of [D] are copies, the others
    are still what the assignment left, the fields of the original. *)
Fixpoint partial (D : list string) (t : ty) (h : heap) (v : value) (h' : heap) (v' : value)
  : Prop :=
  match t with
  | Field f t r =>
      exists w fs w' fs', v = StructV ((f, w) :: fs) /\ v' = StructV ((f, w') :: fs') /\
        (if decide (f ∈ D) then copied (newIn h) t h w h' w' else w' = w) /\
        partial D r h (StructV fs) h' (StructV fs')
  | NoField => v = StructV [] /\ v' = StructV []
  | _ => False
  end.

Definition building (D : list string) (t : ty) (h : heap) (o : addr) (v : value)
    (h' : heap) (v' : value) : Prop :=
  holding h o h' v' /\ partial D t h v h' v'.

(** The statement takes a struct whose fields [D] are done to one whose
    fields [D'] are. *)
Definition builds (t : ty) (D D' : list string) (s : stmt) : Prop :=
  forall h i o v h1 v1, readAt h i = Some v -> ofType (fun l => l <> o.1) t h v -> i.1 <> o.1 ->
    NoDup (fieldNames t) -> building D t h o v h1 v1 ->
    exists h2 v2, s i o h1 = Some (tt, h2) /\ building D' t h o v h2 v2.

Lemma readAt_field h a f fs :
  readAt h a = Some (StructV fs) -> readAt h (addrField a f) = assoc f fs.
Proof.
  unfold readAt, addrField. simpl. destruct (h !! a.1) as [c|]; [simpl|done].
  intros Hg. rewrite getAt_app, Hg. simpl. by destruct (assoc f fs).
Qed.

Lemma partial_field P D ts f t h v h1 v1 :
  partial D ts h v h1 v1 -> ofType P ts h v -> fieldType f ts = Some t ->
  exists fs fs1 w w1, v = StructV fs /\ v1 = StructV fs1 /\ assoc f fs = Some w /\
    assoc f fs1 = Some w1 /\ ofType P t h w /\ (f ∉ D -> w1 = w).
Proof.
  revert v v1. induction ts as [| | | |g t' _ r IH|]; intros v v1; simpl; try done.
  intros (w & fs & w' & fs' & -> & -> & Hf & Hp) (x & xs & [= <- <-] & Hx & Hxs).
  destruct (decide (f = g)) as [-> |Hne].
  - intros [= ->]. exists ((g, w) :: fs), ((g, w') :: fs'), w, w'. simpl.
    rewrite !decide_True by done. repeat split; try done. intros Hn. by rewrite decide_False in Hf.
  - intros Hft. destruct (IH _ _ Hp Hxs Hft) as (gs & gs1 & y & y1 & [= ->] & [= ->] & ? & ? & ? & ?).
    exists ((g, w) :: gs), ((g, w') :: gs1), y, y1. simpl. rewrite !decide_False by done. by repeat split.
Qed.

(** Partial copies stay so when only the struct and new objects change. *)
Lemma partial_agree D E ts h v h1 h2 v' :
  partial D ts h v h1 v' -> agree (newIn h) h1 h2 ->
  (forall f, f ∈ fieldNames ts -> f ∈ D <-> f ∈ E) -> partial E ts h v h2 v'.
Proof.
  intros Hp Ha. revert v v' Hp. induction ts as [| | | |g t' _ r IH|]; intros v v'; simpl; try done.
  intros (w & fs & w' & fs' & -> & -> & Hf & Hp) HDE. do 4 eexists.
  repeat split; [|by apply IH; [|intros; apply HDE; constructor]].
  destruct (decide (g ∈ D)) as [HD|HD].
  - rewrite decide_True by (apply HDE; [constructor|done]). by eapply copied_agree.
  - by rewrite decide_False by (rewrite <- HDE; [done|constructor]).
Qed.

Lemma partial_set D ts f t h v h1 h2 fs1 w w2 :
  partial D ts h v h1 (StructV fs1) -> NoDup (fieldNames ts) -> fieldType f ts = Some t ->
  agree (newIn h) h1 h2 -> (forall fs, v = StructV fs -> assoc f fs = Some w) ->
  copied (newIn h) t h w h2 w2 -> partial (f :: D) ts h v h2 (StructV (assocSet f w2 fs1)).
Proof.
  revert v fs1. induction ts as [| | | |g t' _ r IH|]; intros v fs1; simpl; try done.
  intros (u & fs & u' & fs' & -> & [= ->] & Hf & Hp) Hnd Hft Ha Hw Hc.
  specialize (Hw _ eq_refl). simpl in *. apply NoDup_cons in Hnd as [Hg Hnd].
  destruct (decide (f = g)) as [-> |Hne].
  - injection Hft as ->. injection Hw as ->. exists w, fs, w2, fs'. repeat split.
    + by rewrite decide_True by constructor.
    + eapply partial_agree; [exact Hp|exact Ha|].
      intros f Hin. rewrite elem_of_cons. split; [by right|]. by intros [-> |].
  - exists u, fs, u', (assocSet f w2 fs'). repeat split.
    + destruct (decide (g ∈ D)) as [HD|HD].
      * rewrite decide_True by by right. by eapply copied_agree.
      * rewrite decide_False; [done|]. intros [-> |]%elem_of_cons; done.
    + eapply IH; eauto. by intros ? [= <-].
Qed.

Lemma partial_done P D t h v h' v' :
  ofType P t h v -> covers D t = true -> partial D t h v h' v' -> copied (newIn h) t h v h' v'.
Proof.
  revert v v'. induction t as [| | | |g t' _ r IH|]; intros v v'; simpl; try done.
  intros (x & xs & -> & Hx & Hxs) [Hcov Hrest]%andb_true_iff
    (w & fs & w' & fs' & [= <- <-] & -> & Hf & Hp).
  do 4 eexists. repeat split; [|by eapply IH].
  destruct (decide (g ∈ D)) as [HD|HD]; [done|]. subst w'.
  rewrite bool_decide_eq_false_2 in Hcov by done. by eapply copied_plain.
Qed.

Lemma builds_field D t f ft s :
  fieldType f t = Some ft -> bool_decide (f ∈ D) = false -> refreshes ft s -> builds t D (f :: D) (onField f s).
Proof.
  intros Hft HD%bool_decide_eq_false Hs h i o v h1 v1 Hi Ht Hio Hnd [Hh Hp].
  destruct (partial_field _ _ _ _ _ _ _ _ _ Hp Ht Hft)
    as (fs & fs1 & w & w1 & -> & -> & Hw & Hw1 & Hty & Heq).
  rewrite (Heq HD) in Hw1.
  pose proof (agree_readAt _ _ _ _ _ (proj1 Hh) Hio Hi) as Hi1.
  destruct (Hs h1 (addrField i f) (addrField o f) w w) as (h2 & w2 & Hrun & Hh2 & Hc); try done.
  - by rewrite (readAt_field _ _ _ _ Hi1).
  - eapply ofType_agree; [apply Hh|exact Hty|done].
  - by rewrite (readAt_field _ _ _ _ (holding_read _ _ _ _ Hh)).
  - exists h2, (StructV (assocSet f w2 fs1)). split; [done|].
    split; [eapply holding_part; [exact Hh|exact Hh2|simpl; by rewrite Hw1]|].
    eapply partial_set; [exact Hp|done|exact Hft| |by intros ? [= <-]|by eapply copied_later].
    destruct Hh as [_ (c & _ & Ho & _)]. destruct Hh2 as [Ha _].
    eapply agree_weaken; [exact Ha|]. unfold newIn. simpl. congruence.
Qed.

Lemma builds_then t D1 D2 D3 s s' :
  builds t D1 D2 s -> builds t D2 D3 s' -> builds t D1 D3 (andThen s s').
Proof.
  intros Hs Hs' h i o v h1 v1 Hi Ht Hio Hnd Hb.
  destruct (Hs _ _ _ _ _ _ Hi Ht Hio Hnd Hb) as (h2 & v2 & Hrun & Hb2).
  unfold andThen. rewrite (run_bind _ _ _ _ _ Hrun). by eapply Hs'.
Qed.

(** A [DeepCopyInto]: the assignment, then the statements of the fields. *)
Lemma copies_struct D t s :
  bool_decide (NoDup (fieldNames t)) = true -> builds t [] D s -> covers D t = true ->
  copies t (andThen assign s).
Proof.
  intros Hnd%bool_decide_eq_true Hs Hcov h i o v u Hi Ht Hio Ho _.
  destruct (store_holding h o u v Ho) as (h1 & Hst & Hh1).
  unfold andThen, assign.
  rewrite (run_bind _ _ _ tt h1) by by run (load_read _ _ _ Hi).
  destruct (Hs h i o v h1 v Hi Ht Hio Hnd) as (h2 & v2 & Hrun & Hh2 & Hp2).
  - split; [done|]. clear -Ht Hcov. revert v Ht.
    induction t as [| | | |g t' _ r IH|]; intros v; simpl in *; try done.
    intros (w & fs & -> & Hw & Hr). apply andb_true_iff in Hcov as [_ Hcov].
    do 4 eexists. repeat split. auto.
  - exists h2, v2. split; [done|]. split; [done|]. by eapply partial_done.
Qed.

(** ** The functions built on a [DeepCopyInto] *)

Lemma duplicates_deepCopy t into : copies t into -> duplicates (Ptr t) (deepCopy t into).
Proof.
  intros Hs h v P [-> |(a & w & -> & HP & Hr & Hw)].
  - exists h, (Pointer None). repeat split; [done|]. by left.
  - destruct (alloc_new h (zeroOf t)) as (l & Ha & Hl).
    assert (h ⊆ <[l := zeroOf t]> h) as Hsub by by apply insert_subseteq.
    unfold deepCopy, new, addressOf.
    change (isNil (Pointer (Some a))) with false. cbv iota.
    rewrite (run_bind _ _ _ (Pointer (Some (l, []))) (<[l := zeroOf t]> h)) by by run Ha.
    destruct (Hs (<[l := zeroOf t]> h) a (l, []) w (zeroOf t)) as (h2 & w' & Hrun & Hh2 & Hc).
    + by eapply agree_readAt; [by apply (agree_subseteq (fun _ => True))| |].
    + eapply ofType_agree; [by apply (agree_subseteq P)|exact Hw|].
      intros l' [c Hc'] _ ->. unfold newIn in Hl. simpl in Hc'. congruence.
    + simpl. intros E. unfold readAt, newIn in *. by rewrite E, Hl in Hr.
    + unfold readAt. simpl. by rewrite lookup_insert_eq.
    + done.
    + exists h2, (Pointer (Some (l, []))).
      rewrite (run_bind (deref (Pointer (Some a))) _ _ a (<[l := zeroOf t]> h)) by done.
      rewrite (run_bind (deref (Pointer (Some (l, [])))) _ _ (l, []) (<[l := zeroOf t]> h)) by done.
      rewrite (run_bind _ _ _ _ _ Hrun). split; [done|]. split.
      * apply map_subseteq_spec. intros l' c Hc'.
        assert (l' <> l) by (unfold newIn in Hl; congruence).
        rewrite (proj1 Hh2 l'); [by rewrite lookup_insert_ne|done|].
        rewrite lookup_insert_ne by done. eauto.
      * right. exists a, w, (l, []), w'. repeat split; try done; [by eapply holding_read|].
        eapply copied_original; [by apply (agree_subseteq P)|exact Hw|].
        eapply copied_agree; [exact Hc|by intros ? _ _|].
        intros l' _ Hn. unfold newIn in *. destruct (h !! l') eqn:E; [|done].
        by rewrite (lookup_weaken _ _ _ _ E Hsub) in Hn.
Qed.

Lemma copied_refl P t h v : ofType P t h v -> copied P t h v h v.
Proof.
  revert v. induction t as [k|t IH|t IH|t IH|f t IH1 r IH2|]; simpl; intros v.
  - intros (s & -> & _). eauto.
  - intros [-> |(a & w & -> & HP & Hr & Hw)]; [by left|right].
    do 4 eexists. repeat split; eauto.
  - intros [-> |(s & ws & -> & HP & Hr & Hw)]; [by left|right].
    do 4 eexists. repeat split; eauto.
    clear -IH Hw. induction Hw; constructor; auto.
  - intros [-> |(l & m & -> & HP & Hr & Hw)]; [by left|right].
    do 4 eexists. repeat split; eauto.
    intros k. specialize (Hw k). destruct (m !! k); constructor; auto.
  - intros (w & fs & -> & Hw & Hr). do 4 eexists. repeat split; auto.
  - done.
Qed.

(** The two sides of a copy do not see each other: whatever is later written
    to the objects there were, the copy still is the value at the time of the
    copy, and whatever is written to the new ones, the original is. *)
Definition independent (P : loc -> Prop) (t : ty) (h : heap) (v : value) (h' : heap) (v' : value)
  : Prop :=
  (forall h2, agree (newIn h) h' h2 -> copied (newIn h) t h v h2 v') /\
  (forall h2, agree (fun l => is_Some (h !! l)) h' h2 -> copied P t h v h2 v).

Lemma copied_independent P t h v h' v' :
  ofType P t h v -> h ⊆ h' -> copied (newIn h) t h v h' v' -> independent P t h v h' v'.
Proof.
  intros Ht Hsub Hc. split; intros h2 Ha.
  - by eapply copied_agree.
  - eapply copied_agree; [by apply copied_refl| |done].
    intros l _ [c Hl]. rewrite Hl. pose proof (lookup_weaken _ _ _ _ Hl Hsub) as Hl'.
    rewrite <- Hl'. apply Ha; eauto.
Qed.
