(* ===== verification/DeepCopy.v ===== *)
(** * The generated deep copies (api/v1alpha1/zz_generated.deepcopy.go)

    Every [DeepCopyInto], [DeepCopy] and [DeepCopyObject] of the API types,
    on the heap of GoHeap.v, statement by statement, with the Go types of
    api/v1alpha1/*_types.go field by field.  The deep copies of
    k8s.io/apimachinery (ObjectMeta, ListMeta, Condition, LabelSelector,
    Quantity, Time) and the layout of those types are a parameter
    ([MetaAPI]); that they are deep copies is the hypothesis [MetaCopies].

    The theorems: each generated function, run on any value of its type,
    returns a pointer to a new object that holds the same value, shares no
    object with the original and changes nothing that was there, so neither
    side sees what is later written through the other.  The controllers rely
    on it when they take [base := lease.DeepCopy()], change the lease and
    send the difference as a patch. *)

From S2P Require Import Prelude GoHeap.

(** ** Types of the libraries *)

Definition Bool : ty := Prim KBool.
Definition Int : ty := Prim KInt.
Definition String : ty := Prim KString.

(** [metav1.Duration] and [metav1.TypeMeta] hold no references. *)
Definition Duration : ty := struct [("Duration", Int)].
Definition TypeMeta : ty := struct [("Kind", String); ("APIVersion", String)].

(** The types of k8s.io/apimachinery that do, with their deep copies. *)
Class MetaAPI := {
  ObjectMeta : ty;
  ListMeta : ty;
  Condition : ty;
  LabelSelector : ty;
  Quantity : ty;
  Time : ty;
  ObjectMeta_DeepCopyInto : stmt;
  ListMeta_DeepCopyInto : stmt;
  Condition_DeepCopyInto : stmt;
  LabelSelector_DeepCopyInto : stmt;
  Quantity_DeepCopy : value -> Go value;
  Time_DeepCopy : value -> Go value
}.

(** The documented contract of those deep copies. *)
Class MetaCopies `{MetaAPI} : Prop := {
  copies_ObjectMeta : copies ObjectMeta ObjectMeta_DeepCopyInto;
  copies_ListMeta : copies ListMeta ListMeta_DeepCopyInto;
  copies_Condition : copies Condition Condition_DeepCopyInto;
  copies_LabelSelector : copies LabelSelector LabelSelector_DeepCopyInto;
  duplicates_Quantity : duplicates Quantity Quantity_DeepCopy;
  duplicates_Time : duplicates (Ptr Time) Time_DeepCopy
}.

Notation "s ;;; s'" := (andThen s s') (at level 100, s' at level 200, right associativity).

Section Generated.
Context `{MetaAPI} `{MapRange}.

(** [corev1.ResourceList] *)
Definition ResourceList : ty := MapOf Quantity.

(** ** The Go types *)

Definition BoolPolicy_ty : ty := struct
  [("Default", Ptr Bool);
   ("Force", Ptr Bool)].

Definition CleanupPolicy_ty : ty := struct
  [("Mode", String)].

Definition ClusterCapacityStatus_ty : ty := struct
  [("ActiveLeases", Int);
   ("MaxLeases", Ptr Int)].

Definition SecretKeySelector_ty : ty := struct
  [("Name", String);
   ("Namespace", String);
   ("Key", String)].

Definition ClusterCredentials_ty : ty := struct
  [("SecretRef", SecretKeySelector_ty)].

Definition ClusterStatus_ty : ty := struct
  [("Name", String);
   ("TargetUID", String);
   ("RemoteIdentity", String)].

Definition ClusterTargetSpec_ty : ty := struct
  [("Credentials", ClusterCredentials_ty);
   ("Labels", MapOf String);
   ("MaxActiveLeases", Ptr Int);
   ("ClientQPS", Ptr Int);
   ("ClientBurst", Ptr Int);
   ("Enabled", Ptr Bool)].

Definition ClusterTargetStatus_ty : ty := struct
  [("KubernetesVersion", String);
   ("RemoteIdentity", String);
   ("Capacity", Ptr ClusterCapacityStatus_ty);
   ("ObservedGeneration", Int);
   ("Conditions", Slice Condition)].

Definition ClusterTarget_ty : ty := struct
  [("TypeMeta", TypeMeta);
   ("ObjectMeta", ObjectMeta);
   ("Spec", ClusterTargetSpec_ty);
   ("Status", ClusterTargetStatus_ty)].

Definition ClusterTargetList_ty : ty := struct
  [("TypeMeta", TypeMeta);
   ("ListMeta", ListMeta);
   ("Items", Slice ClusterTarget_ty)].

Definition DurationPolicy_ty : ty := struct
  [("Default", Ptr Duration);
   ("Maximum", Ptr Duration);
   ("Minimum", Ptr Duration)].

Definition EffectiveLeaseSpec_ty : ty := struct
  [("PolicyName", String);
   ("TTL", Duration);
   ("MaxTTL", Duration);
   ("IdleTTL", Ptr Duration);
   ("Renewable", Bool);
   ("DefaultDeny", Bool)].

Definition LocalObjectReference_ty : ty := struct
  [("Name", String)].

Definition PlacementSpec_ty : ty := struct
  [("Selector", Ptr LabelSelector)].

Definition OwnerSpec_ty : ty := struct
  [("Name", String);
   ("Team", String)].

Definition NamespaceSpec_ty : ty := struct
  [("GenerateName", String);
   ("Name", String);
   ("Labels", MapOf String);
   ("Annotations", MapOf String)].

Definition QuotaSpec_ty : ty := struct
  [("Requests", ResourceList);
   ("Limits", ResourceList)].

Definition LimitsSpec_ty : ty := struct
  [("Default", ResourceList);
   ("DefaultRequest", ResourceList);
   ("Max", ResourceList);
   ("Min", ResourceList)].

Definition NetworkPolicySpec_ty : ty := struct
  [("DefaultDeny", Bool)].

Definition EnvironmentLeaseSpec_ty : ty := struct
  [("PolicyRef", Ptr LocalObjectReference_ty);
   ("ClusterRef", Ptr LocalObjectReference_ty);
   ("Placement", Ptr PlacementSpec_ty);
   ("CleanupPolicy", Ptr CleanupPolicy_ty);
   ("TTL", Ptr Duration);
   ("MaxTTL", Ptr Duration);
   ("IdleTTL", Ptr Duration);
   ("Renewable", Ptr Bool);
   ("Warnings", Slice Duration);
   ("Owner", OwnerSpec_ty);
   ("Namespace", NamespaceSpec_ty);
   ("Quota", Ptr QuotaSpec_ty);
   ("Limits", Ptr LimitsSpec_ty);
   ("NetworkPolicy", Ptr NetworkPolicySpec_ty)].

Definition EnvironmentLeaseStatus_ty : ty := struct
  [("Phase", String);
   ("Namespace", String);
   ("Cluster", Ptr ClusterStatus_ty);
   ("CreatedAt", Ptr Time);
   ("ExpiresAt", Ptr Time);
   ("MaximumExpiresAt", Ptr Time);
   ("LastActivityAt", Ptr Time);
   ("IdleExpiresAt", Ptr Time);
   ("EffectiveExpiresAt", Ptr Time);
   ("ExpirationReason", String);
   ("WarningsDelivered", Slice String);
   ("Effective", Ptr EffectiveLeaseSpec_ty);
   ("ObservedGeneration", Int);
   ("Conditions", Slice Condition)].

Definition EnvironmentLease_ty : ty := struct
  [("TypeMeta", TypeMeta);
   ("ObjectMeta", ObjectMeta);
   ("Spec", EnvironmentLeaseSpec_ty);
   ("Status", EnvironmentLeaseStatus_ty)].

Definition EnvironmentLeaseList_ty : ty := struct
  [("TypeMeta", TypeMeta);
   ("ListMeta", ListMeta);
   ("Items", Slice EnvironmentLease_ty)].

Definition QuotaPolicy_ty : ty := struct
  [("MaxCPU", Ptr Quantity);
   ("MaxMemory", Ptr Quantity)].

Definition NetworkPolicyPolicy_ty : ty := struct
  [("DefaultDenyRequired", Bool);
   ("DefaultDenyDefault", Ptr Bool)].

Definition EnvironmentLeasePolicySpec_ty : ty := struct
  [("TTL", Ptr DurationPolicy_ty);
   ("MaxTTL", Ptr DurationPolicy_ty);
   ("IdleTTL", Ptr DurationPolicy_ty);
   ("Renewable", Ptr BoolPolicy_ty);
   ("Quota", Ptr QuotaPolicy_ty);
   ("NetworkPolicy", Ptr NetworkPolicyPolicy_ty);
   ("Placement", Ptr PlacementSpec_ty)].

Definition EnvironmentLeasePolicyStatus_ty : ty := struct
  [("ObservedGeneration", Int)].

Definition EnvironmentLeasePolicy_ty : ty := struct
  [("TypeMeta", TypeMeta);
   ("ObjectMeta", ObjectMeta);
   ("Spec", EnvironmentLeasePolicySpec_ty);
   ("Status", EnvironmentLeasePolicyStatus_ty)].

Definition EnvironmentLeasePolicyList_ty : ty := struct
  [("TypeMeta", TypeMeta);
   ("ListMeta", ListMeta);
   ("Items", Slice EnvironmentLeasePolicy_ty)].

(** ** DeepCopyInto *)

Definition BoolPolicy_DeepCopyInto : stmt :=
  assign ;;;
  ifSet "Default" (newCopy Bool) ;;;
  ifSet "Force" (newCopy Bool).

Definition CleanupPolicy_DeepCopyInto : stmt := assign.

Definition ClusterCapacityStatus_DeepCopyInto : stmt :=
  assign ;;;
  ifSet "MaxLeases" (newCopy Int).

Definition SecretKeySelector_DeepCopyInto : stmt := assign.

Definition ClusterCredentials_DeepCopyInto : stmt :=
  assign ;;;
  onField "SecretRef" assign.

Definition ClusterStatus_DeepCopyInto : stmt := assign.

Definition ClusterTargetSpec_DeepCopyInto : stmt :=
  assign ;;;
  onField "Credentials" assign ;;;
  ifSet "Labels" mapCopy ;;;
  ifSet "MaxActiveLeases" (newCopy Int) ;;;
  ifSet "ClientQPS" (newCopy Int) ;;;
  ifSet "ClientBurst" (newCopy Int) ;;;
  ifSet "Enabled" (newCopy Bool).

Definition ClusterTargetStatus_DeepCopyInto : stmt :=
  assign ;;;
  ifSet "Capacity" (newDeep ClusterCapacityStatus_ty ClusterCapacityStatus_DeepCopyInto) ;;;
  ifSet "Conditions" (sliceDeep Condition Condition_DeepCopyInto).

Definition ClusterTarget_DeepCopyInto : stmt :=
  assign ;;;
  onField "TypeMeta" assign ;;;
  onField "ObjectMeta" ObjectMeta_DeepCopyInto ;;;
  onField "Spec" ClusterTargetSpec_DeepCopyInto ;;;
  onField "Status" ClusterTargetStatus_DeepCopyInto.

Definition ClusterTargetList_DeepCopyInto : stmt :=
  assign ;;;
  onField "TypeMeta" assign ;;;
  onField "ListMeta" ListMeta_DeepCopyInto ;;;
  ifSet "Items" (sliceDeep ClusterTarget_ty ClusterTarget_DeepCopyInto).

Definition DurationPolicy_DeepCopyInto : stmt :=
  assign ;;;
  ifSet "Default" (newCopy Duration) ;;;
  ifSet "Maximum" (newCopy Duration) ;;;
  ifSet "Minimum" (newCopy Duration).

Definition EffectiveLeaseSpec_DeepCopyInto : stmt :=
  assign ;;;
  onField "TTL" assign ;;;
  onField "MaxTTL" assign ;;;
  ifSet "IdleTTL" (newCopy Duration).

Definition LocalObjectReference_DeepCopyInto : stmt := assign.

Definition PlacementSpec_DeepCopyInto : stmt :=
  assign ;;;
  ifSet "Selector" (newDeep LabelSelector LabelSelector_DeepCopyInto).

Definition OwnerSpec_DeepCopyInto : stmt := assign.

Definition NamespaceSpec_DeepCopyInto : stmt :=
  assign ;;;
  ifSet "Labels" mapCopy ;;;
  ifSet "Annotations" mapCopy.

Definition QuotaSpec_DeepCopyInto : stmt :=
  assign ;;;
  ifSet "Requests" (mapDeep Quantity_DeepCopy) ;;;
  ifSet "Limits" (mapDeep Quantity_DeepCopy).

Definition LimitsSpec_DeepCopyInto : stmt :=
  assign ;;;
  ifSet "Default" (mapDeep Quantity_DeepCopy) ;;;
  ifSet "DefaultRequest" (mapDeep Quantity_DeepCopy) ;;;
  ifSet "Max" (mapDeep Quantity_DeepCopy) ;;;
  ifSet "Min" (mapDeep Quantity_DeepCopy).

Definition NetworkPolicySpec_DeepCopyInto : stmt := assign.

Definition EnvironmentLeaseSpec_DeepCopyInto : stmt :=
  assign ;;;
  ifSet "PolicyRef" (newCopy LocalObjectReference_ty) ;;;
  ifSet "ClusterRef" (newCopy LocalObjectReference_ty) ;;;
  ifSet "Placement" (newDeep PlacementSpec_ty PlacementSpec_DeepCopyInto) ;;;
  ifSet "CleanupPolicy" (newCopy CleanupPolicy_ty) ;;;
  ifSet "TTL" (newCopy Duration) ;;;
  ifSet "MaxTTL" (newCopy Duration) ;;;
  ifSet "IdleTTL" (newCopy Duration) ;;;
  ifSet "Renewable" (newCopy Bool) ;;;
  ifSet "Warnings" (sliceCopy Duration) ;;;
  onField "Owner" assign ;;;
  onField "Namespace" NamespaceSpec_DeepCopyInto ;;;
  ifSet "Quota" (newDeep QuotaSpec_ty QuotaSpec_DeepCopyInto) ;;;
  ifSet "Limits" (newDeep LimitsSpec_ty LimitsSpec_DeepCopyInto) ;;;
  ifSet "NetworkPolicy" (newCopy NetworkPolicySpec_ty).

Definition EnvironmentLeaseStatus_DeepCopyInto : stmt :=
  assign ;;;
  ifSet "Cluster" (newCopy ClusterStatus_ty) ;;;
  ifSet "CreatedAt" (viaPointer Time_DeepCopy) ;;;
  ifSet "ExpiresAt" (viaPointer Time_DeepCopy) ;;;
  ifSet "MaximumExpiresAt" (viaPointer Time_DeepCopy) ;;;
  ifSet "LastActivityAt" (viaPointer Time_DeepCopy) ;;;
  ifSet "IdleExpiresAt" (viaPointer Time_DeepCopy) ;;;
  ifSet "EffectiveExpiresAt" (viaPointer Time_DeepCopy) ;;;
  ifSet "WarningsDelivered" (sliceCopy String) ;;;
  ifSet "Effective" (newDeep EffectiveLeaseSpec_ty EffectiveLeaseSpec_DeepCopyInto) ;;;
  ifSet "Conditions" (sliceDeep Condition Condition_DeepCopyInto).

Definition EnvironmentLease_DeepCopyInto : stmt :=
  assign ;;;
  onField "TypeMeta" assign ;;;
  onField "ObjectMeta" ObjectMeta_DeepCopyInto ;;;
  onField "Spec" EnvironmentLeaseSpec_DeepCopyInto ;;;
  onField "Status" EnvironmentLeaseStatus_DeepCopyInto.

Definition EnvironmentLeaseList_DeepCopyInto : stmt :=
  assign ;;;
  onField "TypeMeta" assign ;;;
  onField "ListMeta" ListMeta_DeepCopyInto ;;;
  ifSet "Items" (sliceDeep EnvironmentLease_ty EnvironmentLease_DeepCopyInto).

Definition QuotaPolicy_DeepCopyInto : stmt :=
  assign ;;;
  ifSet "MaxCPU" (viaValue Quantity_DeepCopy) ;;;
  ifSet "MaxMemory" (viaValue Quantity_DeepCopy).

Definition NetworkPolicyPolicy_DeepCopyInto : stmt :=
  assign ;;;
  ifSet "DefaultDenyDefault" (newCopy Bool).

Definition EnvironmentLeasePolicySpec_DeepCopyInto : stmt :=
  assign ;;;
  ifSet "TTL" (newDeep DurationPolicy_ty DurationPolicy_DeepCopyInto) ;;;
  ifSet "MaxTTL" (newDeep DurationPolicy_ty DurationPolicy_DeepCopyInto) ;;;
  ifSet "IdleTTL" (newDeep DurationPolicy_ty DurationPolicy_DeepCopyInto) ;;;
  ifSet "Renewable" (newDeep BoolPolicy_ty BoolPolicy_DeepCopyInto) ;;;
  ifSet "Quota" (newDeep QuotaPolicy_ty QuotaPolicy_DeepCopyInto) ;;;
  ifSet "NetworkPolicy" (newDeep NetworkPolicyPolicy_ty NetworkPolicyPolicy_DeepCopyInto) ;;;
  ifSet "Placement" (newDeep PlacementSpec_ty PlacementSpec_DeepCopyInto).

Definition EnvironmentLeasePolicyStatus_DeepCopyInto : stmt := assign.

Definition EnvironmentLeasePolicy_DeepCopyInto : stmt :=
  assign ;;;
  onField "TypeMeta" assign ;;;
  onField "ObjectMeta" ObjectMeta_DeepCopyInto ;;;
  onField "Spec" EnvironmentLeasePolicySpec_DeepCopyInto ;;;
  onField "Status" assign.

Definition EnvironmentLeasePolicyList_DeepCopyInto : stmt :=
  assign ;;;
  onField "TypeMeta" assign ;;;
  onField "ListMeta" ListMeta_DeepCopyInto ;;;
  ifSet "Items" (sliceDeep EnvironmentLeasePolicy_ty EnvironmentLeasePolicy_DeepCopyInto).

(** ** DeepCopy and DeepCopyObject *)

Definition BoolPolicy_DeepCopy : value -> Go value :=
  deepCopy BoolPolicy_ty BoolPolicy_DeepCopyInto.

Definition CleanupPolicy_DeepCopy : value -> Go value :=
  deepCopy CleanupPolicy_ty CleanupPolicy_DeepCopyInto.

Definition ClusterCapacityStatus_DeepCopy : value -> Go value :=
  deepCopy ClusterCapacityStatus_ty ClusterCapacityStatus_DeepCopyInto.

Definition SecretKeySelector_DeepCopy : value -> Go value :=
  deepCopy SecretKeySelector_ty SecretKeySelector_DeepCopyInto.

Definition ClusterCredentials_DeepCopy : value -> Go value :=
  deepCopy ClusterCredentials_ty ClusterCredentials_DeepCopyInto.

Definition ClusterStatus_DeepCopy : value -> Go value :=
  deepCopy ClusterStatus_ty ClusterStatus_DeepCopyInto.

Definition ClusterTargetSpec_DeepCopy : value -> Go value :=
  deepCopy ClusterTargetSpec_ty ClusterTargetSpec_DeepCopyInto.

Definition ClusterTargetStatus_DeepCopy : value -> Go value :=
  deepCopy ClusterTargetStatus_ty ClusterTargetStatus_DeepCopyInto.

Definition ClusterTarget_DeepCopy : value -> Go value :=
  deepCopy ClusterTarget_ty ClusterTarget_DeepCopyInto.

Definition ClusterTargetList_DeepCopy : value -> Go value :=
  deepCopy ClusterTargetList_ty ClusterTargetList_DeepCopyInto.

Definition DurationPolicy_DeepCopy : value -> Go value :=
  deepCopy DurationPolicy_ty DurationPolicy_DeepCopyInto.

Definition EffectiveLeaseSpec_DeepCopy : value -> Go value :=
  deepCopy EffectiveLeaseSpec_ty EffectiveLeaseSpec_DeepCopyInto.

Definition LocalObjectReference_DeepCopy : value -> Go value :=
  deepCopy LocalObjectReference_ty LocalObjectReference_DeepCopyInto.

Definition PlacementSpec_DeepCopy : value -> Go value :=
  deepCopy PlacementSpec_ty PlacementSpec_DeepCopyInto.

Definition OwnerSpec_DeepCopy : value -> Go value :=
  deepCopy OwnerSpec_ty OwnerSpec_DeepCopyInto.

Definition NamespaceSpec_DeepCopy : value -> Go value :=
  deepCopy NamespaceSpec_ty NamespaceSpec_DeepCopyInto.

Definition QuotaSpec_DeepCopy : value -> Go value :=
  deepCopy QuotaSpec_ty QuotaSpec_DeepCopyInto.

Definition LimitsSpec_DeepCopy : value -> Go value :=
  deepCopy LimitsSpec_ty LimitsSpec_DeepCopyInto.

Definition NetworkPolicySpec_DeepCopy : value -> Go value :=
  deepCopy NetworkPolicySpec_ty NetworkPolicySpec_DeepCopyInto.

Definition EnvironmentLeaseSpec_DeepCopy : value -> Go value :=
  deepCopy EnvironmentLeaseSpec_ty EnvironmentLeaseSpec_DeepCopyInto.

Definition EnvironmentLeaseStatus_DeepCopy : value -> Go value :=
  deepCopy EnvironmentLeaseStatus_ty EnvironmentLeaseStatus_DeepCopyInto.

Definition EnvironmentLease_DeepCopy : value -> Go value :=
  deepCopy EnvironmentLease_ty EnvironmentLease_DeepCopyInto.

Definition EnvironmentLeaseList_DeepCopy : value -> Go value :=
  deepCopy EnvironmentLeaseList_ty EnvironmentLeaseList_DeepCopyInto.

Definition QuotaPolicy_DeepCopy : value -> Go value :=
  deepCopy QuotaPolicy_ty QuotaPolicy_DeepCopyInto.

Definition NetworkPolicyPolicy_DeepCopy : value -> Go value :=
  deepCopy NetworkPolicyPolicy_ty NetworkPolicyPolicy_DeepCopyInto.

Definition EnvironmentLeasePolicySpec_DeepCopy : value -> Go value :=
  deepCopy EnvironmentLeasePolicySpec_ty EnvironmentLeasePolicySpec_DeepCopyInto.

Definition EnvironmentLeasePolicyStatus_DeepCopy : value -> Go value :=
  deepCopy EnvironmentLeasePolicyStatus_ty EnvironmentLeasePolicyStatus_DeepCopyInto.

Definition EnvironmentLeasePolicy_DeepCopy : value -> Go value :=
  deepCopy EnvironmentLeasePolicy_ty EnvironmentLeasePolicy_DeepCopyInto.

Definition EnvironmentLeasePolicyList_DeepCopy : value -> Go value :=
  deepCopy EnvironmentLeasePolicyList_ty EnvironmentLeasePolicyList_DeepCopyInto.

Definition ClusterTarget_DeepCopyObject : value -> Go object :=
  deepCopyObject "ClusterTarget" ClusterTarget_DeepCopy.

Definition ClusterTargetList_DeepCopyObject : value -> Go object :=
  deepCopyObject "ClusterTargetList" ClusterTargetList_DeepCopy.

Definition EnvironmentLease_DeepCopyObject : value -> Go object :=
  deepCopyObject "EnvironmentLease" EnvironmentLease_DeepCopy.

Definition EnvironmentLeaseList_DeepCopyObject : value -> Go object :=
  deepCopyObject "EnvironmentLeaseList" EnvironmentLeaseList_DeepCopy.

Definition EnvironmentLeasePolicy_DeepCopyObject : value -> Go object :=
  deepCopyObject "EnvironmentLeasePolicy" EnvironmentLeasePolicy_DeepCopy.

Definition EnvironmentLeasePolicyList_DeepCopyObject : value -> Go object :=
  deepCopyObject "EnvironmentLeasePolicyList" EnvironmentLeasePolicyList_DeepCopy.

(** Every function of the file, with the type it copies. *)
Definition generatedCopies : list (ty * (value -> Go value)) :=
  [(BoolPolicy_ty, BoolPolicy_DeepCopy);
   (CleanupPolicy_ty, CleanupPolicy_DeepCopy);
   (ClusterCapacityStatus_ty, ClusterCapacityStatus_DeepCopy);
   (SecretKeySelector_ty, SecretKeySelector_DeepCopy);
   (ClusterCredentials_ty, ClusterCredentials_DeepCopy);
   (ClusterStatus_ty, ClusterStatus_DeepCopy);
   (ClusterTargetSpec_ty, ClusterTargetSpec_DeepCopy);
   (ClusterTargetStatus_ty, ClusterTargetStatus_DeepCopy);
   (ClusterTarget_ty, ClusterTarget_DeepCopy);
   (ClusterTargetList_ty, ClusterTargetList_DeepCopy);
   (DurationPolicy_ty, DurationPolicy_DeepCopy);
   (EffectiveLeaseSpec_ty, EffectiveLeaseSpec_DeepCopy);
   (LocalObjectReference_ty, LocalObjectReference_DeepCopy);
   (PlacementSpec_ty, PlacementSpec_DeepCopy);
   (OwnerSpec_ty, OwnerSpec_DeepCopy);
   (NamespaceSpec_ty, NamespaceSpec_DeepCopy);
   (QuotaSpec_ty, QuotaSpec_DeepCopy);
   (LimitsSpec_ty, LimitsSpec_DeepCopy);
   (NetworkPolicySpec_ty, NetworkPolicySpec_DeepCopy);
   (EnvironmentLeaseSpec_ty, EnvironmentLeaseSpec_DeepCopy);
   (EnvironmentLeaseStatus_ty, EnvironmentLeaseStatus_DeepCopy);
   (EnvironmentLease_ty, EnvironmentLease_DeepCopy);
   (EnvironmentLeaseList_ty, EnvironmentLeaseList_DeepCopy);
   (QuotaPolicy_ty, QuotaPolicy_DeepCopy);
   (NetworkPolicyPolicy_ty, NetworkPolicyPolicy_DeepCopy);
   (EnvironmentLeasePolicySpec_ty, EnvironmentLeasePolicySpec_DeepCopy);
   (EnvironmentLeasePolicyStatus_ty, EnvironmentLeasePolicyStatus_DeepCopy);
   (EnvironmentLeasePolicy_ty, EnvironmentLeasePolicy_DeepCopy);
   (EnvironmentLeasePolicyList_ty, EnvironmentLeasePolicyList_DeepCopy)].

Definition generatedObjects : list (string * ty * (value -> Go object)) :=
  [("ClusterTarget", ClusterTarget_ty, ClusterTarget_DeepCopyObject);
   ("ClusterTargetList", ClusterTargetList_ty, ClusterTargetList_DeepCopyObject);
   ("EnvironmentLease", EnvironmentLease_ty, EnvironmentLease_DeepCopyObject);
   ("EnvironmentLeaseList", EnvironmentLeaseList_ty, EnvironmentLeaseList_DeepCopyObject);
   ("EnvironmentLeasePolicy", EnvironmentLeasePolicy_ty, EnvironmentLeasePolicy_DeepCopyObject);
   ("EnvironmentLeasePolicyList", EnvironmentLeasePolicyList_ty, EnvironmentLeasePolicyList_DeepCopyObject)].

(** ** They copy deeply *)

Lemma refreshes_copies t s : copies t s -> refreshes t s.
Proof. apply copies_makes. Qed.

Create HintDb deepcopy discriminated.
#[local] Hint Constants Opaque : deepcopy.
#[local] Hint Transparent ResourceList : deepcopy.
#[local] Hint Resolve refreshes_unlessNil refreshes_copies copies_assign renews_newDeep
  renews_newCopy renews_viaPointer renews_viaValue renews_sliceDeep renews_sliceCopy
  renews_mapDeep renews_mapCopy : deepcopy.
#[local] Hint Extern 1 (plain _ = true) => reflexivity : deepcopy.

(** One statement of a struct: its field is new to the list and its shape is
    one the library has a rule for. *)
Ltac solve_fields :=
  lazymatch goal with
  | |- builds _ _ _ (andThen _ _) => eapply builds_then; [solve_fields | solve_fields]
  | |- _ => eapply builds_field; [reflexivity | reflexivity | eauto with deepcopy]
  end.

Ltac solve_copies :=
  first
    [ by apply copies_assign
    | eapply copies_struct;
        [ vm_compute; reflexivity
        | solve_fields
        | vm_compute; reflexivity ] ].

Context `{!MetaCopies}.

#[local] Hint Resolve copies_ObjectMeta copies_ListMeta copies_Condition copies_LabelSelector
  duplicates_Quantity duplicates_Time : deepcopy.

Lemma copies_BoolPolicy : copies BoolPolicy_ty BoolPolicy_DeepCopyInto.
Proof. solve_copies. Qed.
#[local] Hint Resolve copies_BoolPolicy : deepcopy.

Lemma copies_CleanupPolicy : copies CleanupPolicy_ty CleanupPolicy_DeepCopyInto.
Proof. solve_copies. Qed.
#[local] Hint Resolve copies_CleanupPolicy : deepcopy.

Lemma copies_ClusterCapacityStatus : copies ClusterCapacityStatus_ty ClusterCapacityStatus_DeepCopyInto.
Proof. solve_copies. Qed.
#[local] Hint Resolve copies_ClusterCapacityStatus : deepcopy.

Lemma copies_SecretKeySelector : copies SecretKeySelector_ty SecretKeySelector_DeepCopyInto.
Proof. solve_copies. Qed.
#[local] Hint Resolve copies_SecretKeySelector : deepcopy.

Lemma copies_ClusterCredentials : copies ClusterCredentials_ty ClusterCredentials_DeepCopyInto.
Proof. solve_copies. Qed.
#[local] Hint Resolve copies_ClusterCredentials : deepcopy.

Lemma copies_ClusterStatus : copies ClusterStatus_ty ClusterStatus_DeepCopyInto.
Proof. solve_copies. Qed.
#[local] Hint Resolve copies_ClusterStatus : deepcopy.

Lemma copies_ClusterTargetSpec : copies ClusterTargetSpec_ty ClusterTargetSpec_DeepCopyInto.
Proof. solve_copies. Qed.
#[local] Hint Resolve copies_ClusterTargetSpec : deepcopy.

Lemma copies_ClusterTargetStatus : copies ClusterTargetStatus_ty ClusterTargetStatus_DeepCopyInto.
Proof. solve_copies. Qed.
#[local] Hint Resolve copies_ClusterTargetStatus : deepcopy.

Lemma copies_ClusterTarget : copies ClusterTarget_ty ClusterTarget_DeepCopyInto.
Proof. solve_copies. Qed.
#[local] Hint Resolve copies_ClusterTarget : deepcopy.

Lemma copies_ClusterTargetList : copies ClusterTargetList_ty ClusterTargetList_DeepCopyInto.
Proof. solve_copies. Qed.
#[local] Hint Resolve copies_ClusterTargetList : deepcopy.

Lemma copies_DurationPolicy : copies DurationPolicy_ty DurationPolicy_DeepCopyInto.
Proof. solve_copies. Qed.
#[local] Hint Resolve copies_DurationPolicy : deepcopy.

Lemma copies_EffectiveLeaseSpec : copies EffectiveLeaseSpec_ty EffectiveLeaseSpec_DeepCopyInto.
Proof. solve_copies. Qed.
#[local] Hint Resolve copies_EffectiveLeaseSpec : deepcopy.

Lemma copies_LocalObjectReference : copies LocalObjectReference_ty LocalObjectReference_DeepCopyInto.
Proof. solve_copies. Qed.
#[local] Hint Resolve copies_LocalObjectReference : deepcopy.

Lemma copies_PlacementSpec : copies PlacementSpec_ty PlacementSpec_DeepCopyInto.
Proof. solve_copies. Qed.
#[local] Hint Resolve copies_PlacementSpec : deepcopy.

Lemma copies_OwnerSpec : copies OwnerSpec_ty OwnerSpec_DeepCopyInto.
Proof. solve_copies. Qed.
#[local] Hint Resolve copies_OwnerSpec : deepcopy.

Lemma copies_NamespaceSpec : copies NamespaceSpec_ty NamespaceSpec_DeepCopyInto.
Proof. solve_copies. Qed.
#[local] Hint Resolve copies_NamespaceSpec : deepcopy.

Lemma copies_QuotaSpec : copies QuotaSpec_ty QuotaSpec_DeepCopyInto.
Proof. solve_copies. Qed.
#[local] Hint Resolve copies_QuotaSpec : deepcopy.

Lemma copies_LimitsSpec : copies LimitsSpec_ty LimitsSpec_DeepCopyInto.
Proof. solve_copies. Qed.
#[local] Hint Resolve copies_LimitsSpec : deepcopy.

Lemma copies_NetworkPolicySpec : copies NetworkPolicySpec_ty NetworkPolicySpec_DeepCopyInto.
Proof. solve_copies. Qed.
#[local] Hint Resolve copies_NetworkPolicySpec : deepcopy.

Lemma copies_EnvironmentLeaseSpec : copies EnvironmentLeaseSpec_ty EnvironmentLeaseSpec_DeepCopyInto.
Proof. solve_copies. Qed.
#[local] Hint Resolve copies_EnvironmentLeaseSpec : deepcopy.

Lemma copies_EnvironmentLeaseStatus : copies EnvironmentLeaseStatus_ty EnvironmentLeaseStatus_DeepCopyInto.
Proof. solve_copies. Qed.
#[local] Hint Resolve copies_EnvironmentLeaseStatus : deepcopy.

Lemma copies_EnvironmentLease : copies EnvironmentLease_ty EnvironmentLease_DeepCopyInto.
Proof. solve_copies. Qed.
#[local] Hint Resolve copies_EnvironmentLease : deepcopy.

Lemma copies_EnvironmentLeaseList : copies EnvironmentLeaseList_ty EnvironmentLeaseList_DeepCopyInto.
Proof. solve_copies. Qed.
#[local] Hint Resolve copies_EnvironmentLeaseList : deepcopy.

Lemma copies_QuotaPolicy : copies QuotaPolicy_ty QuotaPolicy_DeepCopyInto.
Proof. solve_copies. Qed.
#[local] Hint Resolve copies_QuotaPolicy : deepcopy.

Lemma copies_NetworkPolicyPolicy : copies NetworkPolicyPolicy_ty NetworkPolicyPolicy_DeepCopyInto.
Proof. solve_copies. Qed.
#[local] Hint Resolve copies_NetworkPolicyPolicy : deepcopy.

Lemma copies_EnvironmentLeasePolicySpec : copies EnvironmentLeasePolicySpec_ty EnvironmentLeasePolicySpec_DeepCopyInto.
Proof. solve_copies. Qed.
#[local] Hint Resolve copies_EnvironmentLeasePolicySpec : deepcopy.

Lemma copies_EnvironmentLeasePolicyStatus : copies EnvironmentLeasePolicyStatus_ty EnvironmentLeasePolicyStatus_DeepCopyInto.
Proof. solve_copies. Qed.
#[local] Hint Resolve copies_EnvironmentLeasePolicyStatus : deepcopy.

Lemma copies_EnvironmentLeasePolicy : copies EnvironmentLeasePolicy_ty EnvironmentLeasePolicy_DeepCopyInto.
Proof. solve_copies. Qed.
#[local] Hint Resolve copies_EnvironmentLeasePolicy : deepcopy.

Lemma copies_EnvironmentLeasePolicyList : copies EnvironmentLeasePolicyList_ty EnvironmentLeasePolicyList_DeepCopyInto.
Proof. solve_copies. Qed.
#[local] Hint Resolve copies_EnvironmentLeasePolicyList : deepcopy.

(** Every [DeepCopy] copies deeply. *)
Lemma duplicates_generated :
  Forall (fun '(t, copy) => duplicates (Ptr t) copy) generatedCopies.
Proof.
  unfold generatedCopies.
  repeat (apply List.Forall_cons; [apply duplicates_deepCopy; solve [trivial with deepcopy]|]).
  apply List.Forall_nil.
Qed.

Lemma duplicates_generatedObjects :
  Forall (fun '(name, t, copy) => exists into,
    copy = deepCopyObject name (deepCopy t into) /\ copies t into) generatedObjects.
Proof.
  unfold generatedObjects.
  repeat (apply List.Forall_cons; [eexists; split; [reflexivity | solve [trivial with deepcopy]]|]).
  apply List.Forall_nil.
Qed.

(** Claim C32. Every [DeepCopy] of the generated file, called on a nil pointer
    or on a pointer to a value of its type, returns without a panic a pointer
    of the same kind; no object there was is written; the result is the
    original's value through every reference and reaches new objects only;
    later writes through one side are never seen through the other. *)
Theorem generated_DeepCopy_independent :
  Forall (fun '(t, copy) =>
    forall h v P, ofType P (Ptr t) h v ->
      exists h' v', copy v h = Some (v', h') /\ h ⊆ h' /\ isNil v' = isNil v /\
        copied (newIn h) (Ptr t) h v h' v' /\ independent P (Ptr t) h v h' v')
    generatedCopies.
Proof.
  eapply Forall_impl; [exact duplicates_generated|]. intros [t copy] Hd h v P Ht.
  destruct (Hd h v P Ht) as (h' & v' & Hrun & Hsub & Hc).
  exists h', v'. do 2 (split; [done|]).
  split; [by destruct Hc as [[-> ->]|(? & ? & ? & ? & -> & -> & _)]|].
  split; [done | by apply copied_independent].
Qed.

(** [DeepCopyObject] of the six root types returns, for a nil
    pointer, the nil interface, not an interface that holds a nil pointer, so
    the caller's comparison with nil is right; for any other pointer an
    interface of the receiver's own type that holds its deep copy. *)
Theorem generated_DeepCopyObject_nil_or_copy :
  Forall (fun '(name, t, copy) =>
    forall h v P, ofType P (Ptr t) h v ->
      if isNil v then copy v h = Some (NilObject, h)
      else exists h' v', copy v h = Some (ObjectOf name v', h') /\ isNil v' = false /\
        h ⊆ h' /\ copied (newIn h) (Ptr t) h v h' v' /\ independent P (Ptr t) h v h' v')
    generatedObjects.
Proof.
  eapply Forall_impl; [exact duplicates_generatedObjects|].
  intros [[name t] copy] (into & -> & Hinto) h v P Ht.
  destruct (duplicates_deepCopy t into Hinto h v P Ht) as (h' & v' & Hrun & Hsub & Hc).
  unfold deepCopyObject. rewrite (run_bind _ _ _ _ _ Hrun).
  pose proof Hc as Hc'.
  destruct Hc' as [[-> ->]|(a & w & a' & w' & -> & -> & _)]; simpl.
  - unfold deepCopy in Hrun. by injection Hrun as <-.
  - exists h', (Pointer (Some a')). do 4 (split; [done|]).
    by apply copied_independent.
Qed.

End Generated.

(** ** A concrete instance *)

(** A map is visited in key order; the library's types with some of their
    fields, and deep copies of the same shapes. *)
Definition sampleRange : MapRange := {| rangeOf m := map_to_list m; rangeOf_perm _ := reflexivity _ |}.

Definition sampleTime : ty := struct [("wall", Int)].
Definition sampleQuantity : ty := struct [("value", Int); ("Format", String)].
Definition sampleObjectMeta : ty := struct
  [("Name", String); ("Labels", MapOf String); ("DeletionTimestamp", Ptr sampleTime)].
Definition sampleSelector : ty := struct [("MatchLabels", MapOf String)].
Definition sampleCondition : ty := struct [("Type", String); ("LastTransitionTime", sampleTime)].

#[local] Existing Instance sampleRange.

Definition sampleMeta : MetaAPI := {|
  ObjectMeta := sampleObjectMeta;
  ListMeta := struct [("ResourceVersion", String)];
  Condition := sampleCondition;
  LabelSelector := sampleSelector;
  Quantity := sampleQuantity;
  Time := sampleTime;
  ObjectMeta_DeepCopyInto :=
    assign ;;; ifSet "Labels" mapCopy ;;; ifSet "DeletionTimestamp" (newCopy sampleTime);
  ListMeta_DeepCopyInto := assign;
  Condition_DeepCopyInto := assign ;;; onField "LastTransitionTime" assign;
  LabelSelector_DeepCopyInto := assign ;;; ifSet "MatchLabels" mapCopy;
  Quantity_DeepCopy := mret;
  Time_DeepCopy := deepCopy sampleTime assign
|}.

#[local] Existing Instance sampleMeta.

Lemma sampleCopies : MetaCopies.
Proof.
  split; simpl.
  - apply (copies_struct ["DeletionTimestamp"; "Labels"]); [reflexivity| |reflexivity].
    eapply builds_then; (eapply builds_field; [reflexivity|reflexivity|]);
      apply refreshes_unlessNil; [by apply renews_mapCopy | by apply renews_newCopy].
  - by apply copies_assign.
  - apply (copies_struct ["LastTransitionTime"]); [reflexivity| |reflexivity].
    eapply builds_field; [reflexivity|reflexivity|]. by apply refreshes_copies, copies_assign.
  - apply (copies_struct ["MatchLabels"]); [reflexivity| |reflexivity].
    eapply builds_field; [reflexivity|reflexivity|]. by apply refreshes_unlessNil, renews_mapCopy.
  - by apply duplicates_plain.
  - by apply duplicates_deepCopy, copies_assign.
Qed.

(** A lease with a TTL, a label and two warnings, the last two of the three
    elements of their array. *)
Definition sampleHours (n : Z) : value := StructV [("Duration", Scalar (SInt n))].

Definition sampleLease : value :=
  default (zeroOf EnvironmentLease_ty) (
    v ← setAt [Fld "Spec"; Fld "TTL"] (Pointer (Some (2%positive, []))) (zeroOf EnvironmentLease_ty);
    v ← setAt [Fld "Spec"; Fld "Namespace"; Fld "Labels"] (MapV (Some 3%positive)) v;
    setAt [Fld "Spec"; Fld "Warnings"] (SliceV (Some (4%positive, 1%nat, 2%nat))) v).

Definition sampleHeap : heap :=
  {[ 1%positive := sampleLease;
     2%positive := sampleHours 24;
     3%positive := TableV {[ "team" := Scalar (SString "core") ]};
     4%positive := ArrayV [sampleHours 9; sampleHours 6; sampleHours 1] ]}.

Definition sampleLeasePointer : value := Pointer (Some (1%positive, [])).

(** The TTL of the copy is the original's, in another object; the warnings
    are the two the slice showed, in an array of their own. *)
Example sampleCopy_shape :
  (r ← EnvironmentLease_DeepCopy sampleLeasePointer sampleHeap;
   let '(v, h) := (r : value * heap) in
   match v with
   | Pointer (Some a) =>
       let at_ f := readAt h (addrField (addrField a "Spec") f) in
       Some (match at_ "TTL", at_ "Warnings" with
             | Some (Pointer (Some t)), Some (SliceV (Some s)) =>
                 bool_decide (t.1 <> 2%positive) && bool_decide (s.1.1 <> 4%positive) &&
                 bool_decide (s.2 = 2%nat) && bool_decide (s.1.2 = O)
             | _, _ => false
             end)
   | _ => None
   end) = Some true.
Proof. vm_compute. reflexivity. Qed.

Lemma sampleLease_ofType :
  ofType (fun _ => True) (Ptr EnvironmentLease_ty) sampleHeap sampleLeasePointer.
Proof. apply ofTypeb_sound. vm_compute. reflexivity. Qed.

Lemma generated_DeepCopy_independent_witness :
  MetaCopies /\ exists h' v',
    EnvironmentLease_DeepCopy sampleLeasePointer sampleHeap = Some (v', h') /\ isNil v' = false /\
    independent (fun _ => True) (Ptr EnvironmentLease_ty) sampleHeap sampleLeasePointer h' v'.
Proof.
  split; [exact sampleCopies|].
  destruct (proj1 (List.Forall_forall _ _) (@generated_DeepCopy_independent _ _ sampleCopies)
    (EnvironmentLease_ty, EnvironmentLease_DeepCopy)
    ltac:(apply (List.nth_error_In _ 21); reflexivity)
    sampleHeap sampleLeasePointer _ sampleLease_ofType)
    as (h' & v' & Hrun & _ & Hnil & _ & Hind).
  exists h', v'. split; [exact Hrun|]. split; [exact Hnil | exact Hind].
Defined.

Lemma generated_DeepCopyObject_nil_or_copy_witness :
  EnvironmentLease_DeepCopyObject (Pointer None) sampleHeap = Some (NilObject, sampleHeap) /\
  exists h' v', EnvironmentLease_DeepCopyObject sampleLeasePointer sampleHeap =
    Some (ObjectOf "EnvironmentLease" v', h') /\ isNil v' = false.
Proof.
  pose proof (proj1 (List.Forall_forall _ _)
    (@generated_DeepCopyObject_nil_or_copy _ _ sampleCopies)
    ("EnvironmentLease", EnvironmentLease_ty, EnvironmentLease_DeepCopyObject)
    ltac:(apply (List.nth_error_In _ 2); reflexivity)) as Hall.
  split.
  - exact (Hall sampleHeap (Pointer None) (fun _ => True) (or_introl eq_refl)).
  - destruct (Hall sampleHeap sampleLeasePointer _ sampleLease_ofType)
      as (h' & v' & Hrun & Hnil & _).
    exists h', v'. split; [exact Hrun | exact Hnil].
Defined.
