(* ===== verification/System.v ===== *)
(** * The whole system: workers, commands and requests on one API server

    StatusInvariant.v looks at one program at a time and assumes what it reads.
    Here any number of reconciles, commands and webhook requests run
    interleaved, call by call, against one store of leases.  The API server is
    described by what it may do ([served]): reads may be answered from any
    earlier state, as a cache does; a write may be refused, carried out, or
    carried out and answered with an error, as after a lost connection; an
    update whose resource version is not the stored one is refused; a status
    update keeps the specification and an ordinary one the status.  New
    programs start at any time, programs crash, users edit.

    The invariant of StatusInvariant.v then needs no assumption: every version
    of a lease that is ever stored is well-formed ([store_stays_well_formed]).
    The second half executes two programs interleaved, with resource versions,
    and exhibits a heartbeat that is acknowledged and then lost
    ([heartbeat_lost]). *)

From S2P Require Import Prelude GoStrings GoTime GoErrors Api LeaseConditions LeaseStatus Resources.
From S2P Require Import Policy LeaseExpiration Lifetime LeaseWarnings Concrete Programs Kube World Identity Placement Outage Remote.
From S2P Require Import LeaseCommon LeaseProvision LeaseCleanup LeaseReconcile Runtime LeasePaths TargetController GoText CliBuild Cli WebhookNames WebhookActions StatusInvariant.

(** ** The store of leases *)

Section Hub.
Context `{QuantityAPI}.

Implicit Types (l o s : EnvironmentLease).

Notation key := (string * string)%type.

(** The leases there are, and every version that was ever stored. *)
Record Hub := mkHub {
  hub_current : gmap key EnvironmentLease;
  hub_versions : list EnvironmentLease
}.

Definition keyOf l : key := (l.(lease_Meta).(m_Namespace), l.(lease_Meta).(m_Name)).

(** A version is stored; an object that loses its last finalizer while it is
    being deleted goes away with it. *)
Definition stored (hub : Hub) l (hub' : Hub) : Prop :=
  hub'.(hub_versions) = l :: hub.(hub_versions) /\
  (hub'.(hub_current) = <[keyOf l := l]> hub.(hub_current) \/
   hub'.(hub_current) = delete (keyOf l) hub.(hub_current)).

(** Optimistic concurrency: the sent version is the stored one, or none. *)
Definition versionOk o s : Prop :=
  o.(lease_Meta).(m_ResourceVersion) = "" \/
  o.(lease_Meta).(m_ResourceVersion) = s.(lease_Meta).(m_ResourceVersion).

(** What each kind of write may store, given the lease that is there. *)
Definition createStores o (there : option EnvironmentLease) l : Prop :=
  there = None /\ (l.(lease_Status) = o.(lease_Status) \/ l.(lease_Status) = emptyStatus).
Definition updateStores o (there : option EnvironmentLease) l : Prop :=
  exists s, there = Some s /\ versionOk o s /\ l.(lease_Status) = s.(lease_Status).
Definition statusStores o (there : option EnvironmentLease) l : Prop :=
  exists s, there = Some s /\ versionOk o s /\ l.(lease_Status) = o.(lease_Status) /\
    l.(lease_Spec) = s.(lease_Spec).
Definition patchStores (there : option EnvironmentLease) l : Prop :=
  exists s, there = Some s /\ l.(lease_Status) = s.(lease_Status).

(** A write is refused; carried out; or carried out with the answer lost. *)
Definition written (allowed : option EnvironmentLease -> EnvironmentLease -> Prop)
    (hub : Hub) (res : result EnvironmentLease) (hub' : Hub) : Prop :=
  (hub' = hub /\ is_ok res = false) \/
  exists l, allowed (hub.(hub_current) !! keyOf l) l /\ stored hub l hub' /\
    (res = Ok l \/ is_ok res = false).

(** A read is answered from the present or from any earlier state. *)
Definition readFrom (hub : Hub) (res : result EnvironmentLease) (hub' : Hub) : Prop :=
  hub' = hub /\ forall l, res = Ok l -> l ∈ hub.(hub_versions).

Definition listedFrom (hub : Hub) (res : result (list EnvironmentLease)) (hub' : Hub) : Prop :=
  hub' = hub /\ forall ls, res = Ok ls -> Forall (fun l => l ∈ hub.(hub_versions)) ls.

(** A deletion marks the lease or removes it. *)
Definition deleted o (hub : Hub) (err : option error) (hub' : Hub) : Prop :=
  (hub' = hub /\ err <> None) \/
  exists l, patchStores (hub.(hub_current) !! keyOf o) l /\ keyOf l = keyOf o /\ stored hub l hub'.

Definition untouched {X} (hub : Hub) (_ : X) (hub' : Hub) : Prop := hub' = hub.

(** The API server on the calls about leases; anything may be answered to the
    other calls. *)
Definition served X (e : kube X) : Hub -> X -> Hub -> Prop :=
  match e in kube X return Hub -> X -> Hub -> Prop with
  | ClientGet _ k _ =>
      match k return Hub -> result (Obj k) -> Hub -> Prop with
      | KLease => readFrom | _ => untouched end
  | ClientList _ k _ =>
      match k return Hub -> result (list (Obj k)) -> Hub -> Prop with
      | KLease => listedFrom | _ => untouched end
  | ClientCreate _ k o =>
      match k return Obj k -> Hub -> result (Obj k) -> Hub -> Prop with
      | KLease => fun o => written (createStores o) | _ => fun _ => untouched end o
  | ClientUpdate _ k o =>
      match k return Obj k -> Hub -> result (Obj k) -> Hub -> Prop with
      | KLease => fun o => written (updateStores o) | _ => fun _ => untouched end o
  | ClientStatusUpdate _ k o =>
      match k return Obj k -> Hub -> result (Obj k) -> Hub -> Prop with
      | KLease => fun o => written (statusStores o) | _ => fun _ => untouched end o
  | ClientPatch _ k o _ =>
      match k return Obj k -> Hub -> result (Obj k) -> Hub -> Prop with
      | KLease => fun _ => written patchStores | _ => fun _ => untouched end o
  | ClientStatusPatch _ k o _ =>
      match k return Obj k -> Hub -> result (Obj k) -> Hub -> Prop with
      | KLease => fun o => written (statusStores o) | _ => fun _ => untouched end o
  | ClientDelete _ k o =>
      match k return Obj k -> Hub -> option error -> Hub -> Prop with
      | KLease => deleted | _ => fun _ => untouched end o
  | _ => untouched
  end.

(** What users do with kubectl: a lease is created, its specification or its
    metadata edited, or it is deleted; none of these carries a status. *)
Inductive userEdit (hub hub' : Hub) : Prop :=
  | user_create l : hub.(hub_current) !! keyOf l = None -> l.(lease_Status) = emptyStatus ->
      stored hub l hub' -> userEdit hub hub'
  | user_edit l : patchStores (hub.(hub_current) !! keyOf l) l -> stored hub l hub' ->
      userEdit hub hub'.

(** ** Interleaving *)

(** A program at work, whatever it returns. *)
Record thread := Thread { th_result : Type; th_prog : prog kube th_result }.

Record System := mkSystem { sys_hub : Hub; sys_threads : list thread }.

Inductive step (pool : thread -> Prop) : System -> System -> Prop :=
  | step_call i hub ts X (e : kube X) A (k : X -> prog kube A) x hub' :
      ts !! i = Some (Thread A (Act e k)) -> served X e hub x hub' ->
      step pool (mkSystem hub ts) (mkSystem hub' (<[i := Thread A (k x)]> ts))
  | step_spawn t hub ts :
      pool t -> step pool (mkSystem hub ts) (mkSystem hub (ts ++ [t]))
  | step_crash i hub ts : step pool (mkSystem hub ts) (mkSystem hub (delete i ts))
  | step_user hub ts hub' :
      userEdit hub hub' -> step pool (mkSystem hub ts) (mkSystem hub' ts).

Definition reaches (pool : thread -> Prop) : System -> System -> Prop := rtc (step pool).

End Hub.

(** ** Every stored lease is well-formed *)

Section Safety.
Context `{QuantityParser} `{ConditionsLaws} `{RetryLaws} `{Serializer} `{SelectorAPI} `{!ControllerutilAPI}.

Implicit Types (l o s : EnvironmentLease).

(** The programs of the system. *)
Inductive program : thread -> Prop :=
  | program_reconcile r req : program (Thread _ (Reconcile r req))
  | program_target req : program (Thread _ (TargetReconcile req))
  | program_command fuel output cmd : program (Thread _ (runCommand fuel output cmd))
  | program_action config req : program (Thread _ (handleAction config req))
  | program_pull_request config action merged ref id :
      program (Thread _ (handleGitHubPREvent config action merged ref id)).

Definition threadOk (t : thread) : Prop := welltyped (th_prog t) (fun _ => True).

Record hubOk (hub : Hub) : Prop := {
  hub_wf : Forall wellFormed hub.(hub_versions);
  hub_now : forall k l, hub.(hub_current) !! k = Some l -> l ∈ hub.(hub_versions)
}.

Lemma wellFormed_status l s : l.(lease_Status) = s.(lease_Status) -> wellFormed s -> wellFormed l.
Proof. intros E. by apply wellFormed_ext; rewrite E. Qed.

Lemma hub_current_wf hub k l : hubOk hub -> hub.(hub_current) !! k = Some l -> wellFormed l.
Proof. intros [Hwf Hnow] Hl. rewrite Forall_forall in Hwf. eauto. Qed.

Lemma hubOk_stored hub l hub' : hubOk hub -> wellFormed l -> stored hub l hub' -> hubOk hub'.
Proof.
  intros [Hwf Hnow] Hl [Hv Hc]. split; rewrite Hv; [by constructor|].
  intros k l' Hk. destruct Hc as [Hc|Hc]; rewrite Hc in Hk.
  - apply lookup_insert_Some in Hk as [[_ <-]|[_ Hk]]; [left|right; eauto].
  - apply lookup_delete_Some in Hk as [_ Hk]. right. eauto.
Qed.

(** The status of what a write stores is the status that was there, the one
    that was sent, or empty. *)
Lemma patchStores_wf hub k l : hubOk hub -> patchStores (hub.(hub_current) !! k) l -> wellFormed l.
Proof.
  intros Hhub (s & Hs & Hst). eapply wellFormed_status; [exact Hst|]. by eapply hub_current_wf.
Qed.

Lemma written_ok allowed hub res hub' :
  hubOk hub -> (forall k l, allowed (hub.(hub_current) !! k) l -> wellFormed l) ->
  written allowed hub res hub' -> hubOk hub' /\ leaseOk res.
Proof.
  intros Hhub Hal [[-> Hres]|(l & Hl & Hst & Hres)].
  - by destruct res.
  - split; [eapply hubOk_stored; eauto|]. destruct Hres as [-> |Hres]; [cbn; eauto|by destruct res].
Qed.

Lemma createStores_wf hub o k l :
  wellFormed o -> createStores o (hub.(hub_current) !! k) l -> wellFormed l.
Proof.
  intros Ho [_ [Hs|Hs]]; [by eapply wellFormed_status|].
  apply (wellFormed_status _ (mkEnvironmentLease l.(lease_Meta) l.(lease_Spec) emptyStatus) Hs).
  apply wellFormed_fresh.
Qed.

Lemma updateStores_wf hub o k l :
  hubOk hub -> updateStores o (hub.(hub_current) !! k) l -> wellFormed l.
Proof.
  intros Hhub (s & Hs & _ & Hst). eapply wellFormed_status; [exact Hst|]. by eapply hub_current_wf.
Qed.

Lemma statusStores_wf hub o k l :
  wellFormed o -> statusStores o (hub.(hub_current) !! k) l -> wellFormed l.
Proof. intros Ho (s & Hs & _ & Hst & _). by eapply wellFormed_status. Qed.

Lemma served_ok X (e : kube X) hub x hub' :
  hubOk hub -> leaseSent X e -> served X e hub x hub' -> hubOk hub' /\ leaseAnswered X e x.
Proof.
  intros Hhub He Hs.
  destruct e; cbn in *; try (by rewrite Hs); destruct k; cbn in *; try (by rewrite Hs);
    try (eapply written_ok; [exact Hhub| |exact Hs]; intros ? ?).
  - destruct Hs as [-> Hr]. split; [done|]. destruct x as [l|]; [|done]. cbn.
    destruct Hhub as [Hwf _]. rewrite Forall_forall in Hwf. eauto.
  - by destruct Hs as [-> _].
  - by apply createStores_wf.
  - by apply updateStores_wf.
  - by apply statusStores_wf.
  - by apply patchStores_wf.
  - by apply statusStores_wf.
  - destruct Hs as [[-> _]|(l & Hl & _ & Hst)]; [done|]. split; [|done].
    eapply hubOk_stored; [done| |exact Hst]. by eapply patchStores_wf.
Qed.

Lemma userEdit_ok hub hub' : hubOk hub -> userEdit hub hub' -> hubOk hub'.
Proof.
  intros Hhub [l Hnone Hs Hst|l Hp Hst]; (eapply hubOk_stored; [done| |exact Hst]).
  - apply (createStores_wf hub (mkEnvironmentLease l.(lease_Meta) l.(lease_Spec) emptyStatus) (keyOf l));
      [apply wellFormed_fresh|]. split; [done|by right].
  - by eapply patchStores_wf.
Qed.

Lemma typed_TargetReconcile req : welltyped (TargetReconcile req) (fun _ => True).
Proof.
  apply typed_every.
  unfold TargetReconcile, targetReconcileDelete, countReferencingLeases, removeTargetFinalizerAttempt,
    reconcileHealth, checkHealth, healthy, unhealthy, unreachable, identityDrift, refreshCapacity,
    CountActiveLeases, refreshClusterTargetMetrics, ProbeRemoteIdentity, setHealth, tryUpdateStatus,
    updateStatus, inc, cl_List, cl_Get, cl_Update, cl_StatusUpdate. every_tac.
Qed.

Lemma program_ok t : program t -> threadOk t.
Proof.
  intros [r req|req|fuel output cmd|config req|config action merged ref id]; unfold threadOk; cbn [th_prog].
  - apply typed_Reconcile.
  - apply typed_TargetReconcile.
  - apply typed_runCommand.
  - apply typed_handleAction.
  - apply typed_handleGitHubPREvent.
Qed.

(** The invariant: the store is well-formed, and so is all that the programs
    at work may still send. *)
Definition systemOk (sys : System) : Prop :=
  hubOk sys.(sys_hub) /\ Forall threadOk sys.(sys_threads).

Lemma step_ok sys sys' : systemOk sys -> step program sys sys' -> systemOk sys'.
Proof.
  intros [Hhub Hts] Hstep. destruct Hstep as [i hub ts X e A k x hub' Hi Hs|t hub ts Ht|i hub ts|hub ts hub' Hu];
    cbn [sys_hub sys_threads] in *.
  - assert (threadOk (Thread A (Act e k))) as [He Hk] by (rewrite Forall_lookup in Hts; by eapply Hts).
    destruct (served_ok _ _ _ _ _ Hhub He Hs) as [Hhub' Ha]. split; [done|]. cbn.
    apply Forall_insert; [done|]. unfold threadOk. cbn. by apply Hk.
  - split; [done|]. apply Forall_app. split; [done|]. apply Forall_singleton. by apply program_ok.
  - split; [done|]. by apply Forall_delete.
  - split; [by eapply userEdit_ok|done].
Qed.

Lemma reaches_ok sys sys' : systemOk sys -> reaches program sys sys' -> systemOk sys'.
Proof. intros Hok Hr. induction Hr as [sys|sys sys1 sys' Hs _ IH]; [done|]. by apply IH, (step_ok sys). Qed.

(** Claim C10. Whatever runs together: any number of lease and target
    reconciles, commands and webhook requests, started at any time, each making
    its calls in any order with those of the others, crashing anywhere, with
    reads answered from any earlier state, writes refused or carried out with
    the answer lost, and users who create, edit and delete leases. From a store
    of well-formed leases, every version of a lease that is ever stored is
    well-formed: unique conditions and warnings, and an expiration only together
    with its creation and its maximum, which it does not exceed. *)
Theorem store_stays_well_formed (hub hub' : Hub) (ts : list thread) :
  hubOk hub -> reaches program (mkSystem hub []) (mkSystem hub' ts) ->
  Forall wellFormed hub'.(hub_versions) /\
  forall k l, hub'.(hub_current) !! k = Some l -> wellFormed l.
Proof.
  intros Hhub Hr. destruct (reaches_ok (mkSystem hub []) (mkSystem hub' ts)) as [Hhub' _]; [by split|done|].
  split; [apply Hhub'|]. intros k l. by apply hub_current_wf.
Qed.

End Safety.

(** ** Two programs, executed call by call *)

Section Interrupt.
Context `{QuantityAPI}.

(** The reference world with resource versions: every accepted write gives the
    object a new one, and an update that carries another than the stored one is
    a conflict.  A patch made with [client.MergeFrom] carries none. *)
Definition stale (c : Client) (k : Kind) (o : Obj k) (w : World) : bool :=
  match objects k w !! slot c (ObjectKeyFromMeta (meta_of k o)) with
  | Some s =>
      negb (is_empty (meta_of k o).(m_ResourceVersion)) &&
      negb (String.eqb (meta_of k o).(m_ResourceVersion) (meta_of k s).(m_ResourceVersion))
  | None => false
  end.

Definition stamp (k : Kind) (n : Z) : Obj k -> Obj k :=
  with_meta k (fun m => m <| m_ResourceVersion := Itoa n |>).

(** The stored object gets the new version: a status update keeps its metadata. *)
Definition restamp (c : Client) (k : Kind) (o : Obj k) (n : Z) (w : World) : World :=
  set_objects k (alter (stamp k n) (slot c (ObjectKeyFromMeta (meta_of k o))) (objects k w)) w.

Definition conflict : error := StatusError ReasonConflict "the object has been modified".

Definition versioned X (e : kube X) (s : World * Z) : X * (World * Z) :=
  let '(w, n) := s in
  match e in kube X return X * (World * Z) with
  | ClientCreate c k o =>
      let '(x, w) := world_handler _ (ClientCreate c k (stamp k n o)) w in (x, (w, n + 1))
  | ClientUpdate c k o =>
      if stale c k o w then (Err conflict, s)
      else let '(x, w) := world_handler _ (ClientUpdate c k (stamp k n o)) w in (x, (w, n + 1))
  | ClientStatusUpdate c k o =>
      if stale c k o w then (Err conflict, s)
      else let '(x, w) := world_handler _ (ClientStatusUpdate c k o) (restamp c k o n w) in (x, (w, n + 1))
  | ClientPatch c k o b =>
      let '(x, w) := world_handler _ (ClientPatch c k (stamp k n o) b) w in (x, (w, n + 1))
  | ClientStatusPatch c k o b =>
      let '(x, w) := world_handler _ (ClientStatusPatch c k o b) (restamp c k o n w) in (x, (w, n + 1))
  | e => let '(x, w) := world_handler _ e w in (x, (w, n))
  end.

(** The first [n] calls of a program, and what is left of it. *)
Fixpoint callsOf {A} (n : nat) (p : prog kube A) (s : World * Z) : prog kube A * (World * Z) :=
  match n, p with
  | S n, Act e k => let '(x, s) := versioned _ e s in callsOf n (k x) s
  | _, p => (p, s)
  end.

(** [q] runs after the first [n] calls of [p], which then goes on. *)
Definition interrupt {A B} (n : nat) (p : prog kube A) (q : prog kube B) (s : World * Z)
  : A * B * (World * Z) :=
  let '(p, s) := callsOf n p s in
  let '(b, s, _) := exec versioned q s [] in
  let '(a, s, _) := exec versioned p s [] in
  (a, b, s).

End Interrupt.

Section Heartbeat.
#[local] Existing Instance milliQuantity.
#[local] Existing Instance listConditions.
#[local] Existing Instance exactSelectors.
#[local] Existing Instance listControllerutil.
#[local] Existing Instance fourAttempts.
#[local] Existing Instance listConditions_laws.
#[local] Existing Instance fourAttempts_laws.
#[local] Instance noQuantities : QuantityParser := {| MustParse _ := None |}.
#[local] Instance noText : Serializer := {| encodeJSON _ _ := ([], None); encodeYAML _ _ := ([], None) |}.

(** The lease of Runtime.v with an idle time of twenty minutes, provisioned at
    second 100; then eleven minutes pass, so that its warning is due. *)
Definition idleLease : EnvironmentLease :=
  demoLease <| lease_Spec := demoLease.(lease_Spec) <| spec_IdleTTL := Some (20 * Minute) |> |>.

Definition reconcileOnce (s : World * Z) : World * Z := (exec versioned (demoReconcile "demo") s []).1.2.

Definition idleStart : World * Z :=
  let '(w, n) := reconcileOnce (reconcileOnce (put HubClient KLease idleLease (emptyWorld (100 * Second)), 1)) in
  (w <| w_now := 100 * Second + 11 * Minute |>, n).

Definition touch : prog kube exit := runCommand 0 "" (CmdTouch "demo").

Definition activityOf (s : World * Z) : option time :=
  leaseIn s.1 ≫= fun l => l.(lease_Status).(st_LastActivityAt).

Definition exitedOk (code : exit) : bool := match code with ExitOK => true | _ => false end.

(** Before or after the reconcile the heartbeat counts: the lease lives until
    twenty minutes after it. *)
Example heartbeat_kept :
  forallb (fun n =>
    let '(res, code, s) := interrupt n (demoReconcile "demo") touch idleStart in
    exitedOk code && bool_decide (activityOf s = Some (100 * Second + 11 * Minute)))
    [0%nat; 20%nat] = true.
Proof. vm_compute. reflexivity. Qed.

(** At any point between the first call of the reconcile and its last, the
    command reports success and the heartbeat is lost: [patchStatusIfChanged]
    reads the lease again, so that there is no conflict, and replaces the whole
    status by the one computed from the first read.  Ten minutes later the
    environment is removed, ten minutes before its time. *)
Example heartbeat_lost :
  forallb (fun n =>
    let '(res, code, (w, v)) := interrupt n (demoReconcile "demo") touch idleStart in
    let later := reconcileOnce (reconcileOnce (w <| w_now := 100 * Second + 21 * Minute |>, v)) in
    exitedOk code && bool_decide (res.2 = None) &&
    bool_decide (activityOf (w, v) = Some (100 * Second)) &&
    bool_decide (namespaceIn later.1 "preview-x7k2p" = None))
    (seq 1 19) = true.
Proof. vm_compute. reflexivity. Qed.

(** Someone removes the namespace of the lease and makes another under its
    name, without the marks of the lease. *)
Definition strangersNamespace : Namespace :=
  mkNamespace (emptyMeta <| m_Name := "preview-x7k2p" |> <| m_UID := "stranger" |>) .

Definition takeOver : prog kube unit :=
  (_ <- cl_Delete HubClient KNamespace strangersNamespace ;;
   _ <- cl_Create HubClient KNamespace strangersNamespace ;;
   Ret tt)%prog.

(** Between the [Get] that proves the ownership and the [Delete], which carries
    no precondition, the namespace that is deleted is the stranger's. *)
Example foreign_namespace_deleted :
  let s := (idleStart.1 <| w_now := 4000 * Second |>, idleStart.2) in
  let remains n := (fun ns => ns.(ns_Meta).(m_UID)) <$>
    namespaceIn (interrupt n (demoReconcile "demo") takeOver s).2.1 "preview-x7k2p" in
  forallb (fun n => bool_decide (remains n = None)) [11%nat; 12%nat; 13%nat] &&
  forallb (fun n => bool_decide (remains n = Some "stranger")) [10%nat; 14%nat] = true.
Proof. vm_compute. reflexivity. Qed.

(** A user creates the lease, a reconcile starts, reads it and crashes. *)
Lemma store_stays_well_formed_witness :
  let hub := mkHub {[keyOf demoLease := demoLease]} [demoLease] in
  hubOk (mkHub ∅ []) /\ reaches program (mkSystem (mkHub ∅ []) []) (mkSystem hub []) /\
  Forall wellFormed hub.(hub_versions).
Proof.
  intros hub.
  assert (hubOk (mkHub ∅ [])) as Hok by (split; [constructor|intros k l Hl; discriminate Hl]).
  assert (reaches program (mkSystem (mkHub ∅ []) []) (mkSystem hub [])) as Hr.
  { eapply rtc_l; [apply (step_user program (mkHub ∅ []) [] hub), (user_create _ _ demoLease);
                   [reflexivity|reflexivity|by split; [|left]]|].
    eapply rtc_l; [eapply (step_spawn program _ hub []), (program_reconcile demoReconciler "demo")|].
    eapply rtc_l; [eapply (step_call program 0 hub _ _ _ _ _ (Ok demoLease) hub); [reflexivity|]|].
    - split; [reflexivity|]. intros l [= <-]. left.
    - eapply rtc_l; [apply (step_crash program 0)|]. reflexivity. }
  split; [exact Hok|]. split; [exact Hr|].
  exact (proj1 (store_stays_well_formed (mkHub ∅ []) hub [] Hok Hr)).
Defined.

End Heartbeat.
