(* ===== verification/GoFlag.v ===== *)
(** * Command lines: the flag package of the Go standard library

    [flag.Parse] as both binaries of the controller use it: which arguments are
    flags, where a value comes from, how it is read ([strconv.ParseBool],
    [strconv.ParseInt] with base 0), what ends the flags, and what is refused.
    A flag that a library registers ([zap], controller-runtime) is one of an
    unknown kind: its name, whether it is boolean, and a check of its values.

    The parser is related to a specification by settings: [parseArgs_settings]
    and [parseArgs_inv] say that a command line is accepted exactly when it is a
    sequence of well-formed settings in one of the spellings, followed by the
    end of the flags, and that the last setting of a flag counts. *)

From S2P Require Import Prelude GoStrings GoTime GoErrors GoText GoDuration.
From Stdlib Require Import Ascii.

(** ** strconv *)

Definition ParseBool (s : string) : option bool :=
  if bool_decide (s ∈ ["1"; "t"; "T"; "true"; "TRUE"; "True"]) then Some true
  else if bool_decide (s ∈ ["0"; "f"; "F"; "false"; "FALSE"; "False"]) then Some false
  else None.

Inductive numError := ErrSyntax | ErrRange.

Definition maxUint64 : Z := 2 ^ 64 - 1.

(** A digit of any base up to 36. *)
Definition digitValue (c : ascii) : option Z :=
  let n := Z.of_N (code c) in
  let l := Z.of_N (code (lower c)) in
  if (48 <=? n) && (n <=? 57) then Some (n - 48)
  else if (97 <=? l) && (l <=? 122) then Some (l - 97 + 10)
  else None.

(** The loop of [ParseUint], with base 0 given: underscores are skipped. *)
Fixpoint uintDigits (base n : Z) (l : list ascii) : Z + numError :=
  match l with
  | [] => inl n
  | c :: l =>
      if Ascii.eqb c "_" then uintDigits base n l
      else
        match digitValue c with
        | Some d =>
            if base <=? d then inr ErrSyntax
            else if maxUint64 <? n * base + d then inr ErrRange
            else uintDigits base (n * base + d) l
        | None => inr ErrSyntax
        end
  end.

(** [underscoreOK]: what was seen last is a digit or prefix, an underscore, or
    something else. *)
Inductive seen := SeenStart | SeenDigit | SeenUnderscore | SeenOther.

Definition isHexDigit (c : ascii) : bool :=
  let l := Z.of_N (code (lower c)) in (97 <=? l) && (l <=? 102).

Fixpoint underscores (hex : bool) (saw : seen) (l : list ascii) : bool :=
  match l with
  | [] => match saw with SeenUnderscore => false | _ => true end
  | c :: l =>
      if isDigit c || (hex && isHexDigit c) then underscores hex SeenDigit l
      else if Ascii.eqb c "_" then
        match saw with SeenDigit => underscores hex SeenUnderscore l | _ => false end
      else match saw with SeenUnderscore => false | _ => underscores hex SeenOther l end
  end.

(** The base prefix of [0x1f], [0b101], [0o17]. *)
Definition basePrefix (l : list ascii) : option (Z * list ascii) :=
  match l with
  | "0"%char :: c :: l =>
      if Ascii.eqb (lower c) "b" then Some (2, l)
      else if Ascii.eqb (lower c) "o" then Some (8, l)
      else if Ascii.eqb (lower c) "x" then Some (16, l)
      else None
  | _ => None
  end.

Definition underscoreOK (l : list ascii) : bool :=
  match basePrefix l with
  | Some (base, l) => underscores (base =? 16) SeenDigit l
  | None => underscores false SeenStart l
  end.

(** [ParseUint(s, 0, 64)], on a string without a sign. *)
Definition ParseUint0 (l : list ascii) : Z + numError :=
  match l with
  | [] => inr ErrSyntax
  | c :: tl =>
      let '(base, ds) :=
        match basePrefix l with
        | Some (base, d :: ds) => (base, d :: ds)
        | _ => if Ascii.eqb c "0" then (8, tl) else (10, l)
        end in
      match uintDigits base 0 ds with
      | inl n =>
          if existsb (Ascii.eqb "_") ds && negb (underscoreOK l) then inr ErrSyntax else inl n
      | inr err => inr err
      end
  end.

(** [ParseInt(s, 0, 64)] *)
Definition ParseInt0 (s : string) : Z + numError :=
  let '(neg, l) :=
    match String.list_ascii_of_string s with
    | "+"%char :: l => (false, l)
    | "-"%char :: l => (true, l)
    | l => (false, l)
    end in
  match ParseUint0 l with
  | inr ErrSyntax => inr ErrSyntax
  | inr ErrRange => inr ErrRange
  | inl un =>
      if negb neg && (two63 <=? un) then inr ErrRange
      else if neg && (two63 <? un) then inr ErrRange
      else inl (if neg then - un else un)
  end.

Example ParseInt0_ex : map ParseInt0 ["65536"; "0x10"; "-0b11"; "017"; "1_000"; "0"; "-9223372036854775808"]
  = map inl [65536; 16; -3; 15; 1000; 0; -9223372036854775808].
Proof. vm_compute. reflexivity. Qed.

Example ParseInt0_refused :
  map ParseInt0 [""; "-"; "9223372036854775808"; "1__0"; "08"; "0x"; "64k"; " 1"]
  = [inr ErrSyntax; inr ErrSyntax; inr ErrRange; inr ErrSyntax; inr ErrSyntax; inr ErrSyntax; inr ErrSyntax;
     inr ErrSyntax].
Proof. vm_compute. reflexivity. Qed.

(** ** Flags *)

(** The value of a flag; of a library's flag only the text is known. *)
Inductive flagValue :=
  | VString (s : string)
  | VBool (b : bool)
  | VInt64 (n : Z)
  | VOther (text : string).

Inductive flagKind :=
  | FString
  | FBool
  | FInt64
  | FOther (isBool : bool) (check : string -> option error).

Record flagDef := mkFlagDef { flag_name : string; flag_kind : flagKind; flag_default : flagValue }.

Definition isBoolFlag (k : flagKind) : bool :=
  match k with FBool => true | FOther b _ => b | _ => false end.

Definition numErrorText (e : numError) : error :=
  ErrorString (match e with ErrSyntax => "parse error" | ErrRange => "value out of range" end).

(** [Value.Set] *)
Definition parseFlagValue (k : flagKind) (s : string) : result flagValue :=
  match k with
  | FString => Ok (VString s)
  | FBool => match ParseBool s with Some b => Ok (VBool b) | None => Err (numErrorText ErrSyntax) end
  | FInt64 => match ParseInt0 s with inl n => Ok (VInt64 n) | inr e => Err (numErrorText e) end
  | FOther _ check => match check s with None => Ok (VOther s) | Some err => Err err end
  end.

Abbreviation flagState := (gmap string flagValue).

Definition flagDefaults (fs : list flagDef) : flagState :=
  list_to_map ((fun f => (f.(flag_name), f.(flag_default))) <$> fs).

Definition findFlag (fs : list flagDef) (name : string) : option flagDef :=
  find_first (fun f => String.eqb f.(flag_name) name) fs.

(** How the parsing ends: with the state and the arguments that are left; with
    the usage for [-help], exit code 0; or refused, exit code 2. *)
Inductive flagOutcome :=
  | FlagsParsed (st : flagState) (rest : list string)
  | FlagHelp
  | FlagBad (err : error).

(** A name and the value after the first [=] that is not at its start. *)
Fixpoint cutEquals (l : list ascii) : list ascii * option (list ascii) :=
  match l with
  | [] => ([], None)
  | c :: l =>
      if Ascii.eqb c "=" then ([], Some l)
      else let '(n, v) := cutEquals l in (c :: n, v)
  end.

(** What an argument is. *)
Inductive argument :=
  | NotAFlag
  | Terminator
  | BadSyntax
  | FlagArg (name : string) (value : option string).

Definition classify (s : string) : argument :=
  match String.list_ascii_of_string s with
  | "-"%char :: l =>
      match l with
      | [] => NotAFlag
      | d :: l' =>
          if Ascii.eqb d "-" && bool_decide (l' = []) then Terminator
          else
            match (if Ascii.eqb d "-" then l' else l) with
            | [] => BadSyntax
            | c :: name =>
                if Ascii.eqb c "-" || Ascii.eqb c "=" then BadSyntax
                else
                  let '(n, v) := cutEquals name in
                  FlagArg (String.string_of_list_ascii (c :: n)) (String.string_of_list_ascii <$> v)
            end
      end
  | _ => NotAFlag
  end.

(** [FlagSet.parseOne] until it stops. *)
Fixpoint parseArgs (fs : list flagDef) (st : flagState) (args : list string) : flagOutcome :=
  match args with
  | [] => FlagsParsed st []
  | s :: args' =>
      match classify s with
      | NotAFlag => FlagsParsed st args
      | Terminator => FlagsParsed st args'
      | BadSyntax => FlagBad (ErrorString ("bad flag syntax: " +:+ s))
      | FlagArg name value =>
          match findFlag fs name with
          | None =>
              if String.eqb name "help" || String.eqb name "h" then FlagHelp
              else FlagBad (ErrorString ("flag provided but not defined: -" +:+ name))
          | Some f =>
              if isBoolFlag f.(flag_kind) then
                match value with
                | Some v =>
                    match parseFlagValue f.(flag_kind) v with
                    | Ok x => parseArgs fs (<[name := x]> st) args'
                    | Err err =>
                        FlagBad (ErrorWrap ("invalid boolean value " +:+ quote v +:+ " for -" +:+ name) err)
                    end
                | None =>
                    match parseFlagValue f.(flag_kind) "true" with
                    | Ok x => parseArgs fs (<[name := x]> st) args'
                    | Err err => FlagBad (ErrorWrap ("invalid boolean flag " +:+ name) err)
                    end
                end
              else
                match value, args' with
                | Some v, _ =>
                    match parseFlagValue f.(flag_kind) v with
                    | Ok x => parseArgs fs (<[name := x]> st) args'
                    | Err err => FlagBad (ErrorWrap ("invalid value " +:+ quote v +:+ " for flag -" +:+ name) err)
                    end
                | None, v :: args'' =>
                    match parseFlagValue f.(flag_kind) v with
                    | Ok x => parseArgs fs (<[name := x]> st) args''
                    | Err err => FlagBad (ErrorWrap ("invalid value " +:+ quote v +:+ " for flag -" +:+ name) err)
                    end
                | None, [] => FlagBad (ErrorString ("flag needs an argument: -" +:+ name))
                end
          end
      end
  end.

(** [flag.Parse] with the flags and their defaults. *)
Definition Parse (fs : list flagDef) (args : list string) : flagOutcome :=
  parseArgs fs (flagDefaults fs) args.

(** The variables the flags are bound to. *)
Definition stringFlag (st : flagState) (name : string) : string :=
  match st !! name with Some (VString s) => s | _ => "" end.
Definition boolFlag (st : flagState) (name : string) : bool :=
  match st !! name with Some (VBool b) => b | _ => false end.
Definition int64Flag (st : flagState) (name : string) : Z :=
  match st !! name with Some (VInt64 n) => n | _ => 0 end.

(** ** Settings *)

(** One setting on a command line: [-n=v] or [--n=v], [-n v] or [--n v], and
    [-n] or [--n] for a boolean flag. *)
Inductive setForm :=
  | Joined (v : string)
  | Separate (v : string)
  | Bare.

Record setting := mkSetting { set_dashes : bool; set_name : string; set_form : setForm }.

Definition dashes (two : bool) : string := if two then "--" else "-".

Definition spell (s : setting) : list string :=
  let arg := dashes s.(set_dashes) +:+ s.(set_name) in
  match s.(set_form) with
  | Joined v => [arg +:+ "=" +:+ v]
  | Separate v => [arg; v]
  | Bare => [arg]
  end.

(** The setting gives a defined flag the value [x], in a form the flag takes. *)
Definition sets (fs : list flagDef) (s : setting) (x : flagValue) : Prop :=
  exists f, findFlag fs s.(set_name) = Some f /\
    match s.(set_form) with
    | Joined v => parseFlagValue f.(flag_kind) v = Ok x
    | Separate v => isBoolFlag f.(flag_kind) = false /\ parseFlagValue f.(flag_kind) v = Ok x
    | Bare => isBoolFlag f.(flag_kind) = true /\ parseFlagValue f.(flag_kind) "true" = Ok x
    end.

(** The names [flag.Var] accepts. *)
Definition validName (n : string) : bool :=
  match String.list_ascii_of_string n with
  | [] => false
  | c :: l => negb (Ascii.eqb c "-") && forallb (fun c => negb (Ascii.eqb c "=")) (c :: l)
  end.

Definition validFlags (fs : list flagDef) : Prop :=
  Forall (fun f => validName f.(flag_name) = true) fs.

(** The state after the settings, one after the other. *)
Definition applySettings (st : flagState) (sets : list (setting * flagValue)) : flagState :=
  foldl (fun st sx => <[sx.1.(set_name) := sx.2]> st) st sets.

(** The flags end at the end of the arguments, before one that is not a flag,
    or after a terminator. *)
Definition flagsEnd (tail rest : list string) : Prop :=
  (tail = rest /\ match rest with [] => True | s :: _ => classify s = NotAFlag end) \/
  exists s, tail = s :: rest /\ classify s = Terminator.

Lemma cutEquals_spec n v :
  forallb (fun c => negb (Ascii.eqb c "=")) n = true ->
  cutEquals (n ++ match v with Some v => "="%char :: v | None => [] end) = (n, v).
Proof.
  induction n as [|c n IH]; simpl.
  - intros _. by destruct v.
  - destruct (Ascii.eqb c "="); [done|]. simpl. intros Hn. by rewrite (IH Hn).
Qed.

Lemma cutEquals_inv l n v :
  cutEquals l = (n, v) ->
  l = n ++ match v with Some v => "="%char :: v | None => [] end /\
  forallb (fun c => negb (Ascii.eqb c "=")) n = true.
Proof.
  revert n v. induction l as [|c l IH]; intros n v; simpl; [by intros [= <- <-]|].
  destruct (Ascii.eqb c "=") eqn:Hc.
  - intros [= <- <-]. apply Ascii.eqb_eq in Hc as ->. done.
  - destruct (cutEquals l) as [n' v'] eqn:Hl. intros [= <- <-]. destruct (IH _ _ eq_refl) as [-> Hn].
    split; [done|]. simpl. by rewrite Hc.
Qed.

Definition chars_dashes (two : bool) : list ascii := if two then ["-"%char; "-"%char] else ["-"%char].

Lemma chars_arg two n (v : option string) :
  String.list_ascii_of_string (dashes two +:+ n +:+ match v with Some v => "=" +:+ v | None => "" end) =
  chars_dashes two ++ String.list_ascii_of_string n ++
    match v with Some v => "="%char :: String.list_ascii_of_string v | None => [] end.
Proof.
  rewrite !chars_app. f_equal; [by destruct two|]. f_equal. by destruct v.
Qed.

Lemma classify_arg two n v :
  validName n = true ->
  classify (dashes two +:+ n +:+ match v with Some v => "=" +:+ v | None => "" end) = FlagArg n v.
Proof.
  unfold validName, classify. rewrite chars_arg.
  destruct (String.list_ascii_of_string n) as [|c l] eqn:Hn; [done|]. cbn [forallb app].
  intros [Hdash [Heq Hl]%andb_true_iff]%andb_true_iff.
  apply negb_true_iff in Hdash, Heq.
  assert (Hcut : cutEquals (l ++ match v with
      | Some v => "="%char :: String.list_ascii_of_string v | None => [] end) =
      (l, String.list_ascii_of_string <$> v)) by (rewrite <- cutEquals_spec by done; by destruct v).
  assert (Hname : String.string_of_list_ascii (c :: l) = n).
  { rewrite <- Hn. apply String.string_of_list_ascii_of_string. }
  assert (Hv : String.string_of_list_ascii <$> (String.list_ascii_of_string <$> v) = v).
  { destruct v; [|done]. simpl. by rewrite String.string_of_list_ascii_of_string. }
  destruct two; cbn [chars_dashes app].
  - change (Ascii.eqb "-" "-") with true. cbv iota. cbn [andb].
    rewrite bool_decide_eq_false_2 by done. cbv iota. rewrite Hdash, Heq. cbn [orb].
    by rewrite Hcut, Hname, Hv.
  - rewrite Hdash. cbn [andb]. rewrite Hdash, Heq. cbn [orb]. by rewrite Hcut, Hname, Hv.
Qed.

Lemma classify_inv s n v :
  classify s = FlagArg n v ->
  validName n = true /\
  exists two, s = dashes two +:+ n +:+ match v with Some v => "=" +:+ v | None => "" end.
Proof.
  unfold classify. destruct (String.list_ascii_of_string s) as [|d0 l] eqn:Hs; [done|].
  destruct (Ascii.eqb d0 "-") eqn:Hd0; [apply Ascii.eqb_eq in Hd0 as ->|].
  2: { intros Hc. exfalso. destruct d0 as [[] [] [] [] [] [] [] []]; done. }
  destruct l as [|d l']; [done|].
  destruct (Ascii.eqb d "-" && bool_decide (l' = [])); [done|].
  set (name := if Ascii.eqb d "-" then l' else d :: l').
  destruct name as [|c m] eqn:Hname; [done|].
  destruct (Ascii.eqb c "-" || Ascii.eqb c "=") eqn:Hc; [done|]. apply orb_false_iff in Hc as [Hc1 Hc2].
  destruct (cutEquals m) as [n' v'] eqn:Hcut. intros [= <- <-].
  apply cutEquals_inv in Hcut as [-> Hn'].
  split.
  - unfold validName. cbn [String.list_ascii_of_string String.string_of_list_ascii].
    rewrite String.list_ascii_of_string_of_list_ascii. cbn [forallb].
    by rewrite Hc1, Hc2, Hn'.
  - exists (Ascii.eqb d "-"). apply chars_inj. rewrite chars_arg, Hs.
    cbn [String.list_ascii_of_string String.string_of_list_ascii].
    rewrite String.list_ascii_of_string_of_list_ascii.
    replace (match String.string_of_list_ascii <$> v' with
      | Some v => "="%char :: String.list_ascii_of_string v | None => [] end)
      with (match v' with Some v => "="%char :: v | None => [] end)
      by (destruct v'; [|done]; simpl; by rewrite String.list_ascii_of_string_of_list_ascii).
    unfold name in Hname. destruct (Ascii.eqb d "-") eqn:Hd.
    + apply Ascii.eqb_eq in Hd as ->. by rewrite Hname.
    + by injection Hname as -> ->.
Qed.

(** ** The parser does what the settings say *)

Lemma findFlag_name fs n f : findFlag fs n = Some f -> f.(flag_name) = n /\ f ∈ fs.
Proof. intros [Hin Hn]%find_first_Some. split; [by apply String.eqb_eq|done]. Qed.

Lemma findFlag_valid fs n f : validFlags fs -> findFlag fs n = Some f -> validName n = true.
Proof.
  intros Hv [<- Hin]%findFlag_name. unfold validFlags in Hv. rewrite Forall_forall in Hv. by apply Hv.
Qed.

Lemma spell_arg two n v : dashes two +:+ n +:+ "=" +:+ v = (dashes two +:+ n) +:+ "=" +:+ v.
Proof. apply chars_inj. by rewrite !chars_app, <- app_assoc. Qed.

Lemma arg_bare two n : dashes two +:+ n +:+ "" = dashes two +:+ n.
Proof. apply chars_inj. by rewrite !chars_app, app_nil_r. Qed.

Lemma classify_joined two n v : validName n = true -> classify ((dashes two +:+ n) +:+ "=" +:+ v) = FlagArg n (Some v).
Proof. intros Hn. rewrite <- spell_arg. by apply (classify_arg two n (Some v)). Qed.

Lemma classify_bare two n : validName n = true -> classify (dashes two +:+ n) = FlagArg n None.
Proof. intros Hn. rewrite <- arg_bare. by apply (classify_arg two n None). Qed.

(** One setting at the head of the arguments. *)
Lemma parseArgs_setting fs st s x rest :
  validFlags fs -> sets fs s x ->
  parseArgs fs st (spell s ++ rest) = parseArgs fs (<[s.(set_name) := x]> st) rest.
Proof.
  intros Hv (f & Hf & Hs). pose proof (findFlag_valid _ _ _ Hv Hf) as Hn.
  unfold spell. destruct (set_form s) as [v|v|]; cbn [app parseArgs].
  - rewrite classify_joined, Hf by done. destruct (isBoolFlag _); by rewrite Hs.
  - destruct Hs as [Hb Hs]. rewrite classify_bare, Hf by done. by rewrite Hb, Hs.
  - destruct Hs as [Hb Hs]. rewrite classify_bare, Hf by done. by rewrite Hb, Hs.
Qed.

Lemma parseArgs_end fs st tail rest : flagsEnd tail rest -> parseArgs fs st tail = FlagsParsed st rest.
Proof.
  intros [[-> Hr]|(s & -> & Hs)]; [|cbn; by rewrite Hs].
  destruct rest as [|s rest]; [done|]. cbn. by rewrite Hr.
Qed.

Lemma parseArgs_settings fs st (ss : list (setting * flagValue)) tail rest :
  validFlags fs -> Forall (fun sx => sets fs sx.1 sx.2) ss -> flagsEnd tail rest ->
  parseArgs fs st (concat ((fun sx => spell sx.1) <$> ss) ++ tail) = FlagsParsed (applySettings st ss) rest.
Proof.
  intros Hv Hss Hend. revert st. induction Hss as [|[s x] ss Hs _ IH]; intros st; cbn.
  - by apply parseArgs_end.
  - rewrite <- app_assoc, (parseArgs_setting _ _ _ x) by done. apply IH.
Qed.

Lemma parseArgs_inv fs st args st' rest :
  validFlags fs -> parseArgs fs st args = FlagsParsed st' rest ->
  exists ss tail, args = concat ((fun sx => spell sx.1) <$> ss) ++ tail /\
    Forall (fun sx => sets fs sx.1 sx.2) ss /\ flagsEnd tail rest /\ st' = applySettings st ss.
Proof.
  intros Hv. remember (length args) as n eqn:Hlen. revert args st Hlen.
  induction (lt_wf n) as [n _ IH]. intros args st ->. destruct args as [|s args]; cbn [parseArgs].
  { intros [= <- <-]. exists [], []. repeat split; [constructor|by left]. }
  destruct (classify s) as [| | |name value] eqn:Hc; try done.
  { intros [= <- <-]. exists [], (s :: args). repeat split; [constructor|by left]. }
  { intros [= <- <-]. exists [], (s :: args). repeat split; [constructor|right; by exists s]. }
  destruct (findFlag fs name) as [f|] eqn:Hf; [|by destruct (_ || _)].
  apply classify_inv in Hc as [Hn [two ->]].
  (* one setting read, the rest by induction *)
  assert (Hstep : forall form x args',
    sets fs (mkSetting two name form) x -> (length args' < length ((dashes two +:+ name +:+
      match value with Some v => "=" +:+ v | None => "" end) :: args))%nat ->
    spell (mkSetting two name form) ++ args' = (dashes two +:+ name +:+
      match value with Some v => "=" +:+ v | None => "" end) :: args ->
    parseArgs fs (<[name := x]> st) args' = FlagsParsed st' rest ->
    exists ss tail, (dashes two +:+ name +:+ match value with Some v => "=" +:+ v | None => "" end) :: args
        = concat ((fun sx => spell sx.1) <$> ss) ++ tail /\
      Forall (fun sx => sets fs sx.1 sx.2) ss /\ flagsEnd tail rest /\ st' = applySettings st ss).
  { intros form x args' Hset Hlt Hsp Hp.
    destruct (IH _ Hlt args' _ eq_refl Hp) as (ss & tail & -> & Hss & Hend & ->).
    exists ((mkSetting two name form, x) :: ss), tail. cbn. rewrite <- app_assoc, Hsp.
    repeat split; [by constructor|done]. }
  destruct (isBoolFlag (flag_kind f)) eqn:Hb; destruct value as [v|].
  - destruct (parseFlagValue (flag_kind f) v) as [x|] eqn:Hx; [|done].
    apply (Hstep (Joined v)); [by exists f|cbn; lia|]. cbn. by rewrite spell_arg.
  - destruct (parseFlagValue (flag_kind f) "true") as [x|] eqn:Hx; [|done].
    apply (Hstep Bare); [by exists f|cbn; lia|]. cbn [spell set_form set_dashes set_name app]. by rewrite arg_bare.
  - destruct (parseFlagValue (flag_kind f) v) as [x|] eqn:Hx; [|done].
    apply (Hstep (Joined v)); [by exists f|cbn; lia|]. cbn. by rewrite spell_arg.
  - destruct args as [|v args]; [done|].
    destruct (parseFlagValue (flag_kind f) v) as [x|] eqn:Hx; [|done].
    apply (Hstep (Separate v)); [by exists f|cbn; lia|]. cbn [spell set_form set_dashes set_name app]. by rewrite arg_bare.
Qed.

(** A command line is accepted exactly when it is a sequence of settings and an
    end, and then means what the settings say. *)
Lemma Parse_iff fs args st rest :
  validFlags fs ->
  Parse fs args = FlagsParsed st rest <->
  exists ss tail, args = concat ((fun sx => spell sx.1) <$> ss) ++ tail /\
    Forall (fun sx => sets fs sx.1 sx.2) ss /\ flagsEnd tail rest /\
    st = applySettings (flagDefaults fs) ss.
Proof.
  intros Hv. split; [by apply parseArgs_inv|]. intros (ss & tail & -> & Hss & Hend & ->).
  by apply parseArgs_settings.
Qed.

(** The last setting of a flag counts. *)
Fixpoint lastSetting (n : string) (ss : list (setting * flagValue)) : option flagValue :=
  match ss with
  | [] => None
  | (s, x) :: ss =>
      match lastSetting n ss with
      | Some y => Some y
      | None => if String.eqb s.(set_name) n then Some x else None
      end
  end.

Lemma applySettings_lookup st ss n :
  applySettings st ss !! n = match lastSetting n ss with Some x => Some x | None => st !! n end.
Proof.
  unfold applySettings. revert st. induction ss as [|[s x] ss IH]; intros st; cbn [foldl lastSetting]; [done|].
  rewrite IH. destruct (lastSetting n ss); [done|]. cbn [fst snd].
  destruct (String.eqb_spec (set_name s) n) as [->|Hn]; [by rewrite lookup_insert_eq|by rewrite lookup_insert_ne].
Qed.

(** ** Integers are read as they are printed *)

Lemma pretty_char_nonzero x : (0 < x < 10)%N -> pretty_N_char x <> "0"%char.
Proof.
  intros Hx. assert (Hin : In x (N.of_nat <$> seq 1 9)).
  { apply list_elem_of_In, list_elem_of_fmap. exists (N.to_nat x). split; [lia|]. apply elem_of_seq. lia. }
  cbn in Hin. repeat destruct Hin as [<-|Hin]; by try destruct Hin.
Qed.

Lemma pretty_go_leading (x : N) s :
  (0 < x)%N -> exists c ds, chars (pretty_N_go x s) = c :: ds /\ c <> "0"%char.
Proof.
  revert s. induction (N.lt_wf_0 x) as [x _ IH]. intros s Hx. rewrite pretty_N_go_step by done.
  destruct (decide (0 < x / 10)%N) as [Hd|Hd]; [apply IH; [by apply N.div_lt|done]|].
  assert (Hq : (x / 10 = 0)%N) by (destruct (x / 10)%N; [done|exfalso; apply Hd; lia]). rewrite Hq, pretty_N_go_0.
  exists (pretty_N_char (x mod 10)), (chars s). split; [done|]. apply pretty_char_nonzero.
  pose proof (N.div_mod x 10 ltac:(lia)). pose proof (N.mod_lt x 10 ltac:(lia)). lia.
Qed.

Lemma digitValue_digit c : isDigit c = true -> digitValue c = Some (digitOf c) /\ Ascii.eqb c "_" = false.
Proof. destruct c as [[] [] [] [] [] [] [] []]; done. Qed.

Lemma uintDigits_decimal x ds :
  digits ds -> 0 <= x -> decimal x ds <= maxUint64 -> uintDigits 10 x ds = inl (decimal x ds).
Proof.
  intros Hds. revert x. induction Hds as [|c ds Hc Hds IH]; intros x Hx Hle; [done|]. cbn [uintDigits].
  destruct (digitValue_digit c Hc) as [-> ->]. pose proof (digitOf_range c Hc).
  pose proof (decimal_ge (x * 10 + digitOf c) ds Hds ltac:(lia)) as Hge.
  rewrite (proj2 (Z.leb_gt _ _)) by lia. unfold decimal in Hle, Hge. cbn in Hle, Hge.
  rewrite (proj2 (Z.ltb_ge _ _)) by lia. apply IH; [lia|]. unfold decimal. lia.
Qed.

Lemma no_underscore ds : digits ds -> existsb (Ascii.eqb "_") ds = false.
Proof.
  induction 1 as [|c ds Hc _ IH]; [done|]. cbn [existsb]. rewrite IH.
  destruct c as [[] [] [] [] [] [] [] []]; done.
Qed.

Lemma ParseUint0_Itoa v : 0 <= v <= maxUint64 -> ParseUint0 (chars (Itoa v)) = inl v.
Proof.
  intros [Hv Hmax]. destruct (decide (v = 0)) as [->|Hne]; [done|].
  destruct (Itoa_decimal v Hv) as (c & ds & Hc & Hd & Hval).
  assert (Hc0 : c <> "0"%char).
  { destruct v as [|p|p]; [done| |lia]. change (Itoa (Z.pos p)) with (pretty_N_go (N.pos p) "") in Hc.
    destruct (pretty_go_leading (N.pos p) "" ltac:(lia)) as (c' & ds' & Hc' & Hc0). congruence. }
  unfold ParseUint0. rewrite Hc.
  assert (Hb : basePrefix (c :: ds) = None).
  { destruct (Ascii.eqb_spec c "0") as [?|_]; [done|]. destruct c as [[] [] [] [] [] [] [] []]; done. }
  rewrite Hb. rewrite (proj2 (Ascii.eqb_neq _ _)) by done. rewrite uintDigits_decimal by (done || lia).
  by rewrite no_underscore, Hval.
Qed.

Lemma unsigned_chars v : 0 <= v -> exists c l, chars (Itoa v) = c :: l /\ isDigit c = true.
Proof.
  intros Hv. destruct (Itoa_decimal v Hv) as (c & ds & Hc & Hd & _). exists c, ds. split; [done|]. by inversion Hd.
Qed.

(** [strconv.ParseInt] takes back what [strconv.Itoa] prints. *)
Lemma ParseInt0_Itoa v : - two63 <= v < two63 -> ParseInt0 (Itoa v) = inl v.
Proof.
  intros Hv. unfold ParseInt0. destruct (decide (0 <= v)) as [Hp|Hn].
  - destruct (unsigned_chars v Hp) as (c & l & Hc & Hd). rewrite Hc.
    assert (Hs : (match c :: l with
      | "+"%char :: l0 => (false, l0) | "-"%char :: l0 => (true, l0) | l0 => (false, l0) end) = (false, c :: l))
      by (destruct c as [[] [] [] [] [] [] [] []]; done).
    rewrite Hs, <- Hc, ParseUint0_Itoa by (unfold maxUint64, two63 in *; lia). cbn [andb negb].
    by rewrite (proj2 (Z.leb_gt _ _)) by lia.
  - destruct v as [|p|p]; [lia..|].
    change (chars (Itoa (Z.neg p))) with ("-"%char :: chars (Itoa (Z.pos p))).
    cbv iota beta. rewrite ParseUint0_Itoa by (unfold maxUint64, two63 in *; lia). cbn [andb negb].
    rewrite (proj2 (Z.ltb_ge _ _)) by lia. done.
Qed.

Lemma ParseBool_string b : ParseBool (bool_string b) = Some b.
Proof. by destruct b. Qed.
