(* ===== verification/ManagerStart.v ===== *)
(** * The manager's process (cmd/main.go)

    [main] from the command line to the exit code: the flags, the options of the
    two servers with the slices of closures they share, the manager, its
    controllers, and the order of everything that can fail.
    [manager_start_correct] says what an accepted command line leads to. *)

From S2P Require Import Prelude GoStrings GoTime GoErrors Api LeaseConditions LeaseStatus Resources.
From S2P Require Import Policy LeaseExpiration LeaseWarnings Concrete Programs Kube World Identity Placement Outage Remote.
From S2P Require Import Provider LeaseCommon LeaseProvision LeaseCleanup LeaseReconcile Runtime ManagerMain.
From S2P Require Import TargetController GoText GoFlag ManagerSetup.
From Stdlib Require Import Ascii.

(** ** path/filepath *)

(** The parts between slashes. *)
Fixpoint splitPath (l : list ascii) : list (list ascii) :=
  match l with
  | [] => [[]]
  | c :: l =>
      if Ascii.eqb c "/" then [] :: splitPath l
      else match splitPath l with p :: ps => (c :: p) :: ps | [] => [[c]] end
  end.

Definition dotdot : list ascii := ["."; "."]%char.

(** One part of a path, with the parts so far, the last first: a double dot takes
    the last one back, unless that is a double dot itself or there is none. *)
Definition cleanPart (rooted : bool) (out : list (list ascii)) (p : list ascii) : list (list ascii) :=
  if bool_decide (p = [] \/ p = ["."%char]) then out
  else if bool_decide (p = dotdot) then
    match out with
    | [] => if rooted then [] else [dotdot]
    | q :: out' => if bool_decide (q = dotdot) then dotdot :: out else out'
    end
  else p :: out.

Fixpoint joinPath (ps : list (list ascii)) : list ascii :=
  match ps with
  | [] => []
  | [p] => p
  | p :: ps => p ++ "/"%char :: joinPath ps
  end.

(** [filepath.Clean] and [filepath.Join] of two elements, on Unix. *)
Definition Clean (path : string) : string :=
  let l := chars path in
  let rooted := match l with c :: _ => Ascii.eqb c "/" | [] => false end in
  let out := joinPath (reverse (fold_left (cleanPart rooted) (splitPath l) [])) in
  match rooted, out with
  | true, _ => of_chars ("/"%char :: out)
  | false, [] => "."
  | false, _ => of_chars out
  end.

Definition Join (dir name : string) : string :=
  if is_empty dir then (if is_empty name then "" else Clean name)
  else Clean (dir +:+ "/" +:+ name).

Example Join_ex : map (fun '(d, n) => Join d n)
    [("/certs/", "tls.crt"); ("certs", "../tls.key"); ("/", "tls.crt"); ("a/./b", "../../../c"); ("/a", "../../b"); ("", "x")]
  = ["/certs/tls.crt"; "tls.key"; "/tls.crt"; "../c"; "/b"; "x"].
Proof. vm_compute. reflexivity. Qed.

(** ** Flags *)

Record managerSettings := mkManagerSettings {
  metricsAddr : string;
  probeAddr : string;
  enableLeaderElection : bool;
  secureMetrics : bool;
  webhookCertPath : string;
  webhookCertName : string;
  webhookCertKey : string;
  metricsCertPath : string;
  metricsCertName : string;
  metricsCertKey : string;
  enableHTTP2 : bool
}.

Definition managerFlags : list flagDef :=
  [mkFlagDef "metrics-bind-address" FString (VString "0");
   mkFlagDef "health-probe-bind-address" FString (VString ":8081");
   mkFlagDef "leader-elect" FBool (VBool false);
   mkFlagDef "metrics-secure" FBool (VBool true);
   mkFlagDef "webhook-cert-path" FString (VString "");
   mkFlagDef "webhook-cert-name" FString (VString "tls.crt");
   mkFlagDef "webhook-cert-key" FString (VString "tls.key");
   mkFlagDef "metrics-cert-path" FString (VString "");
   mkFlagDef "metrics-cert-name" FString (VString "tls.crt");
   mkFlagDef "metrics-cert-key" FString (VString "tls.key");
   mkFlagDef "enable-http2" FBool (VBool false)].

(** The variables of [main] after [flag.Parse]. *)
Definition managerSettingsOf (st : flagState) : managerSettings :=
  mkManagerSettings (stringFlag st "metrics-bind-address") (stringFlag st "health-probe-bind-address")
    (boolFlag st "leader-elect") (boolFlag st "metrics-secure")
    (stringFlag st "webhook-cert-path") (stringFlag st "webhook-cert-name") (stringFlag st "webhook-cert-key")
    (stringFlag st "metrics-cert-path") (stringFlag st "metrics-cert-name") (stringFlag st "metrics-cert-key")
    (boolFlag st "enable-http2").

(** ** Slices of closures *)

Section Slices.
(** The capacity [append] gives a new array for a length; the language only says
    that it is large enough. *)
Variable grow : nat -> nat.

Definition newArray (cells : list (option tlsOption)) : list (option tlsOption) :=
  cells ++ replicate (grow (length cells) - length cells) None.

(** [append(s, x)]: in place while the array has room, or in a new one. *)
Definition append (mem : arrays) (s : tlsSlice) (x : tlsOption) : arrays * tlsSlice :=
  match s with
  | None => (mem ++ [newArray [Some x]], Some (length mem, 1%nat))
  | Some (a, n) =>
      let cells := default [] (mem !! a) in
      if (n <? length cells)%nat then (<[a := <[n := Some x]> cells]> mem, Some (a, S n))
      else (mem ++ [newArray (take n cells ++ [Some x])], Some (length mem, S n))
  end.

End Slices.

(** [for _, opt := range s] *)
Definition contents (mem : arrays) (s : tlsSlice) : list tlsOption :=
  match s with
  | None => []
  | Some (a, n) => omap id (take n (default [] (mem !! a)))
  end.

(** What the closures change of a [tls.Config]. *)
Record tlsConfig := mkTLSConfig { NextProtos : list string; GetCertificate : option Watcher }.

Definition configure (base : tlsConfig) (opts : list tlsOption) : tlsConfig :=
  fold_left (fun c o =>
    match o with
    | disableHTTP2 => mkTLSConfig ["http/1.1"] c.(GetCertificate)
    | useCertificate w => mkTLSConfig c.(NextProtos) (Some w)
    end) opts base.

(** ** main *)

Section Main.
Context `{QuantityAPI} `{ConditionsAPI} `{SelectorAPI} `{!ControllerutilAPI} `{RetryAPI}.
Variable grow : nat -> nat.

(** The flags zap and controller-runtime register. *)
Variable libraryFlags : list flagDef.

(** [if err != nil { ...; os.Exit(1) }] *)
Definition orExit (e : option error) (k : prog start Z) : prog start Z :=
  match e with Some _ => Ret 1 | None => k end.

(** A watcher for a certificate that is given, and the closure that uses it. *)
Definition withCertificate (path name key : string) (mem : arrays) (opts : tlsSlice)
    (k : arrays -> tlsSlice -> option Watcher -> prog start Z) : prog start Z :=
  if is_empty path then k mem opts None
  else
    let w := mkWatcher (Join path name) (Join path key) in
    (e <- call (CertWatcherNew w) ;;
     orExit e (let '(mem, opts) := append grow mem opts (useCertificate w) in k mem opts (Some w)))%prog.

(** [if watcher != nil { mgr.Add(watcher) }] *)
Definition addWatcher (w : option Watcher) (k : prog start Z) : prog start Z :=
  match w with
  | None => k
  | Some w => (e <- call (ManagerAdd w) ;; orExit e k)%prog
  end.

Definition leaderElectionID : string := "0a0bd605.kubelease.io".

(** With the manager: the controllers, the watchers, the checks, and the run. *)
Definition runManager (metricsCertWatcher webhookCertWatcher : option Watcher) : prog start Z :=
  (cerr <- call HubClientNew ;;
   id <- onHub (controlID match cerr with None => Some HubClient | Some _ => None end) ;;
   '(_, e) <- LeaseSetupWithManager (mkReconciler id true true true false) ;;
   orExit e
     (e <- TargetSetupWithManager true ;;
      orExit e
        (addWatcher metricsCertWatcher (addWatcher webhookCertWatcher
           (e <- call (AddHealthzCheck "healthz") ;;
            orExit e
              (e <- call (AddReadyzCheck "readyz") ;;
               orExit e (e <- call ManagerStart ;; orExit e (Ret 0))))))))%prog.

Definition managerProcess (s : managerSettings) : prog start Z :=
  let '(mem, tlsOpts) := if s.(enableHTTP2) then ([], None) else append grow [] None disableHTTP2 in
  withCertificate s.(webhookCertPath) s.(webhookCertName) s.(webhookCertKey) mem tlsOpts
    (fun mem webhookTLSOpts webhookCertWatcher =>
     withCertificate s.(metricsCertPath) s.(metricsCertName) s.(metricsCertKey) mem tlsOpts
       (fun mem metricsTLSOpts metricsCertWatcher =>
        let options := mkManagerOptions
          (mkMetricsOptions s.(metricsAddr) s.(secureMetrics) s.(secureMetrics) metricsTLSOpts)
          webhookTLSOpts s.(probeAddr) s.(enableLeaderElection) leaderElectionID in
        (e <- call GetConfig ;;
         orExit e
           (e <- call (NewManager mem options) ;;
            orExit e (runManager metricsCertWatcher webhookCertWatcher)))%prog)).

(** [flag.CommandLine] exits by itself: with 0 for the usage, with 2 otherwise. *)
Definition managerStart (args : list string) : prog start Z :=
  match Parse (managerFlags ++ libraryFlags) args with
  | FlagHelp => Ret 0
  | FlagBad _ => Ret 2
  | FlagsParsed st _ => managerProcess (managerSettingsOf st)
  end.

(** ** What the process does *)

(** The calls that decide over the process. *)
Inductive phase :=
  | PhaseWatcher (w : Watcher)
  | PhaseConfig
  | PhaseManager
  | PhaseIndex (name : string)
  | PhaseController (name : string)
  | PhaseAdd (w : Watcher)
  | PhaseCheck (name : string)
  | PhaseRun.

Definition phaseOf {X} (e : start X) : option (phase * (X -> option error)) :=
  match e in start X return option (phase * (X -> option error)) with
  | CertWatcherNew w => Some (PhaseWatcher w, id)
  | GetConfig => Some (PhaseConfig, id)
  | NewManager _ _ => Some (PhaseManager, id)
  | HubClientNew | OnHub _ | GetEventRecorderFor _ => None
  | IndexField _ name _ => Some (PhaseIndex name, id)
  | Complete b => Some (PhaseController b.(bd_Named), id)
  | ManagerAdd w => Some (PhaseAdd w, id)
  | AddHealthzCheck name | AddReadyzCheck name => Some (PhaseCheck name, id)
  | ManagerStart => Some (PhaseRun, id)
  end.

(** A phase of a trace and whether it went well. *)
Definition phaseEvent (ev : event start) : option (phase * bool) :=
  match phaseOf ev.(ev_eff) with
  | Some (p, err) => Some (p, match err ev.(ev_resp) with None => true | Some _ => false end)
  | None => None
  end.

(** The phases of a run, in their order. *)
Definition phases (tr : trace start) : list (phase * bool) := omap phaseEvent (reverse tr).

(** The watcher of a certificate, if one is given. *)
Definition certificate (path name key : string) : option Watcher :=
  if is_empty path then None else Some (mkWatcher (Join path name) (Join path key)).
Definition webhookCertificate (s : managerSettings) : option Watcher :=
  certificate s.(webhookCertPath) s.(webhookCertName) s.(webhookCertKey).
Definition metricsCertificate (s : managerSettings) : option Watcher :=
  certificate s.(metricsCertPath) s.(metricsCertName) s.(metricsCertKey).

Definition expectedPhases (s : managerSettings) : list phase :=
  option_list (PhaseWatcher <$> webhookCertificate s) ++ option_list (PhaseWatcher <$> metricsCertificate s) ++
  [PhaseConfig; PhaseManager; PhaseIndex indexStatusNamespace; PhaseIndex indexPolicyRefName;
   PhaseIndex indexClusterRefName; PhaseIndex StatusClusterNameIndex;
   PhaseController "environmentlease"; PhaseController "clustertarget"] ++
  option_list (PhaseAdd <$> metricsCertificate s) ++ option_list (PhaseAdd <$> webhookCertificate s) ++
  [PhaseCheck "healthz"; PhaseCheck "readyz"; PhaseRun].

(** What the settings ask of a server: HTTP/2 only if enabled, and its own
    certificate, or the one the library provides. *)
Definition serverConfig (s : managerSettings) (w : option Watcher) (base : tlsConfig) : tlsConfig :=
  mkTLSConfig (if s.(enableHTTP2) then base.(NextProtos) else ["http/1.1"])
    (match w with Some w => Some w | None => base.(GetCertificate) end).

Record servesAs (s : managerSettings) (mem : arrays) (o : ManagerOptions) : Prop := {
  sv_webhook : forall base, configure base (contents mem o.(op_WebhookTLSOpts)) = serverConfig s (webhookCertificate s) base;
  sv_metrics : forall base, configure base (contents mem o.(op_Metrics).(mo_TLSOpts)) = serverConfig s (metricsCertificate s) base;
  sv_address : o.(op_Metrics).(mo_BindAddress) = s.(metricsAddr);
  sv_secure : o.(op_Metrics).(mo_SecureServing) = s.(secureMetrics);
  sv_protected : o.(op_Metrics).(mo_FilterProvider) = true <-> s.(secureMetrics) = true;
  sv_probes : o.(op_HealthProbeBindAddress) = s.(probeAddr);
  sv_election : o.(op_LeaderElection) = s.(enableLeaderElection) /\ o.(op_LeaderElectionID) = leaderElectionID
}.

(** What each call of the process must be. *)
Definition startsWell (s : managerSettings) X (_ : trace start) (e : start X) : Prop :=
  match e with
  | NewManager mem o => servesAs s mem o
  | Complete b => b = targetBuilder \/ exists id, b = leaseBuilder (mkReconciler id true true true true)
  | OnHub e => writes e = false
  | _ => True
  end.

(** The process has gone through the first phases; it stopped at one. *)
Definition ready (s : managerSettings) (rest : list phase) (h : trace start) : Prop :=
  exists ps, expectedPhases s = ps ++ rest /\ phases h = (fun p => (p, true)) <$> ps.

Definition stopped (s : managerSettings) (h : trace start) : Prop :=
  exists ps q rest, expectedPhases s = ps ++ q :: rest /\ phases h = ((fun p => (p, true)) <$> ps) ++ [(q, false)].

Definition finished (s : managerSettings) (h : trace start) (code : Z) : Prop :=
  (code = 0 /\ ready s [] h) \/ (code = 1 /\ stopped s h).

(** After a call, with the error it answered. *)
Definition reached (s : managerSettings) (rest : list phase) (h : trace start) (e : option error) : Prop :=
  match e with None => ready s rest h | Some _ => stopped s h end.

Lemma phases_cons ev h : phases (ev :: h) = phases h ++ option_list (phaseEvent ev).
Proof. unfold phases. rewrite reverse_cons, omap_app. cbn. by destruct (phaseEvent ev). Qed.

Lemma phases_silent ev h : phaseEvent ev = None -> phases (ev :: h) = phases h.
Proof. intros He. by rewrite phases_cons, He, app_nil_r. Qed.

Lemma phaseEvent_call (e : start (option error)) q x :
  phaseOf e = Some (q, id) ->
  phaseEvent (Ev e x) = Some (q, match x with None => true | Some _ => false end).
Proof.
  intros He. change (match phaseOf e with
    | Some (p, err) => Some (p, match err x with None => true | Some _ => false end)
    | None => None
    end = Some (q, match x with None => true | Some _ => false end)).
  by rewrite He.
Qed.

(** A call that decides: on to the next phase, or out. *)
Lemma reached_call s (e : start (option error)) q rest h :
  phaseOf e = Some (q, id) -> startsWell s _ h e -> ready s (q :: rest) h ->
  safe (startsWell s) (call e) h (reached s rest).
Proof.
  intros He Hw (ps & Hps & Hh). split; [done|]. intros x. cbn.
  assert (Hx : phases (Ev e x :: h) = ((fun p => (p, true)) <$> ps) ++ [(q, match x with None => true | Some _ => false end)]).
  { by rewrite phases_cons, Hh, (phaseEvent_call e q x He). }
  destruct x as [err|]; [by exists ps, q, rest|].
  exists (ps ++ [q]). split; [by rewrite Hps, <- app_assoc|]. by rewrite Hx, fmap_app.
Qed.

Lemma reached_bind {A} s (p : prog start A) (err : A -> option error) (k : A -> prog start Z) rest h :
  safe (startsWell s) p h (fun h a => reached s rest h (err a)) ->
  (forall a h, err a = None -> ready s rest h -> safe (startsWell s) (k a) h (finished s)) ->
  safe (startsWell s) (bind p (fun a => orExit (err a) (k a))) h (finished s).
Proof.
  intros Hp Hk. rewrite safe_bind. eapply safe_post; [exact Hp|]. intros h' a. cbn.
  destruct (err a) as [e|] eqn:He; cbn; [|by apply Hk]. intros Hs. by right.
Qed.

(** [e := call; if e != nil { os.Exit(1) }; k] *)
Lemma phase_step s (e : start (option error)) q rest k h :
  phaseOf e = Some (q, id) -> startsWell s _ h e -> ready s (q :: rest) h ->
  (forall h, ready s rest h -> safe (startsWell s) k h (finished s)) ->
  safe (startsWell s) (bind (call e) (fun x => orExit x k)) h (finished s).
Proof.
  intros He Hw Hr Hk. apply (reached_bind s (call e) id (fun _ => k) rest); [|by intros _ h' _; apply Hk].
  by apply (reached_call s e q).
Qed.

Lemma indexFields_reached s idx rest h :
  ready s ((PhaseIndex <$> idx.*1) ++ rest) h -> safe (startsWell s) (indexFields idx) h (reached s rest).
Proof.
  revert h. induction idx as [|[name f] idx IH]; intros h Hr; cbn [indexFields]; [done|]. rewrite safe_bind.
  eapply safe_post; [by apply (reached_call s _ (PhaseIndex name) ((PhaseIndex <$> idx.*1) ++ rest))|].
  intros h' [err|]; cbn; [done|apply IH].
Qed.

Lemma LeaseSetup_reached s id rest h :
  ready s ((PhaseIndex <$> fieldIndexes.*1) ++ PhaseController "environmentlease" :: rest) h ->
  safe (startsWell s) (LeaseSetupWithManager (mkReconciler id true true true false)) h (fun h x => reached s rest h x.2).
Proof.
  intros Hr. unfold LeaseSetupWithManager. cbn [rec_Recorder negb when]. rewrite safe_bind. split; [done|]. intros []. cbn [safe]; cbv beta zeta.
  rewrite safe_bind. eapply safe_post; [apply (indexFields_reached s _ (PhaseController "environmentlease" :: rest))|].
  - destruct Hr as (ps & Hps & Hh). exists ps. split; [done|]. by rewrite phases_silent.
  - intros h' [err|]; cbn -[call]; [done|]. intros Hr'. rewrite safe_bind.
    eapply safe_post; [apply (reached_call s _ (PhaseController "environmentlease") rest); [done|right; by exists id|done]|].
    by intros h'' [err|].
Qed.

Lemma controlID_ready s hub rest h :
  ready s rest h -> safe (startsWell s) (onHub (controlID hub)) h (fun h _ => ready s rest h).
Proof.
  intros Hr. unfold controlID. destruct hub as [c|]; [|done]. cbn -[phases].
  split; [done|]. intros x. cbn.
  assert (Hx : ready s rest (Ev (OnHub (ClientGet c KNamespace (named "kube-system"))) x :: h)).
  { destruct Hr as (ps & Hps & Hh). exists ps. split; [done|]. by rewrite phases_silent. }
  by destruct x as [ns|err]; [cbn; case_match|].
Qed.

Lemma addWatcher_reached s w rest k h :
  ready s (option_list (PhaseAdd <$> w) ++ rest) h ->
  (forall h, ready s rest h -> safe (startsWell s) k h (finished s)) ->
  safe (startsWell s) (addWatcher w k) h (finished s).
Proof. intros Hr Hk. destruct w as [w|]; cbn -[call] in *; [|by apply Hk]. by apply (phase_step s _ (PhaseAdd w) rest). Qed.

(** The phases with a manager in hand. *)
Definition managedPhases (mw ww : option Watcher) : list phase :=
  (PhaseIndex <$> fieldIndexes.*1) ++ PhaseController "environmentlease" :: PhaseController "clustertarget" ::
  option_list (PhaseAdd <$> mw) ++ option_list (PhaseAdd <$> ww) ++
  [PhaseCheck "healthz"; PhaseCheck "readyz"; PhaseRun].

Lemma runManager_finished s mw ww h :
  ready s (managedPhases mw ww) h -> safe (startsWell s) (runManager mw ww) h (finished s).
Proof.
  intros Hr. unfold runManager. rewrite safe_bind. split; [done|]. intros cerr. cbn [safe].
  rewrite safe_bind. eapply safe_post.
  { apply controlID_ready with (rest := managedPhases mw ww). destruct Hr as (ps & Hps & Hh). exists ps.
    split; [done|]. by rewrite phases_silent. }
  intros h1 i Hr1. rewrite safe_bind. eapply safe_post; [exact (LeaseSetup_reached s i _ h1 Hr1)|]. intros h2 [r e]. cbn [snd].
  intros Hr2. destruct e as [err|]; cbn [orExit]; [by right|].
  unfold TargetSetupWithManager.
  eapply phase_step; [reflexivity|by left|exact Hr2|]. intros h3 Hr3.
  eapply addWatcher_reached; [exact Hr3|]. intros h4 Hr4.
  eapply addWatcher_reached; [exact Hr4|]. intros h5 Hr5.
  eapply phase_step; [reflexivity|done|exact Hr5|]. intros h6 Hr6.
  eapply phase_step; [reflexivity|done|exact Hr6|]. intros h7 Hr7.
  eapply phase_step; [reflexivity|done|exact Hr7|]. intros h8 Hr8. by left.
Qed.

Lemma withCertificate_reached s path name key mem opts rest k h :
  ready s (option_list (PhaseWatcher <$> certificate path name key) ++ rest) h ->
  (forall h, ready s rest h ->
     let '(mem, opts) := match certificate path name key with
                         | Some w => append grow mem opts (useCertificate w) | None => (mem, opts) end in
     safe (startsWell s) (k mem opts (certificate path name key)) h (finished s)) ->
  safe (startsWell s) (withCertificate path name key mem opts k) h (finished s).
Proof.
  unfold withCertificate, certificate. destruct (is_empty path); [intros Hr Hk; by apply Hk|].
  intros Hr Hk. eapply phase_step; [done|done|exact Hr|]. intros h' Hr'. specialize (Hk h' Hr').
  by destruct (append _ _ _ _).
Qed.

(** The slices [main] ends with. *)
Definition serverSlices (s : managerSettings) : arrays * tlsSlice * tlsSlice :=
  let '(mem, tlsOpts) := if s.(enableHTTP2) then ([], None) else append grow [] None disableHTTP2 in
  let '(mem, webhookOpts) := match webhookCertificate s with
    | Some w => append grow mem tlsOpts (useCertificate w) | None => (mem, tlsOpts) end in
  let '(mem, metricsOpts) := match metricsCertificate s with
    | Some w => append grow mem tlsOpts (useCertificate w) | None => (mem, tlsOpts) end in
  (mem, webhookOpts, metricsOpts).

(** With no room left in an array of one element, as the compiler's runtime
    allocates them, no server sees what another one appended. *)
Lemma serverSlices_correct s :
  grow 1 = 1%nat ->
  let '(mem, webhookOpts, metricsOpts) := serverSlices s in
  (forall base, configure base (contents mem webhookOpts) = serverConfig s (webhookCertificate s) base) /\
  (forall base, configure base (contents mem metricsOpts) = serverConfig s (metricsCertificate s) base).
Proof.
  intros Hg. unfold serverSlices, serverConfig. destruct (enableHTTP2 s) eqn:Hh;
    destruct (webhookCertificate s) as [ww|], (metricsCertificate s) as [mw|]; cbn; unfold newArray;
    cbn; rewrite ?Hg; cbn; (split; intros [protos cert]; done).
Qed.

Lemma managerProcess_finished s :
  grow 1 = 1%nat -> safe (startsWell s) (managerProcess s) [] (finished s).
Proof.
  intros Hg. pose proof (serverSlices_correct s Hg) as Hsl. unfold serverSlices in Hsl. unfold managerProcess.
  destruct (if enableHTTP2 s then _ else _) as [mem0 opts0].
  eapply withCertificate_reached; [by exists []|]. fold (webhookCertificate s). intros h1 Hr1.
  destruct (match webhookCertificate s with Some _ => _ | None => _ end) as [mem1 webhookOpts].
  eapply withCertificate_reached; [exact Hr1|]. fold (metricsCertificate s). intros h2 Hr2.
  destruct (match metricsCertificate s with Some _ => _ | None => _ end) as [mem2 metricsOpts].
  destruct Hsl as [Hw Hm]. cbv zeta.
  eapply phase_step; [reflexivity|done|exact Hr2|]. intros h3 Hr3.
  eapply (phase_step s _ _ (managedPhases (metricsCertificate s) (webhookCertificate s)));
    [reflexivity|by constructor|exact Hr3|]. intros h4 Hr4. by apply runManager_finished.
Qed.

(** Claim C21.  What a command line makes of the manager.  A call for help exits with
    0 and a refused command line with 2, before anything is done.  Otherwise the
    process goes through the phases its settings ask for, in one order, with the
    watchers of given certificates, the indexes, both controllers and the checks
    before the run; it exits with 1 at the first phase that fails, and with 0 exactly
    when the run itself ended well.  The manager is only ever built with options that
    give each server its own certificate and no other, HTTP/2 only where it was
    enabled, and a metrics endpoint that is protected whenever it is served securely;
    only reads of the hub are made on the way, and a failed probe of its identity
    does not keep the process from running. *)
Theorem manager_start_correct (args : list string) (tr : trace start) (code : Z) :
  grow 1 = 1%nat -> runs (managerStart args) [] tr code ->
  match Parse (managerFlags ++ libraryFlags) args with
  | FlagHelp => code = 0 /\ tr = []
  | FlagBad _ => code = 2 /\ tr = []
  | FlagsParsed st _ =>
      finished (managerSettingsOf st) tr code /\ guaranteed (startsWell (managerSettingsOf st)) tr
  end.
Proof.
  intros Hg Hr. unfold managerStart in Hr. destruct (Parse _ _) as [st rest| |err].
  - destruct (safe_sound _ _ [] tr code _ I (managerProcess_finished (managerSettingsOf st) Hg) Hr). done.
  - by_safe (fun X (_ : trace start) (_ : start X) => True) Hr. done.
  - by_safe (fun X (_ : trace start) (_ : start X) => True) Hr. done.
Qed.

End Main.

(** ** Examples and witnesses *)

Section Demo.

#[local] Existing Instance milliQuantity.
#[local] Existing Instance listConditions.
#[local] Existing Instance exactSelectors.
#[local] Existing Instance listControllerutil.
#[local] Existing Instance fourAttempts.

(** A system in which every call succeeds but those of the given phases. *)
Definition system (failing : list phase) : forall X, start X -> World -> X * World :=
  fun X e =>
    let outcome (p : phase) : option error :=
      if existsb (fun q => match q, p with
        | PhaseConfig, PhaseConfig => true
        | PhaseController a, PhaseController b => String.eqb a b
        | PhaseWatcher a, PhaseWatcher b => bool_decide (a = b)
        | PhaseRun, PhaseRun => true
        | _, _ => false end) failing
      then Some (ErrorString "failed") else None in
    match e in start X return World -> X * World with
    | CertWatcherNew w => fun s => (outcome (PhaseWatcher w), s)
    | GetConfig => fun s => (outcome PhaseConfig, s)
    | NewManager _ _ => fun s => (outcome PhaseManager, s)
    | HubClientNew => fun s => (None, s)
    | OnHub e => fun s => world_handler _ e s
    | GetEventRecorderFor _ => fun s => (tt, s)
    | IndexField _ name _ => fun s => (outcome (PhaseIndex name), s)
    | Complete b => fun s => (outcome (PhaseController b.(bd_Named)), s)
    | ManagerAdd w => fun s => (outcome (PhaseAdd w), s)
    | AddHealthzCheck name | AddReadyzCheck name => fun s => (outcome (PhaseCheck name), s)
    | ManagerStart => fun s => (outcome PhaseRun, s)
    end.

(** A start in that system, with the growth of [append]. *)
Definition started (grow : nat -> nat) (failing : list phase) (args : list string) :=
  exec (system failing) (managerStart grow [] args) hubWorld [].

Definition optionsOf (ev : event (@start milliQuantity)) : option (arrays * ManagerOptions) :=
  match ev.(ev_eff) with NewManager mem o => Some (mem, o) | _ => None end.

Definition certArgs : list string :=
  ["--webhook-cert-path=/webhook"; "-metrics-cert-path"; "/metrics/"; "--metrics-bind-address=:8443"].

Definition webhookCert : Watcher := mkWatcher "/webhook/tls.crt" "/webhook/tls.key".
Definition metricsCert : Watcher := mkWatcher "/metrics/tls.crt" "/metrics/tls.key".

Example defaults_start : (started id [] []).1.1 = 0.
Proof. vm_compute. reflexivity. Qed.

Example help_exits : map (fun args => (started id [] args).1.1) [["-h"]; ["--help"]; ["--metrics-secure=maybe"]; ["--metric"]]
  = [0; 0; 2; 2].
Proof. vm_compute. reflexivity. Qed.

Example failures_exit :
  map (fun p => (started id [p] certArgs).1.1)
    [PhaseConfig; PhaseController "clustertarget"; PhaseWatcher metricsCert; PhaseRun] = [1; 1; 1; 1].
Proof. vm_compute. reflexivity. Qed.

(** What the slices of the two servers hold, with a capacity of one and of two for
    the first closure: a runtime that allocated room to spare would make the
    webhook server present the certificate of the metrics server. *)
Lemma shared_backing_array :
  let served grow := omap (fun ev => (fun '(mem, o) =>
      (contents mem o.(op_WebhookTLSOpts), contents mem o.(op_Metrics).(mo_TLSOpts))) <$> optionsOf ev)
    (started grow [] certArgs).2 in
  served id = [([disableHTTP2; useCertificate webhookCert], [disableHTTP2; useCertificate metricsCert])] /\
  served (fun n => (2 * n)%nat) =
    [([disableHTTP2; useCertificate metricsCert], [disableHTTP2; useCertificate metricsCert])].
Proof. vm_compute. done. Qed.

Lemma started_runs grow failing args :
  runs (managerStart grow [] args) [] (started grow failing args).2 (started grow failing args).1.1.
Proof.
  unfold started. destruct (exec _ _ _ _) as [[code w] tr] eqn:He. by eapply exec_runs.
Qed.

Definition certState : flagState := Eval vm_compute in
  match Parse (managerFlags ++ []) certArgs with FlagsParsed st _ => st | _ => ∅ end.

Lemma certArgs_parsed : Parse (managerFlags ++ []) certArgs = FlagsParsed certState [].
Proof. vm_compute. reflexivity. Qed.

(** Two certificates: the process goes through all its phases. *)
Lemma manager_start_correct_witness :
  let run := started id [] certArgs in
  length (phases run.2) = 15%nat /\
  finished (managerSettingsOf certState) run.2 run.1.1 /\ guaranteed (startsWell (managerSettingsOf certState)) run.2.
Proof.
  intros run. split; [vm_compute; reflexivity|].
  pose proof (manager_start_correct id [] certArgs run.2 run.1.1 eq_refl (started_runs id [] certArgs)) as Hm.
  rewrite certArgs_parsed in Hm. exact Hm.
Defined.

End Demo.
