(* ===== verification/WebhookStart.v ===== *)
(** * The webhook's process (cmd/kubelease-webhook/main.go)

    From the command line to a listening server or an exit code: the flags that
    [WebhookMain] starts from, read by [GoFlag].  [webhook_command_line] relates
    the two in both directions. *)

From S2P Require Import Prelude GoStrings GoTime GoErrors Api Concrete Policy LeaseExpiration.
From S2P Require Import Programs Kube World Sha GoText GoDuration WebhookNames WebhookAuth WebhookActions WebhookServer.
From S2P Require Import Runtime WebhookSafety WebhookMain GoFlag.

Definition webhookFlagDefs : list flagDef :=
  [mkFlagDef "bind-address" FString (VString ":8082");
   mkFlagDef "token-secret-namespace" FString (VString "");
   mkFlagDef "token-secret-name" FString (VString "webhook-token");
   mkFlagDef "token-secret-key" FString (VString "token");
   mkFlagDef "default-policy" FString (VString "");
   mkFlagDef "namespace-generate-name" FString (VString "preview-");
   mkFlagDef "max-body-bytes" FInt64 (VInt64 65536);
   mkFlagDef "github-enabled" FBool (VBool false);
   mkFlagDef "github-secret-name" FString (VString "");
   mkFlagDef "github-secret-key" FString (VString "github-webhook-secret");
   mkFlagDef "github-repo-policies" FString (VString "")].

(** The variables of [main] after [flag.Parse]. *)
Definition webhookFlagsOf (st : flagState) : webhookFlags :=
  mkWebhookFlags (stringFlag st "bind-address") (stringFlag st "token-secret-namespace")
    (stringFlag st "token-secret-name") (stringFlag st "token-secret-key") (stringFlag st "default-policy")
    (stringFlag st "namespace-generate-name") (int64Flag st "max-body-bytes") (boolFlag st "github-enabled")
    (stringFlag st "github-secret-name") (stringFlag st "github-secret-key") (stringFlag st "github-repo-policies").

Lemma webhookFlagDefaults_spec : webhookFlagsOf (flagDefaults webhookFlagDefs) = webhookFlagDefaults.
Proof. vm_compute. reflexivity. Qed.

(** How the process ends, or what it serves. *)
Inductive webhookOutcome :=
  | WebhookExit (code : Z)
  | WebhookServing (hs : HTTPServer) (s : Server).

(** Every flag on the command line, each in one argument. *)
Definition webhookSettings (f : webhookFlags) : list (setting * flagValue) :=
  let str name v := (mkSetting true name (Joined v), VString v) in
  [str "bind-address" f.(fl_bind_address);
   str "token-secret-namespace" f.(fl_token_secret_namespace);
   str "token-secret-name" f.(fl_token_secret_name);
   str "token-secret-key" f.(fl_token_secret_key);
   str "default-policy" f.(fl_default_policy);
   str "namespace-generate-name" f.(fl_namespace_generate_name);
   (mkSetting true "max-body-bytes" (Joined (Itoa f.(fl_max_body_bytes))), VInt64 f.(fl_max_body_bytes));
   (mkSetting true "github-enabled" (Joined (bool_string f.(fl_github_enabled))), VBool f.(fl_github_enabled));
   str "github-secret-name" f.(fl_github_secret_name);
   str "github-secret-key" f.(fl_github_secret_key);
   str "github-repo-policies" f.(fl_github_repo_policies)].

Definition webhookArgs (f : webhookFlags) : list string := concat ((fun sx => spell sx.1) <$> webhookSettings f).

Section Start.
Context `{PoliciesAPI}.
Variable range : gmap string string -> list (string * string).

(** The flags zap and controller-runtime register, under names [flag.Var] takes. *)
Variable libraryFlags : list flagDef.

Definition startWebhook (f : webhookFlags) (env : Environment) : webhookOutcome :=
  match webhookMain range f env with
  | Err _ => WebhookExit 1
  | Ok s => match ListenAndServe s with Err _ => WebhookExit 1 | Ok (hs, s) => WebhookServing hs s end
  end.

Definition webhookCommand (args : list string) (env : Environment) : webhookOutcome :=
  match Parse (webhookFlagDefs ++ libraryFlags) args with
  | FlagHelp => WebhookExit 0
  | FlagBad _ => WebhookExit 2
  | FlagsParsed st _ => startWebhook (webhookFlagsOf st) env
  end.

Hypothesis range_spec : forall m, range m ≡ₚ map_to_list m.
Hypothesis library_valid : validFlags libraryFlags.

Lemma webhookFlags_valid : validFlags (webhookFlagDefs ++ libraryFlags).
Proof. apply Forall_app. split; [|done]. repeat constructor. Qed.

Lemma webhookSettings_set f :
  - two63 <= f.(fl_max_body_bytes) < two63 ->
  Forall (fun sx => sets (webhookFlagDefs ++ libraryFlags) sx.1 sx.2) (webhookSettings f).
Proof.
  intros Hb. unfold webhookSettings. repeat (apply Forall_cons; split); try done;
    (eexists; split; [reflexivity|]); cbn -[ParseInt0 ParseBool]; [done..| | |done|done|done].
  - by rewrite ParseInt0_Itoa.
  - by rewrite ParseBool_string.
Qed.

Lemma webhookFlagsOf_settings st f : webhookFlagsOf (applySettings st (webhookSettings f)) = f.
Proof. destruct f. unfold webhookFlagsOf, stringFlag, int64Flag, boolFlag. by rewrite !applySettings_lookup. Qed.

(** What the process does with accepted flags. *)
Lemma startWebhook_spec f env :
  match startWebhook f env with
  | WebhookServing hs s => startedAs f env hs s
  | WebhookExit code => code = 1 /\ cannotStart f env
  end.
Proof.
  destruct (webhookMain_correct range range_spec f env) as [Hok Herr]. unfold startWebhook.
  destruct (webhookMain range f env) as [s|err]; [|split; [done|]; apply Herr; by eexists].
  destruct (Hok s eq_refl) as [hs Hs]. by rewrite (proj1 (sa_listens _ _ _ _ Hs)).
Qed.

(** The settings a command line is made of. *)
Definition commandLine (args : list string) (ss : list (setting * flagValue)) : Prop :=
  exists tail rest, args = concat ((fun sx => spell sx.1) <$> ss) ++ tail /\ flagsEnd tail rest /\
    Forall (fun sx => sets (webhookFlagDefs ++ libraryFlags) sx.1 sx.2) ss.

(** A flag's value: its last setting, or its default. *)
Definition given (ss : list (setting * flagValue)) : webhookFlags :=
  webhookFlagsOf (applySettings (flagDefaults (webhookFlagDefs ++ libraryFlags)) ss).

Lemma given_nothing : given [] = webhookFlagDefaults.
Proof.
  assert (Hd : forall n v, flagDefaults webhookFlagDefs !! n = Some v ->
    flagDefaults (webhookFlagDefs ++ libraryFlags) !! n = Some v).
  { intros n v Hn. unfold flagDefaults. rewrite fmap_app, list_to_map_app. by apply lookup_union_Some_l. }
  unfold given, webhookFlagsOf, stringFlag, int64Flag, boolFlag. cbn [applySettings foldl].
  repeat (erewrite Hd; [|vm_compute; reflexivity]). reflexivity.
Qed.

Lemma Parse_commandLine args st rest :
  Parse (webhookFlagDefs ++ libraryFlags) args = FlagsParsed st rest ->
  exists ss, commandLine args ss /\ webhookFlagsOf st = given ss.
Proof.
  intros (ss & tail & -> & Hss & Hend & ->)%Parse_iff; [|apply webhookFlags_valid].
  exists ss. split; [by exists tail, rest|done].
Qed.

Lemma commandLine_Parse args ss :
  commandLine args ss -> exists rest,
    Parse (webhookFlagDefs ++ libraryFlags) args =
      FlagsParsed (applySettings (flagDefaults (webhookFlagDefs ++ libraryFlags)) ss) rest.
Proof.
  intros (tail & rest & -> & Hend & Hss). exists rest. apply Parse_iff; [apply webhookFlags_valid|].
  by exists ss, tail.
Qed.

(** Claim C27.  From the command line to a serving webhook.  The process exits with 0
    or 2 exactly when its arguments are no sequence of well-formed settings of its
    flags up to the end of the flags; otherwise every flag has the value of its last
    setting, or its default, and the process exits with 1 exactly when those values
    cannot be started with.  In all other cases it listens with the server they ask
    for: on the address given, with the policy, the prefix, the limit of the body and
    the policies of repositories given, with a provider of the token secret that was
    named and, exactly when the GitHub endpoint is enabled, one of the signing secret
    that was named, an empty or non-positive value standing for its default, and with
    the fixed timeouts.  The defaults are those documented.  Every combination of
    values can be given: written as arguments of the form --name=value they are read
    back as they are, whatever bytes the strings hold and whatever 64-bit integer the
    limit of the body is. *)
Theorem webhook_command_line (args : list string) (env : Environment) :
  match webhookCommand args env with
  | WebhookServing hs s => exists ss, commandLine args ss /\ startedAs (given ss) env hs s
  | WebhookExit code =>
      (code = 1 /\ exists ss, commandLine args ss /\ cannotStart (given ss) env) \/
      ((code = 0 \/ code = 2) /\ ~ exists ss, commandLine args ss)
  end /\
  (forall ss n, applySettings (flagDefaults (webhookFlagDefs ++ libraryFlags)) ss !! n
     = match lastSetting n ss with Some x => Some x | None => flagDefaults (webhookFlagDefs ++ libraryFlags) !! n end) /\
  given [] = webhookFlagDefaults /\
  (forall f tail rest, - two63 <= f.(fl_max_body_bytes) < two63 -> flagsEnd tail rest ->
     webhookCommand (webhookArgs f ++ tail) env = startWebhook f env).
Proof.
  unfold webhookCommand. split_and!.
  - destruct (Parse _ args) as [st rest| |err] eqn:Hp.
    + destruct (Parse_commandLine _ _ _ Hp) as (ss & Hc & ->). pose proof (startWebhook_spec (given ss) env) as Hs.
      destruct (startWebhook (given ss) env) as [code|hs s]; [left; destruct Hs as [H1 H2]|]; eauto.
    + right. split; [by left|]. intros [ss [rest Hr]%commandLine_Parse]. congruence.
    + right. split; [by right|]. intros [ss [rest Hr]%commandLine_Parse]. congruence.
  - intros ss n. apply applySettings_lookup.
  - apply given_nothing.
  - intros f tail rest Hb Hend. unfold webhookArgs, Parse.
    rewrite (parseArgs_settings _ _ _ tail rest) by (done || apply webhookFlags_valid || by apply webhookSettings_set).
    by rewrite webhookFlagsOf_settings.
Qed.

End Start.

(** ** Witness *)

Section Demo.

(** The flags of the witness of [WebhookMain], on a command line. *)
Definition demoArgs : list string :=
  ["--github-enabled"; "-default-policy"; "large"; "--default-policy=small"; "--github-repo-policies=web";
   "-max-body-bytes=0x1000"; "rest"].

Definition demoFlagsRead : webhookFlags := demoFlags <| fl_max_body_bytes := 4096 |>.

Example demoArgs_read :
  match Parse webhookFlagDefs demoArgs with
  | FlagsParsed st rest => webhookFlagsOf st = demoFlagsRead /\ rest = ["rest"]
  | _ => False
  end.
Proof. vm_compute. done. Qed.

Example refused_args : map (fun args => @webhookCommand demoPolicies map_to_list [] args demoEnvironment)
    [["--bogus"]; ["-max-body-bytes=64k"]; ["-default-policy"]; ["-h"]; []]
  = map WebhookExit [2; 2; 2; 0; 1].
Proof. vm_compute. reflexivity. Qed.

End Demo.

(** The flags of a started webhook, written out, start the same webhook. *)
Lemma webhook_command_line_witness :
  - two63 <= demoFlagsRead.(fl_max_body_bytes) < two63 /\
  @webhookCommand demoPolicies map_to_list [] (webhookArgs demoFlagsRead ++ ["--"; "rest"]) demoEnvironment
    = @startWebhook demoPolicies map_to_list demoFlagsRead demoEnvironment.
Proof.
  destruct (@webhook_command_line demoPolicies map_to_list [] (fun m => Permutation_refl _) (List.Forall_nil _)
    [] demoEnvironment) as (_ & _ & _ & Hback).
  assert (Hb : - two63 <= demoFlagsRead.(fl_max_body_bytes) < two63) by (cbn; unfold two63; lia).
  split; [exact Hb|]. apply (Hback demoFlagsRead ["--"; "rest"] ["rest"] Hb).
  right. exists "--". split; [reflexivity|vm_compute; reflexivity].
Defined.
