(* ===== verification/WebhookServe.v ===== *)
(** * Serving until a signal (internal/sourcewebhook/server.go, cmd/kubelease-webhook)

    Once its checks are passed, [Server.ListenAndServe] runs two goroutines: one in
    [http.Server.ListenAndServe], whose error it sends on a channel, and the caller,
    which selects between that channel and the context that a signal cancels, shuts
    the server down with ten seconds for the requests in flight, and receives.
    [perform] describes what net/http documents of its two calls, channels with a
    buffer of one, and the context of [ctrl.SetupSignalHandler], whose second signal
    ends the process at once and is left out.

    [webhook_stops]: the process returns without an error only on a signal, with an
    error only when listening failed; it never leaves a goroutine behind, and after
    a signal it ends within its ten seconds.  The requests in flight have [ctx] as
    their base context ([requestContextDone]), so that the signal which starts their ten
    seconds also cancels their calls ([grace_without_context]). *)

From S2P Require Import Prelude GoStrings GoTime GoErrors Programs Threads.

(** The errors of [http.Server.ListenAndServe]. *)
Inductive httpError := ErrServerClosed | NetError (e : error).

Definition isErrServerClosed (e : httpError) : bool := match e with ErrServerClosed => true | NetError _ => false end.

(** The case of the select. *)
Inductive selected := CtxDone | Received (err : option httpError).

Inductive senv : Type -> Type :=
  | HttpListenAndServe : senv (option httpError)
  | Send (err : option httpError) : senv unit
  | Select : senv selected
  | WithTimeout (d : duration) : senv unit
  | BeginShutdown : senv unit
  | AwaitIdle : senv (option error)
  | Receive : senv (option httpError).

(** ** server.go *)

(** [srv.Shutdown]: listeners are closed at once, then it waits. *)
Definition Shutdown : prog senv (option error) := (call BeginShutdown ;; call AwaitIdle)%prog.

(** The goroutine; it returns nothing. *)
Definition listener : prog senv (option httpError) :=
  (err <- call HttpListenAndServe ;;
   match err with
   | Some e =>
       if negb (isErrServerClosed e) then (call (Send err) ;; Ret None)
       else (call (Send None) ;; Ret None)
   | None => (call (Send None) ;; Ret None)
   end)%prog.

(** What follows the go statement. *)
Definition serving : prog senv (option httpError) :=
  (sel <- call Select ;;
   match sel with
   | CtxDone =>
       (call (WithTimeout (10 * Second)) ;;
        Shutdown ;;
        call Receive)
   | Received err => Ret err
   end)%prog.

(** main: an error is logged and the process exits with 1. *)
Definition exitCode (err : option httpError) : Z := match err with Some _ => 1 | None => 0 end.

(** ** What it runs on *)

(** The context and the server, with the times at which they were cancelled and
    closed; the channel, the requests in flight, the clock and the deadline of the
    shutdown. *)
Record host := mkHost {
  ho_cancelled : option time;
  ho_closing : option time;
  ho_errCh : option (option httpError);
  ho_requests : nat;
  ho_now : time;
  ho_deadline : option time
}.
#[export] Instance eta_host : Eta host :=
  fun r => mkHost r.(ho_cancelled) r.(ho_closing) r.(ho_errCh) r.(ho_requests) r.(ho_now) r.(ho_deadline).

(** The deadline of the shutdown has passed. *)
Definition overdue (s : host) : Prop := match s.(ho_deadline) with Some t => t <= s.(ho_now) | None => True end.

(** net/http: ListenAndServe always returns a non-nil error, ErrServerClosed after
    Shutdown; Shutdown waits for the requests in flight, at most until its context
    is done. *)
Definition perform X (e : senv X) (s : host) : X -> host -> Prop :=
  match e in senv X return X -> host -> Prop with
  | HttpListenAndServe => fun err s' =>
      s' = s /\ ((err = Some ErrServerClosed /\ is_Some s.(ho_closing)) \/ exists e, err = Some (NetError e))
  | Send err => fun _ s' => s.(ho_errCh) = None /\ s' = s <| ho_errCh := Some err |>
  | Select => fun sel s' =>
      (sel = CtxDone /\ is_Some s.(ho_cancelled) /\ s' = s) \/
      (exists err, sel = Received err /\ s.(ho_errCh) = Some err /\ s' = s <| ho_errCh := None |>)
  | WithTimeout d => fun _ s' => s' = s <| ho_deadline := Some (s.(ho_now) + d) |>
  | BeginShutdown => fun _ s' => s' = s <| ho_closing := Some s.(ho_now) |>
  | AwaitIdle => fun err s' => s' = s /\ ((err = None /\ s.(ho_requests) = O) \/ (is_Some err /\ overdue s))
  | Receive => fun err s' => s.(ho_errCh) = Some err /\ s' = s <| ho_errCh := None |>
  end.

Inductive role := Caller | Listener.

Notation thread := (thread senv (option httpError) role) (only parsing).
Notation process := (host * list thread)%type (only parsing).
Notation act := (act (O:=option httpError) (L:=role) perform) (only parsing).

(** [BaseContext] returns [ctx]: the calls of a request in flight are cancelled with
    it. *)
Definition requestContextDone (s : host) : bool := bool_decide (is_Some s.(ho_cancelled)).

(** What happens besides: the first signal, requests that come while the server is not
    closing and that end, and time that passes. *)
Inductive event : host -> host -> Prop :=
  | event_signal s : s.(ho_cancelled) = None -> event s (s <| ho_cancelled := Some s.(ho_now) |>)
  | event_request s : s.(ho_closing) = None -> event s (s <| ho_requests := S s.(ho_requests) |>)
  | event_done s n : s.(ho_requests) = S n -> event s (s <| ho_requests := n |>)
  | event_tick s t : s.(ho_now) <= t -> event s (s <| ho_now := t |>).

Inductive step : process -> process -> Prop :=
  | step_acts pr pr' : act pr pr' -> step pr pr'
  | step_event s s' ts : event s s' -> step (s, ts) (s', ts).

Definition reaches : process -> process -> Prop := rtc step.

Definition started (now : time) : process :=
  (mkHost None None None O now None, [mkThread Caller serving []; mkThread Listener listener []]).

(** ** The invariant *)

(** What is sent says why listening ended. *)
Definition explained (s : host) (tr : trace senv) (err : option httpError) : Prop :=
  match err with
  | None => is_Some s.(ho_closing)
  | Some e => exists err, e = NetError err /\ head tr = Some (Ev HttpListenAndServe (Some e))
  end.

(** The goroutine: in net/http, about to send, or done; [sent] is what it sent. *)
Inductive listenerAt (s : host) (sent : option (option httpError)) : thread -> Prop :=
  | at_listen : sent = None -> listenerAt s sent (mkThread Listener listener [])
  | at_send err tr :
      sent = None -> explained s tr err ->
      listenerAt s sent (mkThread Listener (call (Send err) ;; Ret None)%prog tr)
  | at_end err tr :
      sent = Some err -> explained s tr err ->
      listenerAt s sent (mkThread Listener (Ret None) (Ev (Send err) tt :: tr)).

(** The requests are done, or they have had ten seconds since the signal. *)
Definition drained (s : host) : Prop :=
  s.(ho_requests) = O \/ exists c, s.(ho_cancelled) = Some c /\ c + 10 * Second <= s.(ho_now).

(** The deadline: ten seconds from a time between the signal and [t]. *)
Definition tenSeconds (s : host) (t : time) : Prop :=
  exists c d, s.(ho_cancelled) = Some c /\ s.(ho_deadline) = Some d /\ c + 10 * Second <= d <= t + 10 * Second.

(** The caller; [sent] is in the channel until it has been received. *)
Inductive callerAt (s : host) (sent : option (option httpError)) : prog senv (option httpError) -> Prop :=
  | at_select : s.(ho_closing) = None -> s.(ho_deadline) = None -> s.(ho_errCh) = sent -> callerAt s sent serving
  | at_timeout :
      is_Some s.(ho_cancelled) -> s.(ho_closing) = None -> s.(ho_deadline) = None -> s.(ho_errCh) = sent ->
      callerAt s sent (call (WithTimeout (10 * Second)) ;; Shutdown ;; call Receive)%prog
  | at_begin :
      s.(ho_closing) = None -> tenSeconds s s.(ho_now) -> s.(ho_errCh) = sent ->
      callerAt s sent (Shutdown ;; call Receive)%prog
  | at_await b :
      s.(ho_closing) = Some b -> tenSeconds s b -> s.(ho_errCh) = sent ->
      callerAt s sent (call AwaitIdle ;; call Receive)%prog
  | at_receive :
      is_Some s.(ho_cancelled) -> is_Some s.(ho_closing) -> drained s -> s.(ho_errCh) = sent ->
      callerAt s sent (call Receive)
  | at_return err :
      sent = Some err -> s.(ho_errCh) = None ->
      (err = None -> is_Some s.(ho_cancelled) /\ is_Some s.(ho_closing) /\ drained s) ->
      callerAt s sent (Ret err).

(** A signal is not in the future. *)
Definition timely (s : host) : Prop := forall c, s.(ho_cancelled) = Some c -> c <= s.(ho_now).

Definition serverOk (s : host) (ts : list thread) : Prop :=
  timely s /\ exists code tr sent g, ts = [mkThread Caller code tr; g] /\ callerAt s sent code /\ listenerAt s sent g.

Lemma server_started now : serverOk (started now).1 (started now).2.
Proof. split; [done|]. exists serving, [], None, (mkThread Listener listener []). split_and!; [done|by constructor|by constructor]. Qed.

(** Events leave the points where they are. *)
Lemma event_cancelled s s' c : event s s' -> s.(ho_cancelled) = Some c -> s'.(ho_cancelled) = Some c.
Proof. destruct 1; cbn; congruence. Qed.

Lemma event_now s s' : event s s' -> s.(ho_now) <= s'.(ho_now).
Proof. destruct 1; cbn; lia. Qed.

Lemma event_deadline s s' : event s s' -> s'.(ho_deadline) = s.(ho_deadline) /\ s'.(ho_closing) = s.(ho_closing) /\ s'.(ho_errCh) = s.(ho_errCh).
Proof. by destruct 1. Qed.

Lemma event_timely s s' : event s s' -> timely s -> timely s'.
Proof. destruct 1; unfold timely; cbn; intros Ht c0 Hc0; try (specialize (Ht c0)); naive_solver lia. Qed.

Lemma event_drained s s' : event s s' -> is_Some s.(ho_closing) -> drained s -> drained s'.
Proof.
  intros Hev [b Hb] [Hz|(c & Hc & Hn)].
  - left. destruct Hev; cbn; congruence.
  - right. exists c. split; [by eapply event_cancelled|]. pose proof (event_now _ _ Hev). lia.
Qed.

Lemma event_tenSeconds s s' t t' : event s s' -> t <= t' -> tenSeconds s t -> tenSeconds s' t'.
Proof.
  intros Hev Ht (c & d & Hc & Hd & Hb). exists c, d. split; [by eapply event_cancelled|].
  rewrite (proj1 (event_deadline _ _ Hev)). split; [done|lia].
Qed.

Lemma server_event s s' ts : event s s' -> serverOk s ts -> serverOk s' ts.
Proof.
  intros Hev (Htm & code & tr & sent & g & -> & Hc & Hl). split; [by eapply event_timely|].
  exists code, tr, sent, g. split; [done|].
  destruct (event_deadline _ _ Hev) as (Hd & Hcl & Hch). pose proof (event_now _ _ Hev) as Hn.
  assert (Hca : is_Some s.(ho_cancelled) -> is_Some s'.(ho_cancelled)) by (intros [c ?]; exists c; by eapply event_cancelled).
  split.
  - destruct Hc; econstructor; try (rewrite ?Hd, ?Hcl, ?Hch; eassumption); try (by auto);
      try (by eapply event_tenSeconds); try (by eapply event_drained).
    match goal with Hr : _ = None -> _ |- _ => intros (? & ? & ?)%Hr end.
    split_and!; [auto|by rewrite Hcl|by eapply event_drained].
  - destruct Hl as [|err ? ? Hx|err ? ? Hx]; constructor; try done; destruct err; cbn in *; by rewrite ?Hcl.
Qed.

(** One call of the goroutine, one of the caller. *)
Lemma listener_acts s sent g s' g' code :
  callerAt s sent code -> listenerAt s sent g -> acts perform s g s' g' ->
  exists sent', callerAt s' sent' code /\ listenerAt s' sent' g'.
Proof.
  intros Hc Hl Ha. destruct Hl as [Hs|err tr Hs Hx|err tr Hs Hx]; cbn in Ha.
  - destruct Ha as (x & [-> Hp] & ->). exists sent. split; [done|].
    destruct Hp as [[-> Hcl]|[e ->]]; cbn; (apply at_send; [done|]); [done|by exists e].
  - destruct Ha as ([] & [Hn ->] & ->). exists (Some err). split; [|by apply at_end].
    destruct Hc; subst; econstructor; cbn; done || congruence || eassumption.
  - done.
Qed.

Lemma listenerAt_mono s s' sent g :
  (is_Some s.(ho_closing) -> is_Some s'.(ho_closing)) -> listenerAt s sent g -> listenerAt s' sent g.
Proof.
  intros Hc Hl. destruct Hl as [|err tr ? Hx|err tr ? Hx]; constructor; try done; destruct err; cbn in *; auto.
Qed.

(** What was sent without a shutdown is an error. *)
Lemma sent_early s err g : listenerAt s (Some err) g -> s.(ho_closing) = None -> err <> None.
Proof. intros Hl Hc ->. inversion Hl as [|? ? ?|? ? Hs Hx]; simplify_eq. cbn in Hx. rewrite Hc in Hx. by destruct Hx. Qed.

Lemma caller_acts s sent code tr g s' c' :
  timely s -> callerAt s sent code -> listenerAt s sent g -> acts perform s (mkThread Caller code tr) s' c' ->
  callerAt s' sent c'.(th_code) /\ listenerAt s' sent g /\ c'.(th_label) = Caller.
Proof.
  intros Htm Hc Hl Ha.
  destruct Hc as [Hcl Hd Hch|[c Hca] Hcl Hd Hch|Hcl Hd Hch|b Hcl Hd Hch|Hca Hcl Hd Hch|]; cbn in Ha; [..|done].
  - destruct Ha as (x & [(-> & Hca & ->)|(err & -> & He & ->)] & ->).
    + split_and!; [by apply at_timeout|done|done].
    + split_and!; [|eapply listenerAt_mono; [|exact Hl]; by cbn|done]. rewrite He in Hch. subst sent. apply at_return; [done..|].
      intros ->. by destruct (sent_early _ _ _ Hl Hcl).
  - destruct Ha as (x & -> & ->). split_and!; [|eapply listenerAt_mono; [|exact Hl]; by cbn|done].
    apply at_begin; [done| |done]. exists c, (s.(ho_now) + 10 * Second). specialize (Htm c Hca). cbn. split_and!; [done|done|lia|lia].
  - destruct Ha as (x & -> & ->). split_and!; [by eapply at_await|eapply listenerAt_mono; [|exact Hl]; by cbn|done].
  - destruct Ha as (x & [-> Hx] & ->). destruct Hd as (c & d & Hc & Hd & Hb).
    split_and!; [|done|done]. apply at_receive; [by eexists|by eexists| |done].
    destruct Hx as [[_ ?]|[_ Ho]]; [by left|right]. exists c. split; [done|]. unfold overdue in Ho. rewrite Hd in Ho. lia.
  - destruct Ha as (x & [He ->] & ->). split_and!; [|eapply listenerAt_mono; [|exact Hl]; by cbn|done].
    rewrite He in Hch. subst sent. by apply at_return.
Qed.

(** Calls take no time of their own, and none is a signal. *)
Lemma acts_timely s (th : thread) s' (th' : thread) : acts perform s th s' th' -> timely s -> timely s'.
Proof.
  unfold acts. destruct (th_code th) as [o|X e k]; [done|]. intros (x & Hp & _) Ht.
  destruct e; cbn in Hp; repeat (destruct_and? || destruct_or?); naive_solver.
Qed.

Lemma server_act s ts s' ts' : serverOk s ts -> act (s, ts) (s', ts') -> serverOk s' ts'.
Proof.
  intros (Htm & code & tr & sent & g & -> & Hc & Hl) (i & th & th' & Hi & Ha & ->)%act_inv.
  split; [by eapply acts_timely|]. destruct i as [|[|i]]; simpl in Hi; simplify_eq.
  - destruct (caller_acts _ _ _ _ _ _ _ Htm Hc Hl Ha) as (Hc' & Hl' & Hr). destruct th' as [r c' tr']. cbn in *. subst r.
    by exists c', tr', sent, g.
  - destruct (listener_acts _ _ _ _ _ _ Hc Hl Ha) as (sent' & Hc' & Hl'). by exists code, tr, sent', th'.
Qed.

Lemma reaches_serverOk now s ts : reaches (started now) (s, ts) -> serverOk s ts.
Proof.
  intros Hr. change (serverOk (s, ts).1 (s, ts).2). generalize (server_started now). revert Hr.
  generalize (started now). intros pr0 Hr. induction Hr as [pr|pr pr1 pr' Hs _ IH]; [done|]. intros Hok. apply IH.
  destruct Hs as [[s0 ts0] [s1 ts1] Ha|s0 s1 ts0 He]; [by eapply server_act|by eapply server_event].
Qed.

(** ** Progress *)

(** The caller waits for requests, no longer than ten seconds from the closing. *)
Definition waiting (s : host) : Prop :=
  s.(ho_requests) <> O /\ exists b, s.(ho_closing) = Some b /\ s.(ho_now) < b + 10 * Second.

(** After a signal, somebody can go on: the caller, or the goroutine it waits for,
    unless it is waiting for requests within their time. *)
Lemma signalled_progress s ts :
  serverOk s ts -> is_Some s.(ho_cancelled) ->
  Forall finished ts \/ (exists pr', act (s, ts) pr') \/ waiting s.
Proof.
  intros (Htm & code & tr & sent & g & -> & Hc & Hl) Hca.
  assert (Hgo : forall s' c', acts perform s (mkThread Caller code tr) s' c' -> exists pr', act (s, [mkThread Caller code tr; g]) pr').
  { intros s' c' Ha. eexists. by eapply (act_intro _ _ _ 0%nat). }
  assert (Hlis : forall s' g', acts perform s g s' g' -> exists pr', act (s, [mkThread Caller code tr; g]) pr').
  { intros s' c' Ha. eexists. by eapply (act_intro _ _ _ 1%nat). }
  destruct Hc as [Hcl Hd Hch|_ Hcl Hd Hch|Hcl Hd Hch|b Hcl Hd Hch|_ Hcl Hd Hch|err Hs Hch Hn].
  - right. left. eapply Hgo. exists CtxDone. split; [by left|done].
  - right. left. eapply Hgo. by exists tt.
  - right. left. eapply Hgo. by exists tt.
  - destruct (ho_requests s) eqn:Hq; [right; left; eapply Hgo; exists None; split; [split; [done|by left]|done]|].
    destruct Hd as (c & t & _ & Ht & Hb). destruct (decide (t <= s.(ho_now))) as [Ho|Ho].
    + right. left. eapply Hgo. exists (Some (ErrorString "context deadline exceeded")). split; [|done].
      split; [done|]. right. split; [done|]. unfold overdue. by rewrite Ht.
    + right. right. split; [by rewrite Hq|]. exists b. split; [done|lia].
  - right. left. destruct Hl as [->|err ltr -> Hx|err ltr -> Hx].
    + eapply Hlis. exists (Some ErrServerClosed). split; [|done]. split; [done|]. by left.
    + eapply Hlis. by exists tt.
    + eapply Hgo. exists err. by split.
  - left. subst sent. inversion Hl as [|? ? ?|err' ltr Hs' Hx]; simplify_eq. repeat constructor; by eexists.
Qed.

Ltac count_calls :=
  repeat first
    [ exact I | progress cbn | progress intros
    | match goal with
      | |- context [isErrServerClosed ?e] => destruct e
      | |- context [match ?x with _ => _ end] => is_var x; destruct x
      end ].

(** The caller returns what was sent, and the goroutine sent why it ended. *)
Lemma returned s sent err :
  callerAt s sent (Ret err) ->
  sent = Some err /\ s.(ho_errCh) = None /\
  (err = None -> is_Some s.(ho_cancelled) /\ is_Some s.(ho_closing) /\ drained s).
Proof. intros Hc. by inversion Hc. Qed.

Lemma sent_by s err g :
  listenerAt s (Some err) g ->
  finished g /\
  match err with
  | None => True
  | Some e => exists err, e = NetError err /\ Ev HttpListenAndServe (Some (NetError err)) ∈ g.(th_trace)
  end.
Proof.
  intros Hl. inversion Hl as [|? ? ?|err' tr Hs Hx]; simplify_eq. split; [by eexists|].
  destruct err' as [e|]; [|done]. destruct Hx as (err & -> & Hh). exists err. split; [done|].
  destruct tr as [|ev tr]; [done|]. cbn in Hh. injection Hh as ->. right. left.
Qed.

(** Five calls of the caller and two of the goroutine, at most. *)
Lemma server_budget s ts : serverOk s ts -> budget ts [5%nat; 2%nat].
Proof. intros (_ & code & tr & sent & g & -> & Hc & Hl). constructor; [|constructor; [|constructor]]; [destruct Hc|destruct Hl]; count_calls. Qed.

(** ** What the process does *)

(** Claim C28.  The webhook ends as it should.  Whatever signals, requests and
    delays come: when [ListenAndServe] returns, its goroutine has returned too and
    the channel is empty.  It returns nil, and the process exits with 0, only after
    a signal, with the listeners closed and either no request in flight or ten
    seconds gone since the signal; it returns an error, and the process exits with
    1, only when net/http stopped listening with that error.  The two goroutines
    make at most seven calls together; and after a signal one of them can make its
    next call until both have returned, except while requests are in flight, for
    less than ten seconds after the listeners were closed. *)
Theorem webhook_stops (now : time) (s : host) (ts : list thread) :
  reaches (started now) (s, ts) ->
  (forall err tr, ts !! 0%nat = Some (mkThread Caller (Ret err) tr) ->
     Forall finished ts /\ s.(ho_errCh) = None /\
     match err with
     | None => exitCode err = 0 /\ is_Some s.(ho_cancelled) /\ is_Some s.(ho_closing) /\ drained s
     | Some e => exitCode err = 1 /\ exists err, e = NetError err /\
         exists g, ts !! 1%nat = Some g /\ Ev HttpListenAndServe (Some (NetError err)) ∈ g.(th_trace)
     end) /\
  (forall n pr', nsteps act n (s, ts) pr' -> (n <= 7)%nat) /\
  (is_Some s.(ho_cancelled) -> Forall finished ts \/ (exists pr', act (s, ts) pr') \/ waiting s).
Proof.
  intros Hok%reaches_serverOk. split_and!; [|intros n pr' Hn; exact (acts_bounded _ _ _ _ [5%nat; 2%nat] Hn (server_budget _ _ Hok))|by apply signalled_progress].
  destruct Hok as (_ & code & tr0 & sent & g & -> & Hc & Hl). intros err tr [= -> ->].
  destruct (returned _ _ _ Hc) as (-> & Hch & Hn). destruct (sent_by _ _ _ Hl) as [Hf Hx].
  split_and!; [|done|].
  - constructor; [by eexists|]. by constructor.
  - destruct err as [e|]; [|split; [done|by apply Hn]]. split; [done|].
    destruct Hx as (err & -> & Hin). by exists err; split; [|exists g].
Qed.

(** The caller waits for the requests in flight. *)
Definition waitsForRequests (th : thread) : bool :=
  match th.(th_code) with Act AwaitIdle _ => true | _ => false end.

(** The grace period is of no use to a request that has calls to make: whenever the
    server waits for requests, their context is done already. *)
Theorem grace_without_context (now : time) (s : host) (ts : list thread) (th : thread) :
  reaches (started now) (s, ts) -> ts !! 0%nat = Some th -> waitsForRequests th = true ->
  requestContextDone s = true.
Proof.
  intros (_ & code & tr & sent & g & -> & Hc & _)%reaches_serverOk [= <-] Hw. apply bool_decide_eq_true.
  inversion Hc; subst; try done; try (match goal with Ht : tenSeconds _ _ |- _ => destruct Ht as (c & d & Hca & _); by exists c end).
Qed.

(** ** Schedules, executed *)

(** One answer each call may give; listening fails only while nothing is closed
    if [failure] says so. *)
Definition attempt (failure : option error) X (e : senv X) (s : host) : option (X * host) :=
  match e in senv X return option (X * host) with
  | HttpListenAndServe =>
      match failure with
      | Some err => Some (Some (NetError err), s)
      | None => match s.(ho_closing) with Some _ => Some (Some ErrServerClosed, s) | None => None end
      end
  | Send err => match s.(ho_errCh) with None => Some (tt, s <| ho_errCh := Some err |>) | Some _ => None end
  | Select =>
      match s.(ho_errCh) with
      | Some err => Some (Received err, s <| ho_errCh := None |>)
      | None => match s.(ho_cancelled) with Some _ => Some (CtxDone, s) | None => None end
      end
  | WithTimeout d => Some (tt, s <| ho_deadline := Some (s.(ho_now) + d) |>)
  | BeginShutdown => Some (tt, s <| ho_closing := Some s.(ho_now) |>)
  | AwaitIdle => match s.(ho_requests) with O => Some (None, s) | S _ => None end
  | Receive => match s.(ho_errCh) with Some err => Some (err, s <| ho_errCh := None |>) | None => None end
  end.

Lemma attempt_performs failure X (e : senv X) s x s' : attempt failure X e s = Some (x, s') -> perform X e s x s'.
Proof.
  destruct e; cbn; repeat case_match; intros; simplify_eq; cbn; eauto 10.
Qed.

(** The threads of the list take turns. *)
Definition turns (failure : option error) (order : list nat) (pr : process) : process :=
  fold_left (proceed (attempt failure)) order pr.

Lemma turns_reach failure order pr : reaches pr (turns failure order pr).
Proof.
  revert pr. induction order as [|i order IH]; intros pr; [done|]. cbn. etransitivity; [|apply IH].
  eapply (rtc_subrel act); [intros ? ?; apply step_acts|]. apply proceed_acts, attempt_performs.
Qed.

Lemma webhook_stops_witness :
  exists s ts tr,
    reaches (started 0) (s, ts) /\ ts !! 0%nat = Some (mkThread Caller (Ret None) tr) /\
    Forall finished ts /\ drained s.
Proof.
  pose (pr0 := ((started 0).1 <| ho_requests := 1%nat |> <| ho_cancelled := Some 0 |> <| ho_requests := O |>, (started 0).2) : process).
  pose (pr := turns None [0; 0; 0; 0; 1; 1; 0]%nat pr0).
  assert (Hr : reaches (started 0) (pr.1, pr.2)).
  { rewrite <- surjective_pairing. etransitivity; [|apply turns_reach].
    eapply rtc_l; [apply step_event; by apply event_request|].
    eapply rtc_l; [apply step_event; by apply event_signal|].
    eapply rtc_l; [apply step_event; by apply (event_done _ O)|]. done. }
  assert (Hi : pr.2 !! 0%nat = Some (mkThread Caller (Ret None) (default [] (th_trace <$> pr.2 !! 0%nat)))) by (vm_compute; reflexivity).
  destruct (webhook_stops 0 _ _ Hr) as (Hret & _ & _). destruct (Hret _ _ Hi) as (Hf & _ & _ & _ & _ & Hd).
  by exists pr.1, pr.2, (default [] (th_trace <$> pr.2 !! 0%nat)).
Defined.
