(* ===== verification/Convergence.v ===== *)
(** * Environments that end are removed

    Against the reference API server of [World], with an environment that lets the
    clock run and finishes what has been marked for deletion: a lease that was
    deleted, or whose deadline has passed, is gone after a bounded number of
    reconciles, and its namespace with it.  This complements the theorems over all
    answers: they say what a run never does, this one what it gets done. *)

From S2P Require Import Prelude GoStrings GoTime GoErrors Api LeaseConditions LeaseStatus Resources.
From S2P Require Import Policy LeaseExpiration Lifetime LeaseWarnings Concrete Programs Kube World Identity Placement Outage Remote.
From S2P Require Import LeaseCommon LeaseProvision LeaseCleanup LeaseReconcile Runtime LeasePaths LeaseSafety.

(** ** Running a program in the reference world *)

Section Run.
Context `{QuantityAPI}.

Definition run {A} (p : prog kube A) (w : World) : A * World := (in_world p w).1.

Lemma exec_history {A} (p : prog kube A) (w : World) h h' :
  (exec world_handler p w h).1 = (exec world_handler p w h').1.
Proof.
  revert w h h'. induction p as [a|X e k IH]; intros w h h'; cbn; [done|].
  destruct (world_handler X e w) as [x w']. apply IH.
Qed.

Lemma run_act {A X} (e : kube X) (k : X -> prog kube A) w :
  run (Act e k) w = run (k (world_handler X e w).1) (world_handler X e w).2.
Proof.
  unfold run, in_world. cbn. destruct (world_handler X e w) as [x w']. apply exec_history.
Qed.

Lemma run_seq {A B} (p : prog kube A) (f : A -> prog kube B) w :
  run (bind p f) w = run (f (run p w).1) (run p w).2.
Proof.
  revert w. induction p as [a|X e k IH]; intros w; cbn [bind]; [done|]. by rewrite !run_act, IH.
Qed.

Lemma run_call {X} (e : kube X) w : run (call e) w = world_handler X e w.
Proof. unfold call. rewrite run_act. by destruct (world_handler X e w). Qed.

Lemma run_ret {A} (a : A) w : run (Ret a) w = (a, w).
Proof. done. Qed.

(** Calls that leave the world as it is. *)
Definition still X (e : kube X) : Prop := forall w, (world_handler X e w).2 = w.

Lemma run_still {A} (p : prog kube A) w : every still p -> (run p w).2 = w.
Proof.
  revert w. induction p as [a|X e k IH]; intros w; cbn; [done|]. intros [He Hk]. by rewrite run_act, He, IH.
Qed.

Lemma run_quiet (p : prog kube unit) w : every still p -> run p w = (tt, w).
Proof. intros Hp. rewrite (surjective_pairing (run p w)), run_still by done. by destruct (run p w).1. Qed.

Ltac every_still :=
  repeat (cbv zeta; match goal with
    | |- every still (call _) => apply every_call; intros ?; reflexivity
    | _ => every_step
    end).

Lemma run_inc name w : run (inc name) w = (tt, w).
Proof. done. Qed.

Lemma run_when b (p : prog kube unit) w : run p w = (tt, w) -> run (when b p) w = (tt, w).
Proof. by destruct b. Qed.

Lemma run_GetLease c key w :
  run (cl_Get c KLease key) w = (match (w.(w_leases) !! slot c key : option EnvironmentLease) with Some l => Ok l | None => Err notFound end, w).
Proof. apply run_call. Qed.

Lemma run_GetNamespace c key w :
  run (cl_Get c KNamespace key) w =
    (match (w.(w_namespaces) !! slot c key : option Namespace) with Some ns => Ok ns | None => Err notFound end, w).
Proof. apply run_call. Qed.

Lemma run_GetTarget c key w :
  run (cl_Get c KTarget key) w =
    (match (w.(w_targets) !! slot c key : option ClusterTarget) with Some t => Ok t | None => Err notFound end, w).
Proof. unfold cl_Get. by rewrite run_call. Qed.

Lemma run_StatusUpdateLease c (l s : EnvironmentLease) w :
  w.(w_leases) !! slot c (ObjectKeyFromMeta l.(lease_Meta)) = Some s ->
  run (cl_StatusUpdate c KLease l) w =
    (Ok (s <| lease_Status := l.(lease_Status) |>), store_object c KLease (s <| lease_Status := l.(lease_Status) |>) w).
Proof.
  intros Hs. unfold cl_StatusUpdate. rewrite run_call. cbn [world_handler]. unfold update_object.
  change (objects KLease w !! _) with (w.(w_leases) !! slot c (ObjectKeyFromMeta l.(lease_Meta))). by rewrite Hs.
Qed.

Lemma run_UpdateLease c (l s : EnvironmentLease) w :
  w.(w_leases) !! slot c (ObjectKeyFromMeta l.(lease_Meta)) = Some s ->
  run (cl_Update c KLease l) w =
    (Ok (l <| lease_Status := s.(lease_Status) |>), store_object c KLease (l <| lease_Status := s.(lease_Status) |>) w).
Proof.
  intros Hs. unfold cl_Update. rewrite run_call. cbn [world_handler]. unfold update_object.
  change (objects KLease w !! _) with (w.(w_leases) !! slot c (ObjectKeyFromMeta l.(lease_Meta))). by rewrite Hs.
Qed.

Lemma run_DeleteLease c (l s : EnvironmentLease) w :
  w.(w_leases) !! slot c (ObjectKeyFromMeta l.(lease_Meta)) = Some s ->
  run (cl_Delete c KLease l) w =
    (None, store_object c KLease
       (s <| lease_Meta := s.(lease_Meta) <| m_DeletionTimestamp := Some w.(w_now) |> |>) w).
Proof.
  intros Hs. unfold cl_Delete. rewrite run_call. cbn [world_handler].
  change (objects KLease w !! _) with (w.(w_leases) !! slot c (ObjectKeyFromMeta l.(lease_Meta))). rewrite Hs.
  by destruct s.
Qed.

Lemma run_DeleteNamespace c (o ns : Namespace) w :
  w.(w_namespaces) !! slot c (ObjectKeyFromMeta o.(ns_Meta)) = Some ns ->
  run (cl_Delete c KNamespace o) w =
    (None, store_object c KNamespace
       (mkNamespace (ns.(ns_Meta) <| m_DeletionTimestamp := Some w.(w_now) |>)) w).
Proof.
  intros Hs. unfold cl_Delete. rewrite run_call. cbn [world_handler].
  change (objects KNamespace w !! _) with (w.(w_namespaces) !! slot c (ObjectKeyFromMeta o.(ns_Meta))). rewrite Hs.
  by destruct ns.
Qed.

End Run.

Ltac every_still :=
  repeat (cbv zeta; match goal with
    | |- every still (call _) => apply every_call; intros ?; reflexivity
    | _ => every_step
    end).

(** ** What the parts of a reconcile do there *)

Section Parts.
Context `{QuantityAPI} `{ConditionsAPI} `{SelectorAPI} `{!ControllerutilAPI} `{!ControllerutilLaws} `{RetryLaws}.
Variable r : EnvironmentLeaseReconciler.

Implicit Types (l : EnvironmentLease) (w : World) (sess : TargetSession).

Lemma run_emit l t reason m w : run (emit r l t reason m) w = (tt, w).
Proof. apply run_when. done. Qed.

Lemma run_observeClusterOp sess op err s w : run (observeClusterOp sess op err s) w = (tt, w).
Proof. apply run_quiet. unfold observeClusterOp, ObserveClusterOp, ObserveRemote, when. every_still. Qed.

Lemma run_timedOp {A} sess op (p : prog kube A) err w : run (timedOp sess op p err) w = run p w.
Proof.
  unfold timedOp. rewrite run_seq, run_call. cbn [world_handler fst snd]. rewrite run_seq, run_seq, run_call.
  cbn [world_handler fst snd]. rewrite run_seq, run_observeClusterOp. cbn [fst snd]. rewrite run_ret.
  by destruct (run p w).
Qed.

Lemma run_gated {A} sess (body : prog kube A) w : run (gated r sess body) w = run body w.
Proof.
  unfold gated, with_release. destruct (rec_Gate r); [|done].
  rewrite run_seq, run_call. cbn [world_handler fst snd]. rewrite run_seq, run_seq, run_call.
  cbn [world_handler fst snd]. rewrite run_ret. by destruct (run body w).
Qed.

Lemma run_announceExpiry l reason w : run (announceExpiry r l reason) w = (tt, w).
Proof. apply run_quiet. unfold announceExpiry, emit, inc, when. every_still. Qed.

Lemma run_announceDelete l w : run (announceDelete r l) w = (tt, w).
Proof. apply run_quiet. unfold announceDelete, emit, inc, when. every_still. Qed.

Lemma run_announceRenewal l p b w : run (announceRenewal r l p b) w = (tt, w).
Proof. apply run_quiet. unfold announceRenewal, emit, inc, when. every_still. Qed.

Lemma run_expiryReason l w : (run (expiryReason l) w).2 = w.
Proof. apply run_still. unfold expiryReason, now_. every_still. Qed.

(** The stored lease the one at hand stands for: its name is the key it is under,
    and it holds the finalizer, so that no write removes it. *)
Definition storedAs l w s : Prop :=
  w.(w_leases) !! slot HubClient (leaseKey l) = Some s /\ s.(lease_Meta) = l.(lease_Meta) /\ FinalizerName ∈ l.(lease_Meta).(m_Finalizers).

Definition putLease l w : World := w <| w_leases := <[slot HubClient (leaseKey l) := l]> w.(w_leases) |>.

Lemma store_lease l w :
  FinalizerName ∈ l.(lease_Meta).(m_Finalizers) -> store_object HubClient KLease l w = putLease l w.
Proof.
  intros Hf. unfold store_object. cbn [meta_of objects set_objects].
  destruct (m_DeletionTimestamp _); [|done]. by destruct (m_Finalizers _); [apply not_elem_of_nil in Hf|].
Qed.

(** The status writer: nothing, or the new status. *)
Lemma run_patchStatus l before w s :
  storedAs l w s ->
  run (patchStatusIfChanged l before) w =
    ((l, None), if StatusEqual before l.(lease_Status) then w
                else putLease (s <| lease_Status := l.(lease_Status) |>) w).
Proof.
  intros (Hs & Hm & Hf). unfold patchStatusIfChanged. cbv zeta. destruct (StatusEqual _ _); [done|].
  rewrite RetryOnConflict_spec.
  assert (Ha : run (patchStatusAttempt l.(lease_Status) l) w =
    ((l, None), putLease (s <| lease_Status := l.(lease_Status) |>) w)).
  { unfold patchStatusAttempt. rewrite run_seq, run_GetLease. cbn [fst snd]. rewrite Hs.
    cbv zeta. rewrite run_seq, (run_StatusUpdateLease _ _ s) by (cbn; rewrite Hm; exact Hs).
    cbn [fst snd]. rewrite store_lease by (cbn; by rewrite Hm). by destruct l. }
  destruct retry_steps; cbn [retry]; rewrite run_seq, Ha; done.
Qed.

(** ** Reaching the cluster of a lease *)

(** The cluster is the hub, or a live and enabled target whose identity is the one
    the lease recorded, if it did. *)
Definition reachable w l sess : Prop :=
  if isLocalName (cleanupTarget l) then sess = mkTargetSession LocalClusterName HubClient true true
  else exists t, w.(w_targets) !! slot HubClient (named (cleanupTarget l)) = Some t /\
    IsZeroPtr t.(ct_Meta).(m_DeletionTimestamp) = true /\ IsEnabled t.(ct_Spec) = true /\ r.(rec_Provider) = true /\
    sess = mkTargetSession (cleanupTarget l) (RemoteClient (Z.of_nat (String.length t.(ct_Meta).(m_Name)))) false false /\
    (statusRemoteIdentity l <> "" -> exists ks,
       w.(w_namespaces) !! slot sess.(ses_Client) (named "kube-system") = Some ks /\
       ks.(ns_Meta).(m_UID) = statusRemoteIdentity l).

Lemma sameEnv_target l0 l : sameEnv l0 l -> cleanupTarget l = cleanupTarget l0.
Proof. intros [_ Hspec _ Hc]. unfold cleanupTarget. by rewrite Hspec, Hc. Qed.

Lemma sameEnv_identity l0 l : sameEnv l0 l -> statusRemoteIdentity l = statusRemoteIdentity l0.
Proof. intros [_ _ _ Hc]. unfold statusRemoteIdentity. by rewrite Hc. Qed.

Lemma reachable_sameEnv w l0 l sess : sameEnv l0 l -> reachable w l0 sess -> reachable w l sess.
Proof.
  intros Hs. unfold reachable. by rewrite (sameEnv_target l0 l Hs), (sameEnv_identity l0 l Hs).
Qed.

Lemma run_resolve w l sess : reachable w l sess -> run (resolveTargetSession r l) w = (Ok sess, w).
Proof.
  unfold reachable, resolveTargetSession, ResolveNamedTarget. fold (isLocalName (cleanupTarget l)).
  destruct (isLocalName (cleanupTarget l)); [by intros ->|]. intros (t & Ht & Hd & He & Hp & -> & _).
  rewrite run_seq, run_GetTarget, Ht. cbn [fst snd]. rewrite Hd, He, Hp. cbn [negb].
  rewrite run_seq, run_call. done.
Qed.

Lemma run_verify w l sess : reachable w l sess -> run (verifyTarget sess l) w = ((l, None), w).
Proof.
  unfold reachable, verifyTarget. destruct (isLocalName (cleanupTarget l)); [by intros ->|].
  intros (t & _ & _ & _ & _ & -> & Hks). cbn [ses_Local negb andb].
  destruct (is_empty (statusRemoteIdentity l)) eqn:He; [done|]. apply is_empty_false in He.
  destruct (Hks He) as (ks & Hk & Huid). cbn [negb]. rewrite run_seq.
  unfold ProbeRemoteIdentity. rewrite run_seq, run_GetNamespace. rewrite Hk. cbn [fst snd].
  apply is_empty_false in He. rewrite Huid, He, run_ret. cbn [fst snd]. unfold VerifyLiveTargetIdentity.
  rewrite He. cbn [negb andb orb]. by rewrite ?String.eqb_refl.
Qed.

(** ** Cleaning up *)

(** The lease has a namespace that may be deleted. *)
Definition cleanable l : Prop :=
  l.(lease_Status).(st_Namespace) <> "" /\ IsProtectedNamespace l.(lease_Status).(st_Namespace) = false /\
  ForceCleanupAcknowledged l = false.

Definition nsSlot l sess : Z * string * string := slot sess.(ses_Client) (named l.(lease_Status).(st_Namespace)).

(** Whatever is there under the name of the namespace is the lease's. *)
Definition ownedNamespace w l sess : Prop :=
  forall ns, w.(w_namespaces) !! nsSlot l sess = Some ns ->
    ObjectKeyFromMeta ns.(ns_Meta) = named l.(lease_Status).(st_Namespace) /\
    VerifyNamespaceOwnership ns l r.(rec_ControlClusterID) = None.

(** What a deletion leaves of the namespace at once. *)
Definition condemned (now : time) (ns : Namespace) : option Namespace :=
  if IsZeroPtr ns.(ns_Meta).(m_DeletionTimestamp) then
    match ns.(ns_Meta).(m_Finalizers) with
    | [] => None
    | _ => Some (mkNamespace (ns.(ns_Meta) <| m_DeletionTimestamp := Some now |>))
    end
  else Some ns.

Definition condemn (k : Z * string * string) w : World :=
  w <| w_namespaces := partial_alter (fun o => o ≫= condemned w.(w_now)) k w.(w_namespaces) |>.

Lemma condemn_id k w :
  (forall ns, w.(w_namespaces) !! k = Some ns -> condemned w.(w_now) ns = Some ns) -> condemn k w = w.
Proof.
  intros Hid. unfold condemn.
  assert (Hm : partial_alter (fun o => o ≫= condemned w.(w_now)) k w.(w_namespaces) = w.(w_namespaces)).
  { apply map_eq. intros i. destruct (decide (i = k)) as [->|Hi]; [|by rewrite lookup_partial_alter_ne].
    rewrite lookup_partial_alter_eq. destruct (w.(w_namespaces) !! k) as [ns|]; [by apply Hid|done]. }
  rewrite Hm. by destruct w.
Qed.

Lemma store_condemned c (ns : Namespace) w :
  w.(w_namespaces) !! slot c (ObjectKeyFromMeta ns.(ns_Meta)) = Some ns ->
  IsZeroPtr ns.(ns_Meta).(m_DeletionTimestamp) = true ->
  store_object c KNamespace (mkNamespace (ns.(ns_Meta) <| m_DeletionTimestamp := Some w.(w_now) |>)) w
  = condemn (slot c (ObjectKeyFromMeta ns.(ns_Meta))) w.
Proof.
  intros Hns Hz. unfold store_object, condemn. cbn [meta_of].
  change (ObjectKeyFromMeta _) with (ObjectKeyFromMeta ns.(ns_Meta)) at 2. cbn.
  set (k := slot c (ObjectKeyFromMeta (ns_Meta ns))) in *.
  assert (Hm : partial_alter (fun o => o ≫= condemned w.(w_now)) k w.(w_namespaces) =
    match condemned w.(w_now) ns with Some o => <[k := o]> w.(w_namespaces) | None => delete k w.(w_namespaces) end).
  { apply map_eq. intros i. destruct (decide (i = k)) as [->|Hi].
    - rewrite lookup_partial_alter_eq, Hns. cbn. destruct (condemned (w_now w) ns); [by rewrite lookup_insert_eq|by rewrite lookup_delete_eq].
    - rewrite lookup_partial_alter_ne by done. destruct (condemned (w_now w) ns); [by rewrite lookup_insert_ne|by rewrite lookup_delete_ne]. }
  rewrite Hm. unfold condemned. rewrite Hz. by destruct (m_Finalizers (ns_Meta ns)).
Qed.

Lemma run_cleanup w l sess :
  cleanable l -> reachable w l sess -> ownedNamespace w l sess ->
  run (cleanupEnvironment r l) w =
    ((l, Ok match w.(w_namespaces) !! nsSlot l sess with None => true | Some _ => false end),
     condemn (nsSlot l sess) w).
Proof.
  intros (Hne & Hp & Hforce) Hr Ho. unfold cleanupEnvironment. cbv zeta. apply is_empty_false in Hne.
  rewrite Hne, Hp, Hforce, run_seq, (run_resolve _ _ _ Hr). cbn [fst snd]. rewrite run_gated.
  unfold cleanupOn. rewrite run_seq, (run_verify _ _ _ Hr). cbn [fst snd].
  unfold cleanupNamespace. rewrite run_seq, run_timedOp, run_GetNamespace. fold (nsSlot l sess). unfold ownedNamespace in Ho.
  destruct (w.(w_namespaces) !! nsSlot l sess) as [ns|] eqn:Hns; cbn [fst snd].
  2: { rewrite condemn_id; [done|]. intros ns. by rewrite Hns. }
  destruct (Ho ns eq_refl) as [Hk Hv]. rewrite Hv. unfold deleteNamespace.
  destruct (IsZeroPtr (m_DeletionTimestamp (ns_Meta ns))) eqn:Hz.
  - rewrite run_seq, run_timedOp, (run_DeleteNamespace _ ns ns) by (rewrite Hk; exact Hns). cbn [fst snd].
    rewrite run_ret. unfold nsSlot in *. rewrite <- Hk in Hns |- *. by rewrite store_condemned.
  - rewrite run_ret, condemn_id; [done|]. intros ns'. rewrite Hns. intros [= <-]. unfold condemned. by rewrite Hz.
Qed.

(** ** The end of a lease *)

(** The finalizer of the controller is the only one. *)
Definition onlyOurs (fs : list string) : Prop := forall f, f ∈ fs <-> f = FinalizerName.

Lemma onlyOurs_in fs : onlyOurs fs -> FinalizerName ∈ fs.
Proof. intros Ho. by apply Ho. Qed.

Lemma onlyOurs_removed fs : onlyOurs fs -> RemoveFinalizer fs FinalizerName = [].
Proof.
  intros Ho. apply elem_of_nil_inv. intros f. rewrite RemoveFinalizer_spec. intros [Hf Hne]. by apply Ho in Hf.
Qed.

Lemma onlyOurs_contained fs : onlyOurs fs -> ContainsFinalizer fs FinalizerName = true.
Proof. intros Ho. apply ContainsFinalizer_spec. by apply Ho. Qed.

Definition dropLease l w : World := w <| w_leases := delete (slot HubClient (leaseKey l)) w.(w_leases) |>.

Lemma dropLease_put l s w : leaseKey s = leaseKey l -> dropLease l (putLease s w) = dropLease l w.
Proof. intros Hk. unfold dropLease, putLease. rewrite Hk. destruct w. cbn. by rewrite delete_insert_eq. Qed.

Lemma putLease_lookup l s w :
  leaseKey s = leaseKey l -> (putLease s w).(w_leases) !! slot HubClient (leaseKey l) = Some s.
Proof. intros <-. unfold putLease. cbn. by rewrite lookup_insert_eq. Qed.

Lemma leaseKey_meta l s : s.(lease_Meta) = l.(lease_Meta) -> leaseKey s = leaseKey l.
Proof. unfold leaseKey. by intros ->. Qed.

(** The lease without its finalizer. *)
Definition released s : EnvironmentLease := s <| lease_Meta := s.(lease_Meta) <| m_Finalizers := [] |> |>.

Lemma run_removeFinalizer l s w :
  w.(w_leases) !! slot HubClient (leaseKey l) = Some s -> s.(lease_Meta) = l.(lease_Meta) ->
  onlyOurs l.(lease_Meta).(m_Finalizers) ->
  run (removeLeaseFinalizer l) w =
    (None, match l.(lease_Meta).(m_DeletionTimestamp) with
           | Some _ => dropLease l w | None => putLease (released s) w end).
Proof.
  intros Hs Hm Ho. unfold removeLeaseFinalizer. rewrite run_seq, RetryOnConflict_spec.
  assert (Ha : run (removeFinalizerAttempt l) w =
    ((tt, None), match l.(lease_Meta).(m_DeletionTimestamp) with
                 | Some _ => dropLease l w | None => putLease (released s) w end)).
  { unfold removeFinalizerAttempt. rewrite run_seq, run_GetLease, Hs. cbn [fst snd]. cbv zeta.
    rewrite Hm, onlyOurs_contained, onlyOurs_removed by done. cbn [negb].
    rewrite run_seq, (run_UpdateLease _ _ s) by exact Hs. cbn [fst snd].
    rewrite run_ret. f_equal. unfold released, store_object. rewrite Hm. destruct s as [m sp st]. cbn in Hm. subst m.
    cbn. by destruct (m_DeletionTimestamp (lease_Meta l)). }
  destruct retry_steps; cbn [retry]; rewrite run_seq, Ha; done.
Qed.

Lemma run_finishDelete l s before w :
  storedAs l w s -> onlyOurs l.(lease_Meta).(m_Finalizers) -> is_Some l.(lease_Meta).(m_DeletionTimestamp) ->
  run (finishDelete r l before) w = ((noResult, None), dropLease l w).
Proof.
  intros Hst Ho [t Ht]. unfold finishDelete. cbv zeta. set (l1 := MarkCleanupComplete l).
  assert (Hst1 : storedAs l1 w s) by exact Hst. rewrite run_seq, (run_patchStatus _ _ _ _ Hst1). cbn [fst snd].
  rewrite run_seq, run_emit, run_seq. cbn [snd].
  destruct Hst as (Hs & Hm & _). unfold storedAs in Hst1.
  destruct (StatusEqual before (lease_Status l1)).
  - rewrite (run_removeFinalizer l1 s) by done. change (lease_Meta l1) with (lease_Meta l). by rewrite Ht.
  - rewrite (run_removeFinalizer l1 (s <| lease_Status := lease_Status l1 |>));
      [|by apply putLease_lookup, leaseKey_meta|done|done].
    change (lease_Meta l1) with (lease_Meta l). rewrite Ht. cbn [fst snd]. rewrite run_ret.
    change (dropLease l1) with (dropLease l). by rewrite dropLease_put by by apply leaseKey_meta.
Qed.

Lemma run_finishExpired l s before b w :
  storedAs l w s -> onlyOurs l.(lease_Meta).(m_Finalizers) -> l.(lease_Meta).(m_DeletionTimestamp) = None ->
  run (finishExpired r l before b) w = ((noResult, None), dropLease l w).
Proof.
  intros Hst Ho Ht. unfold finishExpired. cbv zeta. set (l1 := EnsureObservedGeneration (MarkCleanupComplete l)).
  assert (Hst1 : storedAs l1 w s) by exact Hst. rewrite run_seq, (run_patchStatus _ _ _ _ Hst1). cbn [fst snd].
  rewrite run_seq, run_when by apply run_emit. cbn [snd]. rewrite run_seq.
  set (w1 := if StatusEqual before (lease_Status l1) then w else _).
  assert (Hw1 : exists s1, w1.(w_leases) !! slot HubClient (leaseKey l1) = Some s1 /\ s1.(lease_Meta) = l1.(lease_Meta) /\
    dropLease l w1 = dropLease l w).
  { destruct Hst1 as (Hs & Hm & _). unfold w1. destruct (StatusEqual _ _); [by exists s|].
    eexists. split; [by apply putLease_lookup, leaseKey_meta|]. split; [done|].
    by apply dropLease_put, leaseKey_meta. }
  destruct Hw1 as (s1 & Hs1 & Hm1 & <-). clearbody w1.
  assert (Hrm : run (removeLeaseFinalizer l1) w1 = (None, putLease (released s1) w1)).
  { rewrite (run_removeFinalizer l1 s1) by done. change (lease_Meta l1) with (lease_Meta l). by rewrite Ht. }
  rewrite Hrm. cbn [fst snd].
  assert (Hk : leaseKey (released s1) = leaseKey l) by (unfold leaseKey; cbn; by rewrite Hm1).
  rewrite run_seq, (run_DeleteLease _ l1 (released s1)) by by apply putLease_lookup.
  cbn [fst snd]. rewrite run_ret. f_equal. unfold store_object. cbn.
  change (slot HubClient (ObjectKeyFromMeta _)) with (slot HubClient (leaseKey (released s1))).
  unfold dropLease, putLease. rewrite Hk. destruct w1. cbn. by rewrite delete_insert_eq.
Qed.

(** ** A deadline that has passed *)

(** The policy of a lease, as it is stored. *)
Definition policyIn w l (pol : option EnvironmentLeasePolicy) : Prop :=
  if is_empty (refName l.(lease_Spec).(spec_PolicyRef)) then pol = None
  else exists p, w.(w_policies) !! slot HubClient (named (refName l.(lease_Spec).(spec_PolicyRef))) = Some p /\ pol = Some p.

Lemma run_fetchPolicy w l pol : policyIn w l pol -> run (fetchPolicy l) w = (Ok pol, w).
Proof.
  unfold policyIn, fetchPolicy. destruct (spec_PolicyRef (lease_Spec l)) as [name|]; [|by intros ->].
  change (refName (Some name)) with name. destruct (is_empty name); [by intros ->|]. intros (p & Hp & ->).
  rewrite run_seq. unfold cl_Get. rewrite run_call. cbn [world_handler fst snd].
  change (objects KPolicy w !! _) with (w.(w_policies) !! slot HubClient (named name)). by rewrite Hp.
Qed.

(** The times a lease runs by: those it was given, once it was stamped. *)
Record runsBy l (c mx e a : time) : Prop := {
  rb_created : l.(lease_Status).(st_CreatedAt) = Some c;
  rb_maximum : l.(lease_Status).(st_MaximumExpiresAt) = Some mx;
  rb_expires : l.(lease_Status).(st_ExpiresAt) = Some e;
  rb_activity : l.(lease_Status).(st_LastActivityAt) = Some a
}.

(** A valid lease that was started at [c] and whose deadline under the durations of
    its specification and policy is not after [t]. *)
Definition overdue (pol : option EnvironmentLeasePolicy) l (c t : time) (res : Resolved) : Prop :=
  ValidateSpec l = None /\ Resolve l.(lease_Spec) pol = Ok res /\ 0 < res.(r_TTL) <= res.(r_MaxTTL) /\
  l.(lease_Status).(st_CreatedAt) = Some c /\
  deadlineOf (Z.min (hardOf res.(r_Renewable) l.(lease_Status).(st_ExpiresAt) (c + res.(r_TTL))) (c + res.(r_MaxTTL)))
    (default c l.(lease_Status).(st_LastActivityAt)) res.(r_IdleTTL) <= t.

Lemma hardOf_again renewable prev asked : hardOf renewable (Some (hardOf renewable prev asked)) asked = hardOf renewable prev asked.
Proof. unfold hardOf. by_cases. Qed.

Lemma ValidateSpec_sameEnv l0 l : sameEnv l0 l -> ValidateSpec l = ValidateSpec l0.
Proof. intros [_ Hs Hn _]. unfold ValidateSpec. by rewrite Hs, Hn. Qed.

(** It stays overdue: under the stamps of a later run as under its own. *)
Lemma overdue_later pol l l' c t t' res :
  overdue pol l c t res -> sameEnv l l' -> t <= t' ->
  (l'.(lease_Status) = l.(lease_Status) \/
   runsBy l' c (c + res.(r_MaxTTL)) (hardOf res.(r_Renewable) l.(lease_Status).(st_ExpiresAt) (c + res.(r_TTL)))
     (default c l.(lease_Status).(st_LastActivityAt))) ->
  overdue pol l' c t' res.
Proof.
  intros (Hv & Hr & Httl & Hc & Hd) Hs Ht Htimes. pose proof (ValidateSpec_sameEnv _ _ Hs) as Hv'.
  destruct Hs as [_ Hspec _ _]. unfold overdue. rewrite Hv', Hspec.
  destruct Htimes as [Hst|[Hcr _ Hex Hac]].
  - rewrite Hst. split_and!; try done; lia.
  - rewrite Hcr, Hex, Hac, hardOf_again. split_and!; try done; cbn; lia.
Qed.

Lemma stampedLease_times l res t stamps :
  EnsureTimestamps (l <|@ st_Effective := Some (ToEffectiveStatus res) |>) res.(r_TTL) res.(r_MaxTTL) res.(r_Renewable) t = Ok stamps ->
  forall c, l.(lease_Status).(st_CreatedAt) = Some c ->
  let l1 := stampedLease stamps in
  l1.(lease_Status).(st_CreatedAt) = Some c /\ l1.(lease_Status).(st_MaximumExpiresAt) = Some (c + res.(r_MaxTTL)) /\
  l1.(lease_Status).(st_ExpiresAt) = Some (hardOf res.(r_Renewable) l.(lease_Status).(st_ExpiresAt) (c + res.(r_TTL))) /\
  l1.(lease_Status).(st_LastActivityAt) = l.(lease_Status).(st_LastActivityAt).
Proof.
  intros [_ Hl]%EnsureTimestamps_Ok_inv c Hc l1. unfold l1, stampedLease.
  destruct stamps as [l2 ? []]; cbn in Hl; subst l2; cbn; unfold startOf; cbn; by rewrite Hc.
Qed.

(** An overdue lease takes the expired path, with its times stamped. *)
Lemma run_overdue w l pol c res :
  policyIn w l pol -> overdue pol l c w.(w_now) res ->
  exists l1, run (reconcileLive r l) w = run (reconcileExpired r l1 l.(lease_Status) l.(lease_Status).(st_Phase)) w /\
    sameEnv l l1 /\
    runsBy l1 c (c + res.(r_MaxTTL)) (hardOf res.(r_Renewable) l.(lease_Status).(st_ExpiresAt) (c + res.(r_TTL)))
      (default c l.(lease_Status).(st_LastActivityAt)).
Proof.
  intros Hp (Hv & Hr & Httl & Hc & Hd). unfold reconcileLive. cbv zeta. rewrite Hv, run_seq, (run_fetchPolicy _ _ _ Hp).
  cbn [fst snd]. unfold reconcileResolved. rewrite Hr. cbv zeta. unfold now_. rewrite run_seq, run_call.
  cbn [world_handler fst snd].
  set (lE := l <|@ st_Effective := Some (ToEffectiveStatus res) |>).
  destruct (EnsureTimestamps lE (r_TTL res) (r_MaxTTL res) (r_Renewable res) (w_now w)) as [stamps|err] eqn:Hst.
  2: { by rewrite EnsureTimestamps_eq in Hst. }
  pose proof (stampedLease_times _ _ _ _ Hst c Hc) as (Hcr & Hmx & Hex & Hac).
  pose proof (sameEnv_stamped _ _ _ _ _ _ _ Hst) as Hsame.
  unfold reconcileStamped. rewrite run_seq. unfold now_. rewrite run_call. cbn [world_handler fst snd]. cbv zeta.
  set (l1 := SyncExpirationStatus (stampedLease stamps) (r_IdleTTL res) (w_now w)).
  rewrite run_seq, run_announceRenewal. cbn [fst snd]. rewrite run_seq, run_call. cbn [world_handler fst snd].
  assert (Hdl : EffectiveDeadline l1 = Some (deadlineOf
    (Z.min (hardOf (r_Renewable res) (st_ExpiresAt (lease_Status l)) (c + r_TTL res)) (c + r_MaxTTL res))
    (default c (st_LastActivityAt (lease_Status l))) (r_IdleTTL res))).
  { apply EffectiveDeadline_Sync.
    - unfold hard_of. rewrite Hex, Hmx. cbn [mbind option_bind]. by rewrite cappedHard_min.
    - unfold lastActivity_of. by rewrite Hcr, Hac. }
  assert (Hexp : IsExpired l1 (w_now w) = true).
  { unfold IsExpired. rewrite Hdl. unfold Before. by rewrite (proj2 (Z.ltb_ge _ _)) by lia. }
  rewrite Hexp, DeepCopyStatus_id. exists l1. split; [done|]. split; [by apply sameEnv_Sync|].
  unfold l1. rewrite (SyncExpirationStatus_eq _ _ _ _ _ Hcr Hex). constructor; cbn; [done..|]. by rewrite Hac.
Qed.

(** ** One reconcile *)

Lemma sameEnv_trans l0 l1 l2 : sameEnv l0 l1 -> sameEnv l1 l2 -> sameEnv l0 l2.
Proof. intros [] []. constructor; congruence. Qed.

Lemma putLease_id l s w : w.(w_leases) !! slot HubClient (leaseKey l) = Some s -> leaseKey s = leaseKey l -> putLease s w = w.
Proof. intros Hs Hk. unfold putLease. rewrite Hk. destruct w. cbn in *. by rewrite insert_id. Qed.

Lemma Verify_sameEnv ns l0 l ctl :
  sameEnv l0 l -> VerifyNamespaceOwnership ns l ctl = VerifyNamespaceOwnership ns l0 ctl.
Proof. intros [Hm _ _ Hc]. unfold VerifyNamespaceOwnership. by rewrite Hm, Hc. Qed.

(** What the status writer leaves in the store. *)
Definition statusStored l0 l s : Prop := sameEnv l0 s /\ (s.(lease_Status) = l0.(lease_Status) \/ s.(lease_Status) = l.(lease_Status)).

Lemma run_patchStored l0 l before w :
  w.(w_leases) !! slot HubClient (leaseKey l0) = Some l0 -> FinalizerName ∈ l0.(lease_Meta).(m_Finalizers) ->
  sameEnv l0 l ->
  exists s, run (patchStatusIfChanged l before) w = ((l, None), putLease s w) /\ statusStored l0 l s.
Proof.
  intros Hl0 Hf Hs. assert (Hm : l0.(lease_Meta) = l.(lease_Meta)) by by destruct Hs.
  assert (Hst : storedAs l w l0) by (split_and!; [by rewrite <- (leaseKey_meta _ _ Hm)|done|by rewrite <- Hm]).
  rewrite (run_patchStatus _ _ _ _ Hst). destruct (StatusEqual _ _).
  - exists l0. split; [by rewrite (putLease_id l0)|]. split; [done|by left].
  - eexists. split; [done|]. split; [|by right]. destruct Hs. by constructor.
Qed.

Definition waiting : CtrlResult * option error := (requeueAfter cleanupRequeueAfter, None).

(** The namespace is there: it is condemned, and the run asks to come back.  It is
    not: the lease goes. *)
Definition turned l sess w (P : EnvironmentLease -> Prop) (out : (CtrlResult * option error) * World) : Prop :=
  match w.(w_namespaces) !! nsSlot l sess with
  | None => out = ((noResult, None), dropLease l w)
  | Some _ => exists s, out = (waiting, putLease s (condemn (nsSlot l sess) w)) /\ sameEnv l s /\ P s
  end.

(** The cleanup of a lease that stands for the stored one. *)
Lemma run_cleanup_same w l0 l sess :
  sameEnv l0 l -> cleanable l0 -> reachable w l0 sess -> ownedNamespace w l0 sess ->
  run (cleanupEnvironment r l) w =
    ((l, Ok match w.(w_namespaces) !! nsSlot l0 sess with None => true | Some _ => false end),
     condemn (nsSlot l0 sess) w).
Proof.
  intros Hs (Hn & Hp & Hf) Hr Ho.
  assert (Hslot : nsSlot l sess = nsSlot l0 sess) by (unfold nsSlot; by rewrite (se_ns _ _ Hs)).
  rewrite <- Hslot. apply run_cleanup.
  - unfold cleanable, ForceCleanupAcknowledged. by rewrite (se_ns _ _ Hs), (se_meta _ _ Hs).
  - by eapply reachable_sameEnv.
  - unfold ownedNamespace. rewrite Hslot, (se_ns _ _ Hs). intros ns Hin. destruct (Ho ns Hin) as [? Hv].
    split; [done|]. by rewrite (Verify_sameEnv ns l0 l).
Qed.

Section Stored.
Variables (l0 : EnvironmentLease) (sess : TargetSession) (w : World).
Hypothesis stored : w.(w_leases) !! slot HubClient (leaseKey l0) = Some l0.
Hypothesis ours : onlyOurs l0.(lease_Meta).(m_Finalizers).
Hypothesis to_clean : cleanable l0.
Hypothesis in_reach : reachable w l0 sess.
Hypothesis owned : ownedNamespace w l0 sess.

Lemma storedAs_same l : sameEnv l0 l -> storedAs l w l0.
Proof.
  intros [Hm _ _ _]. symmetry in Hm. split_and!; [by rewrite <- (leaseKey_meta _ _ Hm)|done|].
  rewrite <- Hm. by apply onlyOurs_in.
Qed.

Lemma onlyOurs_same l : sameEnv l0 l -> onlyOurs l.(lease_Meta).(m_Finalizers).
Proof. intros [Hm _ _ _]. by rewrite Hm. Qed.

Lemma dropLease_same l : sameEnv l0 l -> dropLease l w = dropLease l0 w.
Proof. intros [Hm _ _ _]. unfold dropLease. by rewrite (leaseKey_meta _ _ Hm). Qed.

(** The status written while the namespace goes. *)
Lemma run_waiting l before :
  sameEnv l0 l ->
  exists s, run (patchStatusIfChanged l before) (condemn (nsSlot l0 sess) w)
      = ((l, None), putLease s (condemn (nsSlot l0 sess) w)) /\ statusStored l0 l s.
Proof. intros Hs. apply run_patchStored; [done|by apply onlyOurs_in|done]. Qed.

Lemma run_reconcileExpired_turned l ph :
  l0.(lease_Meta).(m_DeletionTimestamp) = None -> sameEnv l0 l ->
  turned l0 sess w (fun s => s.(lease_Status) = l0.(lease_Status) \/
      forall c mx e a, runsBy l c mx e a -> runsBy s c mx e a)
    (run (reconcileExpired r l l0.(lease_Status) ph) w).
Proof.
  intros Hdel Hs. unfold reconcileExpired. cbv zeta.
  rewrite run_seq, run_expiryReason, run_seq, run_when by apply run_announceExpiry. cbn [fst snd].
  generalize (run (expiryReason l) w).1. intros reason. set (l1 := MarkExpired l reason).
  assert (Hs1 : sameEnv l0 l1) by by apply sameEnv_MarkExpired.
  assert (Hr1 : forall c mx e a, runsBy l c mx e a -> runsBy l1 c mx e a) by (intros c mx e a []; by constructor).
  clearbody l1. rewrite run_seq, (run_cleanup_same w l0 l1 sess) by done.
  unfold turned. destruct (w.(w_namespaces) !! nsSlot l0 sess) as [ns|] eqn:Hin; cbn [fst snd].
  - set (l2 := EnsureObservedGeneration _). assert (Hs2 : sameEnv l0 l2) by (destruct Hs1; by constructor).
    assert (Hr2 : forall c mx e a, runsBy l1 c mx e a -> runsBy l2 c mx e a) by (intros c mx e a []; by constructor).
    clearbody l2. destruct (run_waiting l2 (lease_Status l0) Hs2) as (s & Hrun & Hsame & Hst).
    rewrite run_seq, Hrun. cbn [fst snd]. rewrite run_ret. exists s. split; [done|]. split; [done|].
    destruct Hst as [Hst|Hst]; [by left|right]. intros c mx e a Hc. destruct (Hr2 _ _ _ _ (Hr1 _ _ _ _ Hc)).
    constructor; by rewrite Hst.
  - rewrite condemn_id by (intros ns; by rewrite Hin).
    rewrite (run_finishExpired l1 l0); [by rewrite dropLease_same|by apply storedAs_same|by apply onlyOurs_same|].
    by rewrite (se_meta _ _ Hs1).
Qed.

Lemma run_reconcileDelete_turned :
  is_Some l0.(lease_Meta).(m_DeletionTimestamp) ->
  turned l0 sess w (fun _ => True) (run (reconcileDelete r l0) w).
Proof.
  intros Hdel. unfold reconcileDelete. rewrite onlyOurs_contained by done. cbv zeta. cbn [negb].
  rewrite run_seq, run_when by apply run_announceDelete. cbn [fst snd].
  set (l1 := MarkCleaning _ _). assert (Hs1 : sameEnv l0 l1) by (apply sameEnv_MarkCleaning; by case_match).
  clearbody l1. rewrite run_seq, (run_cleanup_same w l0 l1 sess) by done.
  unfold turned. destruct (w.(w_namespaces) !! nsSlot l0 sess) as [ns|] eqn:Hin; cbn [fst snd].
  - destruct (run_waiting l1 (DeepCopyStatus (lease_Status l0)) Hs1) as (s & Hrun & Hsame & _).
    rewrite run_seq, Hrun. cbn [fst snd]. by exists s.
  - rewrite condemn_id by (intros ns; by rewrite Hin).
    rewrite (run_finishDelete l1 l0); [by rewrite dropLease_same|by apply storedAs_same|by apply onlyOurs_same|].
    by rewrite (se_meta _ _ Hs1).
Qed.

End Stored.

(** ** Turn by turn *)

Section Turns.
Variables (name : string) (sess : TargetSession).

(** What the lease [l], stored under the name, is like when its end has come: it
    was deleted, or its deadline under the stored policy has passed. *)
Record ending w l : Prop := {
  en_stored : w.(w_leases) !! slot HubClient (leaseKey l) = Some l;
  en_named : leaseKey l = named name;
  en_ours : onlyOurs l.(lease_Meta).(m_Finalizers);
  en_cleanable : cleanable l;
  en_reachable : reachable w l sess;
  en_owned : ownedNamespace w l sess;
  en_over : IsZeroPtr l.(lease_Meta).(m_DeletionTimestamp) = false \/
    (l.(lease_Meta).(m_DeletionTimestamp) = None /\
     exists pol c res, policyIn w l pol /\ overdue pol l c w.(w_now) res)
}.

(** The reconcile of such a lease. *)
Lemma run_Reconcile_ending w l :
  ending w l ->
  turned l sess w (fun s => IsZeroPtr l.(lease_Meta).(m_DeletionTimestamp) = false \/
    forall pol c t res, overdue pol l c w.(w_now) res -> w.(w_now) <= t -> policyIn w l pol -> overdue pol s c t res)
    (run (Reconcile r name) w).
Proof.
  intros [Hl Hn Ho Hc Hr Hown Hover]. unfold Reconcile. rewrite run_seq, run_GetLease, <- Hn, Hl. cbn [fst snd]. cbv zeta.
  destruct Hover as [Hz|(Hd & pol & c & res & Hp & Hov)].
  - rewrite Hz. cbn [negb]. unfold turned.
    assert (Hdel : is_Some (m_DeletionTimestamp (lease_Meta l))) by (destruct (m_DeletionTimestamp _); [by eexists|done]).
    pose proof (run_reconcileDelete_turned l sess w Hl Ho Hc Hr Hown Hdel) as Ht. unfold turned in Ht.
    destruct (w.(w_namespaces) !! _); [|done]. destruct Ht as (s & Hrun & Hs & _). exists s. by split_and!; [..|left].
  - rewrite Hd. cbn [IsZeroPtr negb]. rewrite onlyOurs_contained by done. cbn [negb].
    destruct (run_overdue w l pol c res Hp Hov) as (l1 & Hrun & Hs1 & Hby). rewrite Hrun.
    pose proof (run_reconcileExpired_turned l sess w Hl Ho Hc Hr Hown l1 l.(lease_Status).(st_Phase) Hd Hs1) as Ht.
    unfold turned in *. destruct (w.(w_namespaces) !! _); [|done]. destruct Ht as (s & Hrun' & Hs & Hst).
    exists s. split_and!; [done..|]. right. intros pol' c' t res' Hov' Ht Hp'.
    eapply overdue_later; [exact Hov'|exact Hs|exact Ht|]. destruct Hst as [Hst|Hst]; [by left|right].
    assert (pol' = pol) as ->.
    { revert Hp Hp'. unfold policyIn. case_match; [by intros -> ->|]. intros (p & Hp1 & ->) (p' & Hp2 & ->). congruence. }
    destruct Hov as (_ & Hres & _ & Hc0 & _), Hov' as (_ & Hres' & _ & Hc0' & _). 
    assert (res' = res) as -> by congruence. assert (c' = c) as -> by congruence. by apply Hst.
Qed.

(** Meanwhile: the clock runs, and a namespace that is being deleted loses at
    least one of its finalizers or goes; the lease, the policies, the targets and
    the other namespaces stay. *)
Record drains (k : Z * string * string) w w' : Prop := {
  dr_now : w.(w_now) <= w'.(w_now);
  dr_lease : w'.(w_leases) !! slot HubClient (named name) = w.(w_leases) !! slot HubClient (named name);
  dr_policies : w'.(w_policies) = w.(w_policies);
  dr_targets : w'.(w_targets) = w.(w_targets);
  dr_others : forall i, i <> k -> w'.(w_namespaces) !! i = w.(w_namespaces) !! i;
  dr_namespace : match w.(w_namespaces) !! k with
    | None => w'.(w_namespaces) !! k = None
    | Some ns =>
        w'.(w_namespaces) !! k = None \/
        exists fs, w'.(w_namespaces) !! k = Some (mkNamespace (ns.(ns_Meta) <| m_Finalizers := fs |>)) /\
          (is_Some ns.(ns_Meta).(m_DeletionTimestamp) -> (length fs < length ns.(ns_Meta).(m_Finalizers))%nat)
    end
}.

(** One reconcile, and what happens until the next. *)
Definition turn k w w' : Prop := drains k (run (Reconcile r name) w).2 w'.

(** After at most [n] turns. *)
Fixpoint within (k : Z * string * string) (n : nat) (P : World -> Prop) w : Prop :=
  match n with
  | O => P w
  | S n => P w \/ forall w', turn k w w' -> within k n P w'
  end.

Definition gone k w : Prop :=
  w.(w_leases) !! slot HubClient (named name) = None /\ w.(w_namespaces) !! k = None.

(** The turns it takes: one for the lease, and for a namespace one more than the
    finalizers others have on it. *)
Definition rank k w : nat :=
  match w.(w_namespaces) !! k with
  | None => 1
  | Some ns => 2 + length ns.(ns_Meta).(m_Finalizers)
  end.

Lemma condemned_meta now ns ns' :
  condemned now ns = Some ns' ->
  ObjectKeyFromMeta ns'.(ns_Meta) = ObjectKeyFromMeta ns.(ns_Meta) /\ ns'.(ns_Meta).(m_Labels) = ns.(ns_Meta).(m_Labels) /\
  ns'.(ns_Meta).(m_Annotations) = ns.(ns_Meta).(m_Annotations) /\
  ns'.(ns_Meta).(m_Finalizers) = ns.(ns_Meta).(m_Finalizers) /\ is_Some ns'.(ns_Meta).(m_DeletionTimestamp).
Proof.
  unfold condemned. destruct (IsZeroPtr _) eqn:Hz.
  - destruct (m_Finalizers (ns_Meta ns)) eqn:Hf; intros [= <-]. cbn. by split_and!; [..|eexists].
  - intros [= <-]. split_and!; [done..|]. by destruct (m_DeletionTimestamp _); [eexists|].
Qed.

Lemma Verify_labels ns ns' l ctl :
  ns'.(ns_Meta).(m_Labels) = ns.(ns_Meta).(m_Labels) -> ns'.(ns_Meta).(m_Annotations) = ns.(ns_Meta).(m_Annotations) ->
  VerifyNamespaceOwnership ns' l ctl = VerifyNamespaceOwnership ns l ctl.
Proof. intros Hl Ha. unfold VerifyNamespaceOwnership. by rewrite Hl, Ha. Qed.

(** What the turn leaves of the namespace. *)
Lemma drained_owned w w1 w' l s :
  let k := nsSlot l sess in
  ownedNamespace w l sess -> sameEnv l s ->
  w1.(w_namespaces) !! k = w.(w_namespaces) !! k ≫= condemned w.(w_now) -> drains k w1 w' ->
  ownedNamespace w' s sess /\ (is_Some (w.(w_namespaces) !! k) -> (rank k w' < rank k w)%nat).
Proof.
  intros k Ho Hs Hk1 Hdr. assert (Hks : nsSlot s sess = k) by (unfold nsSlot; by rewrite (se_ns _ _ Hs)).
  pose proof (dr_namespace _ _ _ Hdr) as Hns. rewrite Hk1 in Hns. unfold rank, ownedNamespace. rewrite Hks.
  destruct (w.(w_namespaces) !! k) as [ns|] eqn:Hk; cbn in Hns.
  2: { rewrite Hns. split; [by intros ? ?|]. by intros [? ?]. }
  destruct (condemned (w_now w) ns) as [ns1|] eqn:Hc.
  2: { rewrite Hns. split; [by intros ? ?|]. intros _. lia. }
  destruct (condemned_meta _ _ _ Hc) as (Hkey & Hl & Ha & Hf & Hd).
  destruct Hns as [Hns|(fs & Hns & Hlt)]; rewrite Hns.
  { split; [by intros ? ?|]. intros _. lia. }
  split.
  - intros ns' [= <-]. destruct (Ho ns Hk) as [Hkn Hv]. rewrite (se_ns _ _ Hs). split; [by rewrite <- Hkn, <- Hkey|].
    rewrite (Verify_sameEnv _ l s) by done. by rewrite (Verify_labels ns).
  - intros _. specialize (Hlt Hd). rewrite Hf in Hlt. cbn. lia.
Qed.

Lemma other_namespace l n : IsProtectedNamespace n = true -> cleanable l -> slot sess.(ses_Client) (named n) <> nsSlot l sess.
Proof. intros Hp (_ & Hnp & _) [= ->]. congruence. Qed.

Lemma drained_reachable w w1 w' l s :
  cleanable l -> reachable w l sess -> sameEnv l s ->
  w1.(w_targets) = w.(w_targets) -> (forall i, i <> nsSlot l sess -> w1.(w_namespaces) !! i = w.(w_namespaces) !! i) ->
  drains (nsSlot l sess) w1 w' -> reachable w' s sess.
Proof.
  intros Hc Hr Hs Ht Hother Hdr. eapply reachable_sameEnv; [exact Hs|]. unfold reachable in *.
  destruct (isLocalName (cleanupTarget l)); [done|]. destruct Hr as (t & H1' & H2' & H3' & H4' & H5' & Hid).
  exists t. rewrite (dr_targets _ _ _ Hdr), Ht. split_and!; [done..|]. intros Hne. destruct (Hid Hne) as (ks & Hks & Huid).
  exists ks. split; [|done]. pose proof (other_namespace l "kube-system" eq_refl Hc) as Hk.
  by rewrite (dr_others _ _ _ Hdr), Hother.
Qed.

Lemma ending_turn w w' l :
  ending w l -> turn (nsSlot l sess) w w' ->
  match w.(w_namespaces) !! nsSlot l sess with
  | None => (run (Reconcile r name) w).1 = (noResult, None) /\ gone (nsSlot l sess) w'
  | Some _ => (run (Reconcile r name) w).1 = waiting /\
      exists s, ending w' s /\ nsSlot s sess = nsSlot l sess /\ (rank (nsSlot l sess) w' < rank (nsSlot l sess) w)%nat
  end.
Proof.
  intros He Hturn. pose proof (run_Reconcile_ending w l He) as Hrun. unfold turned, turn in *.
  destruct He as [Hl Hn Ho Hc Hr Hown Hover].
  destruct (w.(w_namespaces) !! nsSlot l sess) as [ns|] eqn:Hns.
  - destruct Hrun as (s & Hrun & Hs & Hlater). rewrite Hrun in *. cbn [fst snd] in *. split; [done|]. exists s.
    set (w1 := putLease s _) in *.
    assert (Hk1 : w1.(w_namespaces) !! nsSlot l sess = w.(w_namespaces) !! nsSlot l sess ≫= condemned w.(w_now))
      by (unfold w1; cbn; by rewrite lookup_partial_alter_eq).
    assert (Hkey : leaseKey s = leaseKey l) by (apply leaseKey_meta; by destruct Hs).
    destruct (drained_owned w w1 w' l s Hown Hs Hk1 Hturn) as [Hown' Hrank].
    split; [|split; [unfold nsSlot; by rewrite (se_ns _ _ Hs)|by apply Hrank; rewrite Hns; eexists]].
    constructor.
    + rewrite Hkey, Hn, (dr_lease _ _ _ Hturn). unfold w1. rewrite <- Hn, <- Hkey. by apply putLease_lookup.
    + by rewrite Hkey.
    + by rewrite (se_meta _ _ Hs).
    + destruct Hc as (? & ? & ?). unfold cleanable, ForceCleanupAcknowledged in *. by rewrite (se_ns _ _ Hs), (se_meta _ _ Hs).
    + apply (drained_reachable w w1 w' l s); try done. intros i Hi. unfold w1. cbn. by rewrite lookup_partial_alter_ne.
    + done.
    + rewrite (se_meta _ _ Hs). destruct Hover as [Hz|(Hd & pol & c & res & Hp & Hov)]; [by left|right]. split; [done|].
      exists pol, c, res. destruct Hlater as [Hz|Hlater]; [by rewrite Hd in Hz|]. split.
      * unfold policyIn. rewrite (se_spec _ _ Hs), (dr_policies _ _ _ Hturn). exact Hp.
      * apply (Hlater _ _ _ _ Hov); [|done]. etrans; [|apply (dr_now _ _ _ Hturn)]. unfold w1. cbn. lia.
  - rewrite Hrun in *. cbn [fst snd] in *. split; [done|]. split.
    + rewrite (dr_lease _ _ _ Hturn), <- Hn. unfold dropLease. cbn. by rewrite lookup_delete_eq.
    + pose proof (dr_namespace _ _ _ Hturn) as Hd. cbn in Hd. by rewrite Hns in Hd.
Qed.

Lemma within_mono k n m P w : (n <= m)%nat -> within k n P w -> within k m P w.
Proof.
  revert m w. induction n as [|n IH]; intros m w Hle; [by destruct m; cbn; auto|].
  destruct m as [|m]; [lia|]. cbn. intros [Hp|Hn]; [by left|right]. intros w' Hw'. apply IH; [lia|]. by apply Hn.
Qed.

Lemma ending_within n w l :
  ending w l -> (rank (nsSlot l sess) w <= n)%nat -> within (nsSlot l sess) n (gone (nsSlot l sess)) w.
Proof.
  revert w l. induction n as [|n IH]; intros w l He Hrank.
  { exfalso. unfold rank in Hrank. destruct (_ !! _); lia. }
  right. intros w' Hturn. pose proof (ending_turn w w' l He Hturn) as Ht.
  destruct (w.(w_namespaces) !! nsSlot l sess) as [ns|] eqn:Hns.
  - destruct Ht as (_ & s & He' & Hk & Hlt). rewrite <- Hk. apply IH; [done|]. rewrite Hk. lia.
  - apply (within_mono _ 0); [lia|]. apply Ht.
Qed.

(** Claim C7.  An environment whose end has come is removed.  Take any world in which
    a lease was deleted, or is valid and past its deadline under the stored policy,
    with the controller's finalizer as its only one and its cluster in reach, and in
    which whatever stands under the name of its namespace is its own.  While the
    namespace is there a reconcile keeps the lease and asks to come back in five
    seconds; when it is gone the lease goes in the same run and nothing is asked
    for.  Whatever the rest of the cluster does meanwhile, as long as it handles a
    finalizer of the deleted namespace from one reconcile to the next, lease and
    namespace are gone after at most two reconciles more than the namespace has
    finalizers. *)
Theorem ended_environment_removed w l :
  ending w l ->
  let k := nsSlot l sess in
  within k (rank k w) (gone k) w /\
  match w.(w_namespaces) !! k with
  | Some _ => (run (Reconcile r name) w).1 = (requeueAfter (5 * Second), None) /\
      exists s, (run (Reconcile r name) w).2.(w_leases) !! slot HubClient (named name) = Some s /\
        s.(lease_Meta) = l.(lease_Meta) /\ s.(lease_Spec) = l.(lease_Spec)
  | None => (run (Reconcile r name) w).1 = (noResult, None) /\
      (run (Reconcile r name) w).2.(w_leases) !! slot HubClient (named name) = None
  end.
Proof.
  intros He k. split; [by apply ending_within|]. pose proof (run_Reconcile_ending w l He) as Hrun.
  unfold turned in Hrun. fold k in Hrun. destruct (w.(w_namespaces) !! k) as [ns|].
  - destruct Hrun as (s & -> & Hs & _). split; [done|]. exists s. destruct Hs as [Hm Hsp _ _]. split_and!; [|done..].
    rewrite <- (en_named _ _ He), <- (leaseKey_meta _ _ Hm). by apply putLease_lookup.
  - rewrite Hrun. split; [done|]. rewrite <- (en_named _ _ He). unfold dropLease. cbn. by rewrite lookup_delete_eq.
Qed.

End Turns.

End Parts.

(** ** Witness *)

Section Demo.

#[local] Existing Instance milliQuantity.
#[local] Existing Instance listConditions.
#[local] Existing Instance exactSelectors.
#[local] Existing Instance listControllerutil.
#[local] Existing Instance fourAttempts.
#[local] Existing Instance listControllerutil_laws.
#[local] Existing Instance fourAttempts_laws.

(** The world of Runtime.v an hour after the environment was provisioned; someone
    else has put a finalizer on the namespace. *)
Definition demoSlot : Z * string * string := slot HubClient (named "preview-x7k2p").

Definition endedWorld : World :=
  let w := rounds 2 demoWorld in
  w <| w_now := 100 * Second + Hour |>
    <| w_namespaces := alter (fun ns => mkNamespace (ns.(ns_Meta) <| m_Finalizers := ["example.com/backup"] |>))
         demoSlot w.(w_namespaces) |>.

Definition hubSession : TargetSession := mkTargetSession LocalClusterName HubClient true true.

Definition endedLease : EnvironmentLease := Eval vm_compute in default demoLease (leaseIn endedWorld).

Definition endedResolved : Resolved := Eval vm_compute in
  match Resolve endedLease.(lease_Spec) None with Ok res => res | Err _ => mkResolved "" 0 0 0 false None None false end.

Definition endedNamespace : Namespace := Eval vm_compute in
  default (mkNamespace emptyMeta) (endedWorld.(w_namespaces) !! demoSlot).

Lemma endedNamespace_there : endedWorld.(w_namespaces) !! demoSlot = Some endedNamespace.
Proof. vm_compute. reflexivity. Qed.

Lemma endedLease_ending : ending demoReconciler "demo" hubSession endedWorld endedLease.
Proof.
  constructor.
  - vm_compute. reflexivity.
  - reflexivity.
  - intros f. change (m_Finalizers (lease_Meta endedLease)) with [FinalizerName]. apply list_elem_of_singleton.
  - split_and!; [discriminate|vm_compute; reflexivity|vm_compute; reflexivity].
  - reflexivity.
  - intros ns Hns. change (nsSlot endedLease hubSession) with demoSlot in Hns. rewrite endedNamespace_there in Hns.
    injection Hns as <-. split; vm_compute; reflexivity.
  - right. split; [reflexivity|]. exists None, (100 * Second), endedResolved. split; [reflexivity|].
    split_and!; vm_compute; try reflexivity; discriminate.
Qed.

(** The first reconcile marks the namespace, the second, after the finalizer was
    handled, takes the lease: three turns at most. *)
Lemma ended_environment_removed_witness :
  ending demoReconciler "demo" hubSession endedWorld endedLease /\
  rank demoSlot endedWorld = 3%nat /\
  within demoReconciler "demo" demoSlot 3 (gone "demo" demoSlot) endedWorld.
Proof.
  split; [exact endedLease_ending|]. split; [vm_compute; reflexivity|].
  exact (proj1 (ended_environment_removed demoReconciler "demo" hubSession endedWorld endedLease endedLease_ending)).
Defined.

End Demo.
