(* ===== verification/Provisioning.v ===== *)
(** * Valid leases are provisioned

    The other half of convergence, against the reference API server of [World]: one
    reconcile of a lease that is valid and not over builds its environment, or
    repairs what is there, and leaves the lease Active with a time to come back.
    Together with [Convergence] this is the whole life of a lease. *)

From S2P Require Import Prelude GoStrings GoTime GoErrors Api LeaseConditions LeaseStatus Resources.
From S2P Require Import Policy LeaseExpiration Lifetime LeaseWarnings Concrete Programs Kube World Identity Placement Outage Remote.
From S2P Require Import LeaseCommon LeaseProvision LeaseCleanup LeaseReconcile Runtime LeasePaths LeaseSafety LeaseEnsure.
From S2P Require Import LeaseBehaviour Convergence.

(** No one but the lease controls an object. *)
Definition uncontested `{QuantityAPI} (l : EnvironmentLease) (refs : list OwnerReference) : Prop :=
  forall o, o ∈ refs -> o.(or_Controller) = true -> o.(or_Kind) = "EnvironmentLease" /\ o.(or_Name) = lease_Name l.

(** "SetControllerReference sets owner as a Controller OwnerReference on controlled
    ... returns an error if there is another OwnerReference with Controller flag
    set". *)
Class OwnerReferenceLaws `{ControllerutilAPI} := {
  SetControllerReference_taken : forall l m, uncontested l m.(m_OwnerReferences) ->
    exists m', SetControllerReference l m = Ok m' /\ uncontested l m'.(m_OwnerReferences)
}.

(** ** Reading and writing objects *)

Section Objects.
Context `{QuantityAPI}.

Implicit Types (w : World) (c : Client).

Definition keyOf (k : Kind) (o : Obj k) : ObjectKey := ObjectKeyFromMeta (meta_of k o).

(** The world with an object in its place. *)
Definition putAt c (k : Kind) (o : Obj k) w : World :=
  set_objects k (<[slot c (keyOf k o) := o]> (objects k w)) w.

Lemma run_get c k key w :
  run (cl_Get c k key) w = (match objects k w !! slot c key with Some o => Ok o | None => Err notFound end, w).
Proof. unfold cl_Get. by rewrite run_call. Qed.

Lemma key_name k (o : Obj k) N n : keyOf k o = mkObjectKey N n -> is_empty n = false -> is_empty (meta_of k o).(m_Name) = false.
Proof. unfold keyOf. by intros [= _ ->]. Qed.

Lemma store_live c k (o : Obj k) w : (meta_of k o).(m_DeletionTimestamp) = None -> store_object c k o w = putAt c k o w.
Proof. intros Hd. unfold store_object. by rewrite Hd. Qed.

Lemma run_create c k (o : Obj k) w :
  is_empty (meta_of k o).(m_Name) = false -> (meta_of k o).(m_DeletionTimestamp) = None ->
  objects k w !! slot c (keyOf k o) = None ->
  run (cl_Create c k o) w = (Ok o, putAt c k o w).
Proof.
  intros Hn Hd Hf. unfold cl_Create. rewrite run_call. cbn [world_handler]. rewrite Hn. cbv zeta.
  unfold keyOf in Hf. by rewrite Hf, store_live.
Qed.

Lemma run_patch c k (o base stored : Obj k) w :
  keep_status k stored o = o -> (meta_of k o).(m_DeletionTimestamp) = None ->
  objects k w !! slot c (keyOf k o) = Some stored ->
  run (cl_Patch c k o base) w = (Ok o, putAt c k o w).
Proof.
  intros Hk Hd Hs. unfold cl_Patch. rewrite run_call. cbn [world_handler]. unfold update_object.
  unfold keyOf in Hs. by rewrite Hs, Hk, store_live.
Qed.

(** Objects of other kinds, and what is no object, stay when one is put. *)
Lemma objects_set k k' m w : k <> k' -> objects k (set_objects k' m w) = objects k w.
Proof. by destruct k, k'. Qed.

Lemma objects_set_same k m w : objects k (set_objects k m w) = m.
Proof. by destruct k. Qed.

Lemma now_set k m w : (set_objects k m w).(w_now) = w.(w_now).
Proof. by destruct k. Qed.

Lemma set_set k m m' w : set_objects k m (set_objects k m' w) = set_objects k m w.
Proof. by destruct k, w. Qed.

Lemma set_objects_id k w : set_objects k (objects k w) w = w.
Proof. by destruct k, w. Qed.

(** At most the object in one place has changed. *)
Definition changedAt k (i : Z * string * string) w w' : Prop :=
  exists m, w' = set_objects k m w /\ forall j, j <> i -> m !! j = objects k w !! j.

Lemma changedAt_refl k i w : changedAt k i w w.
Proof. exists (objects k w). by rewrite set_objects_id. Qed.

Lemma changedAt_put c k (o : Obj k) w : changedAt k (slot c (keyOf k o)) w (putAt c k o w).
Proof. eexists. split; [done|]. intros j Hj. by rewrite lookup_insert_ne. Qed.

Lemma changedAt_other k i w w' k' : changedAt k i w w' -> k' <> k -> objects k' w' = objects k' w.
Proof. intros (m & -> & _) Hk. by apply objects_set. Qed.

Lemma changedAt_now k i w w' : changedAt k i w w' -> w'.(w_now) = w.(w_now).
Proof. intros (m & -> & _). apply now_set. Qed.

Lemma changedAt_same k i w w' j : changedAt k i w w' -> j <> i -> objects k w' !! j = objects k w !! j.
Proof. intros (m & -> & Hm) Hj. rewrite objects_set_same. by apply Hm. Qed.

Lemma putAt_lookup c k (o : Obj k) w : objects k (putAt c k o w) !! slot c (keyOf k o) = Some o.
Proof. unfold putAt. by rewrite objects_set_same, lookup_insert_eq. Qed.

End Objects.

(** ** The objects of an environment *)

Section Steps.
Context `{!QuantityAPI} `{!QuantityLaws} `{!ConditionsAPI} `{!ConditionsLaws} `{!SelectorAPI}.
Context `{!ControllerutilAPI} `{!ControllerutilLaws} `{!OwnerReferenceLaws} `{!RetryAPI} `{!RetryLaws}.
Variable r : EnvironmentLeaseReconciler.

Implicit Types (l : EnvironmentLease) (w : World) (sess : TargetSession).

Lemma Quantity_Cmp_refl q : Quantity_Cmp q q = 0.
Proof. by rewrite Quantity_Cmp_spec, Z.compare_refl. Qed.

Lemma ResourceListsEqual_refl a : ResourceListsEqual a a = true.
Proof.
  unfold ResourceListsEqual. rewrite bool_decide_eq_false_2 by tauto. apply forallb_forall. intros [k q] Hin.
  apply list_elem_of_In, elem_of_map_to_list in Hin. rewrite Hin, Quantity_Cmp_refl. done.
Qed.

Lemma mapsEqual_refl a : mapsEqual a a = true.
Proof. apply mapsEqual_spec. split; [done|]. intros k v Hk. unfold get. by rewrite Hk. Qed.

(** Metadata the lease may take over: not being deleted, and without a controller
    but the lease. *)
Definition free l (m : ObjectMeta) : Prop := m.(m_DeletionTimestamp) = None /\ uncontested l m.(m_OwnerReferences).

(** What stands in a place, if anything, is there under its own key and free. *)
Definition claimable l (k : Kind) c key w : Prop :=
  forall o, objects k w !! slot c key = Some o -> keyOf k o = key /\ free l (meta_of k o).

Lemma claimable_put l k c key (o : Obj k) w :
  keyOf k o = key -> free l (meta_of k o) -> claimable l k c key (putAt c k o w).
Proof. intros <- Hf o'. rewrite putAt_lookup. by intros [= <-]. Qed.

(** [setOwner] succeeds on such metadata and changes the owners only. *)
Lemma setOwner_free sess l m :
  uncontested l m.(m_OwnerReferences) ->
  exists refs, setOwner sess l m = Ok (m <| m_OwnerReferences := refs |>) /\ uncontested l refs.
Proof.
  intros Hf. unfold setOwner. destruct (ses_SetLeaseOwner sess).
  - destruct (SetControllerReference_taken l m Hf) as (m' & Hm & Hu). destruct (SetControllerReference_meta _ _ _ Hm) as [refs ->].
    by exists refs.
  - exists m.(m_OwnerReferences). by destruct m.
Qed.

Lemma setOwner_new sess l m :
  m.(m_OwnerReferences) = [] -> exists refs, setOwner sess l m = Ok (m <| m_OwnerReferences := refs |>) /\ uncontested l refs.
Proof. intros Hm. apply setOwner_free. rewrite Hm. by intros o Ho%not_elem_of_nil. Qed.

(** The object is as the lease asks for, if it asks for one. *)
Definition quotaStands sess l N w : Prop :=
  forall d, DesiredResourceQuota l N = Some d ->
  exists q, w.(w_quotas) !! slot sess.(ses_Client) (mkObjectKey N ResourceQuotaName) = Some q /\
    ResourceListsEqual q.(rq_Hard) d.(rq_Hard) = true /\ mapsEqual q.(rq_Meta).(m_Labels) d.(rq_Meta).(m_Labels) = true.

Definition limitRangeStands sess l N w : Prop :=
  forall d, DesiredLimitRange l N = Some d ->
  exists o, w.(w_limitRanges) !! slot sess.(ses_Client) (mkObjectKey N LimitRangeName) = Some o /\
    o.(lr_Limits) = d.(lr_Limits) /\ o.(lr_Meta).(m_Labels) = d.(lr_Meta).(m_Labels).

Definition networkPolicyStands sess l N w : Prop :=
  forall d, DesiredNetworkPolicy l N = Some d ->
  exists o, w.(w_networkPolicies) !! slot sess.(ses_Client) (mkObjectKey N NetworkPolicyName) = Some o /\
    o.(npo_Spec) = d.(npo_Spec) /\ o.(npo_Meta).(m_Labels) = d.(npo_Meta).(m_Labels).

Lemma DesiredResourceQuota_meta l N d :
  DesiredResourceQuota l N = Some d ->
  keyOf KQuota d = mkObjectKey N ResourceQuotaName /\ d.(rq_Meta).(m_DeletionTimestamp) = None /\ d.(rq_Meta).(m_OwnerReferences) = [].
Proof. unfold DesiredResourceQuota. destruct (spec_Quota _); [|done]. case_match; [done|]. by intros [= <-]. Qed.

Lemma DesiredLimitRange_meta l N d :
  DesiredLimitRange l N = Some d ->
  keyOf KLimitRange d = mkObjectKey N LimitRangeName /\ d.(lr_Meta).(m_DeletionTimestamp) = None /\ d.(lr_Meta).(m_OwnerReferences) = [].
Proof. unfold DesiredLimitRange. destruct (spec_Limits _); [|done]. cbv zeta. case_match; [done|]. by intros [= <-]. Qed.

Lemma DesiredNetworkPolicy_meta l N d :
  DesiredNetworkPolicy l N = Some d ->
  keyOf KNetworkPolicy d = mkObjectKey N NetworkPolicyName /\ d.(npo_Meta).(m_DeletionTimestamp) = None /\ d.(npo_Meta).(m_OwnerReferences) = [].
Proof. unfold DesiredNetworkPolicy. destruct (spec_NetworkPolicy _); [|done]. case_match; [|done]. by intros [= <-]. Qed.

Lemma run_ensureQuota sess l N w :
  claimable l KQuota sess.(ses_Client) (mkObjectKey N ResourceQuotaName) w ->
  exists w', run (ensureResourceQuota sess l N) w = (None, w') /\ quotaStands sess l N w' /\
    claimable l KQuota sess.(ses_Client) (mkObjectKey N ResourceQuotaName) w' /\
    changedAt KQuota (slot sess.(ses_Client) (mkObjectKey N ResourceQuotaName)) w w'.
Proof.
  intros Hcl. unfold ensureResourceQuota. cbv zeta.
  destruct (DesiredResourceQuota l N) as [d|] eqn:Hd.
  2: { exists w. split; [done|]. split; [intros d; by rewrite Hd|split; [done|apply changedAt_refl]]. }
  destruct (DesiredResourceQuota_meta _ _ _ Hd) as (Hk & Hdel & Hrefs).
  destruct (setOwner_new sess l _ Hrefs) as (refs & -> & Hrefs').
  set (d' := d <| rq_Meta := _ |>). assert (Hk' : keyOf KQuota d' = mkObjectKey N ResourceQuotaName) by exact Hk.
  rewrite run_seq, run_get. change (ObjectKeyFromMeta (rq_Meta d')) with (keyOf KQuota d'). rewrite Hk'.
  destruct (objects KQuota w !! _) as [q|] eqn:Hq; cbn [fst snd].
  - destruct (Hcl q Hq) as [Hkq [Hdq Hfq]].
    destruct (ResourceListsEqual _ _ && mapsEqual _ _) eqn:He.
    { exists w. split; [done|]. split; [|split; [done|apply changedAt_refl]]. intros d0. rewrite Hd. intros [= <-]. exists q.
      apply andb_true_iff in He. by split. }
    set (m := (rq_Meta q) <| m_Labels := _ |>). destruct (setOwner_free sess l m Hfq) as (refs' & -> & Hfq').
    set (p := mkResourceQuota _ _). assert (Hkp : keyOf KQuota p = keyOf KQuota q) by done.
    rewrite run_seq, (run_patch _ _ _ _ q) by (done || by rewrite Hkp, Hkq). cbn [fst snd]. eexists. split; [done|].
    rewrite <- Hkq, <- Hkp. split; [|split; [by apply claimable_put|apply changedAt_put]]. intros d0. rewrite Hd. intros [= <-]. exists p.
    split; [rewrite <- Hkq, <- Hkp; apply (putAt_lookup _ KQuota)|]. split; [apply ResourceListsEqual_refl|apply mapsEqual_refl].
  - change (IsNotFound notFound) with true. cbv iota. rewrite run_seq, run_create; [|by apply (key_name _ _ _ _ Hk')|done|by rewrite Hk'].
    cbn [fst snd]. eexists. split; [done|]. rewrite <- Hk'. split; [|split; [by apply claimable_put|apply changedAt_put]].
    intros d0. rewrite Hd. intros [= <-]. exists d'.
    split; [rewrite <- Hk'; apply (putAt_lookup _ KQuota)|]. split; [apply ResourceListsEqual_refl|apply mapsEqual_refl].
Qed.

Lemma run_ensureLimitRange sess l N w :
  claimable l KLimitRange sess.(ses_Client) (mkObjectKey N LimitRangeName) w ->
  exists w', run (ensureLimitRange sess l N) w = (None, w') /\ limitRangeStands sess l N w' /\
    claimable l KLimitRange sess.(ses_Client) (mkObjectKey N LimitRangeName) w' /\
    changedAt KLimitRange (slot sess.(ses_Client) (mkObjectKey N LimitRangeName)) w w'.
Proof.
  intros Hcl. unfold ensureLimitRange. cbv zeta.
  destruct (DesiredLimitRange l N) as [d|] eqn:Hd.
  2: { exists w. split; [done|]. split; [intros d; by rewrite Hd|split; [done|apply changedAt_refl]]. }
  destruct (DesiredLimitRange_meta _ _ _ Hd) as (Hk & Hdel & Hrefs).
  destruct (setOwner_new sess l _ Hrefs) as (refs & -> & Hrefs').
  set (d' := d <| lr_Meta := _ |>). assert (Hk' : keyOf KLimitRange d' = mkObjectKey N LimitRangeName) by exact Hk.
  rewrite run_seq, run_get. change (ObjectKeyFromMeta (lr_Meta d')) with (keyOf KLimitRange d'). rewrite Hk'.
  assert (Hput : forall o : LimitRange, keyOf KLimitRange o = keyOf KLimitRange d' -> o.(lr_Limits) = d.(lr_Limits) ->
    o.(lr_Meta).(m_Labels) = d.(lr_Meta).(m_Labels) -> limitRangeStands sess l N (putAt sess.(ses_Client) KLimitRange o w)).
  { intros o Ho Hl1 Hl2 d0. rewrite Hd. intros [= <-]. exists o. split; [|done].
    rewrite <- Hk', <- Ho. apply (putAt_lookup _ KLimitRange). }
  destruct (objects KLimitRange w !! _) as [q|] eqn:Hq; cbn [fst snd].
  - destruct (Hcl q Hq) as [Hkq [Hdq Hfq]].
    set (m := (lr_Meta q) <| m_Labels := _ |>). destruct (setOwner_free sess l m Hfq) as (refs' & -> & Hfq').
    set (p := mkLimitRange _ _). assert (Hkp : keyOf KLimitRange p = keyOf KLimitRange q) by done.
    rewrite run_seq, (run_patch _ _ _ _ q) by (done || by rewrite Hkp, Hkq). cbn [fst snd]. eexists. split; [done|].
    split; [apply Hput; by rewrite ?Hkp, ?Hkq|]. rewrite <- Hkq, <- Hkp. split; [by apply claimable_put|apply changedAt_put].
  - change (IsNotFound notFound) with true. cbv iota. rewrite run_seq, run_create; [|by apply (key_name _ _ _ _ Hk')|done|by rewrite Hk'].
    cbn [fst snd]. eexists. split; [done|]. split; [by apply Hput|]. rewrite <- Hk'. split; [by apply claimable_put|apply changedAt_put].
Qed.

Lemma run_ensureNetworkPolicy sess l N w :
  claimable l KNetworkPolicy sess.(ses_Client) (mkObjectKey N NetworkPolicyName) w ->
  exists w', run (ensureNetworkPolicy sess l N) w = (None, w') /\ networkPolicyStands sess l N w' /\
    claimable l KNetworkPolicy sess.(ses_Client) (mkObjectKey N NetworkPolicyName) w' /\
    changedAt KNetworkPolicy (slot sess.(ses_Client) (mkObjectKey N NetworkPolicyName)) w w'.
Proof.
  intros Hcl. unfold ensureNetworkPolicy. cbv zeta.
  destruct (DesiredNetworkPolicy l N) as [d|] eqn:Hd.
  2: { exists w. split; [done|]. split; [intros d; by rewrite Hd|split; [done|apply changedAt_refl]]. }
  destruct (DesiredNetworkPolicy_meta _ _ _ Hd) as (Hk & Hdel & Hrefs).
  destruct (setOwner_new sess l _ Hrefs) as (refs & -> & Hrefs').
  set (d' := d <| npo_Meta := _ |>). assert (Hk' : keyOf KNetworkPolicy d' = mkObjectKey N NetworkPolicyName) by exact Hk.
  rewrite run_seq, run_get. change (ObjectKeyFromMeta (npo_Meta d')) with (keyOf KNetworkPolicy d'). rewrite Hk'.
  assert (Hput : forall o : NetworkPolicy, keyOf KNetworkPolicy o = keyOf KNetworkPolicy d' -> o.(npo_Spec) = d.(npo_Spec) ->
    o.(npo_Meta).(m_Labels) = d.(npo_Meta).(m_Labels) ->
    networkPolicyStands sess l N (putAt sess.(ses_Client) KNetworkPolicy o w)).
  { intros o Ho Hl1 Hl2 d0. rewrite Hd. intros [= <-]. exists o. split; [|done].
    rewrite <- Hk', <- Ho. apply (putAt_lookup _ KNetworkPolicy). }
  destruct (objects KNetworkPolicy w !! _) as [q|] eqn:Hq; cbn [fst snd].
  - destruct (Hcl q Hq) as [Hkq [Hdq Hfq]].
    set (m := (npo_Meta q) <| m_Labels := _ |>). destruct (setOwner_free sess l m Hfq) as (refs' & -> & Hfq').
    set (p := mkNetworkPolicy _ _). assert (Hkp : keyOf KNetworkPolicy p = keyOf KNetworkPolicy q) by done.
    rewrite run_seq, (run_patch _ _ _ _ q) by (done || by rewrite Hkp, Hkq). cbn [fst snd]. eexists. split; [done|].
    split; [apply Hput; by rewrite ?Hkp, ?Hkq|]. rewrite <- Hkq, <- Hkp. split; [by apply claimable_put|apply changedAt_put].
  - change (IsNotFound notFound) with true. cbv iota. rewrite run_seq, run_create; [|by apply (key_name _ _ _ _ Hk')|done|by rewrite Hk'].
    cbn [fst snd]. eexists. split; [done|]. split; [by apply Hput|]. rewrite <- Hk'. split; [by apply claimable_put|apply changedAt_put].
Qed.

(** ** What a run may touch *)

(** The places of a lease, its namespace and the objects inside. *)
Definition place l sess N (k : Kind) : option (Z * string * string) :=
  match k with
  | KLease => Some (slot HubClient (leaseKey l))
  | KNamespace => Some (slot sess.(ses_Client) (named N))
  | KQuota => Some (slot sess.(ses_Client) (mkObjectKey N ResourceQuotaName))
  | KLimitRange => Some (slot sess.(ses_Client) (mkObjectKey N LimitRangeName))
  | KNetworkPolicy => Some (slot sess.(ses_Client) (mkObjectKey N NetworkPolicyName))
  | KPolicy | KTarget | KSecret => None
  end.

(** Nothing changes outside these places, and no time passes. *)
Definition confined l sess N w w' : Prop :=
  w'.(w_now) = w.(w_now) /\ forall k i, place l sess N k <> Some i -> objects k w' !! i = objects k w !! i.

Lemma confined_refl l sess N w : confined l sess N w w.
Proof. done. Qed.

Lemma confined_trans l sess N w1 w2 w3 : confined l sess N w1 w2 -> confined l sess N w2 w3 -> confined l sess N w1 w3.
Proof. intros [Hn1 Hf1] [Hn2 Hf2]. split; [congruence|]. intros k i Hi. by rewrite Hf2, Hf1. Qed.

Lemma confined_changed l sess N k i w w' : place l sess N k = Some i -> changedAt k i w w' -> confined l sess N w w'.
Proof.
  intros Hp Hc. split; [by eapply changedAt_now|]. intros k' j Hj. destruct (decide (k' = k)) as [->|Hk].
  - apply (changedAt_same _ _ _ _ _ Hc). congruence.
  - by rewrite (changedAt_other _ _ _ _ _ Hc).
Qed.

Lemma confined_putLease l l' sess N w : leaseKey l' = leaseKey l -> confined l sess N w (putLease l' w).
Proof.
  intros Hk. split; [done|]. intros k i Hi. destruct k; try done. cbn. rewrite Hk. rewrite lookup_insert_ne; [done|].
  intros <-. by apply Hi.
Qed.

Lemma confined_targets l sess N w w' : confined l sess N w w' -> w'.(w_targets) = w.(w_targets).
Proof. intros [_ Hf]. apply map_eq. intros i. by apply (Hf KTarget). Qed.

Lemma confined_policies l sess N w w' : confined l sess N w w' -> w'.(w_policies) = w.(w_policies).
Proof. intros [_ Hf]. apply map_eq. intros i. by apply (Hf KPolicy). Qed.

Definition objectsStand sess l N w : Prop :=
  quotaStands sess l N w /\ limitRangeStands sess l N w /\ networkPolicyStands sess l N w.

Definition claimableObjects l sess N w : Prop :=
  claimable l KQuota sess.(ses_Client) (mkObjectKey N ResourceQuotaName) w /\
  claimable l KLimitRange sess.(ses_Client) (mkObjectKey N LimitRangeName) w /\
  claimable l KNetworkPolicy sess.(ses_Client) (mkObjectKey N NetworkPolicyName) w.

Lemma claimable_objects l k c key w w' : objects k w' = objects k w -> claimable l k c key w -> claimable l k c key w'.
Proof. unfold claimable. by intros ->. Qed.

Lemma run_ensureObjects sess l N w :
  claimableObjects l sess N w ->
  exists w', run (ensureObjects sess l N) w = (None, w') /\ objectsStand sess l N w' /\ claimableObjects l sess N w' /\
    confined l sess N w w' /\ w'.(w_leases) = w.(w_leases) /\ w'.(w_namespaces) = w.(w_namespaces).
Proof.
  intros (Hq & Hl & Hn). unfold ensureObjects.
  destruct (run_ensureQuota sess l N w Hq) as (w1 & Hr1 & Hs1 & Hq1 & Hc1). rewrite run_seq, Hr1. cbn [fst snd].
  pose proof (fun k => changedAt_other _ _ _ _ k Hc1) as Ho1.
  apply (claimable_objects _ _ _ _ _ w1) in Hl; [|by apply Ho1]. apply (claimable_objects _ _ _ _ _ w1) in Hn; [|by apply Ho1].
  destruct (run_ensureLimitRange sess l N w1 Hl) as (w2 & Hr2 & Hs2 & Hl2 & Hc2). rewrite run_seq, Hr2. cbn [fst snd].
  pose proof (fun k => changedAt_other _ _ _ _ k Hc2) as Ho2.
  apply (claimable_objects _ _ _ _ _ w2) in Hn; [|by apply Ho2].
  destruct (run_ensureNetworkPolicy sess l N w2 Hn) as (w3 & Hr3 & Hs3 & Hn3 & Hc3). rewrite run_seq, Hr3. cbn [fst snd].
  pose proof (fun k => changedAt_other _ _ _ _ k Hc3) as Ho3. exists w3. split; [done|].
  assert (Hq3 : objects KQuota w3 = objects KQuota w1) by (rewrite Ho3, Ho2; done).
  assert (Hl3 : objects KLimitRange w3 = objects KLimitRange w2) by (rewrite Ho3; done).
  assert (Hle : objects KLease w3 = objects KLease w) by (rewrite Ho3, Ho2, Ho1; done).
  assert (Hns : objects KNamespace w3 = objects KNamespace w) by (rewrite Ho3, Ho2, Ho1; done).
  split; [|split; [|split_and!; [|done..]]].
  - split_and!; [| |done].
    + unfold quotaStands. change (w_quotas w3) with (objects KQuota w3). by rewrite Hq3.
    + unfold limitRangeStands. change (w_limitRanges w3) with (objects KLimitRange w3). by rewrite Hl3.
  - split_and!; [by apply (claimable_objects _ _ _ _ w1)|by apply (claimable_objects _ _ _ _ w2)|done].
  - eapply confined_trans; [apply (confined_changed _ _ _ KQuota _ _ _ eq_refl Hc1)|].
    eapply confined_trans; [apply (confined_changed _ _ _ KLimitRange _ _ _ eq_refl Hc2)|].
    apply (confined_changed _ _ _ KNetworkPolicy _ _ _ eq_refl Hc3).
Qed.

(** ** The namespace *)

(** The labels a lease gives to its namespace. *)
Definition wantedLabels l : labels := MergeLabels (ManagedLabels (lease_Name l)) l.(lease_Spec).(spec_Namespace).(nsp_Labels).

(** A namespace the lease may take: its own, or one that nobody manages; with no
    empty label but its own, which the comparison of maps would not see. *)
Definition adoptable l N (ns : Namespace) : Prop :=
  keyOf KNamespace ns = named N /\ ns.(ns_Meta).(m_DeletionTimestamp) = None /\
  CanAdoptNamespace (Some ns) (lease_Name l) (lease_UID l) = true /\
  (ns.(ns_Meta).(m_Labels) = wantedLabels l \/ forall k, ns.(ns_Meta).(m_Labels) !! k <> Some "").

(** The name of the namespace of a lease, when it has one or asks for one; the
    reference API server makes one from the prefix otherwise. *)
Definition home l : string :=
  if is_empty (wantedName l) then l.(lease_Spec).(spec_Namespace).(nsp_GenerateName) +:+ "x7k2p" else wantedName l.

Definition vacant l sess w : Prop :=
  IsProtectedNamespace (home l) = false /\
  match w.(w_namespaces) !! slot sess.(ses_Client) (named (home l)) with
  | None => True
  | Some ns => is_empty (wantedName l) = false /\ adoptable l (home l) ns
  end.

Lemma home_same a b :
  a.(lease_Spec) = b.(lease_Spec) -> a.(lease_Status).(st_Namespace) = b.(lease_Status).(st_Namespace) -> home a = home b.
Proof. intros Hs Hn. unfold home, wantedName. by rewrite Hs, Hn. Qed.

Lemma vacant_same a b sess w :
  a.(lease_Meta) = b.(lease_Meta) -> a.(lease_Spec) = b.(lease_Spec) ->
  a.(lease_Status).(st_Namespace) = b.(lease_Status).(st_Namespace) -> vacant a sess w -> vacant b sess w.
Proof. intros Hm Hs Hn. unfold vacant, adoptable, wantedLabels, home, wantedName. by rewrite Hm, Hs, Hn. Qed.

Lemma stamp_subseteq base uid cc ri k : is_Some (base !! k) -> is_Some (stampAnnotations base uid cc ri !! k).
Proof.
  intros Hk. unfold stampAnnotations. cbv zeta.
  assert (Hi : forall (m : labels) i v, is_Some (m !! k) -> is_Some (<[i := v]> m !! k)).
  { intros m i v Hm. destruct (decide (i = k)) as [->|Hne]; [by rewrite lookup_insert_eq; eexists|by rewrite lookup_insert_ne]. }
  repeat case_match; auto.
Qed.

(** The comparison with maps that hold at least the same keys is exact. *)
Lemma mapsEqual_exact (a b : labels) :
  (forall k, is_Some (a !! k) -> is_Some (b !! k)) -> mapsEqual a b = true -> a = b.
Proof.
  intros Hsub [Hs Hf]%mapsEqual_spec. apply map_subseteq_size_eq; [|lia]. apply map_subseteq_spec. intros k v Hk.
  destruct (Hsub k ltac:(by eexists)) as [v' Hv']. specialize (Hf k v Hk). unfold get in Hf. rewrite Hv' in Hf. cbn in Hf.
  by subst.
Qed.

Lemma adopted_same l m ri :
  m.(m_Labels) = wantedLabels l \/ (forall k, m.(m_Labels) !! k <> Some "") ->
  mapsEqual m.(m_Labels) (adoptedMeta r l ri m).(m_Labels) = true ->
  mapsEqual m.(m_Annotations) (adoptedMeta r l ri m).(m_Annotations) = true ->
  adoptedMeta r l ri m = m.
Proof.
  intros Hne Hl Ha. assert (Hlab : m.(m_Labels) = wantedLabels l).
  { destruct Hne as [Hne|Hne]; [done|]. apply mapsEqual_correct in Hl; [done|]. by intros k v Hk ->; apply (Hne k). }
  apply mapsEqual_exact in Ha.
  2: { intros k Hk. apply stamp_subseteq. rewrite lookup_union_is_Some. by right. }
  unfold adoptedMeta in *. cbn in Ha. cbv zeta. fold (wantedLabels l). rewrite <- Hlab. destruct m. cbn in *. by rewrite <- Ha.
Qed.

(** The namespace of a lease: live, its own, and with the labels it gives. *)
Definition nsOwned l (ns : Namespace) : Prop :=
  ns.(ns_Meta).(m_DeletionTimestamp) = None /\ ns.(ns_Meta).(m_Labels) = wantedLabels l /\ owns r.(rec_ControlClusterID) l ns.

Lemma owned_adoptable l N (ns : Namespace) :
  keyOf KNamespace ns = named N -> IsProtectedNamespace N = false -> nsOwned l ns -> adoptable l N ns.
Proof.
  intros Hk Hp (Hd & Hl & Ho). split_and!; [done|done| |by left]. unfold CanAdoptNamespace. cbv zeta.
  assert (Hn : m_Name (ns_Meta ns) = N) by by injection Hk. rewrite Hn, Hp.
  assert (Howned : OwnedByLease (Some ns) (lease_Name l) (lease_UID l) = true); [|by rewrite Howned].
  unfold OwnedByLease. rewrite Hl. unfold wantedLabels. rewrite merged_managed. cbn [negb].
  destruct (is_empty _); [done|]. by rewrite (owns_uid _ _ _ Ho), String.eqb_refl.
Qed.

Lemma home_nonempty l : is_empty (home l) = false.
Proof.
  unfold home. destruct (is_empty (wantedName l)) eqn:He; [|done]. by destruct (nsp_GenerateName _).
Qed.

Lemma DesiredNamespace_Ok l n :
  is_empty n = false -> IsProtectedNamespace n = false ->
  exists ns, DesiredNamespace l n r.(rec_ControlClusterID) (statusRemoteIdentity l) = Ok ns /\
    keyOf KNamespace ns = named n /\ nsOwned l ns.
Proof.
  intros Hn Hp. destruct (DesiredNamespace _ _ _ _) as [ns|err] eqn:Hd.
  2: { unfold DesiredNamespace in Hd. by rewrite Hn, Hp in Hd. }
  exists ns. split; [done|]. pose proof (DesiredNamespace_owned r l n ns Hd) as (Ho & _ & _).
  unfold DesiredNamespace in Hd. rewrite Hn, Hp in Hd. injection Hd as <-. by split_and!.
Qed.

Lemma putAt_id c k (o : Obj k) w : objects k w !! slot c (keyOf k o) = Some o -> putAt c k o w = w.
Proof. intros Ho. unfold putAt. by rewrite insert_id, set_objects_id. Qed.

(** An existing namespace: adopted, or made. *)
Lemma run_ensureExisting sess l n w :
  is_empty n = false -> IsProtectedNamespace n = false ->
  (forall ns, w.(w_namespaces) !! slot sess.(ses_Client) (named n) = Some ns -> adoptable l n ns) ->
  exists created ns, run (ensureExistingNamespace r sess l n) w = (Ok (n, created), putAt sess.(ses_Client) KNamespace ns w) /\
    keyOf KNamespace ns = named n /\ nsOwned l ns.
Proof.
  intros Hn Hp Had. unfold ensureExistingNamespace. cbv zeta.
  destruct (DesiredNamespace_Ok l n Hn Hp) as (d & -> & Hk & Ho). rewrite run_seq, run_get.
  destruct (objects KNamespace w !! _) as [ns|] eqn:Hns; cbn [fst snd].
  - destruct (Had ns Hns) as (Hkn & Hdel & Hcan & Hne). cbn [Obj] in *. rewrite Hdel. cbn [IsZeroPtr negb]. rewrite Hcan. cbn [negb].
    set (p := mkNamespace _). assert (Hkp : keyOf KNamespace p = keyOf KNamespace ns) by done.
    assert (Hop : nsOwned l p).
    { split; [done|]. split; [done|]. by eapply owns_stamped. }
    destruct (mapsEqual _ _ && mapsEqual _ _) eqn:He.
    + apply andb_true_iff in He as [He1 He2]. pose proof (adopted_same l _ _ Hne He1 He2) as Hsame.
      assert (Hpn : p = ns) by (unfold p; rewrite Hsame; by destruct ns). exists false, ns.
      rewrite putAt_id by by rewrite Hkn. split; [done|]. split; [done|]. by rewrite <- Hpn.
    + exists false, p. rewrite run_seq, (run_patch _ KNamespace p ns ns) by (done || by rewrite Hkp, Hkn). cbn [fst snd].
      split; [done|]. by rewrite Hkp.
  - change (IsNotFound notFound) with true. cbv iota. exists true, d. destruct Ho as [Hd Ho].
    rewrite run_seq, run_create; [|by apply (key_name _ _ _ _ Hk)|done|by rewrite Hk]. done.
Qed.

(** The world names an object that only has a prefix. *)
Lemma run_create_generated c (o : Namespace) w :
  let o' := mkNamespace (o.(ns_Meta) <| m_Name := o.(ns_Meta).(m_GenerateName) +:+ "x7k2p" |>) in
  is_empty o.(ns_Meta).(m_Name) = true -> o.(ns_Meta).(m_DeletionTimestamp) = None ->
  w.(w_namespaces) !! slot c (keyOf KNamespace o') = None ->
  run (cl_Create c KNamespace o) w = (Ok o', putAt c KNamespace o' w).
Proof.
  intros o' Hn Hd Hf. unfold cl_Create. rewrite run_call.
  transitivity (match objects KNamespace w !! slot c (keyOf KNamespace o') return result Namespace * World with
    | Some _ => (Err (StatusError ReasonAlreadyExists "already exists"), w)
    | None => (Ok o', store_object c KNamespace o' w) end).
  - cbn [world_handler meta_of]. by rewrite Hn.
  - change (objects KNamespace w !! slot c (keyOf KNamespace o')) with (w.(w_namespaces) !! slot c (keyOf KNamespace o')).
    by rewrite Hf, store_live.
Qed.

Lemma run_ensureNamespace sess l w :
  vacant l sess w ->
  exists created ns, run (ensureNamespace r sess l) w = (Ok (home l, created), putAt sess.(ses_Client) KNamespace ns w) /\
    keyOf KNamespace ns = named (home l) /\ nsOwned l ns.
Proof.
  intros [Hp Hv]. unfold ensureNamespace. cbv zeta. pose proof (home_nonempty l) as Hhome.
  destruct (is_empty (wantedName l)) eqn:Hw.
  - assert (Hn : home l = nsp_GenerateName (spec_Namespace (lease_Spec l)) +:+ "x7k2p") by (unfold home; by rewrite Hw).
    unfold wantedName in Hw. destruct (is_empty (st_Namespace _)) eqn:He; cbn [negb] in *; [|congruence].
    rewrite Hw. cbn [negb]. rewrite run_seq.
    set (g := generatedNamespace r l). set (g' := mkNamespace ((ns_Meta g) <| m_Name := m_GenerateName (ns_Meta g) +:+ "x7k2p" |>)).
    assert (Hk : keyOf KNamespace g' = named (home l)) by by rewrite Hn.
    rewrite (run_create_generated _ g); [|done|done|].
    2: { fold g'. rewrite Hk. destruct (_ !! _) as [ns|]; [|done]. by destruct Hv as [? _]. }
    cbn [fst snd]. exists true, g'. rewrite Hn. split; [done|]. rewrite <- Hn. split; [done|]. split; [done|]. split; [done|]. by eapply owns_stamped.
  - assert (Hn : home l = wantedName l) by (unfold home; by rewrite Hw). rewrite Hn in *.
    assert (Had : forall ns, w.(w_namespaces) !! slot sess.(ses_Client) (named (wantedName l)) = Some ns -> adoptable l (wantedName l) ns).
    { intros ns Hns. rewrite Hns in Hv. apply Hv. }
    destruct (run_ensureExisting sess l (wantedName l) w Hhome Hp Had) as (cr & ns & Hrun & Hrest).
    exists cr, ns. split; [|done]. unfold wantedName in *. destruct (is_empty (st_Namespace _)); cbn [negb] in *; [|done].
    by rewrite Hw.
Qed.

(** ** Placement and the session *)

Definition activeCounts w : gmap string Z :=
  match (run (CountActiveLeases HubClient) w).1 with Ok counts => counts | Err _ => ∅ end.

(** What placement decides for the lease in this world. *)
Definition decision w l (pol : option EnvironmentLeasePolicy) : result Decision :=
  (run (Decide HubClient l pol (Some (activeCounts w))) w).1.

Definition localSession : TargetSession := mkTargetSession LocalClusterName HubClient true true.

(** The cluster [name] can be used: the hub, or a live and enabled target that shows
    one identity, the one recorded for it if there is one. *)
Definition opens w l (name : string) sess : Prop :=
  if isLocalName name then sess = localSession
  else exists t ks,
    w.(w_targets) !! slot HubClient (named name) = Some t /\
    IsZeroPtr t.(ct_Meta).(m_DeletionTimestamp) = true /\ IsEnabled t.(ct_Spec) = true /\ r.(rec_Provider) = true /\
    sess = mkTargetSession name (RemoteClient (Z.of_nat (String.length t.(ct_Meta).(m_Name)))) false false /\
    w.(w_namespaces) !! slot sess.(ses_Client) (named "kube-system") = Some ks /\ ks.(ns_Meta).(m_UID) <> "" /\
    (t.(ct_Status).(tst_RemoteIdentity) = "" \/ t.(ct_Status).(tst_RemoteIdentity) = ks.(ns_Meta).(m_UID)) /\
    (forall c, l.(lease_Status).(st_Cluster) = Some c -> c.(cs_Name) = name ->
       c.(cs_RemoteIdentity) = "" \/ c.(cs_RemoteIdentity) = ks.(ns_Meta).(m_UID)).

(** The identity a remote session was found to have. *)
Definition identified w sess (identity : string) : Prop :=
  sess.(ses_Local) = true \/
  exists ks, w.(w_namespaces) !! slot sess.(ses_Client) (named "kube-system") = Some ks /\ ks.(ns_Meta).(m_UID) = identity.

Lemma run_count w : run (CountActiveLeases HubClient) w = (Ok (activeCounts w), w).
Proof. done. Qed.

Lemma Decide_sameEnv l0 l pol cs : sameEnv l0 l -> Decide HubClient l pol cs = Decide HubClient l0 pol cs.
Proof.
  intros [Hm Hs Hn Hc]. unfold Decide, needsPlacement, stickyCluster, selectFromCandidates, chooseFrom, pickStable.
  by rewrite Hm, Hs, Hn, Hc.
Qed.

Lemma every_still_Decide l pol cs : every still (Decide HubClient l pol cs).
Proof. unfold Decide, selectFromCandidates, getTarget, cl_Get, cl_List. every_still. Qed.

Lemma run_decide w l0 l pol : sameEnv l0 l -> run (Decide HubClient l pol (Some (activeCounts w))) w = (decision w l0 pol, w).
Proof.
  intros Hs. rewrite (Decide_sameEnv l0 l) by done. unfold decision. rewrite (surjective_pairing (run _ w)) at 1.
  f_equal. apply run_still, every_still_Decide.
Qed.

Lemma run_probe w c ks :
  w.(w_namespaces) !! slot c (named "kube-system") = Some ks -> ks.(ns_Meta).(m_UID) <> "" ->
  run (ProbeRemoteIdentity c) w = (Ok ks.(ns_Meta).(m_UID), w).
Proof.
  intros Hks Hu. unfold ProbeRemoteIdentity. rewrite run_seq, run_GetNamespace, Hks. cbn [fst snd].
  apply is_empty_false in Hu. by rewrite Hu.
Qed.

Lemma run_capture w l sess t ks c :
  w.(w_targets) !! slot HubClient (named sess.(ses_Name)) = Some t ->
  w.(w_namespaces) !! slot sess.(ses_Client) (named "kube-system") = Some ks -> ks.(ns_Meta).(m_UID) <> "" ->
  t.(ct_Status).(tst_RemoteIdentity) = "" \/ t.(ct_Status).(tst_RemoteIdentity) = ks.(ns_Meta).(m_UID) ->
  l.(lease_Status).(st_Cluster) = Some c ->
  c.(cs_RemoteIdentity) = "" \/ c.(cs_RemoteIdentity) = ks.(ns_Meta).(m_UID) ->
  run (captureIdentity l sess) w =
    ((l <|@ st_Cluster := Some (mkClusterStatus c.(cs_Name) t.(ct_Meta).(m_UID) ks.(ns_Meta).(m_UID)) |>, None), w).
Proof.
  intros Ht Hks Hu Hid Hc Hcid. unfold captureIdentity. rewrite Hc. cbn [default from_option]. rewrite run_seq, run_GetTarget, Ht.
  cbn [fst snd]. cbv zeta. apply is_empty_false in Hu as He. destruct c as [cn cu ci]. cbn in Hcid.
  destruct Hid as [->| ->].
  - cbn -[bind run ProbeRemoteIdentity is_empty]. change (is_empty "") with true. cbn -[bind run ProbeRemoteIdentity is_empty].
    destruct Hcid as [->| ->].
    + cbn -[bind run ProbeRemoteIdentity]. rewrite run_seq, (run_probe _ _ ks) by done. cbn [fst snd]. by destruct l as [? ? []].
    + rewrite He. by destruct l as [? ? []].
  - rewrite He. cbn -[bind run ProbeRemoteIdentity is_empty]. rewrite He. by destruct l as [? ? []].
Qed.

Lemma run_backoff w name :
  run (if r.(rec_Outages) then (t <- now_ ;; call (OutageRequeueAfter name t))%prog else Ret 0) w = (0, w).
Proof. by destruct (rec_Outages r). Qed.

Lemma run_openSession w l d sess :
  opens w l d.(ClusterName) sess ->
  exists cs, run (openSession r l d) w = ((l <|@ st_Cluster := Some cs |>, ProvisionOn sess), w) /\
    identified w sess cs.(cs_RemoteIdentity).
Proof.
  intros Ho. unfold openSession. cbv zeta. rewrite run_seq, run_backoff. cbn [fst snd]. cbn [Z.ltb Z.compare].
  set (cs := match st_Cluster (lease_Status l) with Some c => _ | None => _ end). rewrite run_seq.
  unfold ResolveNamedTarget. fold (isLocalName d.(ClusterName)). unfold opens in Ho.
  destruct (isLocalName d.(ClusterName)) eqn:Hloc.
  { subst sess. rewrite run_ret. cbn [fst snd ses_Local localSession]. exists cs. split; [done|by left]. }
  destruct Ho as (t & ks & Ht & Hlive & Hen & Hp & Hsess & Hks & Hu & Hid & Hown).
  rewrite run_seq, run_GetTarget, Ht. cbn [fst snd]. rewrite Hlive, Hen, Hp. cbn [negb].
  rewrite run_seq, run_call. cbn [world_handler fst snd]. rewrite run_ret, <- Hsess. cbn [fst snd].
  assert (Hl : ses_Local sess = false) by by rewrite Hsess. rewrite Hl.
  assert (Hcid : cs.(cs_RemoteIdentity) = "" \/ cs.(cs_RemoteIdentity) = ks.(ns_Meta).(m_UID)).
  { unfold cs. destruct (st_Cluster (lease_Status l)) as [c|]; [|by left].
    destruct (String.eqb_spec c.(cs_Name) d.(ClusterName)) as [Hn|Hn]; [|by left]. by apply (Hown c eq_refl Hn). }
  clearbody cs. set (l1 := l <|@ st_Cluster := Some cs |>).
  rewrite run_seq, (run_capture w l1 sess t ks cs) by (done || by rewrite Hsess). cbn [fst snd].
  rewrite run_seq, run_when by done. cbn [snd]. rewrite run_ret. eexists. split; [done|]. right. by exists ks.
Qed.

Lemma run_resolveForProvision w l0 l pol d sess :
  sameEnv l0 l -> decision w l0 pol = Ok d -> d.(Pending) = false -> opens w l0 d.(ClusterName) sess ->
  exists cs, run (resolveTargetSessionForProvision r l pol) w = ((l <|@ st_Cluster := Some cs |>, ProvisionOn sess), w) /\
    identified w sess cs.(cs_RemoteIdentity).
Proof.
  intros Hs Hd Hp Ho. unfold resolveTargetSessionForProvision. rewrite run_seq, run_inc. cbn [snd].
  rewrite run_seq, run_count. cbn [fst snd]. rewrite run_seq, (run_decide w l0 l) by done. cbn [fst snd].
  rewrite Hd, Hp. apply run_openSession. unfold opens in *. by rewrite (se_cluster _ _ Hs).
Qed.

(** ** The lease along the way *)

(** The times the deadline depends on. *)
Definition timesOf l := (l.(lease_Status).(st_CreatedAt), l.(lease_Status).(st_MaximumExpiresAt), l.(lease_Status).(st_ExpiresAt),
  l.(lease_Status).(st_LastActivityAt), l.(lease_Status).(st_EffectiveExpiresAt)).

(** A lease that stands for [l0] in a run: its metadata and specification, one
    condition of each type, and the times [T]. *)
Record underway l0 (T : option time * option time * option time * option time * option time) l : Prop := {
  uw_meta : l.(lease_Meta) = l0.(lease_Meta);
  uw_spec : l.(lease_Spec) = l0.(lease_Spec);
  uw_types : distinct_types l.(lease_Status).(st_Conditions);
  uw_times : timesOf l = T
}.

Lemma underway_SetCondition l0 T l t s reason m : underway l0 T l -> underway l0 T (SetCondition l t s reason m).
Proof. intros [Hm Hs Ht HT]. constructor; [done|done| |done]. by apply SetStatusCondition_nodup. Qed.

Lemma underway_status l0 T l f :
  underway l0 T l -> (f l.(lease_Status)).(st_Conditions) = l.(lease_Status).(st_Conditions) ->
  timesOf (modify (proj:=lease_Status) f l) = timesOf l -> underway l0 T (modify (proj:=lease_Status) f l).
Proof. intros [Hm Hs Ht HT] Hc Hf. constructor; [by destruct l..| |by rewrite Hf]. destruct l. cbn in *. by rewrite Hc. Qed.

Lemma underway_MarkReady l0 T l b : underway l0 T l -> underway l0 T (MarkReady l b).
Proof. intros Hu. unfold MarkReady. destruct b; repeat apply underway_SetCondition; by apply underway_status. Qed.

Lemma underway_MarkProvisioning l0 T l m : underway l0 T l -> underway l0 T (MarkProvisioning l m).
Proof. intros Hu. unfold MarkProvisioning. repeat apply underway_SetCondition; by apply underway_status. Qed.

Lemma underway_deadline l0 T l : underway l0 T l -> EffectiveDeadline l = match T with (_, _, e, _, eff) => match eff with Some t => Some t | None => e end end.
Proof. intros [_ _ _ <-]. done. Qed.

(** ** The end of the active path *)

Lemma run_warnLoop l d ws w :
  run (warnLoop r l d ws) w =
    (l <|@ st_WarningsDelivered := fold_left MarkWarningDelivered ws l.(lease_Status).(st_WarningsDelivered) |>, w).
Proof.
  revert l. induction ws as [|x ws IH]; intros l; cbn [warnLoop fold_left]; [by destruct l as [? ? []]|].
  rewrite run_seq. unfold now_. rewrite run_call. cbn [world_handler fst snd]. cbv zeta.
  rewrite run_seq, run_emit. cbn [snd]. rewrite run_seq, run_inc. cbn [snd]. rewrite IH. by destruct l as [? ? []].
Qed.

Lemma run_emitWarnings l d w :
  EffectiveDeadline l = Some d ->
  run (emitWarnings r l) w =
    (l <|@ st_WarningsDelivered := deliverPending w.(w_now) d (WarningDurations l.(lease_Spec).(spec_Warnings))
             l.(lease_Status).(st_WarningsDelivered) |>, w).
Proof.
  intros Hd. unfold emitWarnings. rewrite Hd. rewrite run_seq. unfold now_. rewrite run_call. cbn [world_handler fst snd].
  cbv zeta. by rewrite run_warnLoop.
Qed.

Lemma NextReconcileAfter_le now d ws delivered :
  Forall negatable ws -> now < d -> now + NextReconcileAfter now d ws delivered <= d.
Proof.
  intros Hw Hn. unfold NextReconcileAfter, Before. rewrite (proj2 (Z.ltb_lt _ _) Hn). cbn [negb].
  destruct (nextLoop _ _ _ _ _) as [t|] eqn:Hl; [|lia]. apply nextLoop_Some in Hl as (Hle & _ & _); [|done]. cbv zeta.
  destruct (Sub t now <? 0) eqn:Hs; [lia|]. zify_bool. pose proof (Sub_nonneg_le t now). pose proof (Sub_nonpos t now). lia.
Qed.

(** When the lease is looked at again: at its next event, and on a remote cluster
    after two minutes at the latest. *)
Definition comesBack (now d : time) sess (u : duration) : Prop :=
  0 < u /\ now + u <= d /\ (sess.(ses_Local) = false -> u <= remoteDriftRequeue).

Lemma run_finishActive sess l0 T l ph wr N d w :
  underway l0 T l -> EffectiveDeadline l = Some d -> w.(w_now) < d ->
  Forall (fun x => x <= maxDuration) l.(lease_Spec).(spec_Warnings) ->
  exists l' u, run (finishActive r sess l ph wr N) w = ((l', (requeueAfter u, None)), w) /\
    comesBack w.(w_now) d sess u /\ underway l0 T l' /\
    l'.(lease_Status).(st_Namespace) = l.(lease_Status).(st_Namespace) /\ l'.(lease_Status).(st_Cluster) = l.(lease_Status).(st_Cluster) /\
    (l'.(lease_Status).(st_Phase) = LeasePhaseActive \/ l'.(lease_Status).(st_Phase) = LeasePhaseExpiring) /\
    condition_of l' ConditionReady = Some (ConditionTrueStatus, ReasonEnvironmentReady).
Proof.
  intros Hu Hd Hn Hws. unfold finishActive. rewrite run_seq, (run_emitWarnings _ _ _ Hd). cbn [fst snd].
  set (ds := deliverPending _ _ _ _). set (l1 := l <|@ st_WarningsDelivered := ds |>).
  assert (Hu1 : underway l0 T l1) by by apply underway_status.
  rewrite run_seq. unfold now_. rewrite run_call. cbn [world_handler fst snd]. cbv zeta.
  set (l2 := SetCondition (MarkReady l1 _) _ _ _ _).
  assert (Hu2 : underway l0 T l2) by by apply underway_SetCondition, underway_MarkReady.
  destruct (finished_conditions l1 (IsExpiringWindow l1 (w_now w)) ("Using cluster " +:+ ses_Name sess)) as (Hready & _ & _ & _ & _ & Hph).
  assert (Hns : l2.(lease_Status).(st_Namespace) = l.(lease_Status).(st_Namespace) /\ l2.(lease_Status).(st_Cluster) = l.(lease_Status).(st_Cluster) /\
    l2.(lease_Status).(st_WarningsDelivered) = ds /\ l2.(lease_Spec) = l.(lease_Spec)).
  { unfold l2, MarkReady. by destruct (IsExpiringWindow l1 _). }
  destruct Hns as (Hns & Hcl & Hwd & Hsp).
  rewrite run_seq, run_when by by rewrite run_seq, run_inc; cbn [fst snd]; apply run_emit. cbn [fst snd].
  assert (Hd2 : EffectiveDeadline l2 = Some d).
  { rewrite (underway_deadline _ _ _ Hu2), <- Hd. symmetry. by apply (underway_deadline l0 T). }
  rewrite Hd2. rewrite run_seq, run_call. cbn [world_handler fst snd]. rewrite run_ret, Hwd, Hsp.
  set (ws := WarningDurations _). assert (Hneg : Forall negatable ws).
  { apply Forall_forall. intros x Hx. unfold ws, WarningDurations, sortDescending in Hx.
    rewrite merge_sort_Permutation, list_elem_of_filter in Hx. destruct Hx as [Hx1 Hx2]. rewrite Forall_forall in Hws.
    specialize (Hws x Hx2). unfold negatable, minDuration, maxDuration, two63 in *. lia. }
  pose proof (NextReconcileAfter_le w.(w_now) d ws ds Hneg Hn) as Hle.
  assert (Hpos : 0 < NextReconcileAfter (w_now w) d ws ds) by by apply NextReconcileAfter_progress.
  set (u := NextReconcileAfter _ _ _ _) in *. clearbody u. eexists l2, _. split; [done|]. split.
  - destruct (negb (ses_Local sess) && ((u =? 0) || (remoteDriftRequeue <? u))) eqn:Hb; unfold comesBack.
    + apply andb_true_iff in Hb as [_ Hb]. rewrite (proj2 (Z.eqb_neq u 0)) in Hb by lia. cbn [orb] in Hb. zify_bool.
      unfold remoteDriftRequeue, Minute, Second in *. lia.
    + split; [done|]. split; [done|]. intros Hl. rewrite Hl in Hb. cbn [negb andb] in Hb. apply orb_false_iff in Hb as [_ Hb].
      by apply Z.ltb_ge in Hb.
  - split_and!; [done..| |done]. fold l2 in Hph. rewrite Hph. destruct (IsExpiringWindow l1 _); auto.
Qed.

(** ** From the namespace on *)

(** The stored lease has the metadata and the specification of [l0]. *)
Definition held l0 w : Prop :=
  exists s, w.(w_leases) !! slot HubClient (leaseKey l0) = Some s /\ s.(lease_Meta) = l0.(lease_Meta) /\ s.(lease_Spec) = l0.(lease_Spec).

Lemma lease_eq (a b : EnvironmentLease) :
  a.(lease_Meta) = b.(lease_Meta) -> a.(lease_Spec) = b.(lease_Spec) -> a.(lease_Status) = b.(lease_Status) -> a = b.
Proof. destruct a, b. cbn. by intros -> -> ->. Qed.

Lemma run_persist l0 T l res name what w :
  underway l0 T l -> held l0 w -> FinalizerName ∈ l0.(lease_Meta).(m_Finalizers) ->
  run (persistAndReload l res name what) w =
    ((l <|@ st_Effective := Some (ToEffectiveStatus res) |> <|@ st_Cluster := Some (mkClusterStatus name "" "") |>, None),
     putLease l w).
Proof.
  intros [Hm Hs Ht HT] (s & Hst & Hsm & Hss) Hf. unfold persistAndReload.
  assert (Hk : leaseKey l = leaseKey l0) by by apply leaseKey_meta.
  assert (Hl : s <| lease_Status := l.(lease_Status) |> = l) by (apply lease_eq; [by rewrite Hm|by rewrite Hs|done]).
  rewrite run_seq, (run_StatusUpdateLease _ _ s) by (fold (leaseKey l); by rewrite Hk). cbn [fst snd]. rewrite Hl.
  rewrite store_lease by by rewrite Hm. rewrite run_seq, run_GetLease. rewrite putLease_lookup by done. cbn [fst snd].
  by destruct l as [? ? []].
Qed.

(** The lease with the network policy that its policy adds. *)
Definition effectiveLease l (res : Resolved) : EnvironmentLease :=
  match res.(r_NetworkPolicy) with
  | Some np => l <| lease_Spec := l.(lease_Spec) <| spec_NetworkPolicy := Some np |> |>
  | None => l
  end.

Lemma objectsStand_same a b sess N w :
  a.(lease_Meta) = b.(lease_Meta) -> a.(lease_Spec) = b.(lease_Spec) -> objectsStand sess a N w -> objectsStand sess b N w.
Proof.
  intros Hm Hs. unfold objectsStand, quotaStands, limitRangeStands, networkPolicyStands, DesiredResourceQuota, DesiredLimitRange,
    DesiredNetworkPolicy. by rewrite Hm, Hs.
Qed.

Lemma claimable_same a b k c key w : a.(lease_Meta) = b.(lease_Meta) -> claimable a k c key w -> claimable b k c key w.
Proof. unfold claimable, free, uncontested. by intros ->. Qed.

Lemma claimableObjects_same a b sess N w w' :
  a.(lease_Meta) = b.(lease_Meta) -> w'.(w_quotas) = w.(w_quotas) -> w'.(w_limitRanges) = w.(w_limitRanges) ->
  w'.(w_networkPolicies) = w.(w_networkPolicies) -> claimableObjects a sess N w -> claimableObjects b sess N w'.
Proof.
  intros Hm Hq Hl Hn (Hcq & Hcl & Hcn). split_and!; (eapply claimable_same; [exact Hm|]); (eapply claimable_objects; [|eassumption]); done.
Qed.

Lemma owns_later ctl l l' ns :
  owns ctl l ns -> l'.(lease_Meta) = l.(lease_Meta) -> expectedTarget l' = "" \/ expectedTarget l' = expectedTarget l -> owns ctl l' ns.
Proof.
  intros [Ha Hb Hc Hd He] Hm Ht. constructor; rewrite ?Hm; try done. destruct Ht as [Ht|Ht]; rewrite Ht; [|done].
  unfold contradicts. naive_solver.
Qed.

(** The cluster the status names, with the identity that was found or with none. *)
Definition settledOn sess (identity : string) l : Prop :=
  exists c, l.(lease_Status).(st_Cluster) = Some c /\ c.(cs_Name) = sess.(ses_Name) /\
    (c.(cs_RemoteIdentity) = "" \/ c.(cs_RemoteIdentity) = identity).

(** The environment of a lease, as it should be: its namespace, the objects in it,
    and no other controller. *)
Definition stands l res sess N w : Prop :=
  (exists ns : Namespace, w.(w_namespaces) !! slot sess.(ses_Client) (named N) = Some ns /\ keyOf KNamespace ns = named N /\ nsOwned l ns) /\
  objectsStand sess (effectiveLease l res) N w /\ claimableObjects l sess N w.

(** What the active path leaves. *)
Record provisioned l0 T res sess identity N d w l' u w' : Prop := {
  pv_back : comesBack w.(w_now) d sess u;
  pv_underway : underway l0 T l';
  pv_namespace : l'.(lease_Status).(st_Namespace) = N;
  pv_cluster : settledOn sess identity l';
  pv_phase : l'.(lease_Status).(st_Phase) = LeasePhaseActive \/ l'.(lease_Status).(st_Phase) = LeasePhaseExpiring;
  pv_ready : condition_of l' ConditionReady = Some (ConditionTrueStatus, ReasonEnvironmentReady);
  pv_stands : stands l' res sess N w';
  pv_confined : confined l0 sess N w w';
  pv_held : held l0 w'
}.

Lemma held_put l0 l w : l.(lease_Meta) = l0.(lease_Meta) -> l.(lease_Spec) = l0.(lease_Spec) -> held l0 (putLease l w).
Proof. intros Hm Hs. exists l. split; [|done]. by apply putLease_lookup, leaseKey_meta. Qed.

Lemma held_leases l0 w w' : w'.(w_leases) = w.(w_leases) -> held l0 w -> held l0 w'.
Proof. unfold held. by intros ->. Qed.

Section Path.
Variables (l0 : EnvironmentLease) (res : Resolved) (sess : TargetSession) (d : time).
Variable (T : option time * option time * option time * option time * option time).
Hypothesis finalizer_held : FinalizerName ∈ l0.(lease_Meta).(m_Finalizers).
Hypothesis warnings_fit : Forall (fun x => x <= maxDuration) l0.(lease_Spec).(spec_Warnings).
Hypothesis deadline_T : match T with (_, _, e, _, eff) => match eff with Some t => Some t | None => e end end = Some d.

Lemma settled_identity identity l : settledOn sess identity l -> forall l', l'.(lease_Status).(st_Cluster) = l.(lease_Status).(st_Cluster) ->
  settledOn sess identity l'.
Proof. intros (c & Hc & Hrest) l' Hl. exists c. by rewrite Hl. Qed.

(** After the namespace: the objects, and the end. *)
Lemma run_provisionRest l wr ph working N ns (w0 w : World) identity :
  underway l0 T l -> held l0 w -> w.(w_now) < d -> w0.(w_now) = w.(w_now) -> confined l0 sess N w0 w ->
  l.(lease_Status).(st_Namespace) = N -> settledOn sess identity l ->
  working.(lease_Meta) = l0.(lease_Meta) -> working.(lease_Spec) = (effectiveLease l0 res).(lease_Spec) ->
  claimableObjects l0 sess N w ->
  w.(w_namespaces) !! slot sess.(ses_Client) (named N) = Some ns -> keyOf KNamespace ns = named N -> nsOwned l ns ->
  exists l' u w',
    run (e <- ensureObjects sess working N ;;
         match e with
         | Some (reason, err) => provisionFailed sess l "update" reason err
         | None => finishActive r sess l ph wr N
         end)%prog w = ((l', (requeueAfter u, None)), w') /\
    provisioned l0 T res sess identity N d w0 l' u w' /\ w'.(w_leases) = w.(w_leases).
Proof.
  intros Hu Hh Hn Hn0 Hconf Hns Hset Hwm Hws Hcl Hat Hkey Hown.
  apply (claimableObjects_same l0 working _ _ _ w) in Hcl; [|done..].
  destruct (run_ensureObjects sess working N w Hcl) as (w1 & Hr1 & Hs1 & Hcl1 & Hc1 & Hl1 & Hn1). rewrite run_seq, Hr1. cbn [fst snd].
  assert (Hd : EffectiveDeadline l = Some d) by (rewrite (underway_deadline _ _ _ Hu); exact deadline_T).
  assert (Hnow1 : w1.(w_now) = w.(w_now)) by apply Hc1.
  destruct (run_finishActive sess l0 T l ph wr N d w1) as (l' & u & Hr2 & Hback & Hu' & Hns' & Hcs' & Hph & Hready);
    [done|done|by rewrite Hnow1|by rewrite (uw_spec _ _ _ Hu)|].
  exists l', u, w1. split; [done|]. split; [|done].
  assert (Hmm : l'.(lease_Meta) = l.(lease_Meta)) by (by rewrite (uw_meta _ _ _ Hu'), (uw_meta _ _ _ Hu)).
  constructor; [by rewrite Hn0, <- Hnow1|done|by rewrite Hns'|exact (settled_identity identity l Hset l' Hcs')|done|done| | |].
  - split; [|split].
    + exists ns. rewrite Hn1. split; [done|]. split; [done|]. destruct Hown as (Hdel & Hlab & Hown). split; [done|]. split; [by rewrite Hlab; unfold wantedLabels; rewrite Hmm, (uw_spec _ _ _ Hu), (uw_spec _ _ _ Hu')|].
      eapply owns_later; [exact Hown|done|]. right. unfold expectedTarget. by rewrite Hcs'.
    + eapply objectsStand_same; [| |exact Hs1].
      * rewrite Hwm. unfold effectiveLease. destruct (r_NetworkPolicy res); cbn; by rewrite (uw_meta _ _ _ Hu').
      * rewrite Hws. unfold effectiveLease. destruct (r_NetworkPolicy res); cbn; by rewrite (uw_spec _ _ _ Hu').
    + eapply claimableObjects_same; [|done..|exact Hcl1]. by rewrite Hwm, (uw_meta _ _ _ Hu').
  - eapply confined_trans; [exact Hconf|]. destruct Hc1 as [_ Hc1]. split; [done|]. intros k i Hi. apply Hc1.
    intros Hp. apply Hi. rewrite <- Hp. destruct k; cbn; try done. by rewrite (leaseKey_meta _ _ Hwm).
  - by eapply held_leases.
Qed.

Lemma run_provisionNamespace l ph wr identity w :
  underway l0 T l -> held l0 w -> w.(w_now) < d -> settledOn sess identity l ->
  vacant l sess w -> claimableObjects l0 sess (home l) w ->
  exists l' u w', run (provisionNamespace r sess l ph res wr) w = ((l', (requeueAfter u, None)), w') /\
    provisioned l0 T res sess identity (home l) d w l' u w' /\
    (l.(lease_Status).(st_Namespace) = home l -> w'.(w_leases) = w.(w_leases)).
Proof.
  intros Hu Hh Hn Hset Hv Hcl. unfold provisionNamespace. cbv zeta.
  set (l1 := if negb wr && _ then _ else l).
  assert (Hl1 : underway l0 T l1 /\ l1.(lease_Status).(st_Namespace) = l.(lease_Status).(st_Namespace) /\
    l1.(lease_Status).(st_Cluster) = l.(lease_Status).(st_Cluster)).
  { unfold l1. destruct (negb wr && _); [|done]. split; [by apply underway_MarkProvisioning|done]. }
  destruct Hl1 as (Hu1 & Hns1 & Hcs1). clearbody l1.
  set (working := match r_NetworkPolicy res with Some _ => _ | None => l1 end).
  assert (Hwm : working.(lease_Meta) = l0.(lease_Meta)) by (unfold working; destruct (r_NetworkPolicy res); apply (uw_meta _ _ _ Hu1)).
  assert (Hws : working.(lease_Spec) = (effectiveLease l0 res).(lease_Spec)).
  { unfold working, effectiveLease. destruct (r_NetworkPolicy res); cbn; by rewrite (uw_spec _ _ _ Hu1). }
  clearbody working.
  assert (Hsp1 : l1.(lease_Spec) = l.(lease_Spec)) by by rewrite (uw_spec _ _ _ Hu1), (uw_spec _ _ _ Hu).
  assert (Hhome : home l1 = home l) by by apply home_same.
  assert (Hm1 : l1.(lease_Meta) = l.(lease_Meta)) by by rewrite (uw_meta _ _ _ Hu1), (uw_meta _ _ _ Hu).
  assert (Hv1 : vacant l1 sess w) by (apply (vacant_same l); congruence).
  destruct (run_ensureNamespace sess l1 w Hv1) as (cr & ns & Hr & Hk & Hown). rewrite Hhome in *.
  rewrite run_seq, Hr. cbn [fst snd]. set (w1 := putAt _ KNamespace ns w).
  rewrite run_seq. unfold observeOp at 1. rewrite run_observeClusterOp. cbn [snd].
  assert (Hc1 : confined l0 sess (home l) w w1).
  { apply (confined_changed _ _ _ KNamespace (slot sess.(ses_Client) (named (home l)))); [done|]. unfold w1. rewrite <- Hk. apply changedAt_put. }
  assert (Hat : w1.(w_namespaces) !! slot sess.(ses_Client) (named (home l)) = Some ns).
  { rewrite <- Hk. apply (putAt_lookup _ KNamespace). }
  assert (Hh1 : held l0 w1) by exact Hh.
  assert (Hcl1 : claimableObjects l0 sess (home l) w1) by exact Hcl.
  assert (Hnow1 : w1.(w_now) = w.(w_now)) by done. assert (Hle1 : w1.(w_leases) = w.(w_leases)) by done. clearbody w1.
  rewrite Hns1. destruct (String.eqb_spec (st_Namespace (lease_Status l)) (home l)) as [Hsame|Hne]; cbn [negb].
  - rewrite run_seq, run_ret. cbn [fst snd].
    destruct (run_provisionRest l1 wr ph working (home l) ns w w1 identity) as (l' & u & w' & Hrun & Hp & Hle);
      try done; [by rewrite Hnow1|by rewrite Hns1|exact (settled_identity identity l Hset l1 Hcs1)|].
    exists l', u, w'. split; [exact Hrun|]. split; [done|]. intros _. by rewrite Hle.
  - set (l2 := l1 <|@ st_Namespace := home l |>). assert (Hu2 : underway l0 T l2) by by apply underway_status.
    rewrite run_seq, (run_persist l0 T) by done. cbn [fst snd].
    set (l3 := l2 <|@ st_Effective := _ |> <|@ st_Cluster := _ |>).
    assert (Hu3 : underway l0 T l3) by by apply underway_status; [apply underway_status|..].
    assert (Hk2 : leaseKey l2 = leaseKey l0) by apply leaseKey_meta, (uw_meta _ _ _ Hu2).
    destruct (run_provisionRest l3 wr ph working (home l) ns w (putLease l2 w1) identity) as (l' & u & w' & Hrun & Hp & Hle); try done.
    + apply held_put; [apply (uw_meta _ _ _ Hu2)|apply (uw_spec _ _ _ Hu2)].
    + cbn. by rewrite Hnow1.
    + eapply confined_trans; [exact Hc1|]. by apply confined_putLease.
    + eexists. split; [done|]. split; [done|by left].
    + destruct Hown as (Hdel & Hlab & Hown). split; [done|]. split; [exact Hlab|]. eapply owns_later; [exact Hown|done|by left].
    + exists l', u, w'. split; [exact Hrun|]. split; [done|]. intros Heq. done.
Qed.

Lemma provisioned_from identity N w0 w l' u w' :
  provisioned l0 T res sess identity N d w l' u w' -> w.(w_now) = w0.(w_now) -> confined l0 sess N w0 w ->
  provisioned l0 T res sess identity N d w0 l' u w'.
Proof.
  intros [] Hn Hc. constructor; [by rewrite <- Hn|done..| |done]. by eapply confined_trans.
Qed.

Lemma run_provisionOn l ph wr cs w :
  underway l0 T l -> held l0 w -> w.(w_now) < d -> l.(lease_Status).(st_Cluster) = Some cs ->
  vacant l sess w -> claimableObjects l0 sess (home l) w ->
  exists l' u w', run (provisionOn r sess l ph res wr) w = ((l', (requeueAfter u, None)), w') /\
    provisioned l0 T res sess cs.(cs_RemoteIdentity) (home l) d w l' u w' /\
    (ph = LeasePhaseActive \/ ph = LeasePhaseExpiring -> l.(lease_Status).(st_Namespace) = home l -> w'.(w_leases) = w.(w_leases)).
Proof.
  intros Hu Hh Hn Hcs Hv Hcl. unfold provisionOn. cbv zeta. rewrite Hcs.
  set (l1 := SetCondition (l <|@ st_Cluster := _ |>) _ _ _ _).
  assert (Hu1 : underway l0 T l1) by (apply underway_SetCondition; by apply underway_status).
  assert (Hset1 : settledOn sess cs.(cs_RemoteIdentity) l1) by (eexists; split; [done|]; split; [done|by right]).
  assert (Hns1 : l1.(lease_Status).(st_Namespace) = l.(lease_Status).(st_Namespace)) by done.
  assert (Hsame : forall l2, underway l0 T l2 -> l2.(lease_Status).(st_Namespace) = l.(lease_Status).(st_Namespace) ->
    home l2 = home l /\ vacant l2 sess w).
  { intros l2 Hu2 Hns2. assert (Hm : l2.(lease_Meta) = l.(lease_Meta)) by by rewrite (uw_meta _ _ _ Hu2), (uw_meta _ _ _ Hu).
    assert (Hsp : l2.(lease_Spec) = l.(lease_Spec)) by by rewrite (uw_spec _ _ _ Hu2), (uw_spec _ _ _ Hu).
    split; [by apply home_same|]. apply (vacant_same l); congruence. }
  clearbody l1.
  destruct (negb _ && negb _ && _) eqn:Hfirst.
  - rewrite run_seq, (run_persist l0 T) by done. cbn [fst snd].
    set (l2 := l1 <|@ st_Effective := _ |> <|@ st_Cluster := _ |>).
    assert (Hu2 : underway l0 T l2) by by apply underway_status; [apply underway_status|..].
    destruct (Hsame l2 Hu2 Hns1) as [Hh2 Hv2].
    destruct (run_provisionNamespace l2 ph wr cs.(cs_RemoteIdentity) (putLease l1 w)) as (l' & u & w' & Hrun & Hp & _); try done.
    + apply held_put; [apply (uw_meta _ _ _ Hu1)|apply (uw_spec _ _ _ Hu1)].
    + eexists. split; [done|]. split; [done|by left].
    + by rewrite Hh2.
    + exists l', u, w'. split; [exact Hrun|]. rewrite Hh2 in Hp. split.
      * apply (provisioned_from _ _ w (putLease l1 w)); [done|done|]. apply confined_putLease, leaseKey_meta, (uw_meta _ _ _ Hu1).
      * intros Hph. exfalso. apply andb_true_iff in Hfirst as [[Ha Hb]%andb_true_iff _].
        apply negb_true_iff, bool_decide_eq_false in Ha, Hb. tauto.
  - rewrite run_seq, run_ret. cbn [fst snd]. destruct (Hsame l1 Hu1 Hns1) as [Hh1 Hv1].
    destruct (run_provisionNamespace l1 ph wr cs.(cs_RemoteIdentity) w) as (l' & u & w' & Hrun & Hp & Hle); try done; [by rewrite Hh1|].
    exists l', u, w'. split; [exact Hrun|]. rewrite Hh1 in *. split; [done|]. intros _ Hns. apply Hle. by rewrite Hns1.
Qed.

Lemma run_reconcileActive l ph pol dec w :
  underway l0 T l -> sameEnv l0 l -> held l0 w -> w.(w_now) < d ->
  decision w l0 pol = Ok dec -> dec.(Pending) = false -> opens w l0 dec.(ClusterName) sess ->
  vacant l0 sess w -> claimableObjects l0 sess (home l0) w ->
  exists l' u w' identity, run (reconcileActive r l ph res pol) w = ((l', (requeueAfter u, None)), w') /\
    identified w sess identity /\ provisioned l0 T res sess identity (home l0) d w l' u w' /\
    (ph = LeasePhaseActive \/ ph = LeasePhaseExpiring -> l0.(lease_Status).(st_Namespace) = home l0 -> w'.(w_leases) = w.(w_leases)).
Proof.
  intros Hu Hs Hh Hn Hdec Hpend Ho Hv Hcl. unfold reconcileActive. cbv zeta.
  destruct (run_resolveForProvision w l0 l pol dec sess Hs Hdec Hpend Ho) as (cs & Hr & Hid).
  rewrite run_seq, Hr. cbn [fst snd]. rewrite run_gated. set (l1 := l <|@ st_Cluster := Some cs |>).
  assert (Hu1 : underway l0 T l1) by by apply underway_status.
  assert (Hns1 : l1.(lease_Status).(st_Namespace) = l0.(lease_Status).(st_Namespace)) by apply (se_ns _ _ Hs).
  pose proof (uw_meta _ _ _ Hu1) as Hm1. pose proof (uw_spec _ _ _ Hu1) as Hsp1.
  assert (Hh1 : home l1 = home l0) by by apply home_same.
  assert (Hv1 : vacant l1 sess w) by (apply (vacant_same l0); congruence).
  destruct (run_provisionOn l1 ph (ConditionTrue l ConditionReady) cs w) as (l' & u & w' & Hrun & Hp & Hle); try done; [by rewrite Hh1|].
  exists l', u, w', cs.(cs_RemoteIdentity). split; [exact Hrun|]. split; [done|]. rewrite Hh1 in *. split; [done|].
  intros Hph Hns. apply Hle; [done|]. by rewrite Hns1.
Qed.

End Path.

(** ** One reconcile *)

(** The deadline of a lease under its resolved durations, at the time of a run. *)
Definition deadlineFor l (res : Resolved) (now : time) : time :=
  let c := startOf l now in
  deadlineOf (Z.min (hardOf res.(r_Renewable) l.(lease_Status).(st_ExpiresAt) (c + res.(r_TTL))) (c + res.(r_MaxTTL)))
    (default c l.(lease_Status).(st_LastActivityAt)) res.(r_IdleTTL).

(** The times the controller keeps for it. *)
Definition timesFor l (res : Resolved) (now : time) :=
  let c := startOf l now in
  (Some c, Some (c + res.(r_MaxTTL)), Some (hardOf res.(r_Renewable) l.(lease_Status).(st_ExpiresAt) (c + res.(r_TTL))),
   Some (default c l.(lease_Status).(st_LastActivityAt)), Some (deadlineFor l res now)).

(** The lease [l], stored under the name, can be served: it is live and valid and
    resolves under its policy, its deadline has not come, placement decides on a
    cluster that can be used, and nobody else has what is to be its environment. *)
Record serviceable (name : string) w l pol res dec sess : Prop := {
  sv_stored : w.(w_leases) !! slot HubClient (leaseKey l) = Some l;
  sv_named : leaseKey l = named name;
  sv_live : l.(lease_Meta).(m_DeletionTimestamp) = None;
  sv_types : distinct_types l.(lease_Status).(st_Conditions);
  sv_valid : ValidateSpec l = None;
  sv_policy : policyIn w l pol;
  sv_resolved : Resolve l.(lease_Spec) pol = Ok res;
  sv_warnings : Forall (fun x => x <= maxDuration) l.(lease_Spec).(spec_Warnings);
  sv_early : w.(w_now) < deadlineFor l res w.(w_now);
  sv_decision : decision w l pol = Ok dec;
  sv_decided : dec.(Pending) = false;
  sv_opens : opens w l dec.(ClusterName) sess;
  sv_vacant : vacant l sess w;
  sv_claimable : claimableObjects l sess (home l) w
}.

(** The stored lease of a provisioned environment. *)
Record active l sess identity (T : option time * option time * option time * option time * option time) N s : Prop := {
  ac_meta : s.(lease_Meta) = l.(lease_Meta);
  ac_spec : s.(lease_Spec) = l.(lease_Spec);
  ac_phase : s.(lease_Status).(st_Phase) = LeasePhaseActive \/ s.(lease_Status).(st_Phase) = LeasePhaseExpiring;
  ac_ready : ConditionTrue s ConditionReady = true;
  ac_namespace : s.(lease_Status).(st_Namespace) = N;
  ac_cluster : settledOn sess identity s;
  ac_times : timesOf s = T;
  ac_types : distinct_types s.(lease_Status).(st_Conditions);
  ac_generation : s.(lease_Status).(st_ObservedGeneration) = l.(lease_Meta).(m_Generation)
}.

Lemma find_first_Permutation {A} (P : A -> bool) (a b : list A) :
  (forall x y, x ∈ a -> y ∈ a -> P x = true -> P y = true -> x = y) -> a ≡ₚ b -> find_first P a = find_first P b.
Proof.
  intros Hu Hp. destruct (find_first P a) as [x|] eqn:Ha.
  - apply find_first_Some in Ha as [Hx HPx]. destruct (find_first P b) as [y|] eqn:Hb.
    + apply find_first_Some in Hb as [Hy HPy]. rewrite <- Hp in Hy. f_equal. by apply Hu.
    + apply find_first_None in Hb. rewrite Hp in Hx. rewrite Forall_forall in Hb. specialize (Hb x Hx). congruence.
  - symmetry. apply find_first_None. apply find_first_None in Ha. by rewrite <- Hp.
Qed.

Lemma condition_of_agree a b t :
  distinct_types a.(lease_Status).(st_Conditions) -> a.(lease_Status).(st_Conditions) ≡ₚ b.(lease_Status).(st_Conditions) ->
  condition_of a t = condition_of b t.
Proof.
  intros Hd Hp. unfold condition_of, find_condition. erewrite find_first_Permutation; [done| |exact Hp].
  intros x y Hx Hy Htx Hty. apply String.eqb_eq in Htx, Hty.
  apply list_elem_of_lookup in Hx as [i Hi], Hy as [j Hj].
  assert (i = j) as ->; [|congruence]. apply (NoDup_lookup (map c_Type (st_Conditions (lease_Status a))) i j t Hd).
  - rewrite list_lookup_fmap, Hi. cbn. by rewrite Htx.
  - rewrite list_lookup_fmap, Hj. cbn. by rewrite Hty.
Qed.

(** The status write at the end: the stored lease agrees with the one at hand. *)
Lemma run_finish l0 l' before N res sess identity T d (w w1 : World) u :
  provisioned l0 T res sess identity N d w l' u w1 -> FinalizerName ∈ l0.(lease_Meta).(m_Finalizers) ->
  before = l0.(lease_Status) -> distinct_types before.(st_Conditions) ->
  w.(w_leases) !! slot HubClient (leaseKey l0) = Some l0 ->
  (before.(st_Phase) = LeasePhaseActive \/ before.(st_Phase) = LeasePhaseExpiring -> before.(st_Namespace) = N -> w1.(w_leases) = w.(w_leases)) ->
  exists s w2 l2, run (patchStatusIfChanged (EnsureObservedGeneration l') before) w1 = ((l2, None), w2) /\
    w2.(w_leases) !! slot HubClient (leaseKey l0) = Some s /\ active l0 sess identity T N s /\
    stands s res sess N w2 /\ confined l0 sess N w w2.
Proof.
  intros [Hback Hu Hns Hcl Hph Hready Hst Hconf (s0 & Hs0 & Hm0 & Hsp0)] Hf -> Htypes Hl0 Hquiet.
  set (l2 := EnsureObservedGeneration l'). assert (Hu2 : underway l0 T l2) by by apply underway_status.
  assert (Hk : leaseKey l2 = leaseKey l0) by apply leaseKey_meta, (uw_meta _ _ _ Hu2).
  assert (Hstored : storedAs l2 w1 s0).
  { split_and!; [by rewrite Hk|by rewrite (uw_meta _ _ _ Hu2)|by rewrite (uw_meta _ _ _ Hu2)]. }
  rewrite (run_patchStatus _ _ _ _ Hstored).
  set (s := if StatusEqual (lease_Status l0) (lease_Status l2) then l0 else s0 <| lease_Status := lease_Status l2 |>).
  set (w2 := if StatusEqual _ _ then w1 else _). exists s, w2, l2. split; [done|].
  assert (Hs : w2.(w_leases) !! slot HubClient (leaseKey l0) = Some s /\ s.(lease_Meta) = l0.(lease_Meta) /\ s.(lease_Spec) = l0.(lease_Spec) /\
    status_agree s.(lease_Status) l2.(lease_Status) /\ distinct_types s.(lease_Status).(st_Conditions) /\
    confined l0 sess N w1 w2 /\ w2.(w_namespaces) = w1.(w_namespaces) /\ w2.(w_quotas) = w1.(w_quotas) /\
    w2.(w_limitRanges) = w1.(w_limitRanges) /\ w2.(w_networkPolicies) = w1.(w_networkPolicies)).
  { unfold s, w2. destruct (StatusEqual _ _) eqn:He.
    - apply StatusEqual_agree in He; [|done|apply (uw_types _ _ _ Hu2)]. split_and!; try done.
      assert (Hfe : (lease_Status l0).(st_Phase) = (lease_Status l').(st_Phase) /\ (lease_Status l0).(st_Namespace) = (lease_Status l').(st_Namespace)).
      { destruct He as [He _]. split; [exact (f_equal st_Phase He)|exact (f_equal st_Namespace He)]. }
      destruct Hfe as [Hfe1 Hfe2]. rewrite Hquiet; [done|by rewrite Hfe1|by rewrite Hfe2].
    - split_and!; try done; [|apply (uw_types _ _ _ Hu2)|].
      + apply putLease_lookup, leaseKey_meta. exact Hm0.
      + apply confined_putLease, leaseKey_meta. exact Hm0. }
  clearbody s w2. destruct Hs as (Hs & Hm & Hsp & [Hag Hperm] & Hdis & Hc2 & Hn2 & Hq2 & Hlr2 & Hnp2).
  assert (Hcs : s.(lease_Status).(st_Cluster) = l'.(lease_Status).(st_Cluster)) by exact (f_equal st_Cluster Hag).
  split; [done|]. split; [|split].
  - constructor; try done.
    + rewrite (f_equal st_Phase Hag : st_Phase (lease_Status s) = st_Phase (lease_Status l')). exact Hph.
    + apply ConditionTrue_iff. eexists. rewrite (condition_of_agree s l2); [exact Hready|done|done].
    + rewrite <- Hns. exact (f_equal st_Namespace Hag).
    + by eapply settled_identity.
    + rewrite <- (uw_times _ _ _ Hu2). unfold timesOf. apply (f_equal (fun st => (st_CreatedAt st, st_MaximumExpiresAt st, st_ExpiresAt st, st_LastActivityAt st, st_EffectiveExpiresAt st))) in Hag. exact Hag.
    + rewrite <- (uw_meta _ _ _ Hu). exact (f_equal st_ObservedGeneration Hag).
  - destruct Hst as ((ns & Hat & Hkey & Hdel & Hlab & Hown) & Hobj & Hcl1). split; [|split].
    + exists ns. rewrite Hn2. split; [done|]. split; [done|]. split; [done|].
      split; [by rewrite Hlab; unfold wantedLabels; rewrite Hm, Hsp, (uw_meta _ _ _ Hu), (uw_spec _ _ _ Hu)|]. eapply owns_later; [exact Hown|by rewrite Hm, (uw_meta _ _ _ Hu)|].
      right. unfold expectedTarget. by rewrite Hcs.
    + assert (Heff : objectsStand sess (effectiveLease s res) N w1).
      { eapply objectsStand_same; [| |exact Hobj]; unfold effectiveLease; destruct (r_NetworkPolicy res); cbn;
          by rewrite ?Hm, ?Hsp, ?(uw_meta _ _ _ Hu), ?(uw_spec _ _ _ Hu). }
      unfold objectsStand, quotaStands, limitRangeStands, networkPolicyStands in *. by rewrite Hq2, Hlr2, Hnp2.
    + eapply claimableObjects_same; [|done..|exact Hcl1]. by rewrite Hm, (uw_meta _ _ _ Hu).
  - by eapply confined_trans.
Qed.

(** Up to the active path: the lease is stamped and its deadline has not come. *)
Lemma run_stamped name w l pol res dec sess :
  serviceable name w l pol res dec sess ->
  exists l1, sameEnv l l1 /\ underway l (timesFor l res w.(w_now)) l1 /\
    run (reconcileLive r l) w =
    run ('(leaseObj, out) <- reconcileActive r l1 l.(lease_Status).(st_Phase) res pol ;;
         '(leaseObj, patchErr) <- patchStatusIfChanged (EnsureObservedGeneration leaseObj) l.(lease_Status) ;;
         match patchErr, out with
         | Some patchErr, _ => Ret (noResult, Some patchErr)
         | None, (_, Some err) => Ret (noResult, Some err)
         | None, (result, None) => Ret (result, None)
         end)%prog w.
Proof.
  intros [Hst Hnm Hlive Htypes Hv Hpol Hres Hws Hearly _ _ _ _ _]. unfold reconcileLive. cbv zeta.
  rewrite Hv, run_seq, (run_fetchPolicy _ _ _ Hpol). cbn [fst snd]. unfold reconcileResolved. rewrite Hres. cbv zeta.
  unfold now_. rewrite run_seq, run_call. cbn [world_handler fst snd].
  set (lE := l <|@ st_Effective := Some (ToEffectiveStatus res) |>).
  destruct (EnsureTimestamps lE (r_TTL res) (r_MaxTTL res) (r_Renewable res) (w_now w)) as [stamps|err] eqn:Hts.
  2: { rewrite EnsureTimestamps_eq in Hts; [done|]. by eapply resolved_lifetime. }
  pose proof (sameEnv_stamped _ _ _ _ _ _ _ Hts) as Hsame.
  assert (Hl0 : exists f, stampedLease stamps = lE <|@ st_CreatedAt := Some (startOf l (w_now w)) |>
      <|@ st_MaximumExpiresAt := Some (startOf l (w_now w) + r_MaxTTL res) |>
      <|@ st_ExpiresAt := Some (hardOf (r_Renewable res) l.(lease_Status).(st_ExpiresAt) (startOf l (w_now w) + r_TTL res)) |>
      <|@ st_Conditions := f |> /\ distinct_types f).
  { apply EnsureTimestamps_Ok_inv in Hts as [_ Hl]. unfold stampedLease. destruct (ts_renewalRejected stamps); rewrite Hl.
    - eexists. split; [reflexivity|]. by apply SetStatusCondition_nodup.
    - exists l.(lease_Status).(st_Conditions). split; [|done]. by destruct l as [? ? []]. }
  destruct Hl0 as (f & Hl0 & Hf).
  unfold reconcileStamped. rewrite run_seq. unfold now_. rewrite run_call. cbn [world_handler fst snd]. cbv zeta.
  set (l1 := SyncExpirationStatus (stampedLease stamps) (r_IdleTTL res) (w_now w)).
  rewrite run_seq, run_announceRenewal. cbn [fst snd]. rewrite run_seq, run_call. cbn [world_handler fst snd].
  assert (Hu : underway l (timesFor l res (w_now w)) l1).
  { unfold l1. rewrite (SyncExpirationStatus_eq _ _ _ (startOf l (w_now w))
      (hardOf (r_Renewable res) l.(lease_Status).(st_ExpiresAt) (startOf l (w_now w) + r_TTL res))) by by rewrite Hl0.
    rewrite Hl0. constructor; [done..|exact Hf|]. unfold timesOf, timesFor, deadlineFor. cbn -[cappedHard deadlineOf startOf hardOf Z.min]. by rewrite cappedHard_min. }
  assert (Hexp : IsExpired l1 (w_now w) = false).
  { unfold IsExpired. rewrite (underway_deadline _ _ _ Hu). unfold timesFor, Before. by rewrite (proj2 (Z.ltb_lt _ _)). }
  rewrite Hexp, DeepCopyStatus_id. exists l1. split; [by apply sameEnv_Sync|]. split; [done|reflexivity].
Qed.

Lemma run_Reconcile_serviceable name w l pol res dec sess :
  serviceable name w l pol res dec sess -> FinalizerName ∈ l.(lease_Meta).(m_Finalizers) ->
  exists s u w' identity, run (Reconcile r name) w = ((requeueAfter u, None), w') /\ identified w sess identity /\
    comesBack w.(w_now) (deadlineFor l res w.(w_now)) sess u /\
    w'.(w_leases) !! slot HubClient (leaseKey l) = Some s /\
    active l sess identity (timesFor l res w.(w_now)) (home l) s /\
    stands s res sess (home l) w' /\ confined l sess (home l) w w'.
Proof.
  intros Hs Hf. unfold Reconcile. rewrite run_seq, run_GetLease, <- (sv_named _ _ _ _ _ _ _ Hs), (sv_stored _ _ _ _ _ _ _ Hs).
  cbn [fst snd]. cbv zeta. rewrite (sv_live _ _ _ _ _ _ _ Hs). cbn [IsZeroPtr negb].
  rewrite (proj2 (ContainsFinalizer_spec _ _) Hf). cbn [negb].
  destruct (run_stamped name w l pol res dec sess Hs) as (l1 & Hsame & Hu & ->).
  destruct Hs as [Hst Hnm Hlive Htypes Hv Hpol Hres Hws Hearly Hdec Hdecd Hopens Hvac Hcl].
  destruct (run_reconcileActive l res sess (deadlineFor l res w.(w_now)) (timesFor l res w.(w_now)) Hf Hws eq_refl
    l1 l.(lease_Status).(st_Phase) pol dec w Hu Hsame) as (l' & u & w1 & identity & Hrun & Hid & Hp & Hq); try done.
  { by exists l. }
  rewrite run_seq, Hrun. cbn [fst snd].
  destruct (run_finish l l' l.(lease_Status) (home l) res sess identity _ _ w w1 u Hp Hf eq_refl Htypes Hst Hq)
    as (s & w2 & l2 & Hrun2 & Hs & Hact & Hstand & Hconf).
  rewrite run_seq, Hrun2. cbn [fst snd]. rewrite run_ret. exists s, u, w2, identity. split; [done|]. split; [done|].
  split; [apply (pv_back _ _ _ _ _ _ _ _ _ _ _ Hp)|done].
Qed.

(** ** The finalizer first *)

(** Placement reads the targets only. *)
Definition sameAnswer w w' X (e : kube X) : Prop :=
  still X e /\ (world_handler X e w).1 = (world_handler X e w').1.

Lemma run_same_answers {A} (p : prog kube A) w w' : every (sameAnswer w w') p -> (run p w).1 = (run p w').1.
Proof.
  induction p as [a|X e k IH]; cbn [every]; [done|]. intros [[Hs Ha] Hk]. rewrite !run_act, !Hs, Ha. by apply IH.
Qed.

Lemma decided_same w w' l pol cs :
  w'.(w_targets) = w.(w_targets) -> (run (Decide HubClient l pol cs) w').1 = (run (Decide HubClient l pol cs) w).1.
Proof.
  intros Ht. apply run_same_answers. unfold Decide, selectFromCandidates, getTarget, cl_Get, cl_List.
  repeat (cbv zeta; match goal with
    | |- every _ (call _) => apply every_call; split; [intros ?; reflexivity|cbn [world_handler]; unfold visible; cbn [objects]; by rewrite Ht]
    | _ => every_step
    end).
Qed.

(** The counts depend on which cluster each lease counts for, in any order. *)
Definition countLease (out : gmap string Z) (l : EnvironmentLease) : gmap string Z :=
  match countsToward l with
  | Some name => <[name := wrap32 (default 0 (out !! name) + 1)]> out
  | None => out
  end.

Lemma countLease_comm out a b : countLease (countLease out a) b = countLease (countLease out b) a.
Proof.
  unfold countLease. destruct (countsToward a) as [n|], (countsToward b) as [m|]; try done.
  destruct (decide (n = m)) as [->|Hne]; [done|]. rewrite !lookup_insert_ne by done. by rewrite insert_insert_ne.
Qed.

Lemma countLeases_perm a b : a ≡ₚ b -> countLeases a = countLeases b.
Proof.
  intros Hp. unfold countLeases. generalize (∅ : gmap string Z). induction Hp as [|x a b Hp IH|x y a|a b c Hp1 IH1 Hp2 IH2]; intros out; cbn.
  - done.
  - apply IH.
  - f_equal. apply countLease_comm.
  - by rewrite IH1.
Qed.

Lemma activeCounts_put w l s :
  w.(w_leases) !! slot HubClient (leaseKey l) = Some l -> leaseKey s = leaseKey l -> countsToward s = countsToward l ->
  activeCounts (putLease s w) = activeCounts w.
Proof.
  intros Hl Hk Hc. unfold activeCounts, CountActiveLeases. rewrite !run_seq. unfold cl_List. rewrite !run_call.
  cbn [world_handler fst snd]. unfold visible. cbn [objects]. rewrite !run_ret. cbn [fst snd]. unfold putLease. cbn [w_leases modify].
  set (k := slot HubClient (leaseKey l)) in *. rewrite Hk. fold k. set (m := w.(w_leases)) in *.
  set (P := fun kv : Z * string * string * EnvironmentLease => kv.1.1.1 = clientCode HubClient).
  assert (Hm : forall x, countLeases (snd <$> filter P (map_to_list (<[k := x]> m))) =
    countLeases (x :: (snd <$> filter P (map_to_list (delete k m))))).
  { intros x. apply countLeases_perm. rewrite <- insert_delete_eq, map_to_list_insert by by rewrite lookup_delete_eq.
    rewrite filter_cons_True by done. done. }
  rewrite <- (insert_id m k l Hl) at 2. rewrite !Hm. unfold countLeases. cbn [fold_left]. by rewrite Hc.
Qed.

(** The lease with the finalizer. *)
Definition finalized l : EnvironmentLease :=
  l <| lease_Meta := l.(lease_Meta) <| m_Finalizers := AddFinalizer l.(lease_Meta).(m_Finalizers) FinalizerName |> |>.

Lemma run_Reconcile_finalizer name w l pol res dec sess :
  serviceable name w l pol res dec sess -> FinalizerName ∉ l.(lease_Meta).(m_Finalizers) ->
  run (Reconcile r name) w = ((mkCtrlResult true 0, None), putLease (finalized l) w) /\
  serviceable name (putLease (finalized l) w) (finalized l) pol res dec sess.
Proof.
  intros Hs Hf. assert (Hk : leaseKey (finalized l) = leaseKey l) by done.
  assert (Hin : FinalizerName ∈ (finalized l).(lease_Meta).(m_Finalizers)) by (apply AddFinalizer_spec; by right).
  split.
  - unfold Reconcile. rewrite run_seq, run_GetLease, <- (sv_named _ _ _ _ _ _ _ Hs), (sv_stored _ _ _ _ _ _ _ Hs).
    cbn [fst snd]. cbv zeta. rewrite (sv_live _ _ _ _ _ _ _ Hs). cbn [IsZeroPtr negb].
    destruct (ContainsFinalizer _ _) eqn:Hc; [by apply ContainsFinalizer_spec in Hc|]. cbn [negb].
    fold (finalized l). rewrite run_seq, (run_UpdateLease _ (finalized l) l) by (apply (sv_stored _ _ _ _ _ _ _ Hs)). cbn [fst snd].
    assert (He : modify (proj:=lease_Status) (fun _ => lease_Status l) (finalized l) = finalized l) by by destruct l. rewrite He.
    by rewrite store_lease.
  - destruct Hs as [Hst Hnm Hlive Htypes Hv Hpol Hres Hws Hearly Hdec Hdecd Hopens Hvac Hcl]. constructor; try done.
    + by apply putLease_lookup.
    + rewrite <- Hdec. unfold decision. rewrite (activeCounts_put w l) by done.
      apply (decided_same w (putLease (finalized l) w) l pol). done.
Qed.

(** ** Again and again *)

Lemma decision_ref w l pol dec :
  decision w l pol = Ok dec -> is_empty (refName l.(lease_Spec).(spec_ClusterRef)) = false ->
  dec.(ClusterName) = refName l.(lease_Spec).(spec_ClusterRef) /\
  forall w' s, w'.(w_targets) = w.(w_targets) -> s.(lease_Spec) = l.(lease_Spec) -> decision w' s pol = Ok dec.
Proof.
  intros Hdec Href. split.
  - unfold decision, Decide in Hdec. destruct (ValidateExclusive _); [done|]. destruct (selectorFromPlacement (policyPlacement pol)); [|done].
    destruct (selectorFromPlacement (spec_Placement _)); [|done]. cbv zeta in Hdec. rewrite Href in Hdec. cbn [negb] in Hdec.
    rewrite run_seq in Hdec. destruct ((run (getTarget _ _) w).1) as [t|]; [|done]. rewrite run_ret in Hdec. cbn [fst] in Hdec.
    destruct (enforcePolicyOnTarget _ _); [done|]. by injection Hdec as <-.
  - intros w' s Ht Hs. rewrite <- Hdec. unfold decision.
    assert (Heq : forall cs cs', Decide HubClient s pol cs = Decide HubClient l pol cs').
    { intros cs cs'. unfold Decide. rewrite Hs. destruct (ValidateExclusive _); [done|]. destruct (selectorFromPlacement (policyPlacement pol)); [|done].
      destruct (selectorFromPlacement (spec_Placement _)); [|done]. cbv zeta. by rewrite Href. }
    rewrite (Heq _ (Some (activeCounts w))). by apply decided_same.
Qed.

(** A provisioned lease stays where it is. *)
Lemma decision_sticky w l pol dec w' s name :
  decision w l pol = Ok dec -> is_empty (refName l.(lease_Spec).(spec_ClusterRef)) = true -> s.(lease_Spec) = l.(lease_Spec) ->
  s.(lease_Status).(st_Namespace) <> "" -> stickyCluster s = name -> name <> "" -> decision w' s pol = Ok (placed name).
Proof.
  intros Hdec Href Hs Hns%is_empty_false Hst Hname%is_empty_false. unfold decision, Decide in *. rewrite Hs, Hns, Hst, Hname.
  destruct (ValidateExclusive _); [done|]. destruct (selectorFromPlacement (policyPlacement pol)); [|done].
  destruct (selectorFromPlacement (spec_Placement _)); [|done]. cbv zeta in *. rewrite Href in *. cbn [negb andb].
  destruct (String.eqb_spec name LocalClusterName) as [->|Hne]; cbn [negb]; [done|].
  rewrite run_seq. destruct (match (run _ w').1 with Ok _ => _ | Err _ => _ end); done.
Qed.

Lemma confined_kube l sess N w w' :
  IsProtectedNamespace N = false -> confined l sess N w w' ->
  w'.(w_namespaces) !! slot sess.(ses_Client) (named "kube-system") = w.(w_namespaces) !! slot sess.(ses_Client) (named "kube-system").
Proof. intros Hp [_ Hc]. apply (Hc KNamespace). cbn. intros [= ->]. done. Qed.

(** The clock is not an object. *)
Definition at_time (t : time) w : World := w <| w_now := t |>.

Lemma opens_local w l name sess : isLocalName name = true -> sess = localSession -> opens w l name sess.
Proof. intros Hl ->. unfold opens. by rewrite Hl. Qed.

Lemma opens_again w l name sess w' s identity t N :
  opens w l name sess -> confined l sess N w w' -> IsProtectedNamespace N = false ->
  settledOn sess identity s -> identified w sess identity -> opens (at_time t w') s name sess.
Proof.
  intros Ho Hc Hp (c & Hcs & Hcn & Hci) Hid. unfold opens in *. destruct (isLocalName name); [done|].
  destruct Ho as (tg & ks & Ht & Hlive & Hen & Hpr & Hsess & Hks & Hu & Htid & _). exists tg, ks. cbn [at_time w_targets w_namespaces modify].
  rewrite (confined_targets _ _ _ _ _ Hc), (confined_kube _ _ _ _ _ Hp Hc). split_and!; try done.
  intros c' Hc' _. rewrite Hcs in Hc'. injection Hc' as <-. destruct Hci as [Hci|Hci]; [by left|right]. rewrite Hci.
  destruct Hid as [Hloc|(ks' & Hks' & <-)]; [by rewrite Hsess in Hloc|]. rewrite Hks in Hks'. by injection Hks' as <-.
Qed.

Lemma opens_name w l name sess :
  opens w l name sess -> if isLocalName name then sess = localSession else sess.(ses_Name) = name /\ sess.(ses_Local) = false.
Proof. unfold opens. destruct (isLocalName name); [done|]. by intros (? & ? & _ & _ & _ & _ & -> & _). Qed.

Lemma decision_again w l pol dec sess w' s identity t :
  decision w l pol = Ok dec -> dec.(Pending) = false -> opens w l dec.(ClusterName) sess ->
  confined l sess (home l) w w' -> IsProtectedNamespace (home l) = false -> identified w sess identity ->
  s.(lease_Spec) = l.(lease_Spec) -> s.(lease_Status).(st_Namespace) = home l -> settledOn sess identity s ->
  exists dec', decision (at_time t w') s pol = Ok dec' /\ dec'.(Pending) = false /\ opens (at_time t w') s dec'.(ClusterName) sess.
Proof.
  intros Hdec Hpend Ho Hc Hp Hid Hs Hns Hset. pose proof (opens_again _ _ _ _ _ s identity t _ Ho Hc Hp Hset Hid) as Ho'.
  destruct (is_empty (refName (spec_ClusterRef (lease_Spec l)))) eqn:Href.
  - destruct Hset as (c & Hcs & Hcn & _). assert (Hst : stickyCluster s = sess.(ses_Name)) by (unfold stickyCluster; by rewrite Hcs).
    pose proof (opens_name _ _ _ _ Ho) as Hn.
    assert (Hne : sess.(ses_Name) <> "").
    { destruct (isLocalName dec.(ClusterName)) eqn:Hl; [by rewrite Hn|]. destruct Hn as [-> _]. intros He. by rewrite He in Hl. }
    exists (placed sess.(ses_Name)). split; [|split; [done|]].
    + apply (decision_sticky w l pol dec); try done. rewrite Hns. apply is_empty_false, home_nonempty.
    + cbn [placed ClusterName]. destruct (isLocalName dec.(ClusterName)) eqn:Hl; [by rewrite Hn; apply opens_local|]. by destruct Hn as [-> _].
  - exists dec. split; [|done]. apply (decision_ref w l pol dec); [done|done| |done]. apply (confined_targets _ _ _ _ _ Hc).
Qed.

Lemma active_times l sess identity res now N s t :
  active l sess identity (timesFor l res now) N s ->
  timesFor s res t = timesFor l res now /\ deadlineFor s res t = deadlineFor l res now.
Proof.
  intros Ha. pose proof (ac_times _ _ _ _ _ _ Ha) as HT. unfold timesOf, timesFor in HT.
  injection HT as Hc Hm He Hact Heff. unfold timesFor, deadlineFor, startOf. rewrite Hc, He, Hact. cbn [default from_option].
  by rewrite !hardOf_again.
Qed.

Lemma serviceable_again name w l pol res dec sess w' s identity t :
  serviceable name w l pol res dec sess -> identified w sess identity ->
  active l sess identity (timesFor l res w.(w_now)) (home l) s -> stands s res sess (home l) w' -> confined l sess (home l) w w' ->
  w'.(w_leases) !! slot HubClient (leaseKey l) = Some s -> t < deadlineFor l res w.(w_now) ->
  home s = home l /\ exists dec', serviceable name (at_time t w') s pol res dec' sess.
Proof.
  intros Hs Hid Ha Hst Hc Hin Ht. destruct (active_times _ _ _ _ _ _ _ t Ha) as [_ Hd].
  destruct Hs as [Hst0 Hnm Hlive Htypes Hv Hpol Hres Hws Hearly Hdec Hdecd Hopens [Hprot Hvac] Hcl].
  destruct Ha as [Hm Hsp Hph Hready Hns Hset Htm Htyp Hgen].
  assert (Hwant : wantedName s = home l).
  { unfold wantedName. rewrite Hns. pose proof (home_nonempty l) as Hne. by rewrite Hne. }
  assert (Hhome : home s = home l) by (unfold home at 1; rewrite Hwant; by rewrite home_nonempty).
  split; [done|]. destruct (decision_again w l pol dec sess w' s identity t Hdec Hdecd Hopens Hc Hprot Hid Hsp Hns Hset)
    as (dec' & Hdec' & Hpend' & Hopens'). exists dec'.
  assert (Hk : leaseKey s = leaseKey l) by by apply leaseKey_meta.
  destruct Hst as ((ns & Hat & Hkey & Hown) & Hobj & Hclaim). constructor; try done.
  - cbn. by rewrite Hk.
  - by rewrite Hk.
  - by rewrite Hm.
  - revert Hv. unfold ValidateSpec. cbv zeta. rewrite Hsp, Hns, Hprot, andb_false_r.
    generalize (ValidateWarnings (spec_Warnings (lease_Spec l))) (ValidateNamespaceSpec (spec_Namespace (lease_Spec l)))
      (negb (is_empty (st_Namespace (lease_Status l))) && IsProtectedNamespace (st_Namespace (lease_Status l))).
    by intros [] [] [].
  - unfold policyIn in *. cbn [at_time w_policies modify]. by rewrite Hsp, (confined_policies _ _ _ _ _ Hc).
  - by rewrite Hsp.
  - by rewrite Hsp.
  - cbn [at_time w_now modify]. by rewrite Hd.
  - split; [by rewrite Hhome|]. rewrite Hhome. change (w_namespaces (at_time t w')) with (w_namespaces w'). rewrite Hat. split.
    + rewrite Hwant. apply home_nonempty.
    + by apply owned_adoptable.
  - by rewrite Hhome.
Qed.

(** The environment of the lease [l] is served until [d]: whenever the controller
    looks before that, it can. *)
Record served (name : string) l pol res sess (d : time) T N w s identity : Prop := {
  sd_lease : w.(w_leases) !! slot HubClient (named name) = Some s;
  sd_active : active l sess identity T N s;
  sd_stands : stands s res sess N w;
  sd_identity : identified w sess identity;
  sd_again : forall t, t < d -> timesFor s res t = T /\ deadlineFor s res t = d /\ home s = N /\
    exists dec, serviceable name (at_time t w) s pol res dec sess
}.

Lemma active_trans l s sess identity identity' T N s' :
  active l sess identity T N s -> active s sess identity' T N s' -> active l sess identity' T N s'.
Proof. intros [] []. constructor; congruence || done. Qed.

Lemma serviceable_served name w l pol res dec sess :
  serviceable name w l pol res dec sess -> FinalizerName ∈ l.(lease_Meta).(m_Finalizers) ->
  let d := deadlineFor l res w.(w_now) in
  exists u w' s identity, run (Reconcile r name) w = ((requeueAfter u, None), w') /\ comesBack w.(w_now) d sess u /\
    confined l sess (home l) w w' /\ served name l pol res sess d (timesFor l res w.(w_now)) (home l) w' s identity.
Proof.
  intros Hs Hf d. destruct (run_Reconcile_serviceable name w l pol res dec sess Hs Hf)
    as (s & u & w' & identity & Hrun & Hid & Hback & Hin & Hact & Hst & Hconf).
  exists u, w', s, identity. split; [done|]. split; [done|]. split; [done|].
  assert (Hid' : identified w' sess identity).
  { destruct Hid as [Hid|Hid]; [by left|right]. destruct Hs as [_ _ _ _ _ _ _ _ _ _ _ _ [Hp _] _].
    by rewrite (confined_kube _ _ _ _ _ Hp Hconf). }
  constructor; [by rewrite <- (sv_named _ _ _ _ _ _ _ Hs)|done..|]. intros t Ht.
  destruct (active_times _ _ _ _ _ _ _ t Hact) as [HT Hd].
  by destruct (serviceable_again name w l pol res dec sess w' s identity t Hs Hid Hact Hst Hconf Hin Ht) as [Hh Hdec].
Qed.

(** A look at the lease at some instant. *)
Definition attend (name : string) (t : time) w : (CtrlResult * option error) * World := run (Reconcile r name) (at_time t w).

Lemma served_attend name l pol res sess d T N w s identity t :
  served name l pol res sess d T N w s identity -> FinalizerName ∈ l.(lease_Meta).(m_Finalizers) -> t < d ->
  exists u s' identity', (attend name t w).1 = (requeueAfter u, None) /\ comesBack t d sess u /\
    served name l pol res sess d T N (attend name t w).2 s' identity'.
Proof.
  intros [Hin Hact Hst Hid Hag] Hf Ht. destruct (Hag t Ht) as (HT & Hd & Hh & dec & Hs).
  assert (Hf' : FinalizerName ∈ s.(lease_Meta).(m_Finalizers)) by by rewrite (ac_meta _ _ _ _ _ _ Hact).
  destruct (serviceable_served name (at_time t w) s pol res dec sess Hs Hf') as (u & w' & s' & identity' & Hrun & Hback & _ & Hserved).
  exists u, s', identity'. unfold attend. rewrite Hrun. cbn [fst snd]. cbn [at_time w_now modify] in *.
  rewrite Hd, ?HT, ?Hh in *. split; [done|]. split; [done|].
  destruct Hserved as [Hin' Hact' Hst' Hid' Hag']. constructor; [done| |done..]. by eapply active_trans.
Qed.

(** Looks at several instants, one after the other. *)
Fixpoint attendAll (name : string) (ts : list time) w : World :=
  match ts with
  | [] => w
  | t :: ts => attendAll name ts (attend name t w).2
  end.

Lemma served_attendAll name l pol res sess d T N ts w s identity :
  served name l pol res sess d T N w s identity -> FinalizerName ∈ l.(lease_Meta).(m_Finalizers) -> Forall (fun t => t < d) ts ->
  exists s' identity', served name l pol res sess d T N (attendAll name ts w) s' identity'.
Proof.
  intros Hs Hf Hts. revert w s identity Hs. induction Hts as [|t ts Ht Hts IH]; intros w s identity Hs; [by exists s, identity|].
  destruct (served_attend name l pol res sess d T N w s identity t Hs Hf Ht) as (u & s' & identity' & _ & _ & Hs'). by eapply IH.
Qed.

(** ** The end *)

(** What the lease depends on is as it was left. *)
Record carriedOver name sess N w v : Prop := {
  co_lease : v.(w_leases) !! slot HubClient (named name) = w.(w_leases) !! slot HubClient (named name);
  co_policies : v.(w_policies) = w.(w_policies);
  co_targets : v.(w_targets) = w.(w_targets);
  co_namespaces : forall n, n = N \/ n = "kube-system" ->
    v.(w_namespaces) !! slot sess.(ses_Client) (named n) = w.(w_namespaces) !! slot sess.(ses_Client) (named n)
}.

(** The cluster the cleanup looks for is the one the environment is on. *)
Lemma cleanupTarget_sess w l pol dec sess s identity :
  decision w l pol = Ok dec -> opens w l dec.(ClusterName) sess -> s.(lease_Spec) = l.(lease_Spec) -> settledOn sess identity s ->
  if isLocalName dec.(ClusterName) then isLocalName (cleanupTarget s) = true else cleanupTarget s = dec.(ClusterName).
Proof.
  intros Hdec Ho Hs (c & Hcs & Hcn & _). pose proof (opens_name _ _ _ _ Ho) as Hn.
  assert (Hct : cleanupTarget s = if is_empty (refName (spec_ClusterRef (lease_Spec l))) then sess.(ses_Name)
    else refName (spec_ClusterRef (lease_Spec l))).
  { assert (Hne : is_empty sess.(ses_Name) = false).
    { destruct (isLocalName dec.(ClusterName)) eqn:Hl; [by rewrite Hn|]. destruct Hn as [-> _]. unfold isLocalName in Hl.
      by apply orb_false_iff in Hl as [-> _]. }
    unfold cleanupTarget, refName. rewrite Hs, Hcs, Hcn, Hne. destruct (spec_ClusterRef (lease_Spec l)) as [n|]; [|done].
    change (default "" (Some n)) with n. by destruct (is_empty n). }
  rewrite Hct. destruct (is_empty (refName _)) eqn:Href.
  - destruct (isLocalName dec.(ClusterName)); [by rewrite Hn|]. by destruct Hn.
  - destruct (decision_ref w l pol dec Hdec Href) as [<- _]. by destruct (isLocalName dec.(ClusterName)).
Qed.

Lemma served_reachable name l pol res sess d T N w s identity v :
  served name l pol res sess d T N w s identity -> carriedOver name sess N w v -> reachable r v s sess.
Proof.
  intros [Hin Hact Hst Hid Hag] Hco. destruct (Hag (d - 1) ltac:(lia)) as (_ & _ & _ & dec & Hs).
  pose proof (cleanupTarget_sess _ s pol dec sess s identity (sv_decision _ _ _ _ _ _ _ Hs) (sv_opens _ _ _ _ _ _ _ Hs) eq_refl
    (ac_cluster _ _ _ _ _ _ Hact)) as Hct.
  pose proof (sv_opens _ _ _ _ _ _ _ Hs) as Ho. unfold opens in Ho. unfold reachable.
  destruct (isLocalName dec.(ClusterName)) eqn:Hl; [by rewrite Hct|]. rewrite Hct, Hl.
  destruct Ho as (t & ks & Ht & Hlive & Hen & Hp & Hsess & Hks & Hu & _). exists t. rewrite (co_targets _ _ _ _ _ Hco). split_and!; try done.
  intros Hne. destruct (ac_cluster _ _ _ _ _ _ Hact) as (c & Hc & _ & Hci).
  assert (Hri : statusRemoteIdentity s = c.(cs_RemoteIdentity)) by (unfold statusRemoteIdentity; by rewrite Hc).
  rewrite Hri in *. destruct Hci as [Hci|Hci]; [by rewrite Hci in Hne|]. rewrite Hci.
  destruct Hid as [Hloc|(ks' & Hks' & Huid)]; [by rewrite Hsess in Hloc|]. exists ks'.
  rewrite (co_namespaces _ _ _ _ _ Hco) by by right. done.
Qed.

Lemma served_ending name l pol res sess d T N w s identity v :
  served name l pol res sess d T N w s identity -> carriedOver name sess N w v -> d <= v.(w_now) ->
  onlyOurs l.(lease_Meta).(m_Finalizers) -> ForceCleanupAcknowledged l = false ->
  ending r name sess v s /\ nsSlot s sess = slot sess.(ses_Client) (named N).
Proof.
  intros Hserved Hco Hd Hours Hforce. pose proof (served_reachable _ _ _ _ _ _ _ _ _ _ _ v Hserved Hco) as Hreach.
  destruct Hserved as [Hin Hact Hst Hid Hag]. destruct (Hag (d - 1) ltac:(lia)) as (HT & Hdl & Hhome & dec & Hs).
  destruct Hact as [Hm Hsp Hph Hready Hns Hset Htm Htyp Hgen].
  assert (Hslot : nsSlot s sess = slot sess.(ses_Client) (named N)) by (unfold nsSlot; by rewrite Hns).
  split; [|done]. destruct Hs as [Hst0 Hnm Hlive Htypes Hv Hpol Hres Hws Hearly Hdec Hdecd Hopens [Hprot Hvac] Hcl].
  constructor; [by rewrite Hnm, (co_lease _ _ _ _ _ Hco)|done|by rewrite Hm| |done| |].
  - split_and!; [|by rewrite Hns, <- Hhome|unfold ForceCleanupAcknowledged; by rewrite Hm].
    rewrite Hns, <- Hhome. apply is_empty_false, home_nonempty.
  - intros ns Hns'. rewrite Hslot, (co_namespaces _ _ _ _ _ Hco) in Hns' by by left.
    destruct Hst as ((ns0 & Hat & Hkey & Hdel & Hlab & Hown) & _). rewrite Hns' in Hat. injection Hat as <-.
    rewrite Hns. split; [exact Hkey|]. by apply VerifyNamespaceOwnership_iff.
  - right. split; [done|]. rewrite <- HT in Htm. unfold timesOf, timesFor in Htm. injection Htm as Hc _ _ _ _.
    exists pol, (startOf s (d - 1)), res. split; [|split_and!; try done].
    + unfold policyIn in *. by rewrite (co_policies _ _ _ _ _ Hco).
    + by eapply resolved_lifetime.
    + by eapply resolved_lifetime.
    + unfold deadlineFor in Hdl. cbv zeta in Hdl. by rewrite Hdl.
Qed.

(** Claim C6.  A valid lease is provisioned.  Take any world in which a lease with
    the finalizer is live and valid, its deadline under its resolved durations has
    not come, placement decides on the hub or on a live and enabled target with one
    identity, and its namespace and the objects in it either do not exist or are its
    own or nobody's, in whatever state.  Then one reconcile succeeds and asks to come
    back before the deadline, on a remote cluster within two minutes; the stored
    lease is Active or Expiring, Ready, names the namespace and the cluster and has
    the times its durations give; the namespace is there, live, labelled and stamped
    as the lease's, and the quota, the limits and the network policy are as the lease
    and its policy ask; and nothing else in any cluster has changed. *)
Theorem valid_lease_provisioned name w l pol res dec sess :
  serviceable name w l pol res dec sess -> FinalizerName ∈ l.(lease_Meta).(m_Finalizers) ->
  exists u w' s identity, run (Reconcile r name) w = ((requeueAfter u, None), w') /\
    comesBack w.(w_now) (deadlineFor l res w.(w_now)) sess u /\
    w'.(w_leases) !! slot HubClient (named name) = Some s /\
    active l sess identity (timesFor l res w.(w_now)) (home l) s /\
    stands s res sess (home l) w' /\ confined l sess (home l) w w'.
Proof.
  intros Hs Hf. destruct (serviceable_served name w l pol res dec sess Hs Hf) as (u & w' & s & identity & Hrun & Hback & Hconf & Hserved).
  exists u, w', s, identity. by destruct Hserved.
Qed.

(** Claim C5.  The life of a lease.  From any world in which a new or an old lease can
    be served: without the finalizer the first reconcile adds it and asks for the
    next at once; that one provisions the environment; every later one before the
    deadline, at whatever instants, succeeds, keeps the lease active with the same
    times and the environment as it should be, and asks to come back before the
    deadline; and from any world after the deadline in which lease, policies,
    targets and namespace are as they were left, lease and namespace are gone after
    at most two reconciles more than the namespace has finalizers. *)
Theorem lease_life name w l pol res dec sess :
  serviceable name w l pol res dec sess ->
  let fresh := bool_decide (FinalizerName ∉ l.(lease_Meta).(m_Finalizers)) in
  let l1 := if fresh then finalized l else l in
  let w1 := if fresh then (run (Reconcile r name) w).2 else w in
  let d := deadlineFor l res w.(w_now) in
  let T := timesFor l res w.(w_now) in
  (fresh = true -> (run (Reconcile r name) w).1 = (mkCtrlResult true 0, None)) /\
  forall ts, Forall (fun t => t < d) ts ->
  let w2 := attendAll name ts (run (Reconcile r name) w1).2 in
  (exists s identity, active l1 sess identity T (home l) s /\ stands s res sess (home l) w2 /\
     w2.(w_leases) !! slot HubClient (named name) = Some s) /\
  (forall t, t < d -> exists u, (attend name t w2).1 = (requeueAfter u, None) /\ comesBack t d sess u) /\
  (forall v, carriedOver name sess (home l) w2 v -> d <= v.(w_now) -> onlyOurs l1.(lease_Meta).(m_Finalizers) ->
     ForceCleanupAcknowledged l = false ->
     let k := slot sess.(ses_Client) (named (home l)) in within r name k (rank k v) (gone name k) v).
Proof.
  intros Hs fresh l1 w1 d T.
  assert (Hstart : (fresh = true -> (run (Reconcile r name) w).1 = (mkCtrlResult true 0, None)) /\
    serviceable name w1 l1 pol res dec sess /\ FinalizerName ∈ l1.(lease_Meta).(m_Finalizers) /\ w1.(w_now) = w.(w_now)).
  { unfold w1, l1, fresh. case_bool_decide as Hf.
    - destruct (run_Reconcile_finalizer name w l pol res dec sess Hs Hf) as [-> Hs1]. split_and!; try done.
      apply AddFinalizer_spec. by right.
    - by split_and!. }
  destruct Hstart as (Hreq & Hs1 & Hf1 & Hnow1). split; [done|]. intros ts Hts w2.
  assert (Hl1 : timesFor l1 res w1.(w_now) = T /\ deadlineFor l1 res w1.(w_now) = d /\ home l1 = home l /\
    ForceCleanupAcknowledged l1 = ForceCleanupAcknowledged l) by (rewrite Hnow1; unfold l1; by destruct fresh).
  destruct Hl1 as (HT & Hd & Hh & Hforce). clearbody w1 l1.
  destruct (serviceable_served name w1 l1 pol res dec sess Hs1 Hf1) as (u & w' & s & identity & Hrun & _ & _ & Hserved).
  rewrite Hd, HT, Hh in Hserved.
  destruct (served_attendAll name l1 pol res sess d T (home l) ts w' s identity Hserved Hf1 Hts) as (s2 & identity2 & Hserved2).
  assert (Hw2 : w2 = attendAll name ts w') by (unfold w2; by rewrite Hrun). rewrite Hw2. clear Hw2 w2. split_and!.
  - exists s2, identity2. by destruct Hserved2.
  - intros t Ht. destruct (served_attend _ _ _ _ _ _ _ _ _ _ _ t Hserved2 Hf1 Ht) as (u2 & _ & _ & Hu2 & Hback & _). by exists u2.
  - intros v Hco Hdv Hours Hfc k. rewrite <- Hforce in Hfc.
    destruct (served_ending _ _ _ _ _ _ _ _ _ _ _ v Hserved2 Hco Hdv Hours Hfc) as [Hend Hslot].
    unfold k. rewrite <- Hslot. by apply ending_within.
Qed.

End Steps.

(** ** Witnesses *)

Section Demo.

#[local] Existing Instance milliQuantity.
#[local] Existing Instance milliQuantity_laws.
#[local] Existing Instance listConditions.
#[local] Existing Instance listConditions_laws.
#[local] Existing Instance exactSelectors.
#[local] Existing Instance listControllerutil.
#[local] Existing Instance listControllerutil_laws.
#[local] Existing Instance fourAttempts.
#[local] Existing Instance fourAttempts_laws.

#[local] Instance listControllerutil_owners : OwnerReferenceLaws.
Proof.
  split. intros l m Hm. eexists. split; [reflexivity|]. cbn. intros o Ho Hc. apply list_elem_of_singleton in Ho as ->. done.
Qed.

(** On the hub: the world of Runtime.v, with a namespace, a quota of someone's and
    a stray label there already. *)
Definition takenNamespace : Namespace :=
  mkNamespace (emptyMeta <| m_Name := "team-a" |> <| m_UID := "ns-1" |> <| m_Labels := {["team" := "a"]} |>).

Definition namedLease : EnvironmentLease :=
  demoLease <| lease_Meta := demoLease.(lease_Meta) <| m_Finalizers := [FinalizerName] |> |>
    <| lease_Spec := demoLease.(lease_Spec) <| spec_Namespace := mkNamespaceSpec "" "team-a" {["tier" := "dev"]} ∅ |> |>.

Definition takenWorld : World :=
  put HubClient KQuota (mkResourceQuota (emptyMeta <| m_Name := ResourceQuotaName |> <| m_Namespace := "team-a" |>) {["pods" := 1]})
    (put HubClient KNamespace takenNamespace (put HubClient KLease namedLease (emptyWorld (100 * Second)))).

Definition namedResolved : Resolved := Eval vm_compute in
  match Resolve namedLease.(lease_Spec) None with Ok res => res | Err _ => mkResolved "" 0 0 0 false None None false end.

(** Remotely: a fresh lease for the cluster edge, whose identity has not been
    recorded yet. *)
Definition edgeTarget : ClusterTarget :=
  mkClusterTarget (emptyMeta <| m_Name := "edge" |> <| m_UID := "target-1" |>)
    (mkClusterTargetSpec (mkSecretKeySelector "edge" "kubelease" "") ∅ None None None None)
    (mkClusterTargetStatus "" "" None 0 []).

Definition edgeLease : EnvironmentLease :=
  demoLease <| lease_Spec := demoLease.(lease_Spec) <| spec_ClusterRef := Some "edge" |> |>.

Definition edgeSession : TargetSession := mkTargetSession "edge" (RemoteClient 4) false false.

Definition edgeWorld : World :=
  put (RemoteClient 4) KNamespace (mkNamespace (emptyMeta <| m_Name := "kube-system" |> <| m_UID := "edge-uid" |>))
    (put HubClient KTarget edgeTarget (put HubClient KLease edgeLease (emptyWorld (100 * Second)))).

Definition edgeResolved : Resolved := Eval vm_compute in
  match Resolve edgeLease.(lease_Spec) None with Ok res => res | Err _ => mkResolved "" 0 0 0 false None None false end.

Lemma namedLease_serviceable :
  serviceable demoReconciler "demo" takenWorld namedLease None namedResolved (placed LocalClusterName) localSession.
Proof.
  constructor.
  - vm_compute. reflexivity.
  - reflexivity.
  - reflexivity.
  - constructor.
  - vm_compute. reflexivity.
  - reflexivity.
  - vm_compute. reflexivity.
  - repeat constructor; discriminate.
  - vm_compute. reflexivity.
  - vm_compute. reflexivity.
  - reflexivity.
  - reflexivity.
  - split; [reflexivity|]. assert (Hns : takenWorld.(w_namespaces) !! slot (ses_Client localSession) (named (home namedLease)) = Some takenNamespace)
      by (vm_compute; reflexivity). rewrite Hns.
    split; [reflexivity|]. split_and!; [reflexivity|reflexivity|vm_compute; reflexivity|]. right. intros k Hk.
    cbn in Hk. apply lookup_singleton_Some in Hk as [_ Hk]. done.
  - split_and!; intros o Ho; vm_compute in Ho; [|done|done]. injection Ho as <-. split; [reflexivity|]. split; [reflexivity|].
    by intros x Hx%not_elem_of_nil.
Qed.

Lemma edgeLease_serviceable :
  serviceable demoReconciler "demo" edgeWorld edgeLease None edgeResolved (placed "edge") edgeSession.
Proof.
  constructor.
  - vm_compute. reflexivity.
  - reflexivity.
  - reflexivity.
  - constructor.
  - vm_compute. reflexivity.
  - reflexivity.
  - vm_compute. reflexivity.
  - repeat constructor; discriminate.
  - vm_compute. reflexivity.
  - vm_compute. reflexivity.
  - reflexivity.
  - eexists edgeTarget, (mkNamespace (emptyMeta <| m_Name := "kube-system" |> <| m_UID := "edge-uid" |>)).
    split_and!; [vm_compute; reflexivity|reflexivity|reflexivity|reflexivity|reflexivity|vm_compute; reflexivity|done|by left|done].
  - split; [reflexivity|]. vm_compute. exact I.
  - split_and!; intros o Ho; vm_compute in Ho; done.
Qed.

(** One reconcile takes the namespace that nobody managed and repairs the quota. *)
Lemma valid_lease_provisioned_witness :
  serviceable demoReconciler "demo" takenWorld namedLease None namedResolved (placed LocalClusterName) localSession /\
  exists u w' s identity, run (Reconcile demoReconciler "demo") takenWorld = ((requeueAfter u, None), w') /\
    comesBack takenWorld.(w_now) (deadlineFor namedLease namedResolved takenWorld.(w_now)) localSession u /\
    w'.(w_leases) !! slot HubClient (named "demo") = Some s /\
    active namedLease localSession identity (timesFor namedLease namedResolved takenWorld.(w_now)) "team-a" s /\
    stands demoReconciler s namedResolved localSession "team-a" w' /\ confined namedLease localSession "team-a" takenWorld w'.
Proof.
  split; [exact namedLease_serviceable|].
  apply (valid_lease_provisioned demoReconciler "demo" takenWorld namedLease None namedResolved (placed LocalClusterName) localSession
    namedLease_serviceable). apply list_elem_of_singleton. reflexivity.
Defined.

(** The fresh lease on edge: after the reconciles at 110 and 200 seconds one at 300
    seconds still asks to come back. *)
Lemma lease_life_witness :
  serviceable demoReconciler "demo" edgeWorld edgeLease None edgeResolved (placed "edge") edgeSession /\
  let w1 := (run (Reconcile demoReconciler "demo") edgeWorld).2 in
  let w2 := attendAll demoReconciler "demo" [110 * Second; 200 * Second] (run (Reconcile demoReconciler "demo") w1).2 in
  exists u, (attend demoReconciler "demo" (300 * Second) w2).1 = (requeueAfter u, None) /\
    comesBack (300 * Second) (deadlineFor edgeLease edgeResolved (100 * Second)) edgeSession u.
Proof.
  split; [exact edgeLease_serviceable|].
  destruct (lease_life demoReconciler "demo" edgeWorld edgeLease None edgeResolved (placed "edge") edgeSession edgeLease_serviceable) as [_ Hlife].
  destruct (Hlife [110 * Second; 200 * Second]) as (_ & Hnext & _); [repeat constructor; vm_compute; reflexivity|].
  apply (Hnext (300 * Second)). vm_compute. reflexivity.
Defined.

End Demo.
