(* ===== verification/TargetLife.v ===== *)
(** * The life of a cluster target

    Against the reference API server of [World], what reconciling a [ClusterTarget]
    gets done: it takes up its finalizer, then reports what it finds of its cluster
    ([healthOf]) and comes back; it stays Ready as long as the cluster behind it is
    the one it was first; and when it is deleted it goes as soon as no lease refers
    to it, whether or not the index of leases by cluster is registered.  [TargetController] says what no run ever does, this file what they get
    done. *)

From S2P Require Import Prelude GoStrings GoTime GoErrors Api LeaseConditions Concrete Programs Kube World.
From S2P Require Import Identity Placement LeaseCommon LeaseReconcile LeasePaths LeaseSafety Runtime TargetController ManagerSetup.
From S2P Require Import Convergence Provisioning.

Section Life.
Context `{!QuantityAPI} `{!ConditionsAPI} `{!ConditionsLaws} `{!SelectorAPI}.
Context `{!ControllerutilAPI} `{!ControllerutilLaws} `{!RetryAPI} `{!RetryLaws}.

(** The name of the target. *)
Variable name : string.

Implicit Types (t s : ClusterTarget) (w : World).

Notation tslot := (slot HubClient (named name)).

(** ** What there is to find *)

(** The client of the target, and the identity its cluster proves. *)
Definition clusterOf t : Client := RemoteClient (Z.of_nat (String.length t.(ct_Meta).(m_Name))).

Definition probed t w : option string :=
  match w.(w_namespaces) !! slot (clusterOf t) (named "kube-system") with
  | Some ns => if is_empty ns.(ns_Meta).(m_UID) then None else Some ns.(ns_Meta).(m_UID)
  | None => None
  end.

Inductive health := Disabled | Unproved | Drifted | Healthy (id : string).

Definition healthOf t w : health :=
  if negb (IsEnabled t.(ct_Spec)) then Disabled
  else
    match probed t w with
    | None => Unproved
    | Some live =>
        let sticky := t.(ct_Status).(tst_RemoteIdentity) in
        if is_empty sticky || String.eqb sticky live then Healthy live else Drifted
    end.

(** The leases of the hub, and those that refer to the target. *)
Definition hubLeases w : list EnvironmentLease := visible HubClient KLease w.

(** The indexes of the hub's cache are among those the lease controller registers:
    with all of them a query by field is answered, with none it fails and the
    controller lists everything. *)
Definition indexesRegistered w : Prop := forall idx, idx ∈ w.(w_indexes) -> idx ∈ fieldIndexes.

Definition referenced w : Prop := exists l, l ∈ hubLeases w /\ l.(lease_Spec).(spec_ClusterRef) = Some name.

Definition isHealthy (h : health) : bool := match h with Healthy _ => true | _ => false end.

(** What a health check leaves of the target. *)
Record reported (h : health) t w t' : Prop := {
  re_meta : t'.(ct_Meta) = t.(ct_Meta);
  re_spec : t'.(ct_Spec) = t.(ct_Spec);
  re_observed : t'.(ct_Status).(tst_ObservedGeneration) = t.(ct_Meta).(m_Generation);
  re_ready : isReady t' = isHealthy h;
  re_identity : t'.(ct_Status).(tst_RemoteIdentity) =
    match h with Healthy id => id | _ => t.(ct_Status).(tst_RemoteIdentity) end;
  re_capacity : isHealthy h = true -> is_Some t'.(ct_Status).(tst_Capacity)
}.

(** When it comes back. *)
Definition comesBack (h : health) : duration :=
  match h with Healthy _ | Disabled => clusterTargetHealthAfter | Unproved | Drifted => clusterTargetBackoff end.

(** The target as the hub has it. *)
Definition stands t w : Prop :=
  w.(w_targets) !! tslot = Some t /\ ObjectKeyFromMeta t.(ct_Meta) = named name.

Definition putTarget t w : World := putAt HubClient KTarget t w.

(** ** Calls *)

Lemma run_StatusUpdateTarget t s w :
  w.(w_targets) !! slot HubClient (ObjectKeyFromMeta t.(ct_Meta)) = Some s ->
  run (cl_StatusUpdate HubClient KTarget t) w =
    (Ok (s <| ct_Status := t.(ct_Status) |>), store_object HubClient KTarget (s <| ct_Status := t.(ct_Status) |>) w).
Proof.
  intros Hs. unfold cl_StatusUpdate. rewrite run_call. cbn [world_handler]. unfold update_object.
  change (objects KTarget w !! _) with (w.(w_targets) !! slot HubClient (ObjectKeyFromMeta t.(ct_Meta))). by rewrite Hs.
Qed.

Lemma run_UpdateTarget t s w :
  w.(w_targets) !! slot HubClient (ObjectKeyFromMeta t.(ct_Meta)) = Some s ->
  run (cl_Update HubClient KTarget t) w =
    (Ok (t <| ct_Status := s.(ct_Status) |>), store_object HubClient KTarget (t <| ct_Status := s.(ct_Status) |>) w).
Proof.
  intros Hs. unfold cl_Update. rewrite run_call. cbn [world_handler]. unfold update_object.
  change (objects KTarget w !! _) with (w.(w_targets) !! slot HubClient (ObjectKeyFromMeta t.(ct_Meta))). by rewrite Hs.
Qed.

(** A status with the stored metadata and specification is stored as it is. *)
Lemma run_updateStatus t t' w :
  stands t w -> t.(ct_Meta).(m_DeletionTimestamp) = None ->
  t'.(ct_Meta) = t.(ct_Meta) -> t'.(ct_Spec) = t.(ct_Spec) ->
  run (updateStatus t') w = (Ok t', putTarget t' w).
Proof.
  intros [Ht Hk] Hd Hm Hs. unfold updateStatus. rewrite (run_StatusUpdateTarget _ t) by by rewrite Hm, Hk.
  assert (E : t <| ct_Status := t'.(ct_Status) |> = t') by (destruct t, t'; cbn in *; by subst).
  rewrite E, store_live; [done|]. cbn. by rewrite Hm.
Qed.

Lemma run_tryUpdateStatus t t' w :
  stands t w -> t.(ct_Meta).(m_DeletionTimestamp) = None ->
  t'.(ct_Meta) = t.(ct_Meta) -> t'.(ct_Spec) = t.(ct_Spec) ->
  run (tryUpdateStatus t') w = (t', putTarget t' w).
Proof. intros. unfold tryUpdateStatus. rewrite run_seq, (run_updateStatus t) by done. done. Qed.

Lemma run_refreshMetrics w : run refreshClusterTargetMetrics w = (tt, w).
Proof. apply run_quiet. unfold refreshClusterTargetMetrics, cl_List. every_still. Qed.

Lemma run_refreshCapacity t w :
  exists cap, run (refreshCapacity t) w = (t <|* tst_Capacity := Some cap |>, w).
Proof.
  unfold refreshCapacity, CountActiveLeases, cl_List. cbv zeta. rewrite run_seq, run_call. cbn [world_handler fst snd].
  destruct (by_index _ _ _ _ _) as [items|err]; rewrite !run_seq; [|rewrite run_call]; by eexists.
Qed.

Lemma run_Probe c w :
  run (ProbeRemoteIdentity c) w =
    (match w.(w_namespaces) !! slot c (named "kube-system") with
     | Some ns => if is_empty ns.(ns_Meta).(m_UID) then Err (ErrorString "kube-system UID is empty") else Ok ns.(ns_Meta).(m_UID)
     | None => Err (ErrorWrap "probe remote identity (kube-system)" notFound)
     end, w).
Proof.
  unfold ProbeRemoteIdentity. rewrite run_seq, run_GetNamespace. cbn [fst snd].
  destruct (w.(w_namespaces) !! _) as [ns|]; [|done]. by destruct (is_empty _).
Qed.

Lemma probed_run t w :
  match probed t w with
  | Some id => run (ProbeRemoteIdentity (clusterOf t)) w = (Ok id, w)
  | None => exists err, run (ProbeRemoteIdentity (clusterOf t)) w = (Err err, w)
  end.
Proof.
  rewrite run_Probe. unfold probed. destruct (w.(w_namespaces) !! _) as [ns|]; [|by eexists].
  destruct (is_empty _); [by eexists|done].
Qed.

(** ** One health check *)

Lemma isReady_degraded t status reason m :
  isReady (setTargetCondition t ClusterTargetConditionDegraded status reason m) = isReady t.
Proof. by apply setTargetCondition_ready_other. Qed.

(** A check that does not pass reports that and nothing else. *)
Lemma reported_bad h t t' w :
  isHealthy h = false -> t'.(ct_Meta) = t.(ct_Meta) -> t'.(ct_Spec) = t.(ct_Spec) ->
  t'.(ct_Status).(tst_RemoteIdentity) = t.(ct_Status).(tst_RemoteIdentity) -> isReady t' = false ->
  reported h t w (observeTarget t').
Proof.
  intros Hh Hm Hs Hi Hr. split; cbn; try done.
  - by rewrite Hm.
  - by rewrite Hh.
  - rewrite Hi. by destruct h.
  - by rewrite Hh.
Qed.

Lemma run_unhealthy h t auth reason m hl w :
  stands t w -> t.(ct_Meta).(m_DeletionTimestamp) = None -> isHealthy h = false ->
  exists t', run (unhealthy t auth reason m hl) w = ((requeueAfter clusterTargetBackoff, None), putTarget t' w) /\
    reported h t w t'.
Proof.
  intros Ht Hd Hh. eexists (observeTarget (setTargetConditions t false auth false reason m)). split.
  - unfold unhealthy. cbv zeta. rewrite run_seq, (run_tryUpdateStatus t) by done. by destruct hl.
  - apply reported_bad; try done. apply isReady_setTargetConditions.
Qed.

Lemma run_identityDrift t live w :
  stands t w -> t.(ct_Meta).(m_DeletionTimestamp) = None ->
  exists t', run (identityDrift t live) w = ((requeueAfter clusterTargetBackoff, None), putTarget t' w) /\
    reported Drifted t w t'.
Proof.
  intros Ht Hd. eexists (observeTarget (setTargetCondition (setTargetConditions t false true true ReasonIdentityDrift _)
    ClusterTargetConditionDegraded true ReasonIdentityDrift _)). split.
  - unfold identityDrift. cbv zeta. rewrite run_seq, (run_tryUpdateStatus t) by done. done.
  - apply reported_bad; try done. rewrite isReady_degraded. apply isReady_setTargetConditions.
Qed.

Lemma run_healthy t0 t id ver w :
  stands t0 w -> t0.(ct_Meta).(m_DeletionTimestamp) = None ->
  t.(ct_Meta) = t0.(ct_Meta) -> t.(ct_Spec) = t0.(ct_Spec) -> t.(ct_Status).(tst_RemoteIdentity) = id ->
  exists t', run (healthy t ver) w = ((requeueAfter clusterTargetHealthAfter, None), putTarget t' w) /\
    reported (Healthy id) t0 w t'.
Proof.
  intros Ht Hd Hm Hs Hi. unfold healthy. cbv zeta.
  match goal with |- context [bind (refreshCapacity ?x) _] => destruct (run_refreshCapacity x w) as [cap Hcap] end. eexists. split.
  - rewrite run_seq, Hcap. cbn [fst snd]. rewrite run_seq, (run_updateStatus t0); [reflexivity|done..].
  - split; cbn; try done.
    + by rewrite Hm.
    + match goal with |- isReady ?x = true =>
        change (isReady x) with (isReady (setTargetCondition (setTargetConditions (t <|* tst_KubernetesVersion := ver |>) true true true
          ReasonClusterReachable "Remote API reachable") ClusterTargetConditionDegraded false ReasonClusterReachable "Healthy")) end.
      rewrite isReady_degraded. apply isReady_setTargetConditions.
Qed.

Lemma run_checkHealth t w :
  stands t w -> t.(ct_Meta).(m_DeletionTimestamp) = None ->
  exists t', run (checkHealth t) w = ((requeueAfter (comesBack (healthOf t w)), None), putTarget t' w) /\
    reported (healthOf t w) t w t'.
Proof.
  intros Ht Hd. unfold checkHealth, healthOf. cbv zeta. destruct (IsEnabled t.(ct_Spec)); cbn [negb].
  2: { eexists (observeTarget (setTargetConditions t false false false _ _)). split.
       - rewrite run_seq, (run_updateStatus t) by done. done.
       - apply reported_bad; try done. apply isReady_setTargetConditions. }
  rewrite run_seq, run_call. cbn [world_handler fst snd]. rewrite run_seq, run_call. cbn [world_handler fst snd].
  rewrite run_seq, run_call. cbn [world_handler fst snd]. fold (clusterOf t). rewrite run_seq.
  pose proof (probed_run t w) as Hp. destruct (probed t w) as [live|].
  2: { destruct Hp as [err ->]. cbn [fst snd comesBack]. by apply run_unhealthy. }
  rewrite Hp. cbn [fst snd]. destruct (is_empty t.(ct_Status).(tst_RemoteIdentity)) eqn:Hst; cbn [orb].
  { by apply run_healthy. }
  destruct (String.eqb_spec t.(ct_Status).(tst_RemoteIdentity) live) as [Heq|]; cbn [negb].
  - by apply run_healthy.
  - by apply run_identityDrift.
Qed.

(** ** One reconcile *)

Lemma run_readTarget {A} t (f : result ClusterTarget -> prog kube A) w :
  stands t w -> run (bind (cl_Get HubClient KTarget (named name)) f) w = run (f (Ok t)) w.
Proof. intros [Ht _]. rewrite run_seq, run_GetTarget. cbn [fst snd]. by rewrite Ht. Qed.

Lemma run_check t w :
  stands t w -> t.(ct_Meta).(m_DeletionTimestamp) = None -> ClusterTargetFinalizer ∈ t.(ct_Meta).(m_Finalizers) ->
  exists t', run (TargetReconcile name) w = ((requeueAfter (comesBack (healthOf t w)), None), putTarget t' w) /\
    reported (healthOf t w) t w t'.
Proof.
  intros Ht Hd Hf. destruct (run_checkHealth t w Ht Hd) as (t' & Hr & Hrep). exists t'. split; [|done].
  unfold TargetReconcile. rewrite (run_readTarget t) by done. cbv zeta. rewrite Hd. cbn [IsZeroPtr negb].
  rewrite (proj2 (ContainsFinalizer_spec _ _) Hf). cbn [negb]. unfold reconcileHealth.
  rewrite run_seq, Hr. cbn [fst snd]. by rewrite run_seq, run_refreshMetrics.
Qed.

Lemma run_adopt t w :
  stands t w -> t.(ct_Meta).(m_DeletionTimestamp) = None -> ClusterTargetFinalizer ∉ t.(ct_Meta).(m_Finalizers) ->
  run (TargetReconcile name) w =
    ((mkCtrlResult true 0, None),
     putTarget (t <| ct_Meta := t.(ct_Meta) <| m_Finalizers := AddFinalizer t.(ct_Meta).(m_Finalizers) ClusterTargetFinalizer |> |>) w).
Proof.
  intros Ht Hd Hf. unfold TargetReconcile. rewrite (run_readTarget t) by done. cbv zeta. rewrite Hd. cbn [IsZeroPtr negb].
  destruct (ContainsFinalizer _ _) eqn:Hc; [by apply ContainsFinalizer_spec in Hc|]. cbn [negb]. destruct Ht as [Ht Hk].
  rewrite run_seq, (run_UpdateTarget _ t) by (cbn; unfold ObjectKeyFromMeta in *; by rewrite <- Hk in Ht). cbn [fst snd].
  rewrite store_live by done. by destruct t.
Qed.

(** ** Deletion *)

Lemma store_kept c k (o : Obj k) w : (meta_of k o).(m_Finalizers) <> [] -> store_object c k o w = putAt c k o w.
Proof. intros Hf. unfold store_object, putAt, keyOf. destruct (m_DeletionTimestamp _); [|done]. by destruct (m_Finalizers _). Qed.

(** A query for the leases that refer to the target, if it is answered. *)
Lemma by_index_referencing w items :
  name <> "" -> indexesRegistered w -> by_index HubClient KLease indexClusterRefName name w = Ok items ->
  forall l, l ∈ items <-> l ∈ hubLeases w /\ l.(lease_Spec).(spec_ClusterRef) = Some name.
Proof.
  intros Hn Hreg Hq l. unfold by_index in Hq. destruct (find _ _) as [[i f]|] eqn:Hf; [|done]. injection Hq as <-.
  apply find_some in Hf as [Hin Hi]. apply String.eqb_eq in Hi. cbn in Hi. subst i.
  apply list_elem_of_In, Hreg in Hin. assert (f = indexClusterRefOf) as ->.
  { eapply fieldIndexes_name; [exact Hin|right; right; left]. }
  rewrite list_elem_of_filter. unfold indexClusterRefOf, hubLeases. rewrite elem_of_index. unfold refName.
  destruct (spec_ClusterRef _) as [ref|]; cbn; naive_solver.
Qed.

Lemma length_pos {A} (l : list A) : 0 < Z.of_nat (length l) <-> exists x, x ∈ l.
Proof.
  destruct l as [|x l]; cbn; [|split; [intros _; exists x; left|lia]].
  split; [lia|by intros (x & ?%elem_of_nil)].
Qed.

(** With the index and without it, the count is positive exactly when a lease of
    the hub refers to the target. *)
Lemma run_countReferencing w :
  name <> "" -> indexesRegistered w ->
  exists n, run (countReferencingLeases name) w = (Ok n, w) /\ (0 < n <-> referenced w).
Proof.
  intros Hn Hreg. unfold countReferencingLeases, cl_List. rewrite run_seq, run_call. cbn [world_handler fst snd].
  destruct (by_index _ _ _ _ _) as [items|err] eqn:Hq.
  - eexists. split; [done|]. rewrite length_pos. unfold referenced.
    by setoid_rewrite (by_index_referencing w items Hn Hreg Hq).
  - eexists. split; [by rewrite run_seq, run_call|].
    rewrite length_pos. setoid_rewrite list_elem_of_filter. unfold referenced, hubLeases. naive_solver.
Qed.

(** The target is being deleted, and only the controller holds it. *)
Record leaving t w : Prop := {
  lv_named : name <> "";
  lv_indexes : indexesRegistered w;
  lv_stands : stands t w;
  lv_deleted : IsZeroPtr t.(ct_Meta).(m_DeletionTimestamp) = false;
  lv_finalizers : t.(ct_Meta).(m_Finalizers) = [ClusterTargetFinalizer]
}.

Lemma leaving_name t w : leaving t w -> t.(ct_Meta).(m_Name) = name.
Proof. intros [_ _ [_ Hk] _ _]. by injection Hk. Qed.

Lemma run_leaving t w :
  leaving t w ->
  run (TargetReconcile name) w = run (targetReconcileDelete t) w.
Proof.
  intros [_ _ Ht Hd _]. unfold TargetReconcile. rewrite (run_readTarget t) by done. cbv zeta. by rewrite Hd.
Qed.

Lemma run_held t w :
  leaving t w -> referenced w ->
  exists t', run (TargetReconcile name) w = ((requeueAfter clusterTargetBackoff, None), putTarget t' w) /\
    t'.(ct_Meta) = t.(ct_Meta) /\ t'.(ct_Spec) = t.(ct_Spec) /\ isReady t' = false.
Proof.
  intros Hl Hr. rewrite (run_leaving t) by done. pose proof (leaving_name _ _ Hl) as Hn. destruct Hl as [Hne Hreg [Ht Hk] _ Hf].
  unfold targetReconcileDelete. rewrite Hf, (proj2 (ContainsFinalizer_spec _ _)) by left. cbn [negb].
  destruct (run_countReferencing w Hne Hreg) as (n & Hc & Hpos). rewrite run_seq, Hn, Hc. cbn [fst snd].
  rewrite (proj2 (Z.ltb_lt 0 n)) by by apply Hpos. cbv zeta.
  eexists (observeTarget (setTargetCondition t ClusterTargetConditionReady false ReasonTargetHasActiveLeases _)). split.
  - unfold tryUpdateStatus, updateStatus. rewrite !run_seq, (run_StatusUpdateTarget _ t) by (cbn; by rewrite Hk). cbn [fst snd].
    rewrite store_kept by (cbn; by rewrite Hf). by destruct t.
  - split_and!; [done|done|]. apply setTargetCondition_ready.
Qed.

Lemma run_released t w :
  leaving t w -> ~ referenced w ->
  exists w', run (TargetReconcile name) w = ((noResult, None), w') /\ w'.(w_targets) !! tslot = None.
Proof.
  intros Hl Hr. rewrite (run_leaving t) by done. pose proof (leaving_name _ _ Hl) as Hn. destruct Hl as [Hne Hreg [Ht Hk] Hd Hf].
  unfold targetReconcileDelete. rewrite Hf, (proj2 (ContainsFinalizer_spec _ _)) by left. cbn [negb].
  destruct (run_countReferencing w Hne Hreg) as (n & Hc & Hpos). rewrite run_seq, Hn, Hc. cbn [fst snd].
  destruct (0 <? n) eqn:Hlt; [by apply Z.ltb_lt, Hpos in Hlt|].
  rewrite run_seq, run_call. cbn [world_handler fst snd]. rewrite run_seq, RetryOnConflict_spec.
  assert (Hatt : run (removeTargetFinalizerAttempt t) w =
    ((tt, None), store_object HubClient KTarget
       (t <| ct_Meta := t.(ct_Meta) <| m_Finalizers := RemoveFinalizer [ClusterTargetFinalizer] ClusterTargetFinalizer |> |>) w)).
  { unfold removeTargetFinalizerAttempt. rewrite Hk, run_seq, run_GetTarget. cbn [fst snd]. rewrite Ht. cbv zeta.
    rewrite Hf, (proj2 (ContainsFinalizer_spec _ _)) by left. cbn [negb].
    rewrite run_seq, (run_UpdateTarget _ t); [by destruct t|]. cbn. change (w.(w_targets) !! slot HubClient (ObjectKeyFromMeta t.(ct_Meta)) = Some t). by rewrite Hk. }
  eexists. split; [destruct retry_steps; cbn [retry]; rewrite run_seq, Hatt; reflexivity|].
  assert (Hnil : RemoveFinalizer [ClusterTargetFinalizer] ClusterTargetFinalizer = []).
  { apply elem_of_nil_inv. intros x [->%list_elem_of_singleton ?]%RemoveFinalizer_spec. done. }
  rewrite Hnil. unfold store_object. cbn [meta_of].
  destruct (m_DeletionTimestamp t.(ct_Meta)) as [d|] eqn:Hdt; [|done]. 
  change (ObjectKeyFromMeta _) with (ObjectKeyFromMeta t.(ct_Meta)). rewrite Hk. cbn. rewrite Hdt. cbn. by rewrite lookup_delete_eq.
Qed.

(** ** From reconcile to reconcile *)

(** Between two reconciles anything may happen, but to the target and to the
    kube-system namespaces, which carry the identity of their clusters. *)
Definition elsewhere w w' : Prop :=
  w'.(w_targets) !! tslot = w.(w_targets) !! tslot /\
  forall c, w'.(w_namespaces) !! slot c (named "kube-system") = w.(w_namespaces) !! slot c (named "kube-system").

Definition turn w w' : Prop := elsewhere (run (TargetReconcile name) w).2 w'.

(** An enabled target; [proves] is the identity its cluster proves, [sticky] the one
    that is recorded. *)
Record enabled (sticky proves : string) t w : Prop := {
  eb_stands : stands t w;
  eb_live : t.(ct_Meta).(m_DeletionTimestamp) = None;
  eb_enabled : IsEnabled t.(ct_Spec) = true;
  eb_proves : probed t w = Some proves;
  eb_sticky : t.(ct_Status).(tst_RemoteIdentity) = sticky
}.

Definition adopted t : Prop := ClusterTargetFinalizer ∈ t.(ct_Meta).(m_Finalizers).

Lemma stands_put t w : ObjectKeyFromMeta t.(ct_Meta) = named name -> stands t (putTarget t w).
Proof. intros Hk. split; [|done]. rewrite <- Hk. apply (putAt_lookup HubClient KTarget). Qed.

Lemma elsewhere_stands t w w' : elsewhere w w' -> stands t w -> stands t w'.
Proof. intros [He _] [Ht Hk]. split; [by rewrite He|done]. Qed.

Lemma elsewhere_probed t w w' : elsewhere w w' -> probed t w' = probed t w.
Proof. intros [_ He]. unfold probed. by rewrite He. Qed.

(** Writing the target does not change what clusters prove. *)
Lemma enabled_put sticky proves sticky' t t' w w' :
  enabled sticky proves t w -> t'.(ct_Spec) = t.(ct_Spec) ->
  ObjectKeyFromMeta t'.(ct_Meta) = ObjectKeyFromMeta t.(ct_Meta) -> t'.(ct_Meta).(m_DeletionTimestamp) = None ->
  t'.(ct_Status).(tst_RemoteIdentity) = sticky' -> elsewhere (putTarget t' w) w' -> enabled sticky' proves t' w'.
Proof.
  intros [[Ht Hk] Hd He Hp Hs] Hsp Hkey Hd' Hst Hel. split; [|done|by rewrite Hsp| |done].
  - eapply elsewhere_stands; [exact Hel|]. apply stands_put. by rewrite Hkey.
  - rewrite (elsewhere_probed _ _ _ Hel). unfold probed, clusterOf in *. by injection Hkey as _ ->.
Qed.

(** The cluster is the one it was first, or its first one. *)
Lemma healthOf_steady sticky proves t w :
  enabled sticky proves t w -> sticky = "" \/ sticky = proves -> healthOf t w = Healthy proves.
Proof.
  intros [_ _ He Hp Hs] Hst. unfold healthOf. rewrite He, Hp. cbn [negb]. cbv zeta. rewrite Hs.
  destruct Hst as [->| ->]; [done|]. by rewrite String.eqb_refl, orb_true_r.
Qed.

Lemma healthOf_swapped sticky proves t w :
  enabled sticky proves t w -> sticky <> "" -> sticky <> proves -> healthOf t w = Drifted.
Proof.
  intros [_ _ He Hp Hs] Hne Hd. unfold healthOf. rewrite He, Hp. cbn [negb]. cbv zeta. rewrite Hs.
  apply is_empty_false in Hne as ->. cbn. by destruct (String.eqb_spec sticky proves).
Qed.

(** A turn of an adopted target. *)
Lemma turn_check sticky proves t w w' :
  enabled sticky proves t w -> adopted t -> turn w w' ->
  exists t', enabled t'.(ct_Status).(tst_RemoteIdentity) proves t' w' /\ adopted t' /\ reported (healthOf t w) t w t'.
Proof.
  intros He Ha Ht. pose proof He as [Hst Hd _ _ _]. destruct (run_check t w Hst Hd Ha) as (t' & Hr & Hrep).
  exists t'. unfold turn in Ht. rewrite Hr in Ht. pose proof Hrep as [Hm Hs _ _ _ _].
  split_and!; [eapply (enabled_put sticky proves); [exact He|exact Hs|by rewrite Hm|by rewrite Hm|done|exact Ht]|unfold adopted; by rewrite Hm|done].
Qed.

(** The first turn at the latest adopts the target. *)
Lemma turn_adopts sticky proves t w w' :
  enabled sticky proves t w -> ~ adopted t -> turn w w' -> exists t', enabled sticky proves t' w' /\ adopted t'.
Proof.
  intros He Ha Ht. pose proof He as [Hst Hd _ _ Hs]. unfold turn in Ht. rewrite (run_adopt t w Hst Hd Ha) in Ht.
  eexists. split; [eapply (enabled_put sticky proves); [exact He|..|exact Ht]; done|]. unfold adopted. cbn. apply AddFinalizer_spec. by right.
Qed.

(** Ready under an identity. *)
Definition readyAs (id : string) w : Prop :=
  exists t, enabled id id t w /\ adopted t /\ isReady t = true /\
    t.(ct_Status).(tst_ObservedGeneration) = t.(ct_Meta).(m_Generation).

Lemma turn_ready sticky id t w w' :
  enabled sticky id t w -> adopted t -> sticky = "" \/ sticky = id -> turn w w' -> readyAs id w'.
Proof.
  intros He Ha Hs Ht. destruct (turn_check _ _ _ _ _ He Ha Ht) as (t' & He' & Ha' & Hrep).
  rewrite (healthOf_steady _ _ _ _ He Hs) in Hrep. destruct Hrep as [Hm _ Hob Hr Hi _]. exists t'.
  rewrite Hi in He'. split_and!; [done|done|done|by rewrite Hm].
Qed.

Lemma ready_turn id w w' : readyAs id w -> turn w w' -> readyAs id w'.
Proof. intros (t & He & Ha & _) Ht. eapply turn_ready; [done|done|by right|done]. Qed.

(** Not Ready, with the identity that was recorded. *)
Definition refused (sticky proves : string) w : Prop :=
  exists t, enabled sticky proves t w /\ adopted t /\ isReady t = false.

Lemma turn_refused sticky proves t w w' :
  sticky <> "" -> sticky <> proves -> enabled sticky proves t w -> adopted t -> turn w w' -> refused sticky proves w'.
Proof.
  intros Hne Hd He Ha Ht. destruct (turn_check _ _ _ _ _ He Ha Ht) as (t' & He' & Ha' & Hrep).
  rewrite (healthOf_swapped _ _ _ _ He Hne Hd) in Hrep. destruct Hrep as [_ _ _ Hr Hi _]. exists t'.
  by rewrite Hi, (eb_sticky _ _ _ _ He) in He'.
Qed.

(** What an adopted target has after each turn, every target has from the second
    turn on. *)
Lemma from_second_turn (P : World -> Prop) sticky proves n t w w' :
  (forall t w w', enabled sticky proves t w -> adopted t -> turn w w' -> P w') -> (forall w w', P w -> turn w w' -> P w') ->
  enabled sticky proves t w -> (2 <= n)%nat -> nsteps turn n w w' -> P w'.
Proof.
  intros Hone Hkeep He Hn Hsteps. assert (Hrest : forall n w w', nsteps turn n w w' -> P w -> P w').
  { intros m w0 w0' Hm. induction Hm; eauto. }
  destruct n as [|[|n]]; [lia|lia|]. inversion Hsteps as [|? ? w1 ? Ht1 Hsteps1]; subst.
  inversion Hsteps1 as [|? ? w2 ? Ht2 Hsteps2]; subst. apply (Hrest _ _ _ Hsteps2).
  destruct (decide (adopted t)) as [Ha|Ha]; [by eapply Hkeep, Ht2; eapply Hone|].
  destruct (turn_adopts _ _ _ _ _ He Ha Ht1) as (t1 & He1 & Ha1). by eapply Hone.
Qed.

Lemma ready_comes_back id w :
  readyAs id w -> (run (TargetReconcile name) w).1 = (requeueAfter clusterTargetHealthAfter, None).
Proof.
  intros (t & He & Ha & _). pose proof He as [Hst Hd _ _ _]. destruct (run_check t w Hst Hd Ha) as (t' & -> & _).
  by rewrite (healthOf_steady _ _ _ _ He) by by right.
Qed.

(** Claim C8.  What becomes of a target.  (1) An enabled target whose cluster proves
    the identity that is recorded, or the first one, is Ready under it after two
    reconciles, and after every later one, and each asks to come back in five
    minutes, whatever happens to leases and all else in between.  (2) A target whose
    cluster proves another identity than the recorded one is not Ready after any
    reconcile from the second on, and keeps the recorded identity, however often it
    is tried.  (3) A target that is deleted stays, is told why and looked at again
    in thirty seconds, while a lease refers to it; when none does it is gone after
    one reconcile, which asks for no other.  This holds whether the hub's cache
    answers the query by field, through the index as the lease controller registers
    it, or has no such index and everything is listed. *)
Theorem target_life (sticky proves : string) t w :
  (forall n w', enabled sticky proves t w -> sticky = "" \/ sticky = proves -> (2 <= n)%nat -> nsteps turn n w w' ->
     readyAs proves w' /\ (run (TargetReconcile name) w').1 = (requeueAfter clusterTargetHealthAfter, None)) /\
  (forall n w', enabled sticky proves t w -> sticky <> "" -> sticky <> proves -> (2 <= n)%nat -> nsteps turn n w w' ->
     exists t', enabled sticky proves t' w' /\ isReady t' = false) /\
  (leaving t w ->
     (referenced w -> exists t', (run (TargetReconcile name) w).1 = (requeueAfter clusterTargetBackoff, None) /\
        (run (TargetReconcile name) w).2.(w_targets) !! tslot = Some t' /\ t'.(ct_Meta) = t.(ct_Meta) /\ isReady t' = false) /\
     (~ referenced w -> (run (TargetReconcile name) w).1 = (noResult, None) /\
        (run (TargetReconcile name) w).2.(w_targets) !! tslot = None)).
Proof.
  split_and!.
  - intros n w' He Hs Hn Hsteps. enough (readyAs proves w') by (split; [done|by eapply ready_comes_back]).
    eapply (from_second_turn (readyAs proves)); [|by apply ready_turn|exact He|exact Hn|exact Hsteps].
    intros t0 w0 w0' He0 Ha0. by eapply turn_ready.
  - intros n w' He Hne Hd Hn Hsteps. enough (refused sticky proves w') as (t' & ? & _ & ?) by by exists t'.
    eapply (from_second_turn (refused sticky proves)); [| |exact He|exact Hn|exact Hsteps].
    + intros t0 w0 w0'. by apply turn_refused.
    + intros w0 w0' (t0 & He0 & Ha0 & _). by eapply turn_refused.
  - intros Hl. split.
    + intros Hr. destruct (run_held t w Hl Hr) as (t' & -> & Hm & _ & Hrd). exists t'. cbn [fst snd]. split_and!; [done| |done|done].
      apply stands_put. rewrite Hm. by destruct (lv_stands _ _ Hl).
    + intros Hr. by destruct (run_released t w Hl Hr) as (w' & -> & Hw').
Qed.

End Life.

(** ** Witness *)

Section Demo.

#[local] Existing Instance milliQuantity.
#[local] Existing Instance listConditions.
#[local] Existing Instance listControllerutil.
#[local] Existing Instance fourAttempts.
#[local] Existing Instance listControllerutil_laws.
#[local] Existing Instance fourAttempts_laws.

(** The target of TargetController.v as it is created, without the finalizer. *)
Definition newTarget : ClusterTarget :=
  TargetController.edgeTarget <| ct_Meta := TargetController.edgeTarget.(ct_Meta) <| m_Finalizers := [] |> |>.

Definition newWorld : World := put (RemoteClient 4) KNamespace kubeSystem (put HubClient KTarget newTarget (emptyWorld 0)).

Definition turned (w : World) : World := (run (TargetReconcile "edge") w).2.

End Demo.

(** The target is deleted while a lease refers to it, with the index the deployed
    manager has and without; and again when the lease refers to another target. *)
Definition leavingTarget : ClusterTarget :=
  TargetController.edgeTarget <| ct_Meta := TargetController.edgeTarget.(ct_Meta) <| m_DeletionTimestamp := Some Second |> |>.

Definition refersTo (target : string) : @EnvironmentLease milliQuantity :=
  sampleLease <| lease_Spec := sampleLease.(lease_Spec) <| spec_ClusterRef := Some target |> |>.

Definition leavingWorld (indexes : list (string * (@EnvironmentLease milliQuantity -> list string))) (target : string) : @World milliQuantity :=
  (@put milliQuantity HubClient KLease (refersTo target) (@put milliQuantity HubClient KTarget leavingTarget (@emptyWorld milliQuantity 0)))
    <| w_indexes := indexes |>.

Definition leavingRun indexes target : (CtrlResult * option error) * @World milliQuantity :=
  @run milliQuantity _ (@TargetReconcile milliQuantity listConditions listControllerutil fourAttempts "edge") (leavingWorld indexes target).

Lemma leaving_leases indexes target : hubLeases (leavingWorld indexes target) = [refersTo target].
Proof. vm_compute. reflexivity. Qed.

Lemma leaving_demo indexes target :
  indexes = [] \/ indexes = fieldIndexes -> @leaving milliQuantity "edge" leavingTarget (leavingWorld indexes target).
Proof.
  intros Hi. split; [done| |split; vm_compute; reflexivity|vm_compute; reflexivity..].
  intros idx Hin. destruct Hi as [->| ->]; [by apply elem_of_nil in Hin|exact Hin].
Qed.

Lemma target_life_witness :
  @readyAs milliQuantity listConditions "edge" "uid-b" (turned (turned newWorld)) /\
  (@run milliQuantity _ (@TargetReconcile milliQuantity listConditions listControllerutil fourAttempts "edge") (turned (turned newWorld))).1 =
    (requeueAfter clusterTargetHealthAfter, None) /\
  (forall indexes, indexes = [] \/ indexes = fieldIndexes ->
     (leavingRun indexes "edge").1 = (requeueAfter clusterTargetBackoff, None) /\
     (leavingRun indexes "other").2.(w_targets) !! slot HubClient (named "edge") = None).
Proof.
  assert (He : @enabled milliQuantity "edge" "" "uid-b" newTarget newWorld) by (split; [split; vm_compute; reflexivity|reflexivity..]).
  assert (Ht : forall w, @turn milliQuantity listConditions listControllerutil fourAttempts "edge" w (turned w)) by (intros w; by split).
  pose proof (fun t w => @target_life milliQuantity listConditions listConditions_laws listControllerutil listControllerutil_laws
    fourAttempts fourAttempts_laws "edge" "" "uid-b" t w) as Hlife.
  destruct (proj1 (Hlife newTarget newWorld) 2%nat (turned (turned newWorld))) as [H1 H2]; [exact He|by left|lia| |].
  { eapply nsteps_l; [apply Ht|]. eapply nsteps_l; [apply Ht|]. constructor. }
  split; [exact H1|]. split; [exact H2|]. intros indexes Hi. split.
  - destruct (proj2 (proj2 (Hlife leavingTarget (leavingWorld indexes "edge"))) (leaving_demo _ _ Hi)) as [Hheld _].
    destruct Hheld as (t' & Hres & _); [|exact Hres]. exists (refersTo "edge").
    split; [rewrite leaving_leases; left|reflexivity].
  - apply (proj2 (proj2 (Hlife leavingTarget (leavingWorld indexes "other"))) (leaving_demo _ _ Hi)).
    intros (l & Hl & Hr). rewrite leaving_leases in Hl. apply list_elem_of_singleton in Hl as ->. discriminate Hr.
Defined.
