(* ===== verification/CliTree.v ===== *)
(** * The command tree of the client (internal/cli/root.go, new...Command)

    The commands as they are declared to cobra, with their names, arguments and
    flags, and the process around them: cobra chooses a command, the kubeconfig
    gives a client, and [runCommand] does the rest.  Cobra and clientcmd are
    parameters. *)

From S2P Require Import Prelude GoStrings GoTime GoErrors Api Concrete Policy LeaseExpiration.
From S2P Require Import LeaseConditions Programs Kube World Runtime TargetController CliBuild Cli.

(** ** Commands and flags, as they are declared *)

Inductive pflagValue :=
  | PString (s : string)
  | PBool (b : bool)
  | PDuration (d : duration)
  | PStrings (l : list string).

Record pflag := mkPflag {
  pf_Name : string;
  pf_Shorthand : string;
  pf_Default : pflagValue;
  pf_Required : bool
}.

Definition StringVar (name : string) (value : string) : pflag := mkPflag name "" (PString value) false.
Definition StringVarP (name short : string) (value : string) : pflag := mkPflag name short (PString value) false.
Definition BoolVar (name : string) (value : bool) : pflag := mkPflag name "" (PBool value) false.
Definition DurationVar (name : string) (value : duration) : pflag := mkPflag name "" (PDuration value) false.
Definition StringSliceVar (name : string) : pflag := mkPflag name "" (PStrings []) false.
Definition MarkFlagRequired (f : pflag) : pflag := mkPflag f.(pf_Name) f.(pf_Shorthand) f.(pf_Default) true.

(** The values of the flags by their names. *)
Abbreviation pflagValues := (string -> pflagValue).
Definition pString (v : pflagValues) (name : string) : string := match v name with PString s => s | _ => "" end.
Definition pBool (v : pflagValues) (name : string) : bool := match v name with PBool b => b | _ => false end.
Definition pDuration (v : pflagValues) (name : string) : duration := match v name with PDuration d => d | _ => 0 end.
Definition pStrings (v : pflagValues) (name : string) : list string := match v name with PStrings l => l | _ => [] end.

(** What [RunE] does once it has a client: a command, or a panic when an argument
    is not there. *)
Abbreviation runE := (pflagValues -> list string -> option command).

(** [cobra.Command]: the name is the first word of [Use]; [Args] is a number for
    [ExactArgs] and absent otherwise. *)
Inductive cobraCommand := mkCommand {
  cc_Name : string;
  cc_Aliases : list string;
  cc_Args : option nat;
  cc_Flags : list pflag;
  cc_PersistentFlags : list pflag;
  cc_RunE : option runE;
  cc_Commands : list cobraCommand
}.

(** ** The commands *)

(** A command about one object, which is its argument. *)
Definition namedCommand (name : string) (flags : list pflag) (run : pflagValues -> string -> command) : cobraCommand :=
  mkCommand name [] (Some 1%nat) flags [] (Some (fun v args => n ← args !! 0%nat; Some (run v n))) [].

Definition listingCommand (run : command) : cobraCommand :=
  mkCommand "list" ["ls"] None [] [] (Some (fun _ _ => Some run)) [].

Definition createFlags : list pflag :=
  [DurationVar "ttl" (8 * Hour); DurationVar "max-ttl" 0; DurationVar "idle-ttl" 0;
   StringVar "policy" ""; StringVar "owner" ""; StringVar "team" "";
   StringVar "cpu-request" ""; StringVar "memory-request" ""; StringVar "cpu-limit" ""; StringVar "memory-limit" "";
   BoolVar "renewable" true; BoolVar "default-deny" false;
   StringVar "generate-name" "preview-"; StringVar "namespace-name" "";
   BoolVar "wait" true; DurationVar "timeout" (2 * Minute);
   StringSliceVar "warning"; StringVar "cluster-ref" ""; StringSliceVar "selector"].

(** The variables the flags of [create] are bound to. *)
Definition createOptionsOf (v : pflagValues) : createOptions :=
  mkCreateOptions (pDuration v "ttl") (pDuration v "max-ttl") (pDuration v "idle-ttl")
    (pString v "policy") (pString v "owner") (pString v "team")
    (pString v "cpu-request") (pString v "memory-request") (pString v "cpu-limit") (pString v "memory-limit")
    (pBool v "renewable") (pBool v "default-deny") (pString v "generate-name") (pString v "namespace-name")
    (pBool v "wait") (pDuration v "timeout") (pStrings v "warning") (pString v "cluster-ref") (pStrings v "selector").

Definition newCreateCommand : cobraCommand :=
  namedCommand "create" createFlags (fun v name => CmdCreate name (createOptionsOf v)).
Definition newListCommand : cobraCommand := listingCommand CmdList.
Definition newGetCommand : cobraCommand := namedCommand "get" [] (fun _ => CmdGet).
Definition newExtendCommand : cobraCommand :=
  namedCommand "extend" [MarkFlagRequired (DurationVar "for" 0)] (fun v name => CmdExtend name (pDuration v "for")).
Definition newTouchCommand : cobraCommand := namedCommand "touch" [] (fun _ => CmdTouch).
Definition newExpireCommand : cobraCommand := namedCommand "expire" [] (fun _ => CmdExpire).
Definition newClusterListCommand : cobraCommand := listingCommand CmdClusterList.
Definition newClusterGetCommand : cobraCommand := namedCommand "get" [] (fun _ => CmdClusterGet).
Definition newClusterDisableCommand : cobraCommand := namedCommand "disable" [] (fun _ => CmdClusterDisable).
Definition newClusterDrainCommand : cobraCommand := namedCommand "drain" [] (fun _ => CmdClusterDrain).

Definition newClusterCommand : cobraCommand :=
  mkCommand "cluster" [] None [] [] None
    [newClusterListCommand; newClusterGetCommand; newClusterDisableCommand; newClusterDrainCommand].

(** [kubeconfigEnv] is the variable KUBECONFIG. *)
Definition NewRootCommand (kubeconfigEnv : string) : cobraCommand :=
  mkCommand "kubectl-kubelease" [] None []
    [StringVar "kubeconfig" kubeconfigEnv; StringVar "context" ""; StringVarP "output" "o" ""] None
    [newCreateCommand; newListCommand; newGetCommand; newClusterCommand; newExtendCommand; newTouchCommand;
     newExpireCommand].

(** [GlobalFlags] *)
Record GlobalFlags := mkGlobalFlags { gf_Kubeconfig : string; gf_Context : string; gf_Output : string }.

Definition globalFlagsOf (v : pflagValues) : GlobalFlags :=
  mkGlobalFlags (pString v "kubeconfig") (pString v "context") (pString v "output").

(** ** Cobra and clientcmd *)

Inductive cobraOutcome :=
  | CobraHelp
  | CobraError (err : error)
  | CobraRun (c : cobraCommand) (values : pflagValues) (args : list string).

Class CobraAPI := { Execute : cobraCommand -> list string -> cobraOutcome }.

(** A command by its name or an alias. *)
Definition called (name : string) (c : cobraCommand) : Prop := name ∈ c.(cc_Name) :: c.(cc_Aliases).

(** The commands below a command, and how they are reached by words. *)
Inductive leadsTo : cobraCommand -> list string -> cobraCommand -> Prop :=
  | leads_here c : leadsTo c [] c
  | leads_down c d name path e :
      d ∈ c.(cc_Commands) -> called name d -> leadsTo d path e -> leadsTo c (name :: path) e.

(** Siblings are told apart by their names and aliases. *)
Definition commandNames (c : cobraCommand) : list string := c.(cc_Name) :: c.(cc_Aliases).
Definition unambiguous (root : cobraCommand) : Prop :=
  forall path c, leadsTo root path c -> NoDup (concat (commandNames <$> c.(cc_Commands))).

(** The flags with their defaults, those of the commands on the way included. *)
Definition defaultValues (flags : list pflag) : pflagValues :=
  fun name => match find_first (fun f => String.eqb f.(pf_Name) name) flags with
              | Some f => f.(pf_Default)
              | None => PString ""
              end.

Definition plainWord (s : string) : bool := negb (is_empty s) && negb (HasPrefix s "-").

(** "Execute ... run through the command tree finding appropriate matches for
    commands and then corresponding flags"; "ExactArgs returns an error if there are
    not exactly n args"; flags that are not given keep their defaults. *)
Class CobraLaws `{CobraAPI} := {
  Execute_chosen : forall root args c v a, Execute root args = CobraRun c v a ->
    (exists path, leadsTo root path c) /\ is_Some c.(cc_RunE) /\
    (forall n, c.(cc_Args) = Some n -> length a = n);
  Execute_plain : forall root path c a, unambiguous root -> leadsTo root path c -> is_Some c.(cc_RunE) -> c.(cc_Commands) = [] ->
    forallb plainWord (path ++ a) = true -> forallb (fun f => negb f.(pf_Required)) c.(cc_Flags) = true ->
    (forall n, c.(cc_Args) = Some n -> length a = n) ->
    exists v, Execute root (path ++ a) = CobraRun c v a /\
      forall f, f ∈ c.(cc_Flags) ++ root.(cc_PersistentFlags) ->
        v f.(pf_Name) = defaultValues (c.(cc_Flags) ++ root.(cc_PersistentFlags)) f.(pf_Name)
}.

(** Loading the kubeconfig and building the client: the path and the context that
    are set, or the usual rules, and the error. *)
Class KubeconfigAPI := {
  ClientConfig : option string -> option string -> option error;
  ClientNew : option error
}.

Definition nonEmpty (s : string) : option string := if is_empty s then None else Some s.

Definition newClient `{KubeconfigAPI} (gf : GlobalFlags) : option error :=
  match ClientConfig (nonEmpty gf.(gf_Kubeconfig)) (nonEmpty gf.(gf_Context)) with
  | Some err => Some (ErrorWrap "load kubeconfig" err)
  | None => ClientNew
  end.

(** ** The process *)

Section Process.
Context `{QuantityParser} `{RetryAPI} `{ConditionsAPI} `{Serializer} `{CobraAPI} `{KubeconfigAPI}.

(** [cli.NewRootCommand().Execute()] and the exit code; [fuel] bounds the polls of
    [create --wait]. *)
Definition cliMain (fuel : nat) (kubeconfigEnv : string) (args : list string) : prog kube exit :=
  match Execute (NewRootCommand kubeconfigEnv) args with
  | CobraHelp => Ret ExitOK
  | CobraError err => Ret (ExitError err)
  | CobraRun c v a =>
      match c.(cc_RunE) with
      | None => Ret ExitOK
      | Some run =>
          let gf := globalFlagsOf v in
          match newClient gf with
          | Some err => Ret (ExitError err)
          | None => match run v a with Some cmd => runCommand fuel gf.(gf_Output) cmd | None => Ret ExitPanic end
          end
      end
  end.

(** ** What it does *)

(** With the arguments it accepts a command never asks for one that is not there. *)
Definition total (c : cobraCommand) : Prop :=
  forall run v a, c.(cc_RunE) = Some run -> (forall n, c.(cc_Args) = Some n -> length a = n) -> is_Some (run v a).

Lemma total_named name flags run : total (namedCommand name flags run).
Proof. intros f v a [= <-] Ha. specialize (Ha _ eq_refl). destruct a as [|x a]; [done|]. by eexists. Qed.

Lemma total_listing run : total (listingCommand run).
Proof. intros f v a [= <-] _. by eexists. Qed.

Lemma leadsTo_inv c path e :
  leadsTo c path e -> e = c \/ exists d path', d ∈ c.(cc_Commands) /\ leadsTo d path' e.
Proof. intros Hl. destruct Hl as [c|c d name path e Hd _ Hl]; [by left|right]. by exists d, path. Qed.

Lemma root_total env path c : leadsTo (NewRootCommand env) path c -> total c.
Proof.
  assert (Hleaf : forall d p e, leadsTo d p e -> d.(cc_Commands) = [] -> total d -> total e).
  { intros d p e [->|(d' & p' & Hd & _)]%leadsTo_inv Hc Ht; [done|]. rewrite Hc in Hd. by apply not_elem_of_nil in Hd. }
  intros [->|(d & p & Hd & Hl)]%leadsTo_inv; [by intros ?|].
  change (cc_Commands (NewRootCommand env)) with [newCreateCommand; newListCommand; newGetCommand; newClusterCommand;
    newExtendCommand; newTouchCommand; newExpireCommand] in Hd.
  repeat (apply elem_of_cons in Hd as [->|Hd]); [..|by apply not_elem_of_nil in Hd];
    try (apply (Hleaf _ _ _ Hl eq_refl); apply total_named || apply total_listing).
  apply leadsTo_inv in Hl as [->|(d & p' & Hd' & Hl)]; [by intros ?|].
  change (cc_Commands newClusterCommand) with [newClusterListCommand; newClusterGetCommand; newClusterDisableCommand;
    newClusterDrainCommand] in Hd'.
  repeat (apply elem_of_cons in Hd' as [->|Hd']); [..|by apply not_elem_of_nil in Hd'];
    apply (Hleaf _ _ _ Hl eq_refl); apply total_named || apply total_listing.
Qed.

Lemma root_unambiguous env : unambiguous (NewRootCommand env).
Proof.
  intros path c. intros [->|(d & p & Hd & Hl)]%leadsTo_inv; [by apply (bool_decide_unpack _); vm_compute|].
  assert (Hleaf : forall d p e, leadsTo d p e -> d.(cc_Commands) = [] -> NoDup (concat (commandNames <$> e.(cc_Commands)))).
  { intros d' p' e [->|(d2 & p2 & Hd2 & _)]%leadsTo_inv Hc; rewrite Hc in *; [constructor|by apply not_elem_of_nil in Hd2]. }
  change (cc_Commands (NewRootCommand env)) with [newCreateCommand; newListCommand; newGetCommand; newClusterCommand;
    newExtendCommand; newTouchCommand; newExpireCommand] in Hd.
  repeat (apply elem_of_cons in Hd as [->|Hd]); [..|by apply not_elem_of_nil in Hd]; try apply (Hleaf _ _ _ Hl eq_refl).
  apply leadsTo_inv in Hl as [->|(d & p' & Hd' & Hl)]; [by apply (bool_decide_unpack _); vm_compute|].
  change (cc_Commands newClusterCommand) with [newClusterListCommand; newClusterGetCommand; newClusterDisableCommand;
    newClusterDrainCommand] in Hd'.
  repeat (apply elem_of_cons in Hd' as [->|Hd']); [..|by apply not_elem_of_nil in Hd']; apply (Hleaf _ _ _ Hl eq_refl).
Qed.

Context `{!CobraLaws}.

(** The words of the commands that take no required flag, and what they mean. *)
Inductive wordsFor : list string -> list string -> command -> Prop :=
  | w_create name : wordsFor ["create"] [name] (CmdCreate name defaultCreateOptions)
  | w_list w extra : w ∈ ["list"; "ls"] -> wordsFor [w] extra CmdList
  | w_get name : wordsFor ["get"] [name] (CmdGet name)
  | w_touch name : wordsFor ["touch"] [name] (CmdTouch name)
  | w_expire name : wordsFor ["expire"] [name] (CmdExpire name)
  | w_clusters w extra : w ∈ ["list"; "ls"] -> wordsFor ["cluster"; w] extra CmdClusterList
  | w_cluster name : wordsFor ["cluster"; "get"] [name] (CmdClusterGet name)
  | w_disable name : wordsFor ["cluster"; "disable"] [name] (CmdClusterDisable name)
  | w_drain name : wordsFor ["cluster"; "drain"] [name] (CmdClusterDrain name).

(** The command of the tree behind the words: its own command line decides it. *)
Record behind (root : cobraCommand) (path a : list string) (cmd : command) (c : cobraCommand) : Prop := {
  bh_path : leadsTo root path c;
  bh_leaf : c.(cc_Commands) = [];
  bh_free : forallb (fun f => negb f.(pf_Required)) c.(cc_Flags) = true;
  bh_args : forall n, c.(cc_Args) = Some n -> length a = n;
  bh_output : defaultValues (c.(cc_Flags) ++ root.(cc_PersistentFlags)) "output" = PString "";
  bh_run : exists run, c.(cc_RunE) = Some run /\
    forall v, (forall f, f ∈ c.(cc_Flags) ++ root.(cc_PersistentFlags) ->
      v f.(pf_Name) = defaultValues (c.(cc_Flags) ++ root.(cc_PersistentFlags)) f.(pf_Name)) -> run v a = Some cmd
}.

Lemma createOptionsOf_defaults env (v : pflagValues) :
  (forall f, f ∈ createFlags ++ (NewRootCommand env).(cc_PersistentFlags) ->
     v f.(pf_Name) = defaultValues (createFlags ++ (NewRootCommand env).(cc_PersistentFlags)) f.(pf_Name)) ->
  createOptionsOf v = defaultCreateOptions.
Proof.
  intros Hv. set (fs := createFlags ++ _) in *.
  assert (Hf : Forall (fun f => v f.(pf_Name) = defaultValues fs f.(pf_Name)) createFlags).
  { apply Forall_forall. intros f Hf. apply Hv. apply elem_of_app. by left. }
  unfold createFlags in Hf. rewrite !Forall_cons in Hf. destruct_and! Hf.
  unfold createOptionsOf, pString, pBool, pDuration, pStrings.
  repeat match goal with He : v _ = _ |- _ => cbn in He; rewrite He; clear He end. done.
Qed.

Lemma leads_one root d name : d ∈ root.(cc_Commands) -> called name d -> leadsTo root [name] d.
Proof. intros Hd Hn. eapply leads_down; [done|done|constructor]. Qed.

(** A member of the tree, by its place. *)
Ltac in_tree := repeat (first [apply list_elem_of_here | apply list_elem_of_further]).

Lemma behind_named env path flags name run a (c := namedCommand name flags run) :
  leadsTo (NewRootCommand env) path c -> forallb (fun f => negb f.(pf_Required)) flags = true ->
  defaultValues (flags ++ (NewRootCommand env).(cc_PersistentFlags)) "output" = PString "" ->
  forall cmd, (forall v, (forall f, f ∈ flags ++ (NewRootCommand env).(cc_PersistentFlags) ->
     v f.(pf_Name) = defaultValues (flags ++ (NewRootCommand env).(cc_PersistentFlags)) f.(pf_Name)) -> run v a = cmd) ->
  behind (NewRootCommand env) path [a] cmd c.
Proof.
  intros Hl Hf Ho cmd Hrun. constructor; try done; [by intros n [= <-]|]. eexists. split; [done|].
  intros v Hv. cbn. by rewrite (Hrun v Hv).
Qed.

Lemma behind_listing env path cmd a :
  leadsTo (NewRootCommand env) path (listingCommand cmd) ->
  behind (NewRootCommand env) path a cmd (listingCommand cmd).
Proof. intros Hl. constructor; try done. eexists. by split. Qed.

Lemma leads_cluster env d name :
  d ∈ newClusterCommand.(cc_Commands) -> called name d -> leadsTo (NewRootCommand env) ["cluster"; name] d.
Proof. intros Hd Hn. apply (leads_down _ newClusterCommand); [cbn; in_tree|by left|by apply leads_one]. Qed.

Lemma called_listing w cmd : w ∈ ["list"; "ls"] -> called w (listingCommand cmd).
Proof. done. Qed.

Lemma words_behind env path a cmd : wordsFor path a cmd -> exists c, behind (NewRootCommand env) path a cmd c.
Proof.
  intros Hw. destruct Hw as [name|w extra Hw|name|name|name|w extra Hw|name|name|name]; eexists.
  - apply (behind_named env _ createFlags "create"); [|done|done|].
    + apply leads_one; [cbn; in_tree|by left].
    + intros v Hv. cbv beta. by rewrite (createOptionsOf_defaults env).
  - apply behind_listing. apply leads_one; [cbn; in_tree|by apply called_listing].
  - apply (behind_named env _ [] "get"); [apply leads_one; [cbn; in_tree|by left]|done|done|done].
  - apply (behind_named env _ [] "touch"); [apply leads_one; [cbn; in_tree|by left]|done|done|done].
  - apply (behind_named env _ [] "expire"); [apply leads_one; [cbn; in_tree|by left]|done|done|done].
  - apply behind_listing. apply leads_cluster; [cbn; in_tree|by apply called_listing].
  - apply (behind_named env _ [] "get"); [apply leads_cluster; [cbn; in_tree|by left]|done|done|done].
  - apply (behind_named env _ [] "disable"); [apply leads_cluster; [cbn; in_tree|by left]|done|done|done].
  - apply (behind_named env _ [] "drain"); [apply leads_cluster; [cbn; in_tree|by left]|done|done|done].
Qed.

(** Claim C23.  The command line of the client.  Whatever cobra makes of the
    arguments, no command asks for an argument that is not there, and nothing is
    called on the cluster when the kubeconfig cannot be loaded or no client built.
    The words create, get, touch, expire and cluster get, disable and drain with a
    name, and list or ls, alone or after cluster, run that command on that name, a
    plain create with the documented defaults, in the format for humans. *)
Theorem cli_command_line (fuel : nat) (env : string) (args : list string) :
  (forall c v a run, Execute (NewRootCommand env) args = CobraRun c v a -> c.(cc_RunE) = Some run ->
     (exists cmd, run v a = Some cmd) /\
     (newClient (globalFlagsOf v) <> None -> exists err, cliMain fuel env args = Ret (ExitError err))) /\
  (forall path a cmd, wordsFor path a cmd -> forallb plainWord (path ++ a) = true -> (forall p x, ClientConfig p x = None) ->
     ClientNew = None -> cliMain fuel env (path ++ a) = runCommand fuel "" cmd).
Proof.
  split.
  - intros c v a run Hc Hrun. destruct (Execute_chosen _ _ _ _ _ Hc) as ([path Hl] & _ & Ha). split.
    + apply (root_total env path c Hl run v a Hrun Ha).
    + intros Hn. unfold cliMain. rewrite Hc, Hrun. cbv zeta. destruct (newClient _) as [err|]; [by exists err|done].
  - intros path a cmd Hw Hplain Hcfg Hnew. destruct (words_behind env path a cmd Hw) as (c & [Hl Hleaf Hfree Hargs Hout (run & Hrun & Hcmd)]).
    destruct (Execute_plain _ path c a (root_unambiguous env) Hl ltac:(by eexists) Hleaf Hplain Hfree Hargs) as (v & Hex & Hv).
    unfold cliMain. rewrite Hex, Hrun. cbv zeta. unfold newClient. rewrite Hcfg, Hnew, (Hcmd v Hv).
    assert (Ho : v "output" = PString "").
    { rewrite <- Hout. apply (Hv (StringVarP "output" "o" "")). apply elem_of_app. right. cbn. in_tree. }
    unfold globalFlagsOf, pString. cbn. by rewrite Ho.
Qed.

End Process.

(** ** A concrete cobra *)

Section Demo.

(** Words down the tree, and no flags. *)
Fixpoint walk (root c : cobraCommand) (words : list string) : cobraOutcome :=
  let stop :=
    if negb (forallb plainWord words) then CobraError (ErrorString "flags are not read here")
    else match c.(cc_RunE), c.(cc_Args) with
         | None, _ => if bool_decide (words = []) then CobraHelp else CobraError (ErrorString "unknown command")
         | Some _, Some n =>
             if bool_decide (length words = n) then CobraRun c (defaultValues (c.(cc_Flags) ++ root.(cc_PersistentFlags))) words
             else CobraError (ErrorString "wrong number of arguments")
         | Some _, None => CobraRun c (defaultValues (c.(cc_Flags) ++ root.(cc_PersistentFlags))) words
         end in
  match words with
  | [] => stop
  | w :: ws =>
      match find_first (fun d => bool_decide (w ∈ commandNames d)) c.(cc_Commands) with
      | Some d => walk root d ws
      | None => stop
      end
  end.

Definition wordsOnly : CobraAPI := {| Execute root args := walk root root args |}.

Lemma walk_chosen root c words d v a :
  walk root c words = CobraRun d v a ->
  (exists path, leadsTo c path d) /\ is_Some d.(cc_RunE) /\ (forall n, d.(cc_Args) = Some n -> length a = n).
Proof.
  assert (Hstop : forall c words, (if negb (forallb plainWord words) then CobraError (ErrorString "flags are not read here")
    else match c.(cc_RunE), c.(cc_Args) with
         | None, _ => if bool_decide (words = []) then CobraHelp else CobraError (ErrorString "unknown command")
         | Some _, Some n =>
             if bool_decide (length words = n) then CobraRun c (defaultValues (c.(cc_Flags) ++ root.(cc_PersistentFlags))) words
             else CobraError (ErrorString "wrong number of arguments")
         | Some _, None => CobraRun c (defaultValues (c.(cc_Flags) ++ root.(cc_PersistentFlags))) words
         end) = CobraRun d v a ->
    (exists path, leadsTo c path d) /\ is_Some d.(cc_RunE) /\ (forall n, d.(cc_Args) = Some n -> length a = n)).
  { intros c' ws. destruct (negb _); [done|]. destruct (cc_RunE c') eqn:Hr; [|by case_bool_decide].
    destruct (cc_Args c') as [n|] eqn:Hn; [case_bool_decide; [|done]|]; intros [= <- <- <-];
      (split; [exists []; constructor|split; [by rewrite Hr|]]); rewrite Hn; [by intros m [= <-]|done]. }
  revert c. induction words as [|w ws IH]; intros c; cbn -[forallb]; [apply Hstop|].
  destruct (find_first _ _) as [e|] eqn:He; [|apply Hstop].
  intros Hw. destruct (IH e Hw) as ([path Hp] & Hr & Hn). apply find_first_Some in He as [Hin Hw'].
  apply bool_decide_eq_true in Hw'. split; [|done]. exists (w :: path). by eapply leads_down.
Qed.

Lemma find_called (cs : list cobraCommand) d w :
  NoDup (concat (commandNames <$> cs)) -> d ∈ cs -> w ∈ commandNames d ->
  find_first (fun d => bool_decide (w ∈ commandNames d)) cs = Some d.
Proof.
  induction cs as [|c cs IH]; [by intros _ ?%not_elem_of_nil|]. intros Hnd Hd Hw. rewrite fmap_cons in Hnd. cbn [concat] in Hnd.
  apply NoDup_app in Hnd as (_ & Hdis & Hnd).
  apply elem_of_cons in Hd as [->|Hd]; cbn [find_first].
  - by rewrite bool_decide_eq_true_2.
  - rewrite bool_decide_eq_false_2; [by apply IH|]. intros Hc. apply (Hdis w Hc).
    apply list_elem_of_In, in_concat. exists (commandNames d). split; [|by apply list_elem_of_In].
    apply list_elem_of_In, list_elem_of_fmap. by exists d.
Qed.

Lemma walk_plain root c path d a :
  (forall p e, leadsTo c p e -> NoDup (concat (commandNames <$> e.(cc_Commands)))) -> leadsTo c path d ->
  is_Some d.(cc_RunE) -> d.(cc_Commands) = [] -> forallb plainWord a = true ->
  (forall n, d.(cc_Args) = Some n -> length a = n) ->
  walk root c (path ++ a) = CobraRun d (defaultValues (d.(cc_Flags) ++ root.(cc_PersistentFlags))) a.
Proof.
  intros Hu Hl [run Hr] Hleaf Ha Hn. induction Hl as [c|c d name path e Hd Hcall Hl IH].
  - destruct a as [|x a]; cbn [app walk]; rewrite ?Hleaf; cbn [find_first]; rewrite ?Ha; cbn [negb]; rewrite Hr;
      (destruct (cc_Args c) as [n|]; [|done]); rewrite bool_decide_eq_true_2 by (by apply Hn); done.
  - cbn [app walk]. rewrite (find_called _ d name); [|apply (Hu []); constructor|done|done].
    apply IH; [|done..]. intros p e' He. apply (Hu (name :: p)). by eapply leads_down.
Qed.

Lemma wordsOnly_laws : @CobraLaws wordsOnly.
Proof.
  split; cbn.
  - intros root args c v a Hw. by apply (walk_chosen root root args c v a).
  - intros root path c a Hu Hl Hr Hleaf Hplain Hfree Hn. rewrite forallb_app in Hplain.
    apply andb_true_iff in Hplain as [_ Ha]. eexists. split; [by apply walk_plain|done].
Qed.

#[local] Existing Instance milliQuantity.
#[local] Existing Instance listConditions.
#[local] Existing Instance fourAttempts.
#[local] Instance anyQuantity : QuantityParser := {| MustParse _ := None |}.
#[local] Instance noOutput : Serializer := {| encodeJSON _ _ := ([], None); encodeYAML _ _ := ([], None) |}.

Definition inCluster : KubeconfigAPI := {| ClientConfig _ _ := None; ClientNew := None |}.

Example unknown_words :
  map (fun args => match @Execute wordsOnly (NewRootCommand "") args with
    | CobraRun c _ a => (c.(cc_Name), a) | CobraHelp => ("help", []) | CobraError _ => ("error", []) end)
    [["touch"]; ["touch"; "a"; "b"]; ["cluster"; "ls"]; ["cluster"]; ["bogus"]; ["ls"; "x"]]
  = [("error", []); ("error", []); ("list", []); ("help", []); ("error", []); ("list", ["x"])].
Proof. vm_compute. reflexivity. Qed.

(** [kubectl kubelease cluster drain edge] *)
Lemma cli_command_line_witness :
  @cliMain _ anyQuantity fourAttempts listConditions noOutput wordsOnly inCluster 0 "" ["cluster"; "drain"; "edge"]
    = runCommand 0 "" (CmdClusterDrain "edge").
Proof.
  apply (proj2 (@cli_command_line _ anyQuantity fourAttempts listConditions noOutput wordsOnly inCluster wordsOnly_laws 0 "" [])
    ["cluster"; "drain"] ["edge"]).
  - constructor.
  - reflexivity.
  - intros p x. reflexivity.
  - reflexivity.
Defined.

End Demo.
